(* ===== verification/_CoqProject ===== *)
-Q . S2P
Prelude.v
External.v
Entry.v
Samples.v
Balancer.v
Resolver.v
PathLib.v
StateTable.v
Messages.v
Codec.v
Registry.v
Typing.v
Agreement.v
Gateway.v
Auth.v
Request.v
Routing.v
Lifecycle.v
Metrics.v
Proxy.v
Queue.v
Workers.v
Fifo.v
Streams.v
Bus.v
Transport.v
Listeners.v
Session.v
Answers.v
Client.v
Closing.v
Events.v
Fleet.v
Push.v
Options.v
Keepalive.v
Rpc.v
Trace.v
Echo.v
Room.v
Generator.v
Node.v
