(* ===== verification/Prelude.v ===== *)
(** * Nodehub: a verification development

    Nodehub is a framework of game and chat back ends. Clients hold one connection to a
    _gateway_; the gateway forwards their requests as gRPC calls to _service nodes_,
    which it finds through etcd, and sends them replies, multicasts and errors. This
    library models the program of [src/] file by file and proves what makes each part,
    and the parts together, correct. Definitions keep the names of the source.

    ** Parts and files

    - [Prelude]: machine integers, errors, [result] and [outcome] (a Go call that
      returns, panics or blocks), stable sorting, step relations, tactics and hints.
    - [External]: classes for the code outside the repository: ULIDs, the iteration
      order of Go maps, [net/netip] and [net/url], xxhash. Laws state documented
      behaviour. [Samples] holds concrete instances, by which the witnesses compute.
    - [Entry] (cluster/entry.go): the entry of a node and its validation.
    - [Balancer] (cluster/balancer.go): the load-balancing policies, and the registry
      of policies as the class [BalancerSpec], which [Resolver] relies on.
    - [Resolver] (cluster/resolver.go): nodes, services, balancers and connections.
    - [PathLib]: [path.Clean] and [path.Join] of the standard library.
    - [StateTable] (component/gateway/state.go): the routes of stateful services, with
      the inner maps in a heap since they are shared by pointer.
    - [Messages] (proto/nh): the messages and their helpers; the class [ProtoMessage]
      is what is used of the protobuf runtime, [ProtoLaws] its round trip.
    - [Codec] (internal/codec/message.go): frames over a byte stream that arrives in
      arbitrary pieces, message buffers reused through a pool.
    - [Registry] (cluster/registry.go, event.go): the cluster as a process follows it in
      etcd. The answers of the etcd client are arguments, what is written a result.
      [Typing]: what registries hold is well formed. [Agreement]: the processes of a
      cluster, each with its registry and resolver, compared.
    - [Gateway] (component/gateway/proxy.go, grpc.go): the session hub and all that acts
      on a gateway from outside a connection. Sessions live in a heap: the program
      shares them by pointer.
    - [Request] (proxy.go): [getUpstream] and [handleRequest], a request by itself.
      [Routing]: any number of calls of [getUpstream] at once, each access to the routing
      table and the registry a step.
    - [Lifecycle] (proxy.go): [handleSession], [onConnect], [onDisconnect] and the
      clean-up timers, as interleaved steps on the shared state. [Proxy] (proxy.go,
      tcp.go): the goroutines around them, from [Start] to [Stop].
    - [Workers]: the goroutine that deals items out to one worker per stream, as steps;
      the kind of item, the capacity of a worker's channel and the time until an unused
      worker is dismissed are parameters. [Streams] ([handleRequestStream] of proxy.go:
      ten requests, one minute) and [Bus] (multicast/bus.go: a hundred messages, five
      minutes) are its two instances. [Fifo]: what they promise, a queue for each stream,
      and that the workers implement it.
    - [Queue] (internal/mq): the channels made of subscriptions to NATS and Redis, which
      deliver in order but can lose messages.
    - [Transport] (component/gateway/tcp.go, websocket.go, quic.go): the sessions behind
      the interface of [Gateway], what they receive and send, the choice of streams.
      [Listeners]: the servers, the goroutines of a QUIC session, and the end of sessions.
      [Keepalive] (proxy.go): the goroutine that closes silent connections, in time, next
      to the steps of [Lifecycle].
    - [Session] (proxy.go): the loop of [handleSession] between a transport, the pool and
      the workers. [Answers]: it and what its requests do, next to all else that acts on
      the gateway.
    - [Client] (component/gateway/client/client.go): calls, the receive loop and [Close].
      [Push]: its connections, the goroutines that read, and the subscriptions to a hot
      observable, which get what comes while they last. [Closing]:
      all its goroutines next to [Close].
    - [Events] (event/bus.go, events.go): publication and subscription of events.
      [Fleet]: several gateways, each a state of [Lifecycle], and the log of events
      through which they tell each other of users who connect.
    - [Metrics] (internal/metrics, logger, [logRequest] of proxy.go): the calls made to
      the metrics library, in order, and the log line of a request. [Trace]
      (component/rpc/interceptors.go): the line that the service writes of it.
    - [Options] (options.go, [NewProxy]), [Rpc] (component/rpc), [Node] (node.go,
      node_service.go, metrics/server.go).
    - [Generator] (cmd/protoc-gen-go-nodehub): the tables of reply codes and types made
      from proto files.
    - [Auth] (example/echo/gateway/main.go and example/chat/gateway/main.go: the
      initializers that let users in), [Room] (example/chat: a service that multicasts)
      and [Echo] (example/echo/rpc: a service that is called) show the framework in use.

    ** How they interact

    A node completes its entry from its components ([Node], [Rpc]) and puts it into etcd
    ([Registry]); every other process applies the change to its registry and resolver
    ([Registry], [Resolver]), which rebuilds the balancers ([Balancer]). A client's
    connection becomes a session of the hub ([Lifecycle], [Gateway]); each frame
    ([Codec], [Transport]) is a request, handled at once or through the worker of its
    stream ([Session], [Streams]); handling it picks the node from the request, the
    routing table or the balancer ([Request], [StateTable], [Resolver]), calls the service
    with metadata the client cannot forge, and answers ([Request], [Messages]). The client matches the answer
    to the call by the ID of the request ([Client]). Services reach users by multicasts
    ([Bus], [Gateway]); gateways tell each other of connected users by events ([Events],
    [Gateway]).

    The interfaces between the files are the records and lemmas named after the
    component's promise: [BalancerSpec] between policies and resolver, [resolver_inv]
    between resolver and registry, [registry_ok] and [follows] between the registry and
    its clients, [ProtoLaws], [EntryJSON] and [GRPCDial] towards code outside.

    ** What the theorems show

    - _Cluster state._ The registry is right about every key at the version it keeps,
      whatever the order in which events and snapshots arrive, and a snapshot makes it
      converge ([registry_follows_history], [resync_converges], [resync_after_restore]);
      processes that have seen the same entries hand out the same nodes
      ([processes_agree]), but may keep different descriptions of a service
      ([descriptions_can_differ]);
      the resolver's derived maps always are what a fresh computation from its nodes
      yields ([resolver_up_to_date]); only nodes in state "ok" that offer a service are
      handed out ([allocation_safe], [NewBalancer_picks_a_node]); a node that goes down
      loses its connections and traffic ([offline_node_disconnected],
      [down_node_unreachable]). The places where this fails are theorems too
      ([restored_node_missed], [apply_panics_iff], [watch_gives_up]).
      What registries know and hand out is well formed if nodes write their entries with
      [Put] ([cluster_well_typed]).
    - _Policies_: functional characterisations, machine overflow included.
    - _Requests_: the answer in every case ([handleRequest_answer]); requests of a user
      stick to a node once one of them has made the route, whatever comes between the steps
      ([sticky_routing]), but first requests at once need not agree on one
      ([first_requests_race]); what is forwarded ([forwarded_call], [service_sees_caller]) and
      the escape from a service's path ([method_escapes]); replies survive the way from
      handler to client, with the tables generated for a service
      ([generated_reply_roundtrip]), frames the byte stream
      ([frames_roundtrip], [ReadMessage_total]).
    - _Connections_: invariants of the interleaved steps ([hub_tracks_connections],
      [one_session_per_user]) and the races they do not exclude
      ([duplicate_sessions_race], [stale_cleanup_runs], [reconnect_can_hang],
      [stream_overtaken]). Across gateways a user is left with one session once the
      events are handled ([one_session_across_gateways]), which can be the older one or
      none at all ([late_announcement_disconnects], [duplicate_users_race]).
      Only who was authorised gets past the echo gateway's initializer
      ([authorized_only]); that of the chat gateway tells the users of one gateway apart
      ([chat_users_distinct]), not those of two ([chat_users_collide]).
    - _Metrics_: the gauge of sessions is the number connected less those who were when
      metrics began to be collected ([session_gauge]); a request is counted and logged
      once it ends ([request_recorded]), in the gateway and in the service under one
      transaction ([request_traced]), but there never as a failure
      ([failures_logged_as_successes]).
    - _Nodes_: the order of start and stop ([Serve_order]), the entry
      ([registered_services], [node_service_listed]), changes of state
      ([ChangeState_atomic]).
    - _Order._ Requests and multicasts of a stream are handled one at a time and in
      order, all of them in the end, multicasts those that the queue does not lose
      ([requests_in_order], [multicast_fifo]), as long as no worker is dismissed at work ([stream_overtaken] is what happens then); the workers
      implement a queue per stream ([workers_refine_fifo], [fifo_in_order]), and replies to
      the requests of a stream are sent in their order, whatever else the gateway does
      ([answers_in_order]): that is the order of the calls of [Send], which the
      streams of a QUIC connection need not keep on the wire. Queues keep the order of
      publication, and lose nothing but what is lost on the way to the program
      ([nats_in_order], [redis_in_order]). Requests to a service
      stay in order over the streams of a QUIC connection ([quic_service_order]); replies
      need not, since the stream of a service moves as streams come and go
      ([quic_Pick_moves]).
    - _End to end._ What is written to a connection is what is received
      ([tcp_roundtrip]); a call returns the reply to its own request
      ([call_gets_its_reply]), which is what the service answered ([call_end_to_end]),
      unless the reply is faster than the registration of the call ([early_reply_lost]);
      an event reaches the handlers of its type with its content ([event_delivered]),
      a push the callbacks that are subscribed to its service and code when it comes
      ([pushes_reach_subscribers]); what a member says in a room reaches every member
      connected ([news_reach_members]), and what a client sends to the echo service comes
      back to it if the call of gRPC succeeds ([echo_comes_back]).
    - _Time._ A session that is silent for the keepalive interval is closed by the scan
      after the next tick ([silent_session_closed]), no other is closed by it
      ([heard_session_kept]); a connection whose initializer waits is not found by it
      ([waiting_never_closed]).
    - _Shutdown._ After [Stop] the goroutines of all connections end in a bounded number
      of steps without waiting for clients, but for sessions that another of the same user
      has displaced, connections whose initializer has not returned
      ([initializer_outlives_Stop]) and those blocked at a timer ([Stop_drains]), and each handles one more request at most
      ([Stop_last_request]). Sessions can be closed any number of times
      ([Close_idempotent]). The goroutines of a client end in a bounded number of steps
      after [Close] ([Close_ends_goroutines]); it can panic ([Close_can_panic]), and the
      loop of a QUIC client can wait for ever ([quic_loop_leaks]).

    ** Bounds, recursion, numbers

    Loops over data are structural, readers recurse on the bytes or pieces given,
    [watch_loop] on the sequence of watch sessions, and processes that run forever are
    step relations or take their schedule as an argument, so theorems about them hold for
    runs of every length. Only [Transport] uses fuel, for loops that skip heartbeats: one
    more than the number of bytes still to come is enough ([recv_loop_total]), since each
    message consumes at least its four bytes of length. Go's [int] is 64 bits; integers
    are [Z] with [wrap_s] and [wrap_u] where the program can overflow (weights, counters,
    hashes, retries). Constants are the source's: frames of four bytes of length, at most
    [MaxMessageSize] bytes, a pool of 1024-byte buffers, ten queued requests per stream,
    five minutes until the routes of a user are forgotten. Clock readings and random
    numbers are arguments of the steps that use them.

    ** What is not modelled

    Sockets and TLS, signals, log lines other than that of a request (no result depends
    on them), the generated code, protobuf's and JSON's encodings, etcd, NATS, Redis and
    Prometheus clients, gRPC, HTTP and protogen themselves (classes or arguments), and
    the rest of the examples: their [main] functions read flags, dial etcd and NATS and
    start nodes, and their clients call the library and print what they get. The files
    [*.pb.go] are written by protoc and the plugins; of them only the tables that
    [Generator] describes are used.
    The Go memory model is taken to be sequentially consistent, and a step is one operation
    on shared state: of a map, a channel, an atomic or a lock. Operations of the routing
    table and of the resolver are one step each, although the readers of the resolver hold
    no lock and the connection of a node that leaves is closed after it is released.
    [Request], [Metrics] and [Answers] take the search for an upstream as one step; what
    comes between its accesses is in [Routing]. *)

From Stdlib Require Export Ascii.
From stdpp Require Export base tactics numbers list gmap sets strings sorting.
From Stdlib Require Export ZArith Lia.

#[export] Set Default Goal Selector "!".

Declare Scope go_scope.
Delimit Scope go_scope with go.

(** ** Machine integers

    Go's [int] is 64 bits wide on every platform the program targets. *)

Definition wrap_u (w z : Z) : Z := z `mod` 2 ^ w.
Definition wrap_s (w z : Z) : Z := (z + 2 ^ (w - 1)) `mod` 2 ^ w - 2 ^ (w - 1).

Definition in_int64 (z : Z) : Prop := (- 2 ^ 63 <= z < 2 ^ 63)%Z.
Definition in_int32 (z : Z) : Prop := (- 2 ^ 31 <= z < 2 ^ 31)%Z.

(** Go's [%] truncates towards zero: the result has the sign of the dividend. *)
Notation "a %ᵍ b" := (Z.rem a b) (at level 40, left associativity) : go_scope.

Lemma wrap_s_small w z :
  (0 < w)%Z -> (- 2 ^ (w - 1) <= z < 2 ^ (w - 1))%Z -> wrap_s w z = z.
Proof.
  intros Hw Hz. unfold wrap_s.
  assert (2 ^ w = 2 * 2 ^ (w - 1))%Z as Hp.
  { rewrite <- Z.pow_succ_r by lia. f_equal. lia. }
  rewrite Z.mod_small; lia.
Qed.

Lemma wrap_s_int64 z : in_int64 z -> wrap_s 64 z = z.
Proof. intros Hz. apply wrap_s_small; [lia|]. exact Hz. Qed.

Lemma wrap_s_range w z :
  (0 < w)%Z -> (- 2 ^ (w - 1) <= wrap_s w z < 2 ^ (w - 1))%Z.
Proof.
  intros Hw. unfold wrap_s.
  assert (2 ^ w = 2 * 2 ^ (w - 1))%Z as Hp.
  { rewrite <- Z.pow_succ_r by lia. f_equal. lia. }
  pose proof (Z.mod_pos_bound (z + 2 ^ (w - 1)) (2 ^ w)) as Hb.
  assert (0 < 2 ^ (w - 1))%Z by (apply Z.pow_pos_nonneg; lia). lia.
Qed.

Lemma wrap_u_small w z : (0 <= z < 2 ^ w)%Z -> wrap_u w z = z.
Proof. intros Hz. unfold wrap_u. by apply Z.mod_small. Qed.

Lemma rem_nonneg_range a n :
  (0 <= a)%Z -> (0 < n)%Z -> (0 <= Z.rem a n < n)%Z.
Proof. intros Ha Hn. apply Z.rem_bound_pos; lia. Qed.

(** ** Errors

    The error values the program creates, tests and returns. A formatted error
    keeps its format and its arguments; the text itself is never computed,
    since no branch of the program depends on it. *)

Inductive sentinel :=
  | ErrNodeNotFoundOrDown
  | ErrNoNodeAvailable
  | io_EOF
  | io_ErrUnexpectedEOF
  | net_ErrClosed
  | context_Canceled
  | context_DeadlineExceeded.

#[export] Instance sentinel_eq_dec : EqDecision sentinel.
Proof. solve_decision. Defined.

(** The gRPC status codes the program names. *)
Inductive code :=
  | codes_OK
  | codes_Unknown
  | codes_InvalidArgument
  | codes_DeadlineExceeded
  | codes_PermissionDenied
  | codes_Aborted
  | codes_Unimplemented
  | codes_other (n : Z).

#[export] Instance code_eq_dec : EqDecision code.
Proof. solve_decision. Defined.

(** [ErrorsNew t] is [errors.New(t)]; [Errorf f args w] is [fmt.Errorf(f, args...)],
    where [w] is the argument of [%w] if the format has one; [StatusErrorf] is
    [status.Error] and [status.Errorf]; [EForeign] is an error some code outside
    the repository produced. *)
Inductive gerror :=
  | ESentinel (s : sentinel)
  | ErrorsNew (text : string)
  | Errorf (format : string) (args : list earg) (wrapped : option gerror)
  | StatusErrorf (c : code) (format : string) (args : list earg)
  | EForeign (tag : string)
with earg :=
  | AErr (e : gerror)
  | AStr (s : string)
  | AInt (z : Z).

Coercion ESentinel : sentinel >-> gerror.

(** [errors.Is(err, target)] for a sentinel target: the chain of [%w] is searched. *)
Fixpoint errors_Is (err : gerror) (target : sentinel) : bool :=
  match err with
  | ESentinel s => bool_decide (s = target)
  | Errorf _ _ (Some e) => errors_Is e target
  | _ => false
  end.

(** ** Results and outcomes

    [result] is a Go pair [(value, error)] of which the caller uses one side;
    [outcome] adds what a goroutine can do instead of returning: panic, or
    block forever. *)

Inductive result (A : Type) :=
  | Ok (a : A)
  | Err (e : gerror).
Arguments Ok {_} a.
Arguments Err {_} e.

Inductive outcome (A : Type) :=
  | Ret (a : A)
  | Panic
  | Blocked.
Arguments Ret {_} a.
Arguments Panic {_}.
Arguments Blocked {_}.

Definition result_bind {A B} (m : result A) (f : A -> result B) : result B :=
  match m with Ok a => f a | Err e => Err e end.
Definition outcome_bind {A B} (m : outcome A) (f : A -> outcome B) : outcome B :=
  match m with Ret a => f a | Panic => Panic | Blocked => Blocked end.

Notation "'let?' x ':=' m 'in' k" := (result_bind m (fun x => k))
  (at level 10, x pattern, m at level 100, k at level 200) : go_scope.
Notation "'let!' x ':=' m 'in' k" := (outcome_bind m (fun x => k))
  (at level 10, x pattern, m at level 100, k at level 200) : go_scope.

Definition is_Ok {A} (r : result A) : bool :=
  match r with Ok _ => true | Err _ => false end.

(** [close] of a channel, given whether it is closed already. *)
Definition close_chan (closed : bool) : outcome bool := if closed then Panic else Ret true.

Definition is_Ret {A} (o : outcome A) : bool :=
  match o with Ret _ => true | _ => false end.
Definition outcome_get {A} (d : A) (o : outcome A) : A :=
  match o with Ret a => a | _ => d end.

Lemma outcome_get_Ret {A} (d : A) o : is_Ret o = true -> o = Ret (outcome_get d o).
Proof. by destruct o. Qed.

Lemma outcome_bind_Ret {A B} (m : outcome A) (f : A -> outcome B) b :
  outcome_bind m f = Ret b -> exists a, m = Ret a /\ f a = Ret b.
Proof. destruct m; simpl; intros; try discriminate. eauto. Qed.

Lemma result_bind_Ok {A B} (m : result A) (f : A -> result B) b :
  result_bind m f = Ok b -> exists a, m = Ok a /\ f a = Ok b.
Proof. destruct m; simpl; intros; try discriminate. eauto. Qed.

(** Indexing a slice: out of range, a negative index included, panics. *)
Definition slice_index {A} (l : list A) (i : Z) : outcome A :=
  if (i <? 0)%Z then Panic
  else match l !! Z.to_nat i with Some a => Ret a | None => Panic end.

Lemma slice_index_in {A} (l : list A) i :
  (0 <= i < Z.of_nat (length l))%Z -> exists a, slice_index l i = Ret a /\ a ∈ l.
Proof.
  intros Hi. unfold slice_index.
  destruct (Z.ltb_spec i 0) as [|_]; [lia|].
  destruct (l !! Z.to_nat i) as [a|] eqn:Ha.
  - exists a. split; [done|]. by eapply list_elem_of_lookup_2.
  - apply lookup_ge_None in Ha. lia.
Qed.

Lemma slice_index_elem {A} (l : list A) i a : slice_index l i = Ret a -> a ∈ l.
Proof.
  unfold slice_index. destruct (i <? 0)%Z; [done|].
  destruct (l !! Z.to_nat i) as [b|] eqn:Hb; [|done].
  intros [= ->]. by eapply list_elem_of_lookup_2.
Qed.

Lemma slice_index_neg {A} (l : list A) i : (i < 0)%Z -> slice_index l i = Panic.
Proof. intros Hi. unfold slice_index. destruct (Z.ltb_spec i 0); [done|lia]. Qed.

(** [rand.Intn(n)]: [seed] is the generator's output, so that every value of the
    range is drawn for some seed and no other value is. It panics if [n <= 0]. *)
Definition rand_Intn (seed n : Z) : outcome Z :=
  if (n <=? 0)%Z then Panic else Ret (seed `mod` n)%Z.

Lemma rand_Intn_range seed n :
  (0 < n)%Z -> exists r, rand_Intn seed n = Ret r /\ (0 <= r < n)%Z.
Proof.
  intros Hn. unfold rand_Intn. destruct (Z.leb_spec n 0); [lia|].
  eexists. split; [done|]. by apply Z.mod_pos_bound.
Qed.

Lemma rand_Intn_any n r : (0 <= r < n)%Z -> rand_Intn r n = Ret r.
Proof.
  intros Hr. unfold rand_Intn. destruct (Z.leb_spec n 0); [lia|].
  by rewrite Z.mod_small.
Qed.

(** [sort.Slice(l, less)]. The order of elements that [less] does not separate is
    not specified by Go; the lemmas below that determine the result require that
    [less] separates distinct elements of [l]. *)
Definition sort_rel {A} (less : A -> A -> bool) (x y : A) : Prop := less y x = false.
#[export] Instance sort_rel_dec {A} (less : A -> A -> bool) : RelDecision (sort_rel less).
Proof. intros x y. unfold sort_rel. apply _. Defined.

Definition sort_Slice {A} (less : A -> A -> bool) (l : list A) : list A :=
  merge_sort (sort_rel less) l.

Lemma sort_Slice_perm {A} (less : A -> A -> bool) l : sort_Slice less l ≡ₚ l.
Proof. apply merge_sort_Permutation. Qed.

Lemma sort_Slice_sorted {A} (less : A -> A -> bool) `{!Transitive (sort_rel less)}
  `{!Total (sort_rel less)} l : StronglySorted (sort_rel less) (sort_Slice less l).
Proof. by apply (StronglySorted_merge_sort _). Qed.

Lemma sort_Slice_unique {A} (less : A -> A -> bool) `{!Transitive (sort_rel less)}
  `{!Total (sort_rel less)} (l1 l2 : list A) :
  (forall x y, x ∈ l1 -> y ∈ l1 -> sort_rel less x y -> sort_rel less y x -> x = y) ->
  l1 ≡ₚ l2 -> sort_Slice less l1 = sort_Slice less l2.
Proof.
  intros Hsep Hp. apply (StronglySorted_unique_strong (sort_rel less)).
  - intros x1 x2 H1 H2. apply Hsep.
    + by rewrite sort_Slice_perm in H1.
    + rewrite sort_Slice_perm in H2. by rewrite Hp.
  - by apply sort_Slice_sorted.
  - by apply sort_Slice_sorted.
  - by rewrite !sort_Slice_perm.
Qed.

Lemma NoDup_fmap_elem_inj {A B} (f : A -> B) l x y :
  NoDup (f <$> l) -> x ∈ l -> y ∈ l -> f x = f y -> x = y.
Proof.
  induction l as [|z l IH]; simpl; [set_solver|].
  intros [Hz Hnd]%NoDup_cons [->|Hx]%elem_of_cons [->|Hy]%elem_of_cons E; auto.
  - destruct Hz. rewrite E. by apply list_elem_of_fmap_2.
  - destruct Hz. rewrite <- E. by apply list_elem_of_fmap_2.
Qed.

(** Parts of lists, in order. *)
Lemma omap_sublist {A B} (f : A -> option B) (l k : list A) :
  l `sublist_of` k -> omap f l `sublist_of` omap f k.
Proof.
  induction 1 as [|x l k _ IH|x l k _ IH]; cbn [omap list_omap]; [done| |];
    destruct (f x); try done; by constructor.
Qed.

Lemma filter_sublist_of {A} (P : A -> Prop) `{forall x, Decision (P x)} (l k : list A) :
  l `sublist_of` k -> filter P l `sublist_of` filter P k.
Proof.
  induction 1 as [|x l k _ IH|x l k _ IH]; [done| |]; rewrite ?filter_cons;
    case_decide; try done; by constructor.
Qed.

Lemma filter_prefix {A} (P : A -> Prop) `{forall x, Decision (P x)} (l k : list A) :
  l `prefix_of` k -> filter P l `prefix_of` filter P k.
Proof. intros [r ->]. rewrite filter_app. by eexists. Qed.

Lemma prefix_sublist_of {A} (l k : list A) : l `prefix_of` k -> l `sublist_of` k.
Proof. intros [r ->]. by apply sublist_inserts_r. Qed.

Lemma omap_prefix {A B} (f : A -> option B) (l k : list A) :
  l `prefix_of` k -> omap f l `prefix_of` omap f k.
Proof. intros [r ->]. rewrite omap_app. by eexists. Qed.

(** ** Reachability of step relations *)

Section Reach.
Context {S E : Type} (step : S -> E -> S -> Prop).

Inductive steps : S -> list E -> S -> Prop :=
  | steps_nil s : steps s [] s
  | steps_cons s e s' es s'' : step s e s' -> steps s' es s'' -> steps s (e :: es) s''.

Lemma steps_invariant (I : S -> Prop) :
  (forall s e s', I s -> step s e s' -> I s') ->
  forall s es s', steps s es s' -> I s -> I s'.
Proof. intros Hstep s es s' Hs. induction Hs; eauto. Qed.

Lemma steps_app s1 es1 s2 es2 s3 :
  steps s1 es1 s2 -> steps s2 es2 s3 -> steps s1 (es1 ++ es2) s3.
Proof. induction 1; simpl; intros; [done|]. econstructor; eauto. Qed.
End Reach.

(** ** Automation *)

(** Case analysis on the innermost [match] or [if] of a hypothesis, closing the
    branches that compute to a contradiction. *)
Ltac case_in H :=
  match type of H with
  | context [match ?x with _ => _ end] =>
      lazymatch x with context [match _ with _ => _ end] => fail | _ => destruct x eqn:? end
  end; simplify_eq/=; try done.

Ltac inv_all H := repeat (case_in H).

Ltac case_goal :=
  match goal with
  | |- context [match ?x with _ => _ end] =>
      lazymatch x with context [match _ with _ => _ end] => fail | _ => destruct x eqn:? end
  end; simplify_eq/=; try done.

Create HintDb nodehub discriminated.
#[export] Hint Resolve sort_Slice_perm slice_index_elem : nodehub.
