(* ===== verification/External.v ===== *)
(** * External: the code outside the repository, as interfaces

    Each class collects what the program calls of one package that is not under
    [src/]: its operations are left abstract and its laws state documented
    behaviour. [Samples.v] holds concrete instances, which show that the laws can
    be met together and which the witnesses compute with. *)

From S2P Require Import Prelude.

(** ** [github.com/oklog/ulid/v2]

    A ULID is an array of bytes: comparable with [==] and usable as a map key. *)
Class ULID := {
  ulid : Type;
  ulid_eq_dec :: EqDecision ulid;
  ulid_countable :: Countable ulid;
  ulid_zero : ulid;
  ulid_Compare : ulid -> ulid -> comparison;
  ulid_Time : ulid -> Z;
  ulid_String : ulid -> string;
  ulid_Parse : string -> result ulid;
}.

(** A ULID is canonically written as letters and digits. *)
Definition path_element_char (c : Ascii.ascii) : bool :=
  negb (bool_decide (c = "/"%char)) && negb (bool_decide (c = "."%char)).

Fixpoint string_forallb (p : Ascii.ascii -> bool) (s : string) : bool :=
  match s with
  | EmptyString => true
  | String c s => p c && string_forallb p s
  end.

Class ULIDLaws `{U : ULID} : Prop := {
  ulid_compare_eq a b : ulid_Compare a b = Eq <-> a = b;
  ulid_compare_antisym a b : ulid_Compare b a = CompOpp (ulid_Compare a b);
  ulid_compare_trans a b c :
    ulid_Compare a b = Lt -> ulid_Compare b c = Lt -> ulid_Compare a c = Lt;
  ulid_time_zero : ulid_Time ulid_zero = 0%Z;
  ulid_parse_string a : ulid_Parse (ulid_String a) = Ok a;
  ulid_string_nonempty a : ulid_String a <> EmptyString;
  ulid_string_chars a : string_forallb path_element_char (ulid_String a) = true;
}.

Section ULIDOrder.
Context `{L : ULIDLaws}.

Definition ulid_lt (a b : ulid) : Prop := ulid_Compare a b = Lt.

Lemma ulid_compare_refl a : ulid_Compare a a = Eq.
Proof. by apply ulid_compare_eq. Qed.

Lemma ulid_string_inj a b : ulid_String a = ulid_String b -> a = b.
Proof.
  intros H. pose proof (ulid_parse_string a) as Ha.
  rewrite H, ulid_parse_string in Ha. by simplify_eq.
Qed.

Lemma ulid_compare_total a b : a = b \/ ulid_lt a b \/ ulid_lt b a.
Proof.
  unfold ulid_lt. destruct (ulid_Compare a b) eqn:Hc.
  - left. by apply ulid_compare_eq.
  - auto.
  - right. right. by rewrite ulid_compare_antisym, Hc.
Qed.

Lemma ulid_lt_irrefl a : ~ ulid_lt a a.
Proof. unfold ulid_lt. by rewrite ulid_compare_refl. Qed.

Lemma ulid_compare_gt a b : ulid_Compare a b = Gt <-> ulid_lt b a.
Proof.
  unfold ulid_lt. rewrite (ulid_compare_antisym a b).
  destruct (ulid_Compare a b); split; done.
Qed.

#[export] Instance ulid_lt_strict : StrictOrder ulid_lt.
Proof.
  split; [exact ulid_lt_irrefl|]. intros a b c. apply ulid_compare_trans.
Qed.
End ULIDOrder.

(** ** [github.com/joyparty/gokit]'s [MapOf.Range]

    [Range] visits every entry once, in an order that is not specified. *)
Class MapRange := {
  range_order : forall {A : Type}, list A -> list A;
  range_order_perm : forall {A : Type} (l : list A), range_order l ≡ₚ l;
}.

Section Range.
Context `{R : MapRange}.

Definition range_values {K V} `{Countable K} (m : gmap K V) : list V :=
  range_order (snd <$> map_to_list m).
Definition range_entries {K V} `{Countable K} (m : gmap K V) : list (K * V) :=
  range_order (map_to_list m).

Lemma elem_of_range_entries {K V} `{Countable K} (m : gmap K V) k v :
  (k, v) ∈ range_entries m <-> m !! k = Some v.
Proof. unfold range_entries. by rewrite range_order_perm, elem_of_map_to_list. Qed.

Lemma elem_of_range_values {K V} `{Countable K} (m : gmap K V) v :
  v ∈ range_values m <-> exists k, m !! k = Some v.
Proof.
  unfold range_values. rewrite range_order_perm, list_elem_of_fmap. split.
  - intros ([k w] & -> & Hk). exists k. by apply elem_of_map_to_list.
  - intros [k Hk]. exists (k, v). split; [done|]. by apply elem_of_map_to_list.
Qed.

Lemma range_values_insert {K V} `{Countable K} (m : gmap K V) k v :
  m !! k = None -> range_values (<[k := v]> m) ≡ₚ v :: range_values m.
Proof. intros Hk. unfold range_values. by rewrite !range_order_perm, map_to_list_insert. Qed.

Lemma NoDup_range_keys {K V} `{Countable K} (m : gmap K V) :
  NoDup (range_entries m).*1.
Proof. unfold range_entries. rewrite range_order_perm. apply NoDup_fst_map_to_list. Qed.
End Range.

(** ** [net/netip], [net/url]

    [netip_ParseAddrPort s] is the address bytes of [netip.ParseAddrPort(s)]'s
    address ([Addr().AsSlice()]): four for IPv4, sixteen for IPv6.
    [url_Hostname s] is [url.Parse(s)] followed by [Hostname()];
    [netip_unspecified s] is [netip.ParseAddr(s)] followed by
    [Unmap().IsUnspecified()], [None] if the address does not parse. *)
Class Net := {
  netip_ParseAddrPort : string -> result (list Z);
  url_Hostname : string -> result string;
  netip_unspecified : string -> option bool;
}.

Class NetLaws `{N : Net} : Prop := {
  netip_addr_bytes s bs :
    netip_ParseAddrPort s = Ok bs ->
    (length bs = 4 \/ length bs = 16) /\ Forall (fun b => 0 <= b < 256)%Z bs;
}.

(** ** [github.com/cespare/xxhash/v2] *)
Class XXHash := {
  xxhash_Sum64String : string -> Z;
}.

Class XXHashLaws `{X : XXHash} : Prop := {
  xxhash_uint64 s : (0 <= xxhash_Sum64String s < 2 ^ 64)%Z;
}.
