(* ===== verification/Entry.v ===== *)
(** * Entry: [cluster/entry.go]

    The service-discovery entry of a node and its validation. *)

From S2P Require Import Prelude External.

Local Open Scope string_scope.
Local Open Scope go_scope.

(** [type NodeState string]: any string is a value of the type. *)
Abbreviation NodeState := string (only parsing).

Definition NodeOK : NodeState := "ok".
Definition NodeLazy : NodeState := "lazy".
Definition NodeDown : NodeState := "down".

Definition AutoAllocate : string := "auto".
Definition ServerAllocate : string := "server".
Definition ClientAllocate : string := "client".

Record GRPCServiceDesc := {
  Desc_Name : string;
  Code : Z;
  Path : string;
  Public : bool;
  Balancer_policy : string;
  Weight : Z;
  Stateful : bool;
  Allocation : string;
}.

Record GRPCEntry := {
  Endpoint : string;
  Services : list GRPCServiceDesc;
}.

#[export] Instance GRPCServiceDesc_eq_dec : EqDecision GRPCServiceDesc.
Proof. solve_decision. Defined.
#[export] Instance GRPCEntry_eq_dec : EqDecision GRPCEntry.
Proof. solve_decision. Defined.

Section Entry.
Context `{U : ULID} `{N : Net}.

Record NodeEntry := {
  ID : ulid;
  Name : string;
  State : NodeState;
  Entrance : string;
  Metrics : string;
  GRPC : GRPCEntry;
  GitVersion : string;
}.

#[export] Instance NodeEntry_eq_dec : EqDecision NodeEntry.
Proof. solve_decision. Defined.

(** [GRPCServiceDesc.Validate] *)
Definition Desc_Validate (desc : GRPCServiceDesc) : result () :=
  if (Code desc =? 0)%Z then Err (ErrorsNew "code is empty")
  else if bool_decide (Path desc = "") then Err (ErrorsNew "path is empty")
  else if bool_decide (Balancer_policy desc = "") then Err (ErrorsNew "balancer is empty")
  else if Stateful desc then
    if bool_decide (Allocation desc ∈ [AutoAllocate; ServerAllocate; ClientAllocate])
    then Ok ()
    else if bool_decide (Allocation desc = "") then Err (ErrorsNew "allocation is empty")
    else Err (ErrorsNew "allocation is invalid")
  else Ok ().

(** The loop of [GRPCEntry.Validate]: the first error ends it. *)
Fixpoint validate_all (descs : list GRPCServiceDesc) : result () :=
  match descs with
  | [] => Ok ()
  | desc :: descs =>
      match Desc_Validate desc with
      | Err err => Err err
      | Ok _ => validate_all descs
      end
  end.

(** [GRPCEntry.Validate] *)
Definition GRPC_Validate (e : GRPCEntry) : result () :=
  if bool_decide (Services e = []) then Ok ()
  else if bool_decide (Endpoint e = "") then Err (ErrorsNew "grpc endpoint is empty")
  else validate_all (Services e).

(** The last part of [NodeEntry.Validate]: the gateway entrance. *)
Definition validate_entrance (entrance : string) : result () :=
  if bool_decide (entrance = "") then Ok ()
  else match url_Hostname entrance with
       | Err err => Err (Errorf "invalid entrance, %w" [] (Some err))
       | Ok host =>
           if bool_decide (host = "") then Err (ErrorsNew "entrance require hostname or ip")
           else match netip_unspecified host with
                | Some true => Err (ErrorsNew "entrance is an unspecified address")
                | _ => Ok ()
                end
       end.

(** [NodeEntry.Validate] *)
Definition Validate (e : NodeEntry) : result () :=
  if (ulid_Time (ID e) =? 0)%Z then Err (ErrorsNew "id is empty")
  else if bool_decide (Name e = "") then Err (ErrorsNew "name is empty")
  else if bool_decide (State e = "") then Err (ErrorsNew "state is empty")
  else match GRPC_Validate (GRPC e) with
       | Err err => Err err
       | Ok _ => validate_entrance (Entrance e)
       end.

(** ** What validation promises *)

Definition valid_desc (desc : GRPCServiceDesc) : Prop :=
  Code desc <> 0%Z /\ Path desc <> "" /\ Balancer_policy desc <> "" /\
  (Stateful desc = true ->
   Allocation desc ∈ [AutoAllocate; ServerAllocate; ClientAllocate]).

Definition valid_entry (e : NodeEntry) : Prop :=
  ulid_Time (ID e) <> 0%Z /\ Name e <> "" /\ State e <> "" /\
  (Services (GRPC e) = [] \/
   Endpoint (GRPC e) <> "" /\ Forall valid_desc (Services (GRPC e))) /\
  (Entrance e = "" \/
   exists host, url_Hostname (Entrance e) = Ok host /\ host <> "" /\
                netip_unspecified host <> Some true).

Lemma Desc_Validate_ok desc : Desc_Validate desc = Ok () <-> valid_desc desc.
Proof.
  unfold Desc_Validate, valid_desc. destruct (Z.eqb_spec (Code desc) 0).
  { split; [done|]. by intros (? & _). }
  repeat case_bool_decide; destruct (Stateful desc); naive_solver.
Qed.

Lemma validate_all_ok descs : validate_all descs = Ok () <-> Forall valid_desc descs.
Proof.
  induction descs as [|d descs IH]; simpl; [by rewrite Forall_nil|].
  rewrite Forall_cons, <- IH, <- Desc_Validate_ok.
  destruct (Desc_Validate d) as [[]|]; naive_solver.
Qed.

Lemma GRPC_Validate_ok e :
  GRPC_Validate e = Ok () <->
  Services e = [] \/ Endpoint e <> "" /\ Forall valid_desc (Services e).
Proof.
  unfold GRPC_Validate. repeat case_bool_decide; [naive_solver|naive_solver|].
  rewrite validate_all_ok. naive_solver.
Qed.

Lemma validate_entrance_ok s :
  validate_entrance s = Ok () <->
  s = "" \/ exists host, url_Hostname s = Ok host /\ host <> "" /\
                         netip_unspecified host <> Some true.
Proof.
  unfold validate_entrance. case_bool_decide; [naive_solver|].
  destruct (url_Hostname s) as [host|]; [|naive_solver].
  case_bool_decide; [naive_solver|].
  destruct (netip_unspecified host) as [[]|] eqn:?; naive_solver.
Qed.

Lemma Validate_cases e :
  Validate e = Ok () <->
  ulid_Time (ID e) <> 0%Z /\ Name e <> "" /\ State e <> "" /\ GRPC_Validate (GRPC e) = Ok () /\
  validate_entrance (Entrance e) = Ok ().
Proof.
  unfold Validate. destruct (Z.eqb_spec (ulid_Time (ID e)) 0); [naive_solver|].
  do 2 (case_bool_decide; [naive_solver|]).
  destruct (GRPC_Validate (GRPC e)) as [[]|]; naive_solver.
Qed.

Lemma Validate_sound e : Validate e = Ok () -> valid_entry e.
Proof. rewrite Validate_cases, GRPC_Validate_ok, validate_entrance_ok. done. Qed.

(** [NodeEntry.Validate] accepts an entry exactly if it is well formed: an ID
    with a timestamp, a name, a state; if it lists gRPC services an endpoint and
    for each service a code, a path, a balancer and, if stateful, one of the
    three allocation modes; and if it has an entrance, one with a host that is
    not an unspecified address. *)
Theorem Validate_iff_valid e : Validate e = Ok () <-> valid_entry e.
Proof. by rewrite Validate_cases, GRPC_Validate_ok, validate_entrance_ok. Qed.
End Entry.
