(* ===== verification/Samples.v ===== *)
(** * Samples: concrete instances of the external interfaces

    Used by the witnesses only: each shows that the laws of an interface of
    [External.v] can be met, and lets the definitions compute. *)

From stdpp Require Import pretty.
From S2P Require Import Prelude External Entry.

(** ULIDs as numbers below the 80-bit random part and above it the time, written
    in unary-free binary notation. *)
Fixpoint pos_string (p : positive) : string :=
  match p with
  | xH => "1"
  | xO p => String "0" (pos_string p)
  | xI p => String "I" (pos_string p)
  end.

Fixpoint string_pos (s : string) : option positive :=
  match s with
  | EmptyString => None
  | String "1" EmptyString => Some xH
  | String "0" s => xO <$> string_pos s
  | String "I" s => xI <$> string_pos s
  | _ => None
  end.

Definition sample_string (n : N) : string :=
  match n with N0 => "0" | Npos p => pos_string p end.

Definition sample_parse (s : string) : result N :=
  if bool_decide (s = "0"%string) then Ok 0%N
  else match string_pos s with
       | Some p => Ok (Npos p)
       | None => Err (EForeign "ulid: bad data size when unmarshaling")
       end.

#[export] Instance sample_ULID : ULID := {|
  ulid := N;
  ulid_zero := 0%N;
  ulid_Compare := N.compare;
  ulid_Time := fun a => Z.of_N (N.shiftr a 80);
  ulid_String := sample_string;
  ulid_Parse := sample_parse;
|}.

Lemma string_pos_string p : string_pos (pos_string p) = Some p.
Proof. induction p as [p IH|p IH|]; simpl; by rewrite ?IH. Qed.

Lemma pos_string_chars p : string_forallb path_element_char (pos_string p) = true.
Proof. induction p as [p IH|p IH|]; simpl; by rewrite ?IH. Qed.

Lemma pos_string_not_zero p : pos_string p <> "0"%string.
Proof. destruct p as [p|p|]; try done. simpl. intros [= H]. by destruct p. Qed.

#[export] Instance sample_ULIDLaws : @ULIDLaws sample_ULID.
Proof.
  split.
  - intros a b. apply N.compare_eq_iff.
  - intros a b. apply N.compare_antisym.
  - intros a b c. simpl. rewrite !N.compare_lt_iff. apply N.lt_trans.
  - done.
  - intros [|p]; [done|]. simpl. unfold sample_parse.
    rewrite bool_decide_false by apply pos_string_not_zero. by rewrite string_pos_string.
  - by intros [|[]].
  - intros [|p]; [done|]. apply pos_string_chars.
Qed.

(** [Range] in the order of the map's own enumeration. *)
#[export] Instance sample_MapRange : MapRange := {|
  range_order A l := l;
  range_order_perm A l := reflexivity l;
|}.

(** Addresses written as [n.n.n.n:p] are not parsed here: a few literals are. *)
#[export] Instance sample_Net : Net := {|
  netip_ParseAddrPort s :=
    if bool_decide (s = "127.0.0.1:8080"%string) then Ok [127; 0; 0; 1]%Z
    else if bool_decide (s = "192.168.0.1:1234"%string) then Ok [192; 168; 0; 1]%Z
    else if bool_decide (s = "[fe80::8000:0:0:1]:1234"%string)
         then Ok [254; 128; 0; 0; 0; 0; 0; 0; 128; 0; 0; 0; 0; 0; 0; 1]%Z
    else Err (EForeign "invalid address");
  url_Hostname s :=
    if bool_decide (s = "tcp://0.0.0.0:8222"%string) then Ok "0.0.0.0"%string
    else if bool_decide (s = "ws://127.0.0.1:9000/grpc"%string) then Ok "127.0.0.1"%string
    else Err (EForeign "parse");
  netip_unspecified s :=
    if bool_decide (s = "0.0.0.0"%string) then Some true
    else if bool_decide (s = "127.0.0.1"%string) then Some false else None;
|}.

#[export] Instance sample_NetLaws : @NetLaws sample_Net.
Proof.
  split. intros s bs. simpl. repeat case_bool_decide; intros; simplify_eq;
    (split; [auto|repeat constructor; lia]).
Qed.

(** A hash that spreads over the whole of [uint64]. *)
Fixpoint sample_hash (s : string) : Z :=
  match s with
  | EmptyString => 14695981039346656037
  | String c s => (sample_hash s * 1099511628211 + Z.of_nat (Ascii.nat_of_ascii c)) `mod` 2 ^ 64
  end%Z.

#[export] Instance sample_XXHash : XXHash := {| xxhash_Sum64String := sample_hash |}.

#[export] Instance sample_XXHashLaws : @XXHashLaws sample_XXHash.
Proof. split. intros [|c s]; simpl; [lia|]. by apply Z.mod_pos_bound. Qed.

(** ** Sample entries *)

Definition sample_desc (code : Z) (policy : string) : GRPCServiceDesc := {|
  Desc_Name := "helloworld.Greeter";
  Code := code;
  Path := "/helloworld.Greeter";
  Public := true;
  Balancer_policy := policy;
  Weight := 0;
  Stateful := false;
  Allocation := "";
|}.

Definition sample_id (n : N) : ulid := (2 ^ 80 + n)%N.

Definition sample_node (n : N) (state endpoint : string) (descs : list GRPCServiceDesc) : NodeEntry := {|
  ID := sample_id n;
  Name := "node";
  State := state;
  Entrance := "";
  Metrics := "";
  GRPC := {| Endpoint := endpoint; Services := descs |};
  GitVersion := "";
|}.
