(* ===== verification/Balancer.v ===== *)
(** * Balancer: [cluster/balancer.go]

    The load-balancing policies. A [Balancer] is a value of the sum of the
    implementations; [Pick] dispatches on it the way the interface does. *)

From S2P Require Import Prelude External Entry Samples.

Local Open Scope string_scope.
Local Open Scope go_scope.

Definition BalancerRandom : string := "random".
Definition BalancerRoundRobin : string := "roundRobin".
Definition BalancerIPHash : string := "ipHash".
Definition BalancerIDHash : string := "idHash".
Definition BalancerOldest : string := "oldest".
Definition BalancerNewest : string := "newest".

(** [strings.ToLower], on ASCII letters. *)
Definition ascii_lower (c : ascii) : ascii :=
  let n := nat_of_ascii c in
  if (65 <=? n)%nat && (n <=? 90)%nat then ascii_of_nat (n + 32) else c.
Fixpoint strings_ToLower (s : string) : string :=
  match s with
  | EmptyString => EmptyString
  | String c s => String (ascii_lower c) (strings_ToLower s)
  end.

(** The [Session] interface of the package. *)
Record Session := { Session_ID : string; RemoteAddr : string }.

(** [big.Int.SetBytes] is big-endian; [Int64] keeps the low 64 bits. *)
Definition big_SetBytes (bs : list Z) : Z :=
  foldl (fun acc b => acc * 256 + b)%Z 0%Z bs.
Definition big_Int64 (x : Z) : Z := wrap_s 64 x.

Section Balancer.
Context `{U : ULID} `{N : Net} `{X : XXHash}.

Record weightedNode := { entry : NodeEntry; weight : Z }.

(** [customBalancer] stands for the implementations an application registers. *)
Inductive Balancer :=
  | errorBalancer (err : gerror)
  | noBalancer (node : NodeEntry)
  | randomBalancer (nodes : list NodeEntry)
  | roundRobinBalancer (nodes : list weightedNode) (sum : Z)
  | ipHashBalancer (nodes : list NodeEntry)
  | idHashBalancer (nodes : list NodeEntry)
  | oldestBalancer (node : NodeEntry)
  | newestBalancer (node : NodeEntry)
  | customBalancer (pick : Session -> Z -> outcome (result ulid)).

Definition node_ID (m : outcome NodeEntry) : outcome (result ulid) :=
  let! node := m in Ret (Ok (ID node)).

Definition addrToint64 (remoteAddr : string) : result Z :=
  match netip_ParseAddrPort remoteAddr with
  | Err err => Err err
  | Ok bs => Ok (big_Int64 (big_SetBytes bs))
  end.

(** The loop of [roundRobinBalancer.Pick]. *)
Fixpoint pick_weighted (nodes : list weightedNode) (r : Z) : result ulid :=
  match nodes with
  | [] => Err ErrNoNodeAvailable
  | node :: nodes =>
      let r := wrap_s 64 (r - weight node)%Z in
      if (r <? 0)%Z then Ok (ID (entry node)) else pick_weighted nodes r
  end.

(** [Pick] of each implementation; [seed] is what the random generator yields. *)
Definition noBalancer_Pick (node : NodeEntry) : outcome (result ulid) := Ret (Ok (ID node)).
Definition errorBalancer_Pick (err : gerror) : outcome (result ulid) := Ret (Err err).
Definition oldestBalancer_Pick (node : NodeEntry) : outcome (result ulid) := Ret (Ok (ID node)).
Definition newestBalancer_Pick (node : NodeEntry) : outcome (result ulid) := Ret (Ok (ID node)).

Definition randomBalancer_Pick (nodes : list NodeEntry) (seed : Z) : outcome (result ulid) :=
  let! i := rand_Intn seed (Z.of_nat (length nodes)) in
  node_ID (slice_index nodes i).

Definition roundRobinBalancer_Pick (nodes : list weightedNode) (sum seed : Z)
  : outcome (result ulid) :=
  let! r := rand_Intn seed sum in
  Ret (pick_weighted nodes r).

Definition ipHashBalancer_Pick (nodes : list NodeEntry) (sess : Session)
  : outcome (result ulid) :=
  match addrToint64 (RemoteAddr sess) with
  | Err err => Ret (Err err)
  | Ok ipInt => node_ID (slice_index nodes (ipInt %ᵍ Z.of_nat (length nodes)))
  end.

Definition idHashBalancer_Pick (nodes : list NodeEntry) (sess : Session)
  : outcome (result ulid) :=
  let hash := xxhash_Sum64String (Session_ID sess) in
  node_ID (slice_index nodes (wrap_s 64 hash %ᵍ Z.of_nat (length nodes))).

Definition Pick (b : Balancer) (sess : Session) (seed : Z) : outcome (result ulid) :=
  match b with
  | errorBalancer err => errorBalancer_Pick err
  | noBalancer node => noBalancer_Pick node
  | randomBalancer nodes => randomBalancer_Pick nodes seed
  | roundRobinBalancer nodes sum => roundRobinBalancer_Pick nodes sum seed
  | ipHashBalancer nodes => ipHashBalancer_Pick nodes sess
  | idHashBalancer nodes => idHashBalancer_Pick nodes sess
  | oldestBalancer node => oldestBalancer_Pick node
  | newestBalancer node => newestBalancer_Pick node
  | customBalancer pick => pick sess seed
  end.

(** ** Factories

    A factory gets the slice of nodes and may reorder it in place: it returns the
    balancer and the slice's contents after the call. *)
Definition BalancerFactory : Type :=
  Z -> list NodeEntry -> outcome (Balancer * list NodeEntry).

Definition newRandomBalancer : BalancerFactory :=
  fun _ nodes => Ret (randomBalancer nodes, nodes).
Definition newIPHashBalancer : BalancerFactory :=
  fun _ nodes => Ret (ipHashBalancer nodes, nodes).
Definition newIDHashBalancer : BalancerFactory :=
  fun _ nodes => Ret (idHashBalancer nodes, nodes).

(** The weight a node has in a service, if it lists the service: at least 10. *)
Fixpoint service_weight (serviceCode : Z) (descs : list GRPCServiceDesc) : option Z :=
  match descs with
  | [] => None
  | desc :: descs =>
      if (Code desc =? serviceCode)%Z
      then Some (wrap_s 64 ((if (Weight desc <=? 0)%Z then 1 else Weight desc) * 10)%Z)
      else service_weight serviceCode descs
  end.

Fixpoint weigh_nodes (serviceCode : Z) (nodes : list NodeEntry) (sum : Z)
  : list weightedNode * Z :=
  match nodes with
  | [] => ([], sum)
  | node :: nodes =>
      match service_weight serviceCode (Services (GRPC node)) with
      | Some w =>
          let '(wnodes, total) := weigh_nodes serviceCode nodes (wrap_s 64 (sum + w)%Z) in
          ({| entry := node; weight := w |} :: wnodes, total)
      | None => weigh_nodes serviceCode nodes sum
      end
  end.

Definition newRoundRobinBalancer : BalancerFactory := fun serviceCode nodes =>
  let '(wnodes, sum) := weigh_nodes serviceCode nodes 0%Z in
  Ret (roundRobinBalancer wnodes sum, nodes).

Definition less_desc (x y : NodeEntry) : bool :=
  match ulid_Compare (ID x) (ID y) with Gt => true | _ => false end.
Definition less_asc (x y : NodeEntry) : bool :=
  match ulid_Compare (ID x) (ID y) with Lt => true | _ => false end.

(** [nodes[0]] of an empty slice panics. *)
Definition newOldestBalancer : BalancerFactory := fun _ nodes =>
  let nodes := sort_Slice less_asc nodes in
  let! node := slice_index nodes 0 in
  Ret (oldestBalancer node, nodes).
Definition newNewestBalancer : BalancerFactory := fun _ nodes =>
  let nodes := sort_Slice less_desc nodes in
  let! node := slice_index nodes 0 in
  Ret (newestBalancer node, nodes).

(** [registeredBalancer], with [RegisterBalancer] on it: a policy registered
    twice, whatever the case of its letters, panics. *)
Definition RegisterBalancer (policy : string) (factory : BalancerFactory)
  (registered : gmap string BalancerFactory) : outcome (gmap string BalancerFactory) :=
  let policy := strings_ToLower policy in
  match registered !! policy with
  | Some _ => Panic
  | None => Ret (<[policy := factory]> registered)
  end.

(** [init]: the six built-in policies. *)
Definition init_registered : outcome (gmap string BalancerFactory) :=
  let! r := RegisterBalancer BalancerRandom newRandomBalancer ∅ in
  let! r := RegisterBalancer BalancerRoundRobin newRoundRobinBalancer r in
  let! r := RegisterBalancer BalancerIPHash newIPHashBalancer r in
  let! r := RegisterBalancer BalancerIDHash newIDHashBalancer r in
  let! r := RegisterBalancer BalancerOldest newOldestBalancer r in
  RegisterBalancer BalancerNewest newNewestBalancer r.

(** The policy of the first description with the service's code. *)
Fixpoint service_policy (serviceCode : Z) (descs : list GRPCServiceDesc) : string :=
  match descs with
  | [] => ""
  | desc :: descs =>
      if (Code desc =? serviceCode)%Z then Balancer_policy desc
      else service_policy serviceCode descs
  end.

(** [NewBalancer]: the balancer, and the slice after the sorts. *)
Definition NewBalancer (registered : gmap string BalancerFactory)
  (serviceCode : Z) (nodes : list NodeEntry) : outcome (Balancer * list NodeEntry) :=
  match nodes with
  | [] => Ret (errorBalancer ErrNoNodeAvailable, nodes)
  | [node] => Ret (noBalancer node, nodes)
  | _ =>
      let nodes := sort_Slice less_desc nodes in
      let! newest := slice_index nodes 0 in
      let policy := service_policy serviceCode (Services (GRPC newest)) in
      match registered !! strings_ToLower policy with
      | Some factory => factory serviceCode nodes
      | None =>
          Ret (errorBalancer (Errorf "balancer %s not implemented" [AStr policy] None), nodes)
      end
  end.
End Balancer.

Arguments NewBalancer {_} _ _ _ : simpl never.

(** ** The sort by ID *)
Section Order.
Context `{L : ULIDLaws}.

Lemma less_desc_spec x y : less_desc x y = true <-> ulid_lt (ID y) (ID x).
Proof.
  unfold less_desc. rewrite <- ulid_compare_gt.
  by destruct (ulid_Compare (ID x) (ID y)).
Qed.

Lemma less_asc_spec x y : less_asc x y = true <-> ulid_lt (ID x) (ID y).
Proof. unfold less_asc, ulid_lt. by destruct (ulid_Compare (ID x) (ID y)). Qed.

Lemma sort_rel_desc x y : sort_rel less_desc x y <-> ID x = ID y \/ ulid_lt (ID y) (ID x).
Proof.
  unfold sort_rel. rewrite <- not_true_iff_false, less_desc_spec.
  destruct (ulid_compare_total (ID x) (ID y)) as [E|[H|H]].
  - rewrite E. pose proof (ulid_lt_irrefl (ID y)). naive_solver.
  - split; [done|]. intros [E|H'].
    + rewrite E in H. by apply ulid_lt_irrefl in H.
    + by destruct (ulid_lt_irrefl (ID x)); transitivity (ID y).
  - split; [auto|]. intros _ H'.
    by destruct (ulid_lt_irrefl (ID x)); transitivity (ID y).
Qed.

Lemma sort_rel_asc x y : sort_rel less_asc x y <-> ID x = ID y \/ ulid_lt (ID x) (ID y).
Proof.
  transitivity (sort_rel less_desc y x).
  - unfold sort_rel. by rewrite <- !not_true_iff_false, less_desc_spec, less_asc_spec.
  - rewrite sort_rel_desc. naive_solver.
Qed.

#[export] Instance sort_desc_trans : Transitive (sort_rel less_desc).
Proof.
  intros x y z. rewrite !sort_rel_desc. intros [E1|H1] [E2|H2].
  - left. congruence.
  - right. by rewrite E1.
  - right. by rewrite <- E2.
  - right. by transitivity (ID y).
Qed.
#[export] Instance sort_desc_total : Total (sort_rel less_desc).
Proof.
  intros x y. rewrite !sort_rel_desc.
  destruct (ulid_compare_total (ID x) (ID y)) as [|[]]; auto.
Qed.
#[export] Instance sort_asc_trans : Transitive (sort_rel less_asc).
Proof.
  intros x y z. rewrite !sort_rel_asc. intros [E1|H1] [E2|H2].
  - left. congruence.
  - right. by rewrite E1.
  - right. by rewrite <- E2.
  - right. by transitivity (ID y).
Qed.
#[export] Instance sort_asc_total : Total (sort_rel less_asc).
Proof.
  intros x y. rewrite !sort_rel_asc.
  destruct (ulid_compare_total (ID x) (ID y)) as [|[]]; auto.
Qed.
End Order.

(** ** The built-in policies *)
Section Builtin.
Context `{L : ULIDLaws} `{N : Net} `{X : XXHash}.

Definition builtin : gmap string BalancerFactory :=
  <["newest" := newNewestBalancer]> (<["oldest" := newOldestBalancer]>
  (<["idhash" := newIDHashBalancer]> (<["iphash" := newIPHashBalancer]>
  (<["roundrobin" := newRoundRobinBalancer]> (<["random" := newRandomBalancer]> ∅))))).

Lemma init_registered_builtin : init_registered = Ret builtin.
Proof. reflexivity. Qed.

Lemma builtin_cases policy f :
  builtin !! policy = Some f ->
  f = newRandomBalancer \/ f = newRoundRobinBalancer \/ f = newIPHashBalancer \/
  f = newIDHashBalancer \/ f = newOldestBalancer \/ f = newNewestBalancer.
Proof.
  unfold builtin. rewrite !lookup_insert_Some, lookup_empty. intuition congruence.
Qed.

Lemma slice_head (nodes : list NodeEntry) :
  nodes <> [] -> exists node, slice_index nodes 0 = Ret node /\ node ∈ nodes.
Proof.
  intros Hne. apply slice_index_in. destruct nodes; [done|]. simpl. lia.
Qed.

Lemma sort_Slice_nonempty {A} (less : A -> A -> bool) l : l <> [] -> sort_Slice less l <> [].
Proof.
  intros Hne Hs. pose proof (sort_Slice_perm less l) as Hp. rewrite Hs in Hp.
  by apply Permutation_nil_l in Hp.
Qed.

(** A factory that keeps its promise on [nodes]: it returns a balancer that picks
    among them and leaves the slice with the same elements. *)
Definition picks_among (f : BalancerFactory) (serviceCode : Z) (nodes : list NodeEntry) : Prop :=
  exists b nodes', f serviceCode nodes = Ret (b, nodes') /\ nodes' ≡ₚ nodes /\
    forall sess seed id, Pick b sess seed = Ret (Ok id) -> id ∈ ID <$> nodes.

Lemma node_ID_elem (nodes : list NodeEntry) i id :
  node_ID (slice_index nodes i) = Ret (Ok id) -> id ∈ ID <$> nodes.
Proof.
  unfold node_ID. destruct (slice_index nodes i) eqn:Hi; simpl; intros; simplify_eq.
  apply list_elem_of_fmap_2. by eapply slice_index_elem.
Qed.

Lemma pick_weighted_elem wnodes r id :
  pick_weighted wnodes r = Ok id -> exists w, w ∈ wnodes /\ ID (entry w) = id.
Proof.
  revert r. induction wnodes as [|w wnodes IH]; intros r; simpl; [done|].
  case_match.
  - intros [= <-]. exists w. split; [left|done].
  - intros (w' & ? & ?)%IH. exists w'. split; [by right|done].
Qed.

Lemma weigh_nodes_elem serviceCode nodes sum w :
  w ∈ (weigh_nodes serviceCode nodes sum).1 -> entry w ∈ nodes.
Proof.
  revert sum. induction nodes as [|n nodes IH]; intros sum; simpl; [set_solver|].
  destruct (service_weight _ _) as [wt|].
  - destruct (weigh_nodes serviceCode nodes _) as [wn tot] eqn:Hw. simpl.
    intros [->|Hin]%elem_of_cons; [by left|]. right.
    eapply IH. by rewrite Hw.
  - intros Hin. right. by eapply IH.
Qed.

Lemma builtin_picks_among policy f serviceCode nodes :
  builtin !! policy = Some f -> nodes <> [] -> picks_among f serviceCode nodes.
Proof.
  intros Hf Hne. unfold picks_among.
  apply builtin_cases in Hf as [->|[->|[->|[->|[->| ->]]]]].
  - eexists _, _. split; [done|]. split; [done|]. intros sess seed id.
    unfold Pick, randomBalancer_Pick. intros (i & _ & Hi)%outcome_bind_Ret. by eapply node_ID_elem.
  - unfold newRoundRobinBalancer.
    destruct (weigh_nodes serviceCode nodes 0) as [wn sum] eqn:Hw.
    eexists _, _. split; [done|]. split; [done|]. intros sess seed id.
    unfold Pick, roundRobinBalancer_Pick. intros (r & _ & [= Hr])%outcome_bind_Ret.
    apply pick_weighted_elem in Hr as (w & Hin & <-).
    apply list_elem_of_fmap_2. apply (weigh_nodes_elem serviceCode nodes 0). by rewrite Hw.
  - eexists _, _. split; [done|]. split; [done|]. intros sess seed id.
    unfold Pick, ipHashBalancer_Pick. destruct (addrToint64 _); [|done]. apply node_ID_elem.
  - eexists _, _. split; [done|]. split; [done|]. intros sess seed id. apply node_ID_elem.
  - unfold newOldestBalancer.
    destruct (slice_head (sort_Slice less_asc nodes)) as (node & -> & Hin);
      [by apply sort_Slice_nonempty|].
    eexists _, _. split; [done|]. split; [apply sort_Slice_perm|]. intros _ _ id [= <-].
    apply list_elem_of_fmap_2. by rewrite sort_Slice_perm in Hin.
  - unfold newNewestBalancer.
    destruct (slice_head (sort_Slice less_desc nodes)) as (node & -> & Hin);
      [by apply sort_Slice_nonempty|].
    eexists _, _. split; [done|]. split; [apply sort_Slice_perm|]. intros _ _ id [= <-].
    apply list_elem_of_fmap_2. by rewrite sort_Slice_perm in Hin.
Qed.

Lemma NewBalancer_picks_among serviceCode nodes :
  picks_among (NewBalancer builtin) serviceCode nodes.
Proof.
  unfold picks_among, NewBalancer. destruct nodes as [|n1 [|n2 nodes]].
  - eexists _, _. split; [done|]. split; [done|]. by intros.
  - eexists _, _. split; [done|]. split; [done|]. intros _ _ id [= <-]. set_solver.
  - set (l := n1 :: n2 :: nodes).
    pose proof (sort_Slice_perm less_desc l) as Hp.
    assert (sort_Slice less_desc l <> []) as Hne by by apply sort_Slice_nonempty.
    destruct (slice_head _ Hne) as (newest & -> & _). simpl.
    destruct (builtin !! _) as [f|] eqn:Hf.
    + destruct (builtin_picks_among _ _ serviceCode _ Hf Hne) as (b & nodes' & -> & Hp' & Hb).
      eexists _, _. split; [done|]. split; [by rewrite Hp', Hp|].
      intros sess seed id Hid. apply Hb in Hid. by rewrite Hp in Hid.
    + eexists _, _. split; [done|]. split; [done|]. by intros.
Qed.

(** ** Independence of the order of the nodes *)

Lemma sort_desc_perm (nodes1 nodes2 : list NodeEntry) :
  NoDup (ID <$> nodes1) -> nodes1 ≡ₚ nodes2 ->
  sort_Slice less_desc nodes1 = sort_Slice less_desc nodes2.
Proof.
  intros Hnd Hp. apply sort_Slice_unique; [apply _..| |done].
  intros x y Hx Hy. rewrite !sort_rel_desc. intros [E|Hlt] [E'|Hlt'].
  - by eapply (NoDup_fmap_elem_inj ID).
  - by eapply (NoDup_fmap_elem_inj ID).
  - by eapply (NoDup_fmap_elem_inj ID).
  - by destruct (ulid_lt_irrefl (ID x)); transitivity (ID y).
Qed.

Lemma NewBalancer_perm registered serviceCode nodes1 nodes2 :
  NoDup (ID <$> nodes1) -> nodes1 ≡ₚ nodes2 ->
  NewBalancer registered serviceCode nodes1 = NewBalancer registered serviceCode nodes2.
Proof.
  intros Hnd Hp. pose proof (Permutation_length Hp) as Hlen. unfold NewBalancer.
  destruct nodes1 as [|x1 [|y1 l1]], nodes2 as [|x2 [|y2 l2]]; try done.
  - by apply Permutation_singleton_inj in Hp as ->.
  - by rewrite (sort_desc_perm _ _ Hnd Hp).
Qed.

(** ** The extreme policies *)

Lemma sorted_head {A} (R : relation A) x l y : StronglySorted R (x :: l) -> y ∈ l -> R x y.
Proof. intros [_ HF]%StronglySorted_inv. rewrite Forall_forall in HF. auto. Qed.

Lemma sort_head_least (less : NodeEntry -> NodeEntry -> bool)
  `{!Transitive (sort_rel less)} `{!Total (sort_rel less)} nodes node other :
  slice_index (sort_Slice less nodes) 0 = Ret node -> other ∈ nodes ->
  node ∈ nodes /\ sort_rel less node other.
Proof.
  intros Hs Hin. pose proof (sort_Slice_sorted less nodes) as Hsort.
  pose proof (sort_Slice_perm less nodes) as Hp.
  destruct (sort_Slice less nodes) as [|x l]; [done|].
  unfold slice_index in Hs. simplify_eq/=.
  split; [rewrite <- Hp; by left|]. rewrite <- Hp in Hin.
  apply elem_of_cons in Hin as [->|Hin]; [|by eapply sorted_head].
  by destruct (total (sort_rel less) node node).
Qed.

Definition the_oldest (nodes : list NodeEntry) (id : ulid) : Prop :=
  id ∈ ID <$> nodes /\ forall n, n ∈ nodes -> id = ID n \/ ulid_lt id (ID n).
Definition the_newest (nodes : list NodeEntry) (id : ulid) : Prop :=
  id ∈ ID <$> nodes /\ forall n, n ∈ nodes -> id = ID n \/ ulid_lt (ID n) id.

Lemma newOldestBalancer_Pick serviceCode nodes sess seed :
  nodes <> [] -> exists b nodes' id, newOldestBalancer serviceCode nodes = Ret (b, nodes') /\
    Pick b sess seed = Ret (Ok id) /\ the_oldest nodes id.
Proof.
  intros Hne. unfold newOldestBalancer.
  destruct (slice_head (sort_Slice less_asc nodes)) as (node & Hnode & Hin);
    [by apply sort_Slice_nonempty|].
  rewrite Hnode. eexists _, _, _. split; [done|]. split; [done|]. split.
  - apply list_elem_of_fmap_2. by rewrite sort_Slice_perm in Hin.
  - intros n Hn. apply sort_rel_asc. by eapply (sort_head_least less_asc).
Qed.

Lemma newNewestBalancer_Pick serviceCode nodes sess seed :
  nodes <> [] -> exists b nodes' id, newNewestBalancer serviceCode nodes = Ret (b, nodes') /\
    Pick b sess seed = Ret (Ok id) /\ the_newest nodes id.
Proof.
  intros Hne. unfold newNewestBalancer.
  destruct (slice_head (sort_Slice less_desc nodes)) as (node & Hnode & Hin);
    [by apply sort_Slice_nonempty|].
  rewrite Hnode. eexists _, _, _. split; [done|]. split; [done|]. split.
  - apply list_elem_of_fmap_2. by rewrite sort_Slice_perm in Hin.
  - intros n Hn. apply sort_rel_desc. by eapply (sort_head_least less_desc).
Qed.

Lemma the_oldest_perm nodes nodes' id :
  nodes ≡ₚ nodes' -> the_oldest nodes id -> the_oldest nodes' id.
Proof. intros Hp [H1 H2]. split; [by rewrite <- Hp|]. intros n. rewrite <- Hp. auto. Qed.
Lemma the_newest_perm nodes nodes' id :
  nodes ≡ₚ nodes' -> the_newest nodes id -> the_newest nodes' id.
Proof. intros Hp [H1 H2]. split; [by rewrite <- Hp|]. intros n. rewrite <- Hp. auto. Qed.

(** The policy in force for two nodes or more: the newest node's. *)
Lemma NewBalancer_policy registered serviceCode nodes newest policy f :
  2 <= length nodes -> newest ∈ nodes -> NoDup (ID <$> nodes) ->
  the_newest nodes (ID newest) ->
  service_policy serviceCode (Services (GRPC newest)) = policy ->
  registered !! strings_ToLower policy = Some f ->
  NewBalancer registered serviceCode nodes = f serviceCode (sort_Slice less_desc nodes).
Proof.
  intros Hlen Hin Hnd [_ Hnew] Hpol Hf.
  destruct nodes as [|n1 [|n2 nodes]]; simpl in Hlen; [lia..|]. unfold NewBalancer.
  set (l := n1 :: n2 :: nodes) in *.
  destruct (slice_head (sort_Slice less_desc l)) as (node & Hnode & Hin').
  { by apply sort_Slice_nonempty. }
  rewrite Hnode. simpl. rewrite sort_Slice_perm in Hin'.
  destruct (sort_head_least less_desc l node newest Hnode Hin) as [_ Hrel].
  apply sort_rel_desc in Hrel.
  assert (ID node = ID newest) as E.
  { destruct Hrel as [|Hlt]; [done|]. destruct (Hnew node Hin') as [|Hlt']; [done|].
    by destruct (ulid_lt_irrefl (ID node)); transitivity (ID newest). }
  eapply (NoDup_fmap_elem_inj ID) in E as ->; [|done..]. by rewrite Hpol, Hf.
Qed.
End Builtin.

(** ** What the resolver relies on

    The resolver's theorems hold for every table of policies that keeps this
    promise, the built-in one and those extended with well-behaved policies. *)
Class BalancerSpec `{U : ULID} `{N : Net} `{X : XXHash}
    (registered : gmap string BalancerFactory) : Prop :=
  balancer_spec serviceCode nodes : picks_among (NewBalancer registered) serviceCode nodes.

#[export] Instance builtin_spec `{L : ULIDLaws} `{N : Net} `{X : XXHash} :
  BalancerSpec builtin.
Proof. intros serviceCode nodes. apply NewBalancer_picks_among. Qed.

(** ** Weighted choice *)
Local Open Scope list_scope.
Section Weighted.
Context `{L : ULIDLaws} `{N : Net} `{X : XXHash}.

(** The weight without the wrap-around of [int], and its sum over the nodes. *)
Fixpoint spec_weight (serviceCode : Z) (descs : list GRPCServiceDesc) : option Z :=
  match descs with
  | [] => None
  | desc :: descs =>
      if (Code desc =? serviceCode)%Z then Some (Z.max 1 (Weight desc) * 10)%Z
      else spec_weight serviceCode descs
  end.

Definition weighted (serviceCode : Z) (nodes : list NodeEntry) : list weightedNode :=
  omap (fun node => (fun w => {| entry := node; weight := w |})
                      <$> spec_weight serviceCode (Services (GRPC node))) nodes.

Definition sum_weight (wnodes : list weightedNode) : Z :=
  foldr (fun w acc => weight w + acc)%Z 0%Z wnodes.

Lemma spec_weight_pos serviceCode descs w :
  spec_weight serviceCode descs = Some w -> (10 <= w)%Z.
Proof.
  induction descs as [|d descs IH]; simpl; [done|]. case_match; [|done].
  intros [= <-]. lia.
Qed.

Lemma service_weight_spec serviceCode descs w :
  spec_weight serviceCode descs = Some w -> (w < 2 ^ 63)%Z ->
  service_weight serviceCode descs = Some w.
Proof.
  induction descs as [|d descs IH]; simpl; [done|]. case_match; [|done].
  intros [= <-] Hlt. f_equal.
  replace (if (Weight d <=? 0)%Z then 1%Z else Weight d) with (Z.max 1 (Weight d)).
  - apply wrap_s_int64. unfold in_int64. lia.
  - destruct (Z.leb_spec (Weight d) 0); lia.
Qed.

Lemma service_weight_None serviceCode descs :
  spec_weight serviceCode descs = None -> service_weight serviceCode descs = None.
Proof. induction descs as [|d descs IH]; simpl; [done|]. by case_match. Qed.

Lemma weighted_pos serviceCode nodes :
  Forall (fun w => 0 < weight w)%Z (weighted serviceCode nodes).
Proof.
  apply Forall_forall. intros w (node & _ & Hw)%list_elem_of_omap.
  destruct (spec_weight _ _) as [wt|] eqn:Hwt; simplify_eq/=.
  apply spec_weight_pos in Hwt. lia.
Qed.

Lemma sum_weight_nonneg wnodes :
  Forall (fun w => 0 < weight w)%Z wnodes -> (0 <= sum_weight wnodes)%Z.
Proof. induction 1; simpl; lia. Qed.

Lemma weigh_nodes_weighted serviceCode nodes sum :
  (0 <= sum)%Z -> (sum + sum_weight (weighted serviceCode nodes) < 2 ^ 63)%Z ->
  weigh_nodes serviceCode nodes sum =
    (weighted serviceCode nodes, sum + sum_weight (weighted serviceCode nodes))%Z.
Proof.
  revert sum. induction nodes as [|n nodes IH]; intros sum Hsum Hlt.
  { simpl. by rewrite Z.add_0_r. }
  pose proof (sum_weight_nonneg _ (weighted_pos serviceCode nodes)) as Hpos.
  simpl in Hlt |- *.
  destruct (spec_weight _ _) as [w|] eqn:Hw; simpl in Hlt |- *.
  - pose proof (spec_weight_pos _ _ _ Hw).
    rewrite (service_weight_spec _ _ _ Hw) by lia.
    rewrite (wrap_s_int64 (sum + w)) by (unfold in_int64; lia).
    fold (weighted serviceCode nodes) in *.
    rewrite IH by lia. f_equal. lia.
  - rewrite (service_weight_None _ _ Hw). by apply IH.
Qed.

Lemma pick_weighted_other wnodes r x :
  ID (entry x) ∉ (fun w => ID (entry w)) <$> wnodes ->
  pick_weighted wnodes r <> Ok (ID (entry x)).
Proof.
  intros Hnot Hp. apply pick_weighted_elem in Hp as (w & Hin & E).
  apply Hnot. rewrite <- E. by apply (list_elem_of_fmap_2 (fun w => ID (entry w))).
Qed.

(** The draws that pick a node are an interval as long as its weight. *)
Lemma pick_weighted_interval pre x post r :
  NoDup ((fun w => ID (entry w)) <$> (pre ++ x :: post)) ->
  Forall (fun w => 0 < weight w)%Z (pre ++ x :: post) ->
  (sum_weight (pre ++ x :: post) < 2 ^ 63)%Z ->
  (0 <= r < sum_weight (pre ++ x :: post))%Z ->
  pick_weighted (pre ++ x :: post) r = Ok (ID (entry x)) <->
  (sum_weight pre <= r < sum_weight pre + weight x)%Z.
Proof.
  revert r. induction pre as [|y pre IH]; intros r Hnd Hpos Hsum Hr; simpl in *.
  - apply NoDup_cons in Hnd as [Hx _]. apply Forall_cons in Hpos as [Hw Hpos].
    apply sum_weight_nonneg in Hpos.
    rewrite wrap_s_int64 by (unfold in_int64; lia).
    destruct (Z.ltb_spec (r - weight x) 0); [split; [lia|done]|].
    split; [|lia]. intros Hp. by apply pick_weighted_other in Hp.
  - apply NoDup_cons in Hnd as [Hy Hnd]. apply Forall_cons in Hpos as [Hw Hpos].
    pose proof (sum_weight_nonneg _ Hpos).
    assert (0 <= sum_weight pre)%Z.
    { apply sum_weight_nonneg. by apply Forall_app in Hpos as [? _]. }
    rewrite wrap_s_int64 by (unfold in_int64; lia).
    destruct (Z.ltb_spec (r - weight y) 0).
    + split; [|lia]. intros [= E]. destruct Hy. rewrite E.
      apply (list_elem_of_fmap_2 (fun w => ID (entry w))). set_solver.
    + rewrite IH by (done || lia). lia.
Qed.

Lemma weighted_IDs_sublist serviceCode nodes :
  (fun w => ID (entry w)) <$> weighted serviceCode nodes `sublist_of` ID <$> nodes.
Proof.
  induction nodes as [|n nodes IH]; simpl; [done|].
  destruct (spec_weight _ _); simpl; by constructor.
Qed.

Lemma roundRobin_interval serviceCode nodes node w :
  NoDup (ID <$> nodes) -> node ∈ nodes ->
  spec_weight serviceCode (Services (GRPC node)) = Some w ->
  (sum_weight (weighted serviceCode nodes) < 2 ^ 63)%Z ->
  exists b lo, newRoundRobinBalancer serviceCode nodes = Ret (b, nodes) /\
    (0 <= lo /\ lo + w <= sum_weight (weighted serviceCode nodes))%Z /\
    forall sess seed, (0 <= seed < sum_weight (weighted serviceCode nodes))%Z ->
      Pick b sess seed = Ret (Ok (ID node)) <-> (lo <= seed < lo + w)%Z.
Proof.
  intros Hnd Hin Hw Hsum. unfold newRoundRobinBalancer.
  rewrite weigh_nodes_weighted by lia. rewrite Z.add_0_l.
  assert ({| entry := node; weight := w |} ∈ weighted serviceCode nodes) as Hx.
  { apply list_elem_of_omap. exists node. by rewrite Hw. }
  pose proof (sublist_NoDup _ _ Hnd (weighted_IDs_sublist serviceCode nodes)) as Hnd'.
  pose proof (weighted_pos serviceCode nodes) as Hpos.
  apply list_elem_of_split in Hx as (pre & post & E). rewrite E in *.
  assert (sum_weight (pre ++ {| entry := node; weight := w |} :: post) =
          sum_weight pre + w + sum_weight post)%Z as Es.
  { clear. induction pre as [|y pre IH]; simpl in *; lia. }
  apply Forall_app in Hpos as Hpp. destruct Hpp as [Hp1 [_ Hp2]%Forall_cons].
  apply sum_weight_nonneg in Hp1, Hp2.
  eexists _, (sum_weight pre). split; [done|]. split; [lia|].
  intros sess seed Hseed. unfold Pick, roundRobinBalancer_Pick.
  rewrite rand_Intn_any by done. simpl.
  rewrite <- (pick_weighted_interval pre {| entry := node; weight := w |} post) by done.
  split; [by intros [= ->]|by intros ->].
Qed.
End Weighted.

(** ** Hash policies *)
Section Hash.
Context `{L : ULIDLaws} `{N : Net} `{X : XXHash}.

(** What indexing the nodes by an unsigned 64-bit number, taken as an [int] and
    reduced with [%], gives. *)
Definition hashed_pick (nodes : list NodeEntry) (u : Z) (o : outcome (result ulid)) : Prop :=
  let n := Z.of_nat (length nodes) in
  if (u <? 2 ^ 63)%Z
  then exists node, nodes !! Z.to_nat (u `mod` n) = Some node /\ o = Ret (Ok (ID node))
  else if ((2 ^ 64 - u) `mod` n =? 0)%Z
  then exists node, nodes !! 0 = Some node /\ o = Ret (Ok (ID node))
  else o = Panic.

Lemma wrap_s_high u : (2 ^ 63 <= u < 2 ^ 64)%Z -> wrap_s 64 u = (u - 2 ^ 64)%Z.
Proof.
  intros Hu. unfold wrap_s.
  replace (u + 2 ^ (64 - 1))%Z with (u - 2 ^ 63 + 1 * 2 ^ 64)%Z by lia.
  rewrite Z.mod_add by lia. rewrite Z.mod_small; lia.
Qed.

Lemma wrap_s_mod x : wrap_s 64 x = wrap_s 64 (x `mod` 2 ^ 64).
Proof. unfold wrap_s. by rewrite Zplus_mod_idemp_l. Qed.

Lemma hashed_pick_index nodes u :
  nodes <> [] -> (0 <= u < 2 ^ 64)%Z ->
  hashed_pick nodes u
    (node_ID (slice_index nodes (Z.rem (wrap_s 64 u) (Z.of_nat (length nodes))))).
Proof.
  intros Hne Hu. unfold hashed_pick.
  set (n := Z.of_nat (length nodes)).
  assert (0 < n)%Z as Hn by (subst n; destruct nodes; [done|simpl; lia]).
  destruct (Z.ltb_spec u (2 ^ 63)) as [Hlt|Hge].
  - rewrite wrap_s_int64 by (unfold in_int64; lia).
    rewrite Z.rem_mod_nonneg by lia.
    pose proof (Z.mod_pos_bound u n Hn) as Hb.
    unfold slice_index. destruct (Z.ltb_spec (u `mod` n) 0); [lia|].
    destruct (lookup_lt_is_Some_2 nodes (Z.to_nat (u `mod` n))) as [node Hnode]; [lia|].
    rewrite Hnode. by exists node.
  - rewrite wrap_s_high by lia.
    replace (u - 2 ^ 64)%Z with (- (2 ^ 64 - u))%Z by lia.
    rewrite Z.rem_opp_l by lia. rewrite Z.rem_mod_nonneg by lia.
    pose proof (Z.mod_pos_bound (2 ^ 64 - u) n Hn) as Hb.
    destruct (Z.eqb_spec ((2 ^ 64 - u) `mod` n) 0) as [->|Hnz].
    + destruct nodes as [|node nodes]; [done|]. by exists node.
    + by rewrite slice_index_neg by lia.
Qed.

Lemma big_SetBytes_bound bs acc k :
  Forall (fun b => 0 <= b < 256)%Z bs -> (0 <= acc < 2 ^ (8 * Z.of_nat k))%Z ->
  (0 <= foldl (fun acc b => acc * 256 + b)%Z acc bs < 2 ^ (8 * Z.of_nat (k + length bs)))%Z.
Proof.
  intros HF. revert acc k. induction HF as [|b bs Hb HF IH]; intros acc k Hacc; simpl.
  - by rewrite Nat.add_0_r.
  - replace (k + S (length bs)) with (S k + length bs) by lia. apply IH.
    replace (8 * Z.of_nat (S k))%Z with (8 * Z.of_nat k + 8)%Z by lia.
    rewrite Z.pow_add_r by lia. change (2 ^ 8)%Z with 256%Z. lia.
Qed.

Lemma ipv4_small bs :
  length bs = 4 -> Forall (fun b => 0 <= b < 256)%Z bs ->
  (0 <= big_SetBytes bs < 2 ^ 32)%Z.
Proof.
  intros Hl HF. pose proof (big_SetBytes_bound bs 0 0 HF ltac:(simpl; lia)) as Hb.
  by rewrite Hl in Hb.
Qed.
End Hash.

(** The cases of [TestAddrToint64] in [balancer_test.go], from the address bytes. *)
Example addr_127_0_0_1 : big_Int64 (big_SetBytes [127; 0; 0; 1]%Z) = 2130706433%Z.
Proof. reflexivity. Qed.
Example addr_192_168_0_1 : big_Int64 (big_SetBytes [192; 168; 0; 1]%Z) = 3232235521%Z.
Proof. reflexivity. Qed.
Example addr_loopback6 :
  big_Int64 (big_SetBytes [0;0;0;0; 0;0;0;0; 0;0;0;0; 0;0;0;1]%Z) = 1%Z.
Proof. reflexivity. Qed.
Example addr_2001_db8 :
  big_Int64 (big_SetBytes
    [0x20;0x01;0x0d;0xb8; 0x85;0xa3;0;0; 0;0;0x8a;0x2e; 0x03;0x70;0x73;0x34]%Z)
  = 151930230829876%Z.
Proof. reflexivity. Qed.

(** ** Properties *)
Section Properties.
Context `{L : ULIDLaws} `{NL : NetLaws} `{XL : XXHashLaws}.

(** C31. With the built-in policies [NewBalancer] never panics: for every list of
    nodes, empty or not and whatever policy it names, it yields a balancer and
    leaves the slice with the same nodes, and a node ID that [Pick] returns
    without error is the ID of one of those nodes. *)
Theorem NewBalancer_picks_a_node serviceCode nodes :
  exists b nodes', NewBalancer builtin serviceCode nodes = Ret (b, nodes') /\
    nodes' ≡ₚ nodes /\
    forall sess seed id, Pick b sess seed = Ret (Ok id) -> id ∈ ID <$> nodes.
Proof. apply NewBalancer_picks_among. Qed.

(** The balancer does not depend on the order in which the nodes were
    collected: two gateways that know the same nodes build the same balancer
    from them, whatever order their maps were traversed in, so a hash policy
    sends a client to the same node from both. *)
Theorem NewBalancer_order_independent registered serviceCode nodes1 nodes2 :
  NoDup (ID <$> nodes1) -> nodes1 ≡ₚ nodes2 ->
  NewBalancer registered serviceCode nodes1 = NewBalancer registered serviceCode nodes2.
Proof. apply NewBalancer_perm. Qed.

(** The "oldest" policy of the newest node's configuration makes every [Pick]
    return the node with the least ID, the "newest" policy the greatest. *)
Theorem oldest_newest_extreme serviceCode nodes newest :
  2 <= length nodes -> NoDup (ID <$> nodes) ->
  newest ∈ nodes -> the_newest nodes (ID newest) ->
  forall sess seed,
  (service_policy serviceCode (Services (GRPC newest)) = BalancerOldest ->
   exists b nodes' id, NewBalancer builtin serviceCode nodes = Ret (b, nodes') /\
     Pick b sess seed = Ret (Ok id) /\ the_oldest nodes id) /\
  (service_policy serviceCode (Services (GRPC newest)) = BalancerNewest ->
   exists b nodes', NewBalancer builtin serviceCode nodes = Ret (b, nodes') /\
     Pick b sess seed = Ret (Ok (ID newest))).
Proof.
  intros Hlen Hnd Hin Hnew sess seed.
  assert (sort_Slice less_desc nodes <> []) as Hne.
  { apply sort_Slice_nonempty. destruct nodes; [simpl in Hlen; lia|done]. }
  pose proof (sort_Slice_perm less_desc nodes) as Hp. split; intros Hpol.
  - rewrite (NewBalancer_policy _ _ _ _ _ newOldestBalancer Hlen Hin Hnd Hnew Hpol)
      by reflexivity.
    destruct (newOldestBalancer_Pick serviceCode _ sess seed Hne)
      as (b & nodes' & id & Hb & Hpick & Ho).
    exists b, nodes', id. split; [done|]. split; [done|].
    by apply (the_oldest_perm _ _ _ Hp).
  - rewrite (NewBalancer_policy _ _ _ _ _ newNewestBalancer Hlen Hin Hnd Hnew Hpol)
      by reflexivity.
    destruct (newNewestBalancer_Pick serviceCode _ sess seed Hne)
      as (b & nodes' & id & Hb & Hpick & Ho).
    exists b, nodes'. split; [done|]. rewrite Hpick. do 2 f_equal.
    apply (the_newest_perm _ _ _ Hp) in Ho; destruct Ho as [(n & -> & Hn)%list_elem_of_fmap Ho].
    destruct (Ho newest Hin) as [|Hlt]; [done|].
    destruct Hnew as [_ Hnew]. destruct (Hnew n Hn) as [|Hlt']; [done|].
    by destruct (ulid_lt_irrefl (ID n)); transitivity (ID newest).
Qed.

(** C34. Weighted choice: if the total weight fits an [int], the draws for which
    the "roundRobin" balancer picks a node form an interval of exactly ten times
    the node's configured weight (ten if it has none), out of the sum over the
    nodes: a node's share of the requests is its share of the weight. *)
Theorem roundRobin_share serviceCode nodes node w :
  NoDup (ID <$> nodes) -> node ∈ nodes ->
  spec_weight serviceCode (Services (GRPC node)) = Some w ->
  (sum_weight (weighted serviceCode nodes) < 2 ^ 63)%Z ->
  exists b lo, newRoundRobinBalancer serviceCode nodes = Ret (b, nodes) /\
    (0 <= lo /\ lo + w <= sum_weight (weighted serviceCode nodes))%Z /\
    forall sess seed, (0 <= seed < sum_weight (weighted serviceCode nodes))%Z ->
      Pick b sess seed = Ret (Ok (ID node)) <-> (lo <= seed < lo + w)%Z.
Proof. apply roundRobin_interval. Qed.

(** The "idHash" policy: a session's hash below 2^63 picks the node at the
    hash modulo the number of nodes, always the same for the same session ID. A
    hash of 2^63 or more is a negative [int]: [%] leaves a negative index, and
    [Pick] panics unless the number of nodes divides it. *)
Theorem idHash_pick nodes sess seed :
  nodes <> [] ->
  hashed_pick nodes (xxhash_Sum64String (Session_ID sess))
    (Pick (idHashBalancer nodes) sess seed).
Proof. intros Hne. apply hashed_pick_index; [done|]. apply xxhash_uint64. Qed.

(** The "ipHash" policy reduces the low 64 bits of the client's address the
    same way: an IPv4 client always gets the node at its address modulo the
    number of nodes, an IPv6 client whose low half has its top bit set makes
    [Pick] panic unless the number of nodes divides it. *)
Theorem ipHash_pick nodes sess seed bs :
  nodes <> [] -> netip_ParseAddrPort (RemoteAddr sess) = Ok bs ->
  hashed_pick nodes (big_SetBytes bs `mod` 2 ^ 64) (Pick (ipHashBalancer nodes) sess seed) /\
  (length bs = 4 -> exists node,
     nodes !! Z.to_nat (big_SetBytes bs `mod` Z.of_nat (length nodes)) = Some node /\
     Pick (ipHashBalancer nodes) sess seed = Ret (Ok (ID node))).
Proof.
  intros Hne Hbs. pose proof (netip_addr_bytes _ _ Hbs) as [_ HF].
  assert (hashed_pick nodes (big_SetBytes bs `mod` 2 ^ 64)
            (Pick (ipHashBalancer nodes) sess seed)) as Hp.
  { unfold Pick, ipHashBalancer_Pick, addrToint64, big_Int64. rewrite Hbs, wrap_s_mod.
    apply hashed_pick_index; [done|]. by apply Z.mod_pos_bound. }
  split; [done|]. intros Hlen. pose proof (ipv4_small bs Hlen HF) as Hs.
  unfold hashed_pick in Hp. rewrite (Z.mod_small (big_SetBytes bs)) in Hp by lia.
  destruct (Z.ltb_spec (big_SetBytes bs) (2 ^ 63)); [done|lia].
Qed.
End Properties.

(** ** Witnesses *)

Definition sample_nodes (policy : string) : list NodeEntry :=
  [sample_node 1 NodeOK "10.0.0.1:9000" [sample_desc 7 policy];
   sample_node 3 NodeOK "10.0.0.3:9000" [sample_desc 7 policy];
   sample_node 2 NodeOK "10.0.0.2:9000" [sample_desc 7 policy]].

Lemma sample_nodes_NoDup policy : NoDup (ID <$> sample_nodes policy).
Proof. apply (bool_decide_unpack _). vm_compute. exact I. Qed.

Lemma NewBalancer_picks_a_node_witness :
  exists b nodes', NewBalancer builtin 7 (sample_nodes "roundRobin") = Ret (b, nodes') /\
    nodes' ≡ₚ sample_nodes "roundRobin" /\
    forall sess seed id, Pick b sess seed = Ret (Ok id) -> id ∈ ID <$> sample_nodes "roundRobin".
Proof. apply NewBalancer_picks_a_node. Defined.

Lemma NewBalancer_order_independent_witness :
  sample_nodes "idHash" ≡ₚ reverse (sample_nodes "idHash") /\
  NewBalancer builtin 7 (sample_nodes "idHash") =
  NewBalancer builtin 7 (reverse (sample_nodes "idHash")).
Proof.
  split; [by rewrite reverse_Permutation|].
  apply (NewBalancer_order_independent builtin 7 (sample_nodes "idHash")).
  - apply sample_nodes_NoDup.
  - by rewrite reverse_Permutation.
Defined.

Lemma oldest_newest_extreme_witness :
  exists b nodes', NewBalancer builtin 7 (sample_nodes "newest") = Ret (b, nodes') /\
    Pick b {| Session_ID := "u"; RemoteAddr := "" |} 0 = Ret (Ok (sample_id 3)).
Proof.
  refine (proj2 (oldest_newest_extreme 7 (sample_nodes "newest")
            (sample_node 3 NodeOK "10.0.0.3:9000" [sample_desc 7 "newest"])
            _ _ _ _ {| Session_ID := "u"; RemoteAddr := "" |} 0) _).
  - simpl. lia.
  - apply sample_nodes_NoDup.
  - right. left.
  - split; [right; left|]. intros n Hn. unfold sample_nodes in Hn.
    apply elem_of_cons in Hn as [->|Hn]; [by right|].
    apply elem_of_cons in Hn as [->|Hn]; [by left|].
    apply elem_of_cons in Hn as [->|Hn]; [by right|]. by apply not_elem_of_nil in Hn.
  - reflexivity.
Defined.

Lemma roundRobin_share_witness :
  exists b lo, newRoundRobinBalancer 7%Z (sample_nodes "roundRobin") =
      Ret (b, sample_nodes "roundRobin") /\
    (0 <= lo /\ lo + 10 <= 30)%Z /\
    forall sess seed, (0 <= seed < 30)%Z ->
      Pick b sess seed = Ret (Ok (sample_id 3)) <-> (lo <= seed < lo + 10)%Z.
Proof.
  apply (roundRobin_share 7 (sample_nodes "roundRobin")
           (sample_node 3 NodeOK "10.0.0.3:9000" [sample_desc 7 "roundRobin"]) 10).
  - apply sample_nodes_NoDup.
  - right. left.
  - reflexivity.
  - vm_compute. reflexivity.
Defined.

Lemma idHash_pick_witness :
  hashed_pick (sample_nodes "idHash") (sample_hash "user")
    (Pick (idHashBalancer (sample_nodes "idHash"))
       {| Session_ID := "user"; RemoteAddr := "" |} 0).
Proof.
  exact (idHash_pick (sample_nodes "idHash")
           {| Session_ID := "user"; RemoteAddr := "" |} 0 ltac:(done)).
Defined.

Lemma ipHash_pick_witness :
  exists node, sample_nodes "ipHash" !! 2 = Some node /\
    Pick (ipHashBalancer (sample_nodes "ipHash"))
      {| Session_ID := ""; RemoteAddr := "127.0.0.1:8080" |} 0 = Ret (Ok (ID node)).
Proof.
  by apply (proj2 (ipHash_pick (sample_nodes "ipHash")
    {| Session_ID := ""; RemoteAddr := "127.0.0.1:8080" |} 0 [127; 0; 0; 1]%Z ltac:(done) eq_refl)).
Defined.

(** The panic is reached: an IPv6 client, three nodes. *)
Example ipHash_panics :
  Pick (ipHashBalancer (sample_nodes "ipHash"))
    {| Session_ID := ""; RemoteAddr := "[fe80::8000:0:0:1]:1234" |} 0 = Panic.
Proof. vm_compute. reflexivity. Qed.
