(* ===== verification/Resolver.v ===== *)
(** * Resolver: [cluster/resolver.go]

    What a gateway knows of the cluster: the nodes, the services, the nodes each
    service can be sent to, a balancer per public service and the gRPC connections
    by endpoint. *)

From S2P Require Import Prelude External Entry Samples Balancer.

Local Open Scope go_scope.

(** [*grpc.ClientConn]: a handle, the index of the connection in the list of the
    connections made so far. *)
Abbreviation conn := nat (only parsing).
Record ClientConn := { Target : string; Closed : bool }.

(** [grpc.NewClient(endpoint, options...)] fails or makes a connection. *)
Class GRPCDial := {
  grpc_NewClient : string -> option gerror;
}.

Section Resolver.
Context `{U : ULID} `{R : MapRange} `{N : Net} `{X : XXHash} `{G : GRPCDial}.
(** The package variable [registeredBalancer]. *)
Variable registered : gmap string BalancerFactory.

Record grpcResolver := {
  services : gmap Z GRPCServiceDesc;
  allNodes : gmap ulid NodeEntry;
  okNodes : gmap Z (list NodeEntry);
  serviceBalancer : gmap Z Balancer;
  conns : gmap string conn;
  connHeap : list ClientConn;
}.

Definition newGRPCResolver : grpcResolver := {|
  services := ∅; allNodes := ∅; okNodes := ∅; serviceBalancer := ∅;
  conns := ∅; connHeap := [] |}.

Definition set_services (r : grpcResolver) x := {|
  services := x; allNodes := allNodes r; okNodes := okNodes r;
  serviceBalancer := serviceBalancer r; conns := conns r; connHeap := connHeap r |}.
Definition set_allNodes (r : grpcResolver) x := {|
  services := services r; allNodes := x; okNodes := okNodes r;
  serviceBalancer := serviceBalancer r; conns := conns r; connHeap := connHeap r |}.
Definition set_okNodes (r : grpcResolver) x := {|
  services := services r; allNodes := allNodes r; okNodes := x;
  serviceBalancer := serviceBalancer r; conns := conns r; connHeap := connHeap r |}.
Definition set_serviceBalancer (r : grpcResolver) x := {|
  services := services r; allNodes := allNodes r; okNodes := okNodes r;
  serviceBalancer := x; conns := conns r; connHeap := connHeap r |}.
Definition set_conns (r : grpcResolver) x h := {|
  services := services r; allNodes := allNodes r; okNodes := okNodes r;
  serviceBalancer := serviceBalancer r; conns := x; connHeap := h |}.

(** [conn.Close()] *)
Definition close_conn (c : conn) (h : list ClientConn) : list ClientConn :=
  alter (fun cc => {| Target := Target cc; Closed := true |}) c h.

(** The predicate of [updateServiceNodes]: a node in state "ok" that lists the
    service. *)
Definition provides (serviceCode : Z) (node : NodeEntry) : bool :=
  bool_decide (State node = NodeOK) &&
  existsb (fun desc => (Code desc =? serviceCode)%Z) (Services (GRPC node)).

Definition updateServiceNodes (r : grpcResolver) (serviceCode : Z) : grpcResolver :=
  let nodes := filter (fun node => provides serviceCode node = true)
                 (range_values (allNodes r)) in
  match nodes with
  | [] => set_okNodes r (delete serviceCode (okNodes r))
  | _ => set_okNodes r (<[serviceCode := nodes]> (okNodes r))
  end.

(** The balancer is built from the slice [okNodes] holds, which it sorts: the
    sorted slice is what [okNodes] holds afterwards. *)
Definition updateBalancer (r : grpcResolver) (serviceCode : Z) : outcome grpcResolver :=
  match services r !! serviceCode with
  | None => Ret r
  | Some desc =>
      if negb (Public desc) then Ret r
      else
        let nodes := default [] (okNodes r !! serviceCode) in
        match nodes with
        | [] => Ret (set_serviceBalancer r (delete serviceCode (serviceBalancer r)))
        | _ =>
            let! (b, nodes) := NewBalancer registered serviceCode nodes in
            let r := set_okNodes r (<[serviceCode := nodes]> (okNodes r)) in
            Ret (set_serviceBalancer r (<[serviceCode := b]> (serviceBalancer r)))
        end
  end.

(** The deferred function of [Update] and [Remove]. *)
Definition drop_conn (r : grpcResolver) (endpoint : string) : grpcResolver :=
  match conns r !! endpoint with
  | None => r
  | Some c => set_conns r (delete endpoint (conns r)) (close_conn c (connHeap r))
  end.

(** The loop of [Update]. *)
Fixpoint update_descs (r : grpcResolver) (descs : list GRPCServiceDesc) : outcome grpcResolver :=
  match descs with
  | [] => Ret r
  | desc :: descs =>
      if (0 <? Code desc)%Z then
        let r := set_services r (<[Code desc := desc]> (services r)) in
        let r := updateServiceNodes r (Code desc) in
        let! r := updateBalancer r (Code desc) in
        update_descs r descs
      else update_descs r descs
  end.

Definition Update (r : grpcResolver) (node : NodeEntry) : outcome grpcResolver :=
  if bool_decide (Services (GRPC node) = []) then Ret r
  else
    let r := set_allNodes r (<[ID node := node]> (allNodes r)) in
    let! r := update_descs r (Services (GRPC node)) in
    Ret (if bool_decide (State node = NodeDown) then drop_conn r (Endpoint (GRPC node)) else r).

(** The loop of [Remove]. *)
Fixpoint remove_descs (r : grpcResolver) (descs : list GRPCServiceDesc) : outcome grpcResolver :=
  match descs with
  | [] => Ret r
  | desc :: descs =>
      if (0 <? Code desc)%Z then
        let r := updateServiceNodes r (Code desc) in
        let! r := updateBalancer r (Code desc) in
        remove_descs r descs
      else remove_descs r descs
  end.

Definition Remove (r : grpcResolver) (node : NodeEntry) : outcome grpcResolver :=
  if bool_decide (Services (GRPC node) = []) then Ret r
  else
    let r := set_allNodes r (delete (ID node) (allNodes r)) in
    let! r := remove_descs r (Services (GRPC node)) in
    Ret (drop_conn r (Endpoint (GRPC node))).

Definition GetDesc (r : grpcResolver) (serviceCode : Z) : option GRPCServiceDesc :=
  services r !! serviceCode.

Definition AllocNode (r : grpcResolver) (serviceCode : Z) (sess : Session) (seed : Z)
  : outcome (result ulid) :=
  match serviceBalancer r !! serviceCode with
  | None => Ret (Err ErrNoNodeAvailable)
  | Some balancer => Pick balancer sess seed
  end.

Definition PickNode (r : grpcResolver) (serviceCode : Z) (seed : Z) : outcome (result ulid) :=
  let nodes := default [] (okNodes r !! serviceCode) in
  match nodes with
  | [] => Ret (Err ErrNoNodeAvailable)
  | [node] => Ret (Ok (ID node))
  | _ =>
      let! i := rand_Intn seed (Z.of_nat (length nodes)) in
      node_ID (slice_index nodes i)
  end.

Definition getConn (r : grpcResolver) (endpoint : string) : result conn * grpcResolver :=
  match conns r !! endpoint with
  | Some c => (Ok c, r)
  | None =>
      match grpc_NewClient endpoint with
      | Some err => (Err (Errorf "dial grpc, %w" [] (Some err)), r)
      | None =>
          let c := length (connHeap r) in
          (Ok c, set_conns r (<[endpoint := c]> (conns r))
                   (connHeap r ++ [{| Target := endpoint; Closed := false |}]))
      end
  end.

Definition GetConn (r : grpcResolver) (nodeID : ulid) : result conn * grpcResolver :=
  match allNodes r !! nodeID with
  | None => (Err ErrNodeNotFoundOrDown, r)
  | Some node =>
      if bool_decide (State node = NodeDown) then (Err ErrNodeNotFoundOrDown, r)
      else getConn r (Endpoint (GRPC node))
  end.

(** [Close]: every connection of the map is closed and taken out of it. *)
Definition Close (r : grpcResolver) : grpcResolver :=
  foldl (fun r '(key, value) =>
           set_conns r (delete key (conns r)) (close_conn value (connHeap r)))
    r (range_entries (conns r)).

Definition DumpData (r : grpcResolver)
  : gmap Z GRPCServiceDesc * gmap ulid NodeEntry * gmap Z (list ulid) :=
  (services r, allNodes r, (fun nodes : list NodeEntry => ID <$> nodes) <$> okNodes r).
End Resolver.


(** ** Freshness

    [providers m c]: the nodes of [m] a request for service [c] can be sent to. *)
Section Fresh.
Context `{L : ULIDLaws} `{R : MapRange} `{N : Net} `{X : XXHash} `{G : GRPCDial}.
Context (registered : gmap string BalancerFactory) `{B : !BalancerSpec registered}.

(** Every node is stored under its own ID. *)
Definition keyed (m : gmap ulid NodeEntry) : Prop :=
  forall id node, m !! id = Some node -> ID node = id.

(** A node that requests to a service can be sent to: it is in state "ok" and lists the
    service. *)
Definition offers (serviceCode : Z) (node : NodeEntry) : Prop :=
  State node = NodeOK /\ serviceCode ∈ Code <$> Services (GRPC node).

#[export] Instance offers_dec c node : Decision (offers c node).
Proof. unfold offers. apply _. Defined.

Lemma provides_offers c node : provides c node = true <-> offers c node.
Proof.
  unfold provides, offers. rewrite andb_true_iff, bool_decide_eq_true, existsb_exists.
  rewrite list_elem_of_fmap. setoid_rewrite Z.eqb_eq. setoid_rewrite list_elem_of_In.
  naive_solver.
Qed.

Definition providers (m : gmap ulid NodeEntry) (serviceCode : Z) : list NodeEntry :=
  filter (offers serviceCode) (range_values m).

Lemma filter_provides c (l : list NodeEntry) :
  filter (fun node => provides c node = true) l = filter (offers c) l.
Proof. apply list_filter_iff. intros node. apply provides_offers. Qed.

Lemma elem_of_providers m serviceCode node :
  node ∈ providers m serviceCode <->
  offers serviceCode node /\ exists id, m !! id = Some node.
Proof. unfold providers. by rewrite list_elem_of_filter, elem_of_range_values. Qed.

Lemma keyed_IDs_NoDup m : keyed m -> NoDup (ID <$> range_values m).
Proof.
  intros Hk. unfold range_values.
  rewrite range_order_perm, <- list_fmap_compose.
  replace ((ID ∘ snd) <$> map_to_list m) with ((map_to_list m).*1).
  - apply NoDup_fst_map_to_list.
  - apply list_fmap_ext. intros i [id node] Hi. simpl. symmetry. apply Hk.
    apply elem_of_map_to_list. by eapply list_elem_of_lookup_2.
Qed.

Lemma providers_NoDup m c : keyed m -> NoDup (ID <$> providers m c).
Proof.
  intros Hk. unfold providers. eapply sublist_NoDup; [by apply keyed_IDs_NoDup|].
  apply fmap_sublist, sublist_filter.
Qed.

(** What the resolver should hold for a service, given the nodes it knows. *)
Definition fresh (r : grpcResolver) (c : Z) : Prop :=
  let ps := providers (allNodes r) c in
  (ps = [] -> okNodes r !! c = None) /\
  (ps <> [] -> exists nodes, okNodes r !! c = Some nodes /\ nodes ≡ₚ ps) /\
  (forall desc, services r !! c = Some desc -> Public desc = true ->
     (ps = [] -> serviceBalancer r !! c = None) /\
     (ps <> [] -> exists b nodes, serviceBalancer r !! c = Some b /\
                    NewBalancer registered c ps = Ret (b, nodes))).

Lemma updateServiceNodes_okNodes r c :
  okNodes (updateServiceNodes r c) =
    match providers (allNodes r) c with
    | [] => delete c (okNodes r)
    | ps => <[c := ps]> (okNodes r)
    end.
Proof. unfold updateServiceNodes, providers. rewrite filter_provides. by destruct (filter _ _). Qed.

Lemma updateServiceNodes_same r c :
  services (updateServiceNodes r c) = services r /\
  allNodes (updateServiceNodes r c) = allNodes r /\
  serviceBalancer (updateServiceNodes r c) = serviceBalancer r /\
  conns (updateServiceNodes r c) = conns r /\
  connHeap (updateServiceNodes r c) = connHeap r.
Proof. unfold updateServiceNodes. by destruct (filter _ _). Qed.

(** What the two calls of a loop iteration leave alone. *)
Definition same_but (c : Z) (r r' : grpcResolver) : Prop :=
  services r' = services r /\ allNodes r' = allNodes r /\
  conns r' = conns r /\ connHeap r' = connHeap r /\
  forall c', c' <> c -> okNodes r' !! c' = okNodes r !! c' /\
                        serviceBalancer r' !! c' = serviceBalancer r !! c'.

Lemma refresh_spec r c :
  keyed (allNodes r) ->
  exists r', updateBalancer registered (updateServiceNodes r c) c = Ret r' /\
    same_but c r r' /\ fresh r' c.
Proof.
  intros Hk. pose proof (updateServiceNodes_okNodes r c) as Hok.
  destruct (updateServiceNodes_same r c) as (Es & En & Eb & Ec & Eh).
  set (r1 := updateServiceNodes r c) in *. clearbody r1.
  unfold updateBalancer. rewrite Es.
  destruct (providers (allNodes r) c) as [|p ps] eqn:Hps; cbn in Hok.
  - destruct (services r !! c) as [desc|] eqn:Hdesc.
    + destruct (Public desc) eqn:Hpub; simpl.
      * rewrite Hok, lookup_delete_eq. simpl. eexists. split; [done|].
        unfold same_but, fresh. simpl. rewrite Es, En, Eb, Ec, Eh, Hok, Hps.
        repeat split; intros; rewrite ?lookup_delete_eq, ?lookup_delete_ne; done.
      * eexists. split; [done|]. unfold same_but, fresh.
        rewrite Es, En, Eb, Ec, Eh, Hok, Hps.
        repeat split; intros; rewrite ?lookup_delete_eq, ?lookup_delete_ne; congruence.
    + eexists. split; [done|]. unfold same_but, fresh.
      rewrite Es, En, Eb, Ec, Eh, Hok, Hps.
      repeat split; intros; rewrite ?lookup_delete_eq, ?lookup_delete_ne; congruence.
  - assert (fresh_nodes : exists nodes, okNodes r1 !! c = Some nodes /\ nodes ≡ₚ p :: ps).
    { rewrite Hok, lookup_insert_eq. eauto. }
    destruct (services r !! c) as [desc|] eqn:Hdesc.
    + destruct (Public desc) eqn:Hpub; simpl.
      * rewrite Hok, lookup_insert_eq. simpl.
        destruct (B c (p :: ps)) as (b & nodes' & Hb & Hp & _). rewrite Hb. simpl.
        eexists. split; [done|]. unfold same_but, fresh. simpl.
        rewrite Es, En, Eb, Ec, Eh, Hps.
        split; [repeat split; intros; rewrite ?Hok, ?lookup_insert_ne by done; done|].
        split; [done|]. split; [intros _; rewrite lookup_insert_eq; eauto|].
        intros ???. split; [done|]. rewrite lookup_insert_eq. eauto.
      * eexists. split; [done|]. unfold same_but, fresh. rewrite Es, En, Eb, Ec, Eh, Hps.
        split; [repeat split; intros; rewrite ?Hok, ?lookup_insert_ne by done; done|].
        split; [done|]. split; [done|]. intros. congruence.
    + eexists. split; [done|]. unfold same_but, fresh. rewrite Es, En, Eb, Ec, Eh, Hps.
      split; [repeat split; intros; rewrite ?Hok, ?lookup_insert_ne by done; done|].
      split; [done|]. split; [done|]. intros. congruence.
Qed.

Lemma fresh_same_but c r r' c' : same_but c r r' -> c' <> c -> fresh r c' -> fresh r' c'.
Proof.
  intros (Es & En & _ & _ & Hother) Hne. destruct (Hother c' Hne) as [Eo Eb].
  unfold fresh. by rewrite Es, En, Eo, Eb.
Qed.
End Fresh.

(** ** Operations keep the resolver fresh *)
Section Invariant.
Context `{L : ULIDLaws} `{R : MapRange} `{N : Net} `{X : XXHash} `{G : GRPCDial}.
Context (registered : gmap string BalancerFactory) `{B : !BalancerSpec registered}.

Lemma fresh_allNodes r m' c :
  keyed (allNodes r) -> keyed m' ->
  (forall node, node ∈ providers (allNodes r) c <-> node ∈ providers m' c) ->
  fresh registered r c -> fresh registered (set_allNodes r m') c.
Proof.
  intros Hk Hk' Hsame (H1 & H2 & H3).
  assert (providers (allNodes r) c ≡ₚ providers m' c) as Hp.
  { apply NoDup_Permutation; [..|done].
    - eapply NoDup_fmap_1. by apply (providers_NoDup _ c).
    - eapply NoDup_fmap_1. by apply (providers_NoDup _ c). }
  assert (providers m' c = [] <-> providers (allNodes r) c = []) as Hnil.
  { split; intros E; rewrite E in Hp.
    - by apply Permutation_nil_r in Hp.
    - by apply Permutation_nil_l in Hp. }
  unfold fresh. simpl. split; [by intros E%Hnil; apply H1|]. split.
  - intros Hne. destruct H2 as (nodes & ? & Hn); [by rewrite <- Hnil|]. exists nodes.
    split; [done|]. by rewrite Hn.
  - intros desc Hdesc Hpub. destruct (H3 desc Hdesc Hpub) as [H4 H5].
    split; [by intros E%Hnil; apply H4|].
    intros Hne. destruct H5 as (b & nodes & ? & Hb); [by rewrite <- Hnil|].
    exists b, nodes. split; [done|].
    rewrite <- Hb. symmetry. apply NewBalancer_perm; [by apply providers_NoDup|done].
Qed.

Lemma fresh_set_services r x c :
  x !! c = services r !! c -> fresh registered r c ->
  fresh registered (set_services r x) c.
Proof. intros E. unfold fresh. simpl. by rewrite E. Qed.

Lemma fresh_set_conns r x h c : fresh registered r c -> fresh registered (set_conns r x h) c.
Proof. done. Qed.

(** What a loop of [Update] or [Remove] does: it brings the services it visits up
    to date and keeps the others. *)
Definition refreshes (r : grpcResolver) (pending : list Z) (o : outcome grpcResolver) : Prop :=
  keyed (allNodes r) ->
  (forall c, (0 < c)%Z -> c ∈ pending \/ fresh registered r c) ->
  exists r', o = Ret r' /\ allNodes r' = allNodes r /\
    conns r' = conns r /\ connHeap r' = connHeap r /\
    (forall c, (0 < c)%Z -> fresh registered r' c).

Lemma update_descs_refreshes descs r :
  refreshes r (Code <$> descs) (update_descs registered r descs).
Proof.
  revert r. induction descs as [|d descs IH]; intros r Hk Hf; simpl.
  { exists r. split_and!; [done..|]. intros c Hc.
    destruct (Hf c Hc) as [Hin|]; [by apply not_elem_of_nil in Hin|done]. }
  destruct (Z.ltb_spec 0 (Code d)) as [Hpos|Hneg].
  - set (r1 := set_services r (<[Code d:=d]> (services r))).
    destruct (refresh_spec registered r1 (Code d)) as (r2 & -> & Hsb & Hfr); [done|].
    simpl. pose proof Hsb as (_ & En & Ec & Eh & _).
    destruct (IH r2) as (r3 & -> & En' & Ec' & Eh' & Hall).
    + by rewrite En.
    + intros c Hc. destruct (decide (c = Code d)) as [->|Hne]; [by right|].
      destruct (Hf c Hc) as [[->|Hin]%elem_of_cons|Hfc]; [done|by left|right].
      eapply fresh_same_but; [exact Hsb|done|].
      apply fresh_set_services; [by rewrite lookup_insert_ne|done].
    + exists r3. split; [done|]. by rewrite En', Ec', Eh', En, Ec, Eh.
  - apply IH; [done|]. intros c Hc.
    destruct (Hf c Hc) as [[->|Hin]%elem_of_cons|Hfc]; [lia|by left|by right].
Qed.

Lemma remove_descs_refreshes descs r :
  refreshes r (Code <$> descs) (remove_descs registered r descs).
Proof.
  revert r. induction descs as [|d descs IH]; intros r Hk Hf; simpl.
  { exists r. split_and!; [done..|]. intros c Hc.
    destruct (Hf c Hc) as [Hin|]; [by apply not_elem_of_nil in Hin|done]. }
  destruct (Z.ltb_spec 0 (Code d)) as [Hpos|Hneg].
  - destruct (refresh_spec registered r (Code d)) as (r2 & -> & Hsb & Hfr); [done|].
    simpl. pose proof Hsb as (_ & En & Ec & Eh & _).
    destruct (IH r2) as (r3 & -> & En' & Ec' & Eh' & Hall).
    + by rewrite En.
    + intros c Hc. destruct (decide (c = Code d)) as [->|Hne]; [by right|].
      destruct (Hf c Hc) as [[->|Hin]%elem_of_cons|Hfc]; [done|by left|right].
      by eapply fresh_same_but.
    + exists r3. split; [done|]. by rewrite En', Ec', Eh', En, Ec, Eh.
  - apply IH; [done|]. intros c Hc.
    destruct (Hf c Hc) as [[->|Hin]%elem_of_cons|Hfc]; [lia|by left|by right].
Qed.

(** The services a node lists are the same whenever the node is announced. *)
Variable codes : ulid -> list Z.
Definition lists_codes (node : NodeEntry) : Prop :=
  Code <$> Services (GRPC node) = codes (ID node).

(** Every connection of the map is open, and leads to its endpoint. *)
Definition conns_open (r : grpcResolver) : Prop :=
  forall e c, conns r !! e = Some c ->
    connHeap r !! c = Some {| Target := e; Closed := false |}.

Record resolver_inv (r : grpcResolver) : Prop := {
  inv_keyed : keyed (allNodes r);
  inv_codes : forall id node, allNodes r !! id = Some node -> lists_codes node;
  inv_fresh : forall c, (0 < c)%Z -> fresh registered r c;
  inv_conns : conns_open r;
}.

(** Storing or deleting a node does not concern a service it does not list. *)
Lemma providers_other m m' id c :
  (forall id', id' <> id -> m' !! id' = m !! id') ->
  (forall node, m !! id = Some node \/ m' !! id = Some node -> ~ offers c node) ->
  forall node, node ∈ providers m c <-> node ∈ providers m' c.
Proof.
  intros Hsame Hno node. rewrite !elem_of_providers.
  split; intros (Hp & id' & Hid'); (split; [done|]); exists id';
    (destruct (decide (id' = id)) as [->|Hne]; [|by rewrite Hsame in * by done]).
  - destruct (Hno node); eauto.
  - destruct (Hno node); eauto.
Qed.

Lemma drop_conn_open r e : conns_open r -> conns_open (drop_conn r e).
Proof.
  intros Ho. unfold drop_conn. destruct (conns r !! e) as [c|] eqn:Hc; [|done].
  intros e' c'. simpl. rewrite lookup_delete_Some. intros [Hne Hc'].
  unfold close_conn. rewrite list_lookup_alter_ne; [by apply Ho|].
  intros ->. apply Ho in Hc, Hc'. congruence.
Qed.

Lemma drop_conn_same r e :
  services (drop_conn r e) = services r /\ allNodes (drop_conn r e) = allNodes r /\
  okNodes (drop_conn r e) = okNodes r /\ serviceBalancer (drop_conn r e) = serviceBalancer r.
Proof. unfold drop_conn. by destruct (conns r !! e). Qed.

Lemma fresh_drop_conn r e c : fresh registered r c -> fresh registered (drop_conn r e) c.
Proof. unfold drop_conn. by destruct (conns r !! e). Qed.

Lemma resolver_inv_drop r e : resolver_inv r -> resolver_inv (drop_conn r e).
Proof.
  intros [Hk Hc Hf Ho]. destruct (drop_conn_same r e) as (_ & En & _).
  split; rewrite ?En; auto using drop_conn_open, fresh_drop_conn.
Qed.

Lemma Update_inv r node :
  resolver_inv r -> lists_codes node ->
  exists r', Update registered r node = Ret r' /\ resolver_inv r'.
Proof.
  intros [Hk Hc Hf Ho] Hnode. unfold Update. case_bool_decide; [by exists r|].
  set (r1 := set_allNodes r _).
  assert (keyed (allNodes r1)) as Hk1.
  { intros id n. simpl. rewrite lookup_insert_Some. intros [[<- <-]|[_ ?]]; [done|].
    by apply Hk. }
  destruct (update_descs_refreshes (Services (GRPC node)) r1 Hk1)
    as (r2 & -> & En & Ec & Eh & Hf2).
  { intros c Hpos. destruct (decide (c ∈ Code <$> Services (GRPC node))) as [|Hnot]; [by left|].
    right. apply fresh_allNodes; [done|done| |by apply Hf].
    apply (providers_other _ _ (ID node)).
    - intros id' Hne. by rewrite lookup_insert_ne.
    - intros n. rewrite lookup_insert_eq. intros Hn.
      intros [_ Hp]. apply Hnot.
      destruct Hn as [Hn|[= <-]]; [|done]. rewrite Hnode.
      rewrite <- (Hk _ _ Hn). by rewrite <- (Hc _ _ Hn). }
  simpl. assert (resolver_inv r2) as Hinv.
  { split; rewrite ?En; try done.
    - intros id n. simpl. rewrite lookup_insert_Some. intros [[<- <-]|[_ ?]]; [done|].
      by eapply Hc.
    - intros e c. rewrite Ec, Eh. apply Ho. }
  eexists. split; [done|]. case_bool_decide; auto using resolver_inv_drop.
Qed.

Lemma Remove_inv r node :
  resolver_inv r -> lists_codes node ->
  exists r', Remove registered r node = Ret r' /\ resolver_inv r'.
Proof.
  intros [Hk Hc Hf Ho] Hnode. unfold Remove. case_bool_decide; [by exists r|].
  set (r1 := set_allNodes r _).
  assert (keyed (allNodes r1)) as Hk1.
  { intros id n. simpl. rewrite lookup_delete_Some. intros [_ ?]. by apply Hk. }
  destruct (remove_descs_refreshes (Services (GRPC node)) r1 Hk1)
    as (r2 & -> & En & Ec & Eh & Hf2).
  { intros c Hpos. destruct (decide (c ∈ Code <$> Services (GRPC node))) as [|Hnot]; [by left|].
    right. apply fresh_allNodes; [done|done| |by apply Hf].
    apply (providers_other _ _ (ID node)).
    - intros id' Hne. by rewrite lookup_delete_ne.
    - intros n. rewrite lookup_delete_eq. intros [Hn|Hn]; [|done].
      intros [_ Hp]. apply Hnot.
      rewrite Hnode, <- (Hk _ _ Hn). by rewrite <- (Hc _ _ Hn). }
  simpl. eexists. split; [done|]. apply resolver_inv_drop. split; rewrite ?En; try done.
  - intros id n. simpl. rewrite lookup_delete_Some. intros [_ ?]. by eapply Hc.
  - intros e c. rewrite Ec, Eh. apply Ho.
Qed.
End Invariant.

(** ** Properties *)
Section Properties.
Context `{L : ULIDLaws} `{R : MapRange} `{N : Net} `{X : XXHash} `{G : GRPCDial}.
Context (registered : gmap string BalancerFactory) `{B : !BalancerSpec registered}.
Variable codes : ulid -> list Z.

(** The operations that change a resolver; [OpDial] is [getConn], which
    [Registry.GetGatewayClient] and [GetNodeClient] call. *)
Inductive resolver_op :=
  | OpUpdate (node : NodeEntry)
  | OpRemove (node : NodeEntry)
  | OpGetConn (nodeID : ulid)
  | OpDial (endpoint : string)
  | OpClose.

Definition run_op (r : grpcResolver) (op : resolver_op) : outcome grpcResolver :=
  match op with
  | OpUpdate node => Update registered r node
  | OpRemove node => Remove registered r node
  | OpGetConn nodeID => Ret (GetConn r nodeID).2
  | OpDial endpoint => Ret (getConn r endpoint).2
  | OpClose => Ret (Close r)
  end.

Fixpoint run_ops (r : grpcResolver) (ops : list resolver_op) : outcome grpcResolver :=
  match ops with
  | [] => Ret r
  | op :: ops => let! r := run_op r op in run_ops r ops
  end.

Definition op_ok (op : resolver_op) : Prop :=
  match op with
  | OpUpdate node | OpRemove node => lists_codes codes node
  | _ => True
  end.

Lemma resolver_inv_init : resolver_inv registered codes newGRPCResolver.
Proof.
  split; simpl; try done. intros c Hc. unfold fresh. simpl.
  assert (providers ∅ c = []) as ->; [|by split_and!; intros; simplify_map_eq].
  destruct (providers ∅ c) as [|n l] eqn:E; [done|].
  assert (n ∈ providers ∅ c) as Hin by (rewrite E; left).
  apply elem_of_providers in Hin as (_ & id & Hid). by rewrite lookup_empty in Hid.
Qed.

Lemma getConn_inv r e :
  resolver_inv registered codes r -> resolver_inv registered codes (getConn r e).2.
Proof.
  intros [Hk Hc Hf Ho]. unfold getConn. destruct (conns r !! e) eqn:He; [done|].
  destruct (grpc_NewClient e); [done|]. split; simpl; try done.
  intros e' c'. simpl. rewrite lookup_insert_Some. intros [[<- <-]|[_ Hc']].
  - by rewrite lookup_app_r, Nat.sub_diag.
  - rewrite lookup_app_l; [by apply Ho|]. apply Ho in Hc'. by eapply lookup_lt_Some.
Qed.

Lemma GetConn_inv r id :
  resolver_inv registered codes r -> resolver_inv registered codes (GetConn r id).2.
Proof.
  unfold GetConn. destruct (allNodes r !! id); [|done]. case_bool_decide; [done|].
  apply getConn_inv.
Qed.

Lemma Close_inv r :
  resolver_inv registered codes r -> resolver_inv registered codes (Close r).
Proof.
  unfold Close. pose proof (NoDup_range_keys (conns r)) as Hnd.
  pose proof (fun e c => proj1 (elem_of_range_entries (conns r) e c)) as Hin.
  revert Hnd Hin. generalize (range_entries (conns r)). intros l. revert r.
  induction l as [|[e c] l IH]; intros r Hnd Hin Hinv; [done|]. simpl.
  apply NoDup_cons in Hnd as [Hnot Hnd].
  assert (set_conns r (delete e (conns r)) (close_conn c (connHeap r)) = drop_conn r e) as ->.
  { unfold drop_conn. by rewrite (Hin e c) by left. }
  apply IH; [done| |by apply resolver_inv_drop].
  intros e' c' Hin'. unfold drop_conn. rewrite (Hin e c) by left. simpl.
  rewrite lookup_delete_ne; [apply Hin; by right|].
  intros ->. apply Hnot. by apply (list_elem_of_fmap_2 fst) in Hin'.
Qed.

Lemma run_ops_inv ops r :
  resolver_inv registered codes r -> Forall op_ok ops ->
  exists r', run_ops r ops = Ret r' /\ resolver_inv registered codes r'.
Proof.
  intros Hinv HF. revert r Hinv. induction HF as [|op ops Hop HF IH]; intros r Hinv.
  { by exists r. }
  simpl. assert (exists r1, run_op r op = Ret r1 /\ resolver_inv registered codes r1)
    as (r1 & -> & H1); [|by apply IH].
  destruct op as [node|node|id|e|]; simpl in *.
  - by apply Update_inv.
  - by apply Remove_inv.
  - eexists. split; [done|]. by apply GetConn_inv.
  - eexists. split; [done|]. by apply getConn_inv.
  - eexists. split; [done|]. by apply Close_inv.
Qed.
End Properties.

(** ** Connections *)
Section Conns.
Context `{L : ULIDLaws} `{R : MapRange} `{N : Net} `{X : XXHash} `{G : GRPCDial}.
Context (registered : gmap string BalancerFactory).

Definition same_conns (r r' : grpcResolver) : Prop :=
  conns r' = conns r /\ connHeap r' = connHeap r.

Lemma updateBalancer_conns r c r' : updateBalancer registered r c = Ret r' -> same_conns r r'.
Proof.
  unfold updateBalancer, same_conns. intros H.
  destruct (services r !! c) as [d|]; [|by simplify_eq].
  destruct (Public d); simpl in H; [|by simplify_eq].
  destruct (default [] _); [by simplify_eq|].
  apply outcome_bind_Ret in H as ([b nodes] & _ & H). by simplify_eq.
Qed.

Lemma update_descs_conns descs r r' :
  update_descs registered r descs = Ret r' -> same_conns r r'.
Proof.
  revert r. induction descs as [|d descs IH]; intros r; simpl; [by intros [= ->]|].
  destruct (0 <? Code d)%Z; [|apply IH].
  intros (r1 & [E1 E2]%updateBalancer_conns & [E3 E4]%IH)%outcome_bind_Ret.
  destruct (updateServiceNodes_same (set_services r (<[Code d:=d]> (services r))) (Code d))
    as (_ & _ & _ & Ec & Eh).
  split; [by rewrite E3, E1, Ec|by rewrite E4, E2, Eh].
Qed.

Lemma remove_descs_conns descs r r' :
  remove_descs registered r descs = Ret r' -> same_conns r r'.
Proof.
  revert r. induction descs as [|d descs IH]; intros r; simpl; [by intros [= ->]|].
  destruct (0 <? Code d)%Z; [|apply IH].
  intros (r1 & [E1 E2]%updateBalancer_conns & [E3 E4]%IH)%outcome_bind_Ret.
  destruct (updateServiceNodes_same r (Code d)) as (_ & _ & _ & Ec & Eh).
  split; congruence.
Qed.

(** No connection is kept for the endpoint, and the one there was is closed. *)
Definition conn_dropped (r : grpcResolver) (endpoint : string) (r' : grpcResolver) : Prop :=
  conns r' !! endpoint = None /\
  forall c, conns r !! endpoint = Some c ->
    connHeap r' !! c = Some {| Target := endpoint; Closed := true |}.

Lemma drop_conn_dropped r r1 e :
  conns_open r -> same_conns r r1 -> conn_dropped r e (drop_conn r1 e).
Proof.
  intros Ho [Ec Eh]. unfold conn_dropped, drop_conn. rewrite Ec, Eh.
  destruct (conns r !! e) as [c|] eqn:Hc; simpl.
  - split; [apply lookup_delete_eq|]. intros c' [= <-].
    unfold close_conn. by rewrite list_lookup_alter_eq, (Ho _ _ Hc).
  - by rewrite Ec.
Qed.
End Conns.

(** ** The claims *)
Section Claims.
Context `{L : ULIDLaws} `{R : MapRange} `{N : Net} `{X : XXHash} `{G : GRPCDial}.
Context (registered : gmap string BalancerFactory) `{B : !BalancerSpec registered}.
Variable codes : ulid -> list Z.

(** What the two ways of choosing a node yield. *)
Lemma resolver_inv_allocation r c :
  resolver_inv registered codes r -> (0 < c)%Z ->
  (forall seed,
    (providers (allNodes r) c = [] /\ PickNode r c seed = Ret (Err ErrNoNodeAvailable)) \/
    exists id node, allNodes r !! id = Some node /\ offers c node /\
      PickNode r c seed = Ret (Ok id)) /\
  (forall desc sess seed, GetDesc r c = Some desc -> Public desc = true ->
    (providers (allNodes r) c = [] ->
     AllocNode r c sess seed = Ret (Err ErrNoNodeAvailable)) /\
    (forall id, AllocNode r c sess seed = Ret (Ok id) ->
     exists node, allNodes r !! id = Some node /\ offers c node)).
Proof.
  intros [Hk _ Hf _] Hc. destruct (Hf c Hc) as (H1 & H2 & H3).
  assert (forall node, node ∈ providers (allNodes r) c ->
            allNodes r !! ID node = Some node /\ offers c node) as Hprov.
  { intros node (Hp & id & Hid)%elem_of_providers. by rewrite (Hk _ _ Hid). }
  split.
  - intros seed. unfold PickNode.
    destruct (decide (providers (allNodes r) c = [])) as [E|Hne].
    { left. by rewrite H1. }
    right. destruct (H2 Hne) as (nodes & -> & Hp). simpl.
    assert (exists node, node ∈ nodes /\ match nodes with
      | [] => Ret (Err ErrNoNodeAvailable) | [node] => Ret (Ok (ID node))
      | _ => let! i := rand_Intn seed (Z.of_nat (length nodes)) in
             node_ID (slice_index nodes i) end = Ret (Ok (ID node))) as (node & Hin & ->).
    { destruct nodes as [|n1 [|n2 nodes]].
      - by apply Permutation_nil_l in Hp.
      - exists n1. split; [left|done].
      - destruct (rand_Intn_range seed (Z.of_nat (length (n1 :: n2 :: nodes))))
          as (i & -> & Hi); [simpl; lia|]. simpl.
        destruct (slice_index_in (n1 :: n2 :: nodes) i Hi) as (n & -> & Hn). by exists n. }
    rewrite Hp in Hin. apply Hprov in Hin as []. eauto.
  - intros desc sess seed Hd Hpub. destruct (H3 desc Hd Hpub) as [H4 H5].
    unfold AllocNode. split; [by intros ->%H4|]. intros id.
    destruct (decide (providers (allNodes r) c = [])) as [E|Hne]; [by rewrite H4|].
    destruct (H5 Hne) as (b & nodes & -> & Hb). intros Hpick.
    destruct (B c (providers (allNodes r) c)) as (b' & nodes' & Hb' & _ & Hmem).
    rewrite Hb in Hb'. simplify_eq.
    apply Hmem in Hpick as (node & -> & Hin)%list_elem_of_fmap. apply Hprov in Hin. eauto.
Qed.

(** C20. The resolver is up to date after every sequence of updates and removals
    of nodes (a node listing the same services each time), mixed with uses and
    the closing of connections, none of which panics: for each service,
    [okNodes] holds exactly the known nodes in state "ok" that list it and no
    entry if there is none, the balancer of a public service is the one built
    from these nodes, and every connection kept is open and leads to its
    endpoint. *)
Theorem resolver_up_to_date ops :
  Forall (op_ok codes) ops ->
  exists r, run_ops registered newGRPCResolver ops = Ret r /\
    keyed (allNodes r) /\ conns_open r /\ forall c, (0 < c)%Z -> fresh registered r c.
Proof.
  intros HF. destruct (run_ops_inv registered codes ops newGRPCResolver)
    as (r & Hr & [Hk Hc Hf Ho]); [apply resolver_inv_init|done|]. eauto.
Qed.

(** C22. In every state so reached, a node handed out for a service is a known
    node in state "ok" that lists the service: [PickNode] always yields one if
    there is one and reports [ErrNoNodeAvailable] otherwise, without a panic;
    and for a public service [AllocNode] reports [ErrNoNodeAvailable] if there is
    none, and never returns the ID of another node. *)
Theorem allocation_safe ops r c :
  Forall (op_ok codes) ops -> run_ops registered newGRPCResolver ops = Ret r -> (0 < c)%Z ->
  (forall seed,
    (providers (allNodes r) c = [] /\ PickNode r c seed = Ret (Err ErrNoNodeAvailable)) \/
    exists id node, allNodes r !! id = Some node /\ offers c node /\
      PickNode r c seed = Ret (Ok id)) /\
  (forall desc sess seed, GetDesc r c = Some desc -> Public desc = true ->
    (providers (allNodes r) c = [] ->
     AllocNode r c sess seed = Ret (Err ErrNoNodeAvailable)) /\
    (forall id, AllocNode r c sess seed = Ret (Ok id) ->
     exists node, allNodes r !! id = Some node /\ offers c node)).
Proof.
  intros HF Hrun Hc. destruct (run_ops_inv registered codes ops newGRPCResolver)
    as (r' & Hr & Hinv); [apply resolver_inv_init|done|].
  rewrite Hrun in Hr. simplify_eq. by apply resolver_inv_allocation.
Qed.

(** [GetConn] refuses a node that is unknown or down, and changes nothing; for
    any other node it yields an open connection to the node's endpoint, and the
    same one the next time; it fails only if there is none and none can be made. *)
Theorem GetConn_open r id :
  conns_open r ->
  match allNodes r !! id with
  | None => GetConn r id = (Err ErrNodeNotFoundOrDown, r)
  | Some node =>
      if bool_decide (State node = NodeDown)
      then GetConn r id = (Err ErrNodeNotFoundOrDown, r)
      else
        (exists c r', GetConn r id = (Ok c, r') /\
           connHeap r' !! c = Some {| Target := Endpoint (GRPC node); Closed := false |} /\
           GetConn r' id = (Ok c, r')) \/
        (conns r !! Endpoint (GRPC node) = None /\
         exists err, grpc_NewClient (Endpoint (GRPC node)) = Some err /\
           GetConn r id = (Err (Errorf "dial grpc, %w" [] (Some err)), r))
  end.
Proof.
  intros Ho. unfold GetConn. destruct (allNodes r !! id) as [node|] eqn:Hid; [|done].
  case_bool_decide as Hdown; [done|]. unfold getConn.
  destruct (conns r !! Endpoint (GRPC node)) as [c|] eqn:Hc.
  - left. exists c, r. rewrite Hid, bool_decide_false, Hc by done. auto.
  - destruct (grpc_NewClient _) as [err|] eqn:Hdial; [right; eauto|left].
    eexists _, _. split; [done|]. simpl. rewrite Hid, bool_decide_false by done.
    rewrite lookup_app_r, Nat.sub_diag by done. split; [done|].
    by rewrite lookup_insert_eq.
Qed.

(** A node that is announced as down, or removed, keeps no connection: the
    connection to its endpoint is closed and forgotten. *)
Theorem offline_node_disconnected r node r' :
  conns_open r -> Services (GRPC node) <> [] ->
  (State node = NodeDown /\ Update registered r node = Ret r') \/
  Remove registered r node = Ret r' ->
  conn_dropped r (Endpoint (GRPC node)) r'.
Proof.
  intros Ho Hs. unfold Update, Remove. rewrite bool_decide_false by done.
  intros [[Hd H]|H]; apply outcome_bind_Ret in H as (r1 & H1 & [= <-]).
  - rewrite bool_decide_true by done. apply drop_conn_dropped; [done|].
    by apply update_descs_conns in H1.
  - apply drop_conn_dropped; [done|]. by apply remove_descs_conns in H1.
Qed.
End Claims.

(** ** Witnesses *)

#[export] Instance sample_GRPCDial : GRPCDial := {|
  grpc_NewClient endpoint :=
    if bool_decide (endpoint = ""%string) then Some (EForeign "passthrough") else None;
|}.

Definition sample_codes (_ : ulid) : list Z := [7]%Z.
Definition sample_ops : list resolver_op :=
  [OpUpdate (sample_node 1 NodeOK "10.0.0.1:9000" [sample_desc 7 "idHash"]);
   OpUpdate (sample_node 2 NodeOK "10.0.0.2:9000" [sample_desc 7 "idHash"]);
   OpGetConn (sample_id 1);
   OpUpdate (sample_node 2 NodeLazy "10.0.0.2:9000" [sample_desc 7 "idHash"])].

Lemma sample_ops_ok : Forall (op_ok sample_codes) sample_ops.
Proof. repeat constructor. Defined.

Lemma resolver_up_to_date_witness :
  exists r, run_ops builtin newGRPCResolver sample_ops = Ret r /\
    keyed (allNodes r) /\ conns_open r /\ forall c, (0 < c)%Z -> fresh builtin r c.
Proof. apply (resolver_up_to_date builtin sample_codes). apply sample_ops_ok. Defined.

Definition sample_resolver : grpcResolver :=
  outcome_get newGRPCResolver (run_ops builtin newGRPCResolver sample_ops).

Lemma sample_run : run_ops builtin newGRPCResolver sample_ops = Ret sample_resolver.
Proof. apply outcome_get_Ret. vm_compute. reflexivity. Qed.

Lemma allocation_safe_witness :
  exists id node, allNodes sample_resolver !! id = Some node /\ offers 7 node /\
    PickNode sample_resolver 7 5 = Ret (Ok id).
Proof.
  destruct (proj1 (allocation_safe builtin sample_codes sample_ops sample_resolver 7
              sample_ops_ok sample_run ltac:(done)) 5%Z) as [[E _]|H].
  - vm_compute in E. discriminate E.
  - exact H.
Defined.

Lemma GetConn_open_witness :
  conns_open sample_resolver /\
  match allNodes sample_resolver !! sample_id 9 with
  | None => GetConn sample_resolver (sample_id 9) = (Err ErrNodeNotFoundOrDown, sample_resolver)
  | Some _ => False
  end.
Proof.
  assert (conns_open sample_resolver) as Ho.
  { intros e c H.
    assert (map_to_list (conns sample_resolver) = [("10.0.0.1:9000"%string, 0)]) as E
      by (vm_compute; reflexivity).
    apply elem_of_map_to_list in H. rewrite E in H.
    apply list_elem_of_singleton in H. injection H as -> ->. vm_compute. reflexivity. }
  split; [exact Ho|]. exact (GetConn_open sample_resolver (sample_id 9) Ho).
Defined.

Lemma offline_node_disconnected_witness :
  exists r', Remove builtin newGRPCResolver
    (sample_node 1 NodeOK "10.0.0.1:9000" [sample_desc 7 "idHash"]) = Ret r' /\
  conn_dropped newGRPCResolver "10.0.0.1:9000" r'.
Proof.
  eexists. split; [reflexivity|].
  apply (offline_node_disconnected builtin newGRPCResolver
    (sample_node 1 NodeOK "10.0.0.1:9000" [sample_desc 7 "idHash"])); [done|done|].
  right. reflexivity.
Defined.
