(* ===== verification/PathLib.v ===== *)
(** * PathLib: [path.Clean] and [path.Join] of the Go standard library

    The registry builds its keys and the proxy its gRPC method names with
    [path.Join]; what they are for unusual arguments decides which key or method
    is meant, so the functions are modelled, element by element. *)

From S2P Require Import Prelude External.

Local Open Scope string_scope.

(** The elements of a path: the pieces between the slashes. *)
Fixpoint split_slash (s : string) : list string :=
  match s with
  | EmptyString => [""]
  | String c s =>
      if bool_decide (c = "/"%char) then "" :: split_slash s
      else match split_slash s with
           | e :: es => String c e :: es
           | [] => [String c ""]
           end
  end.

Fixpoint join_slash (es : list string) : string :=
  match es with
  | [] => ""
  | [e] => e
  | e :: es => e ++ "/" ++ join_slash es
  end.

(** Empty and ["."] elements go away, [".."] takes the element before it with it,
    or stays at the front of a path that is not rooted. The stack holds the
    elements kept so far, the last one first. *)
Definition clean_step (rooted : bool) (stack : list string) (e : string) : list string :=
  if bool_decide (e = "") || bool_decide (e = ".") then stack
  else if bool_decide (e = "..") then
    match stack with
    | x :: stack' => if bool_decide (x = "..") then e :: stack else stack'
    | [] => if rooted then [] else [e]
    end
  else e :: stack.

Definition clean_elems (rooted : bool) (es : list string) : list string :=
  foldl (clean_step rooted) [] es.

Definition is_rooted (s : string) : bool :=
  match s with String c _ => bool_decide (c = "/"%char) | EmptyString => false end.

Definition path_Clean (s : string) : string :=
  if bool_decide (s = "") then "."
  else
    let out := (if is_rooted s then "/" else "") ++
               join_slash (reverse (clean_elems (is_rooted s) (split_slash s))) in
    if bool_decide (out = "") then "." else out.

(** [path.Join(a, b)] *)
Definition path_Join (a b : string) : string :=
  if bool_decide (a = "") then (if bool_decide (b = "") then "" else path_Clean b)
  else path_Clean (a ++ "/" ++ b).

(** The examples of the package's documentation. *)
Example Join_a_b_c : path_Join "a" "b/c" = "a/b/c". Proof. reflexivity. Qed.
Example Join_dotdot : path_Join "a/b" "../../../xyz" = "../xyz". Proof. reflexivity. Qed.
Example Join_empty : path_Join "" "" = "". Proof. reflexivity. Qed.
Example Join_a_empty : path_Join "a" "" = "a". Proof. reflexivity. Qed.
Example Join_empty_a : path_Join "" "a" = "a". Proof. reflexivity. Qed.
Example Clean_slashes : path_Clean "a//c" = "a/c". Proof. reflexivity. Qed.
Example Clean_inner : path_Clean "a/c/b/.." = "a/c". Proof. reflexivity. Qed.
Example Clean_root : path_Clean "/../a/b/../././/c" = "/a/c". Proof. reflexivity. Qed.

(** ** Plain elements *)

(** An element that [path.Clean] keeps: not empty, no slash, not ["."] or [".."]. *)
Definition plain (e : string) : Prop :=
  e <> "" /\ e <> "." /\ e <> ".." /\
  string_forallb (fun c => negb (bool_decide (c = "/"%char))) e = true.

#[export] Instance plain_dec e : Decision (plain e).
Proof. unfold plain. apply _. Defined.

Lemma split_slash_cons s : exists e es, split_slash s = e :: es.
Proof.
  destruct s as [|c s]; simpl; [eauto|]. case_bool_decide; [eauto|].
  destruct (split_slash s); eauto.
Qed.

Lemma split_slash_no_slash e :
  string_forallb (fun c => negb (bool_decide (c = "/"%char))) e = true ->
  split_slash e = [e].
Proof.
  induction e as [|c e IH]; simpl; [done|]. intros [Hc He]%andb_true_iff.
  apply negb_true_iff, bool_decide_eq_false in Hc.
  rewrite bool_decide_false by done. by rewrite IH.
Qed.

Lemma split_slash_app a b :
  split_slash (a ++ "/" ++ b) = (split_slash a ++ split_slash b)%list.
Proof.
  induction a as [|c a IH]; simpl; [done|].
  destruct (split_slash_cons a) as (e & es & E). rewrite E in IH.
  change (String "/" b) with ("/" ++ b). rewrite IH.
  case_bool_decide; [by rewrite E|]. by rewrite E.
Qed.

Lemma clean_step_plain rooted stack e : plain e -> clean_step rooted stack e = e :: stack.
Proof.
  intros (H1 & H2 & H3 & _). unfold clean_step. by rewrite !bool_decide_false.
Qed.

Lemma clean_elems_snoc rooted es e :
  plain e -> clean_elems rooted (es ++ [e]) = e :: clean_elems rooted es.
Proof. intros He. unfold clean_elems. rewrite foldl_app. simpl. by apply clean_step_plain. Qed.

Lemma string_app_cons c s t : String c s ++ t = String c (s ++ t).
Proof. done. Qed.
Lemma string_app_nil_r s : s ++ "" = s.
Proof. induction s as [|c s IH]; [done|]. by rewrite string_app_cons, IH. Qed.
Lemma string_app_assoc a b c : a ++ b ++ c = (a ++ b) ++ c.
Proof. induction a as [|x a IH]; [done|]. by rewrite !string_app_cons, IH. Qed.
Lemma string_app_eq_nil a b : a ++ b = "" -> a = "" /\ b = "".
Proof. by destruct a. Qed.

(** All the elements but the last one, with their slashes. *)
Definition slash_prefix (es : list string) : string :=
  foldr (fun e acc => e ++ "/" ++ acc) "" es.

Lemma join_slash_snoc es e : join_slash (es ++ [e]) = slash_prefix es ++ e.
Proof.
  induction es as [|e1 es IH]; [done|].
  change (slash_prefix (e1 :: es)) with (e1 ++ "/" ++ slash_prefix es).
  rewrite <- !string_app_assoc, <- IH. by destruct es.
Qed.

(** What [path.Join] puts in front of a plain element. *)
Definition join_prefix (p : string) : string :=
  if bool_decide (p = "") then ""
  else (if is_rooted p then "/" else "") ++
       slash_prefix (reverse (clean_elems (is_rooted p) (split_slash p))).

Lemma plain_is_rooted e : plain e -> is_rooted e = false.
Proof.
  intros (_ & _ & _ & H). destruct e as [|c e]; [done|]. simpl in *.
  apply andb_true_iff in H as [H _]. by apply negb_true_iff in H.
Qed.

Lemma path_Clean_snoc rooted es e s :
  plain e -> s <> "" -> is_rooted s = rooted -> split_slash s = (es ++ [e])%list ->
  path_Clean s =
    ((if rooted then "/" else "") ++ slash_prefix (reverse (clean_elems rooted es))) ++ e.
Proof.
  intros He Hs Hr Hsplit. unfold path_Clean. rewrite bool_decide_false by done.
  rewrite Hr, Hsplit, clean_elems_snoc, reverse_cons, join_slash_snoc by done.
  rewrite <- string_app_assoc, bool_decide_false; [done|].
  intros [_ [_ Hnil]%string_app_eq_nil]%string_app_eq_nil. by apply He in Hnil.
Qed.

Lemma path_Join_plain p e : plain e -> path_Join p e = join_prefix p ++ e.
Proof.
  intros He. unfold path_Join, join_prefix. case_bool_decide as Hp.
  - rewrite bool_decide_false by (by destruct He).
    by rewrite (path_Clean_snoc false [] e e He); [|destruct He|apply plain_is_rooted|
      apply split_slash_no_slash, He].
  - apply path_Clean_snoc; [done|by destruct p|by destruct p|].
    rewrite split_slash_app. by rewrite (split_slash_no_slash e) by apply He.
Qed.

Lemma path_Join_inj p e1 e2 :
  plain e1 -> plain e2 -> path_Join p e1 = path_Join p e2 -> e1 = e2.
Proof.
  intros H1 H2. rewrite !path_Join_plain by done. apply (inj (String.append _)).
Qed.

(** A service path [/service] joined with an argument that is not empty. *)
Lemma split_slash_service x : plain x -> split_slash ("/" ++ x) = [""; x].
Proof.
  intros Hx. change ("/" ++ x) with ("" ++ "/" ++ x). rewrite split_slash_app.
  by rewrite (split_slash_no_slash x) by apply Hx.
Qed.

Lemma path_Join_service x e : plain x -> plain e -> path_Join ("/" ++ x) e = "/" ++ x ++ "/" ++ e.
Proof.
  intros Hx He. rewrite path_Join_plain by done. unfold join_prefix.
  rewrite bool_decide_false by done. rewrite split_slash_service by done.
  change (is_rooted ("/" ++ x)) with true. change [""; x] with ([""] ++ [x])%list.
  rewrite clean_elems_snoc by done.
  transitivity (("/" ++ x ++ "/" ++ "") ++ e); [done|]. by rewrite <- !string_app_assoc.
Qed.

(** [..] in the argument leaves the service path. *)
Lemma path_Join_escape x y e :
  plain x -> plain y -> plain e ->
  path_Join ("/" ++ x) ("../" ++ y ++ "/" ++ e) = "/" ++ y ++ "/" ++ e.
Proof.
  intros Hx Hy He. unfold path_Join. rewrite bool_decide_false by done.
  rewrite (path_Clean_snoc true ["" ; x; ".."; y] e).
  - change ["" ; x; ".."; y] with (["" ; x; ".."] ++ [y])%list.
    rewrite clean_elems_snoc by done.
    assert (clean_elems true ["" ; x; ".."] = []) as ->.
    { unfold clean_elems. simpl. rewrite (clean_step_plain _ _ x) by done.
      unfold clean_step. simpl. rewrite bool_decide_false; [done|]. apply Hx. }
    transitivity (("/" ++ y ++ "/" ++ "") ++ e); [done|]. by rewrite <- !string_app_assoc.
  - done.
  - done.
  - done.
  - change ("../" ++ y ++ "/" ++ e) with (".." ++ "/" ++ y ++ "/" ++ e).
    rewrite !split_slash_app, split_slash_service by done.
    rewrite (split_slash_no_slash y) by apply Hy.
    by rewrite (split_slash_no_slash e) by apply He.
Qed.

(** A ULID written out is a plain element. *)
Lemma ulid_string_plain `{L : ULIDLaws} a : plain (ulid_String a).
Proof.
  pose proof (ulid_string_nonempty a) as Hne. pose proof (ulid_string_chars a) as Hc.
  destruct (ulid_String a) as [|c s]; [done|]. unfold plain.
  split; [done|]. simpl in Hc. apply andb_true_iff in Hc as [Hc Hs].
  unfold path_element_char in Hc. apply andb_true_iff in Hc as [Hc1 Hc2].
  apply negb_true_iff, bool_decide_eq_false in Hc1, Hc2.
  split; [congruence|]. split; [congruence|].
  simpl. rewrite bool_decide_false by done. simpl. clear -Hs.
  induction s as [|c s IH]; [done|]. simpl in *.
  apply andb_true_iff in Hs as [Hc Hs]. rewrite IH by done.
  unfold path_element_char in Hc. by apply andb_true_iff in Hc as [-> _].
Qed.
