(* ===== verification/StateTable.v ===== *)
(** * StateTable: [component/gateway/state.go]

    The routing table of stateful services: for each session, the node each
    service is routed to. The inner maps are shared by pointer, so the model has
    a heap of them. *)

From S2P Require Import Prelude External Entry Samples.

(** [*gokit.MapOf[int32, ulid.ULID]] *)
Abbreviation nodes_ptr := nat (only parsing).

Section StateTable.
Context `{U : ULID} `{R : MapRange}.

Record stateTable := {
  routes : gmap string nodes_ptr;
  route_heap : list (gmap Z ulid);
}.

Definition newStateTable : stateTable := {| routes := ∅; route_heap := [] |}.

Definition set_route_heap (st : stateTable) h : stateTable :=
  {| routes := routes st; route_heap := h |}.

(** [StateTable.Find] *)
Definition Find (st : stateTable) (sessID : string) (serviceCode : Z) : option ulid :=
  match routes st !! sessID with
  | None => None
  | Some p => nodes ← route_heap st !! p; nodes !! serviceCode
  end.

Definition Store (st : stateTable) (sessID : string) (serviceCode : Z) (nodeID : ulid)
  : stateTable :=
  let '(p, st) :=
    match routes st !! sessID with
    | Some p => (p, st)
    | None =>
        let p := length (route_heap st) in
        (p, {| routes := <[sessID := p]> (routes st); route_heap := route_heap st ++ [∅] |})
    end in
  set_route_heap st (alter (fun nodes => <[serviceCode := nodeID]> nodes) p (route_heap st)).

Definition Remove (st : stateTable) (sessID : string) (serviceCode : Z) : stateTable :=
  match routes st !! sessID with
  | None => st
  | Some p => set_route_heap st (alter (fun nodes => delete serviceCode nodes) p (route_heap st))
  end.

(** [nodeID.Compare(id) == 0] *)
Definition same_node (nodeID id : ulid) : bool :=
  match ulid_Compare nodeID id with Eq => true | _ => false end.

(** The first entry, in the order of the traversal, that is routed to the node. *)
Fixpoint first_to (nodeID : ulid) (entries : list (Z * ulid)) : option Z :=
  match entries with
  | [] => None
  | (serviceCode, id) :: entries =>
      if same_node nodeID id then Some serviceCode else first_to nodeID entries
  end.

(** The inner [Range] of [CleanNode]: it stops at the first match. *)
Definition clean_nodes (nodeID : ulid) (nodes : gmap Z ulid) : gmap Z ulid :=
  match first_to nodeID (range_entries nodes) with
  | Some serviceCode => delete serviceCode nodes
  | None => nodes
  end.

(** The inner [Range] of [ReplaceNode]. *)
Definition replace_nodes (oldID newID : ulid) (nodes : gmap Z ulid) : gmap Z ulid :=
  match first_to oldID (range_entries nodes) with
  | Some serviceCode => <[serviceCode := newID]> nodes
  | None => nodes
  end.

(** The outer [Range]: [f] on the map of every session. *)
Definition range_routes (f : gmap Z ulid -> gmap Z ulid) (st : stateTable) : stateTable :=
  foldl (fun st '(_, p) => set_route_heap st (alter f p (route_heap st)))
    st (range_entries (routes st)).

Definition CleanNode (st : stateTable) (nodeID : ulid) : stateTable :=
  range_routes (clean_nodes nodeID) st.

Definition ReplaceNode (st : stateTable) (oldID newID : ulid) : stateTable :=
  range_routes (replace_nodes oldID newID) st.

Definition CleanSession (st : stateTable) (sessID : string) : stateTable :=
  {| routes := delete sessID (routes st); route_heap := route_heap st |}.

(** ** Specification

    What a routing table promises, as relations on the function from sessions and
    services to nodes. *)
Definition table : Type := string -> Z -> option ulid.

(** At most one service of each session changes: one that was routed to [old],
    if there is any, to [new]. *)
Definition one_per_session (old : ulid) (new : option ulid) (t t' : table) : Prop :=
  forall s,
    (exists c, t s c = Some old /\
       t' s c = new /\ forall c', c' <> c -> t' s c' = t s c') \/
    ((forall c, t s c <> Some old) /\ forall c, t' s c = t s c).

Inductive table_op :=
  | TStore (sessID : string) (serviceCode : Z) (nodeID : ulid)
  | TRemove (sessID : string) (serviceCode : Z)
  | TCleanNode (nodeID : ulid)
  | TReplaceNode (oldID newID : ulid)
  | TCleanSession (sessID : string).

Definition table_step (t : table) (op : table_op) (t' : table) : Prop :=
  match op with
  | TStore s c n =>
      forall s' c', t' s' c' = if decide (s' = s /\ c' = c) then Some n else t s' c'
  | TRemove s c =>
      forall s' c', t' s' c' = if decide (s' = s /\ c' = c) then None else t s' c'
  | TCleanNode n => one_per_session n None t t'
  | TReplaceNode old new => one_per_session old (Some new) t t'
  | TCleanSession s => forall s' c', t' s' c' = if decide (s' = s) then None else t s' c'
  end.

Definition run_table_op (st : stateTable) (op : table_op) : stateTable :=
  match op with
  | TStore s c n => Store st s c n
  | TRemove s c => Remove st s c
  | TCleanNode n => CleanNode st n
  | TReplaceNode old new => ReplaceNode st old new
  | TCleanSession s => CleanSession st s
  end.
End StateTable.

(** ** Refinement *)
Section Refinement.
Context `{L : ULIDLaws} `{R : MapRange}.

(** Each session has a map of its own. *)
Record table_wf (st : stateTable) : Prop := {
  wf_alloc : forall s p, routes st !! s = Some p -> p < length (route_heap st);
  wf_inj : forall s1 s2 p, routes st !! s1 = Some p -> routes st !! s2 = Some p -> s1 = s2;
}.

Lemma table_wf_init : table_wf newStateTable.
Proof. by split. Qed.

Lemma same_node_true a b : same_node a b = true <-> a = b.
Proof. unfold same_node. rewrite <- ulid_compare_eq. by destruct (ulid_Compare a b). Qed.

Lemma first_to_Some n entries c :
  first_to n entries = Some c -> (c, n) ∈ entries.
Proof.
  induction entries as [|[c' id] entries IH]; simpl; [done|].
  destruct (same_node n id) eqn:Hs.
  - apply same_node_true in Hs as ->. intros [= ->]. left.
  - intros H. right. by apply IH.
Qed.

Lemma first_to_None n entries c : first_to n entries = None -> (c, n) ∉ entries.
Proof.
  induction entries as [|[c' id] entries IH]; simpl; [intros _; apply not_elem_of_nil|].
  destruct (same_node n id) eqn:Hs; [done|]. intros H [E|Hin]%elem_of_cons.
  - simplify_eq. assert (same_node id id = true) by by apply same_node_true. congruence.
  - by apply IH.
Qed.

(** What happens to a session's own map. *)
Lemma inner_one old new (m : gmap Z ulid) :
  let m' := match first_to old (range_entries m) with
            | Some c => match new with Some n => <[c := n]> m | None => delete c m end
            | None => m end in
  (exists c, m !! c = Some old /\ m' !! c = new /\ forall c', c' <> c -> m' !! c' = m !! c') \/
  ((forall c, m !! c <> Some old) /\ m' = m).
Proof.
  simpl. destruct (first_to old (range_entries m)) as [c|] eqn:Hf.
  - left. exists c. apply first_to_Some, elem_of_range_entries in Hf. split; [done|].
    destruct new as [n|]; simplify_map_eq; split; intros; simplify_map_eq; done.
  - right. split; [|done]. intros c Hc. apply (first_to_None _ _ c) in Hf.
    apply Hf. by apply elem_of_range_entries.
Qed.

Definition alter_all (f : gmap Z ulid -> gmap Z ulid) (ps : list nodes_ptr)
  (h : list (gmap Z ulid)) : list (gmap Z ulid) := foldl (fun h p => alter f p h) h ps.

Lemma alter_all_length f ps h : length (alter_all f ps h) = length h.
Proof.
  revert h. induction ps as [|p ps IH]; intros h; [done|]. simpl.
  rewrite IH. apply length_alter.
Qed.

Lemma alter_all_lookup f ps h p :
  NoDup ps ->
  alter_all f ps h !! p = (if decide (p ∈ ps) then f <$> h !! p else h !! p).
Proof.
  revert h. induction ps as [|q ps IH]; intros h Hnd; [done|].
  apply NoDup_cons in Hnd as [Hq Hnd]. simpl. rewrite IH by done.
  destruct (decide (p = q)) as [->|Hne].
  - rewrite decide_False, decide_True by (done || left). by rewrite list_lookup_alter_eq.
  - rewrite list_lookup_alter_ne by done.
    destruct (decide (p ∈ ps)) as [Hin|Hin].
    + by rewrite decide_True by by right.
    + rewrite decide_False; [done|]. by intros [|]%elem_of_cons.
Qed.

Lemma range_routes_alter_all f st :
  range_routes f st = set_route_heap st (alter_all f (range_entries (routes st)).*2 (route_heap st)).
Proof.
  unfold range_routes. generalize (range_entries (routes st)). intros l. revert st.
  induction l as [|[s p] l IH]; intros st; simpl; [by destruct st|]. by rewrite IH.
Qed.

Lemma range_pointers_NoDup st : table_wf st -> NoDup (range_entries (routes st)).*2.
Proof.
  intros [_ Hinj]. pose proof (NoDup_range_keys (routes st)) as Hnd.
  apply NoDup_fmap_2_strong; [|by apply NoDup_fmap_1 in Hnd].
  intros [s1 p1] [s2 p2] H1 H2 E. simpl in E. subst p2.
  apply elem_of_range_entries in H1, H2. by rewrite (Hinj s1 s2 p1).
Qed.

Lemma Find_range_routes f st s c :
  table_wf st ->
  Find (range_routes f st) s c =
    match routes st !! s with
    | None => None
    | Some p => m ← route_heap st !! p; f m !! c
    end.
Proof.
  intros Hwf. rewrite range_routes_alter_all. unfold Find. simpl.
  destruct (routes st !! s) as [p|] eqn:Hp; [|done].
  rewrite alter_all_lookup by by apply range_pointers_NoDup.
  rewrite decide_True.
  - by destruct (route_heap st !! p).
  - apply list_elem_of_fmap. exists (s, p). split; [done|]. by apply elem_of_range_entries.
Qed.

Lemma range_routes_wf f st : table_wf st -> table_wf (range_routes f st).
Proof.
  rewrite range_routes_alter_all. intros [Ha Hi]. split; simpl; [|done].
  intros s p. rewrite alter_all_length. apply Ha.
Qed.

(** A traversal that rewrites the first match in each session's map. *)
Lemma range_one_per_session old new f st :
  (forall m, f m = match first_to old (range_entries m) with
                   | Some c => match new with Some n => <[c := n]> m | None => delete c m end
                   | None => m end) ->
  table_wf st -> one_per_session old new (Find st) (Find (range_routes f st)).
Proof.
  intros Hf Hwf s.
  assert (forall c, Find (range_routes f st) s c = match routes st !! s with
    | None => None | Some p => m ← route_heap st !! p; f m !! c end) as E.
  { intros c. by apply Find_range_routes. }
  assert (forall c, Find st s c = match routes st !! s with
    | None => None | Some p => m ← route_heap st !! p; m !! c end) as E0 by done.
  setoid_rewrite E. setoid_rewrite E0. clear E E0.
  destruct (routes st !! s) as [p|]; [|by right].
  destruct (route_heap st !! p) as [m|]; simpl in *; [|by right].
  destruct (inner_one old new m) as [(c & H1 & H2 & H3)|[H1 H2]]; rewrite <- Hf in *.
  - left. eauto.
  - right. split; [done|]. intros c. by rewrite H2.
Qed.

Lemma Store_wf st s c n : table_wf st -> table_wf (Store st s c n).
Proof.
  intros [Ha Hi]. unfold Store. destruct (routes st !! s) as [p|] eqn:Hp; split; simpl.
  - intros s' p'. rewrite length_alter. apply Ha.
  - done.
  - intros s' p'. rewrite length_alter, length_app. simpl.
    rewrite lookup_insert_Some. intros [[_ <-]|[_ H]]; [lia|]. apply Ha in H. lia.
  - intros s1 s2 p. rewrite !lookup_insert_Some.
    intros [[<- <-]|[? H1]] [[<- ?]|[? H2]]; [done| | |by eapply Hi].
    + apply Ha in H2. lia.
    + subst. apply Ha in H1. lia.
Qed.

Lemma Store_Find st s c n s' c' :
  table_wf st ->
  Find (Store st s c n) s' c' = if decide (s' = s /\ c' = c) then Some n else Find st s' c'.
Proof.
  intros [Ha Hi]. unfold Find, Store. destruct (routes st !! s) as [p|] eqn:Hp; simpl.
  - destruct (decide (s' = s)) as [->|Hs].
    + rewrite Hp, list_lookup_alter_eq.
      destruct (lookup_lt_is_Some_2 (route_heap st) p) as [m Hm]; [by eapply Ha|].
      rewrite Hm. simpl. rewrite lookup_insert. repeat case_decide; naive_solver.
    + rewrite (decide_False (P := s' = s /\ _)) by naive_solver.
      destruct (routes st !! s') as [p'|] eqn:Hp'; [|done].
      rewrite list_lookup_alter_ne; [done|]. intros ->. apply Hs. by eapply Hi.
  - destruct (decide (s' = s)) as [->|Hs].
    + rewrite lookup_insert_eq, list_lookup_alter_eq, lookup_app_r, Nat.sub_diag, Hp by done.
      simpl. rewrite lookup_insert. rewrite lookup_empty. repeat case_decide; naive_solver.
    + rewrite (decide_False (P := s' = s /\ _)) by naive_solver.
      rewrite lookup_insert_ne by done. destruct (routes st !! s') as [p'|] eqn:Hp'; [|done].
      apply Ha in Hp'. rewrite list_lookup_alter_ne by lia. by rewrite lookup_app_l.
Qed.

Lemma Remove_wf st s c : table_wf st -> table_wf (Remove st s c).
Proof.
  intros [Ha Hi]. unfold Remove. destruct (routes st !! s) as [p|]; [|by split].
  split; simpl; [|done]. intros s' p'. rewrite length_alter. apply Ha.
Qed.

Lemma Remove_Find st s c s' c' :
  table_wf st ->
  Find (Remove st s c) s' c' = if decide (s' = s /\ c' = c) then None else Find st s' c'.
Proof.
  intros [Ha Hi]. unfold Find, Remove. destruct (routes st !! s) as [p|] eqn:Hp; simpl.
  - destruct (decide (s' = s)) as [->|Hs].
    + rewrite Hp, list_lookup_alter_eq. destruct (route_heap st !! p) as [m|]; simpl.
      * rewrite lookup_delete. repeat case_decide; naive_solver.
      * by case_decide.
    + rewrite (decide_False (P := s' = s /\ _)) by naive_solver.
      destruct (routes st !! s') as [p'|] eqn:Hp'; [|done].
      rewrite list_lookup_alter_ne; [done|]. intros ->. apply Hs. by eapply Hi.
  - case_decide as Hd; [|done]. destruct Hd as [-> _]. by rewrite Hp.
Qed.

Lemma CleanSession_wf st s : table_wf st -> table_wf (CleanSession st s).
Proof.
  intros [Ha Hi]. split; simpl.
  - intros s' p [_ H]%lookup_delete_Some. by eapply Ha.
  - intros s1 s2 p [_ H1]%lookup_delete_Some [_ H2]%lookup_delete_Some. by eapply Hi.
Qed.

Lemma CleanSession_Find st s s' c :
  Find (CleanSession st s) s' c = if decide (s' = s) then None else Find st s' c.
Proof. unfold Find. simpl. rewrite lookup_delete. repeat case_decide; naive_solver. Qed.

Lemma run_table_op_refines st op :
  table_wf st ->
  table_wf (run_table_op st op) /\ table_step (Find st) op (Find (run_table_op st op)).
Proof.
  intros Hwf. destruct op as [s c n|s c|n|old new|s]; simpl.
  - split; [by apply Store_wf|]. intros. by apply Store_Find.
  - split; [by apply Remove_wf|]. intros. by apply Remove_Find.
  - split; [by apply range_routes_wf|]. by apply range_one_per_session.
  - split; [by apply range_routes_wf|]. by apply range_one_per_session.
  - split; [by apply CleanSession_wf|]. intros. by apply CleanSession_Find.
Qed.
End Refinement.

(** ** The claims *)
Section Claims.
Context `{L : ULIDLaws} `{R : MapRange}.

Definition run_table (ops : list table_op) : stateTable := foldl run_table_op newStateTable ops.

Lemma run_table_refines ops st :
  table_wf st ->
  table_wf (foldl run_table_op st ops) /\
  steps table_step (Find st) ops (Find (foldl run_table_op st ops)).
Proof.
  revert st. induction ops as [|op ops IH]; intros st Hwf; [split; [done|constructor]|].
  destruct (run_table_op_refines st op Hwf) as [Hwf' Hstep].
  destruct (IH _ Hwf') as [Hwf'' Hsteps]. split; [done|]. by econstructor.
Qed.

(** C30. The pointer-based routing table implements its specification: started from
    the empty table, every sequence of operations is a run of the specification,
    in which [Store] and [Remove] change the one route they name, [CleanSession]
    forgets the routes of one session, and [CleanNode] and [ReplaceNode] change,
    in each session that has any route to the node, one such route. *)
Theorem route_table_refines ops :
  steps table_step (fun _ _ => None) ops (Find (run_table ops)).
Proof.
  apply (proj2 (run_table_refines ops newStateTable table_wf_init)).
Qed.

(** [CleanNode] leaves no route to the node exactly if no session had two
    services routed to it: the traversal of a session's routes ends at the first
    match, so a session that used two services of one node keeps a route to the
    node after the node was deleted. *)
Theorem CleanNode_complete_iff ops n :
  (forall s c, Find (CleanNode (run_table ops) n) s c <> Some n) <->
  (forall s c1 c2, Find (run_table ops) s c1 = Some n ->
                   Find (run_table ops) s c2 = Some n -> c1 = c2).
Proof.
  destruct (run_table_refines ops newStateTable table_wf_init) as [Hwf _].
  fold (run_table ops) in Hwf.
  pose proof (proj2 (run_table_op_refines (run_table ops) (TCleanNode n) Hwf)) as Hone.
  simpl in Hone. split.
  - intros Hgone s c1 c2 H1 H2. destruct (Hone s) as [(c & Hc & _ & Hother)|[Hno _]].
    + destruct (decide (c1 = c)) as [->|Hne1].
      * destruct (decide (c2 = c)) as [->|Hne2]; [done|].
        destruct (Hgone s c2). by rewrite Hother.
      * destruct (Hgone s c1). by rewrite Hother.
    + by destruct (Hno c1).
  - intros Huniq s c Hc. destruct (Hone s) as [(c' & Hc' & Hnew & Hother)|[Hno Hsame]].
    + destruct (decide (c = c')) as [->|Hne]; [congruence|].
      rewrite Hother in Hc by done. by eapply Hne, Huniq.
    + rewrite Hsame in Hc. by apply (Hno c).
Qed.
End Claims.

(** ** Witnesses *)

Definition sample_table_ops : list table_op :=
  [TStore "alice" 7 (sample_id 1); TStore "alice" 8 (sample_id 1);
   TStore "bob" 7 (sample_id 2); TRemove "bob" 9].

Lemma route_table_refines_witness :
  steps table_step (fun _ _ => None) sample_table_ops (Find (run_table sample_table_ops)).
Proof. apply (route_table_refines sample_table_ops). Defined.

(** Two services of one node: one route stays. *)
Lemma CleanNode_complete_iff_witness :
  ~ (forall s c, Find (CleanNode (run_table sample_table_ops) (sample_id 1)) s c
                 <> Some (sample_id 1)).
Proof.
  intros H. apply (CleanNode_complete_iff sample_table_ops (sample_id 1)) with
    (s := "alice"%string) (c1 := 7%Z) (c2 := 8%Z) in H; [discriminate H|reflexivity..].
Defined.
