(* ===== verification/Messages.v ===== *)
(** * Messages: [proto/nh]

    The messages between clients, gateways and services, and the helpers of
    [helper.go]. [ProtoMessage] is what the program uses of the protobuf runtime
    for one message type. *)

From Stdlib.Strings Require Export Byte.
From S2P Require Import Prelude External.

Local Open Scope Z_scope.

Abbreviation bytes := (list byte) (only parsing).

#[export] Instance byte_eq_dec : EqDecision byte := Byte.byte_eq_dec.

Class ProtoMessage (A : Type) := {
  proto_Marshal : A -> result bytes;
  proto_Unmarshal : bytes -> result A;
}.

(** A marshalled message is read back as it was. *)
Class ProtoLaws (A : Type) `{ProtoMessage A} : Prop := {
  proto_roundtrip (m : A) b : proto_Marshal m = Ok b -> proto_Unmarshal b = Ok m;
}.

(** ** Message types *)

Record Request := {
  Req_Id : Z;
  Req_ServiceCode : Z;
  Req_Method : string;
  Req_Data : bytes;
  Req_NodeId : string;
  Req_NoReply : bool;
  Req_Stream : string;
}.

Record Reply := {
  Rep_RequestId : Z;
  Rep_ServiceCode : Z;
  Rep_Code : Z;
  Rep_Data : bytes;
}.

(** The message of a status: a format with its arguments, or the text of an error. *)
Inductive status_text :=
  | TextFormat (format : string) (args : list earg)
  | TextOf (err : gerror).

(** [google.rpc.Status], without the details, which the program never looks at. *)
Record Status := { St_Code : code; St_Message : status_text }.

(** [status.FromError(err)] for an error that is not nil: the status of the error, or
    of the first error of its chain that has one, with the text of the whole; [None]
    is [ok = false]. *)
Fixpoint chain_code (err : gerror) : option code :=
  match err with
  | StatusErrorf c _ _ => Some c
  | Errorf _ _ (Some err) => chain_code err
  | _ => None
  end.
Definition status_FromError (err : gerror) : option Status :=
  match err with
  | StatusErrorf c f args => Some {| St_Code := c; St_Message := TextFormat f args |}
  | _ => match chain_code err with
         | Some c => Some {| St_Code := c; St_Message := TextOf err |}
         | None => None
         end
  end.

Record RPCError := {
  Err_RequestService : Z;
  Err_RequestMethod : string;
  Err_Status : Status;
}.

Record Multicast := {
  Mc_Receiver : list string;
  Mc_Time : option Z;
  Mc_Content : Reply;
  Mc_Stream : string;
  Mc_ToEveryone : bool;
}.

#[export] Instance Request_eq_dec : EqDecision Request.
Proof. solve_decision. Defined.
#[export] Instance Reply_eq_dec : EqDecision Reply.
Proof. solve_decision. Defined.
#[export] Instance Multicast_eq_dec : EqDecision Multicast.
Proof. solve_decision. Defined.

Definition ReplyCode_RPC_ERROR : Z := 1.

(** [enum.go] *)
Definition NodeServiceCode : Z := -1.
Definition GatewayServiceCode : Z := -2.

Definition SetRequestId (reply : Reply) (v : Z) : Reply := {|
  Rep_RequestId := v; Rep_ServiceCode := Rep_ServiceCode reply;
  Rep_Code := Rep_Code reply; Rep_Data := Rep_Data reply |}.
Definition SetServiceCode (reply : Reply) (v : Z) : Reply := {|
  Rep_RequestId := Rep_RequestId reply; Rep_ServiceCode := v;
  Rep_Code := Rep_Code reply; Rep_Data := Rep_Data reply |}.

(** ** Helpers *)

(** [NewReply]: the fields not given are zero. *)
Definition NewReply {A} `{ProtoMessage A} (code : Z) (msg : A) : result Reply :=
  match proto_Marshal msg with
  | Err err => Err err
  | Ok data =>
      Ok {| Rep_RequestId := 0; Rep_ServiceCode := 0; Rep_Code := code; Rep_Data := data |}
  end.

Definition NewMulticast (now : Z) (receiver : list string) (content : Reply) : Multicast := {|
  Mc_Receiver := receiver; Mc_Time := Some now; Mc_Content := content;
  Mc_Stream := ""%string; Mc_ToEveryone := false |}.

Section ReplyTypes.
(** [reflect.Type] of a message type, and a message of some type. *)
Context {mtype : Type} {message : Type}.
Variable unmarshal_as : mtype -> bytes -> result message.

(** [replyTypes], keyed by service code and message code. *)
Definition RegisterReplyType (types : gmap (Z * Z) mtype) (serviceCode code : Z) (t : mtype)
  : gmap (Z * Z) mtype := <[(serviceCode, code) := t]> types.

Definition GetReplyType (types : gmap (Z * Z) mtype) (serviceCode code : Z) : option mtype :=
  types !! (serviceCode, code).

(** [UnpackReply]: [None] is [ok = false]. *)
Definition UnpackReply (types : gmap (Z * Z) mtype) (reply : Reply) : option (result message) :=
  match GetReplyType types (Rep_ServiceCode reply) (Rep_Code reply) with
  | None => None
  | Some t => Some (unmarshal_as t (Rep_Data reply))
  end.
End ReplyTypes.

(** ** A faithful encoding of any countable type *)

#[export] Program Instance byte_countable : Countable byte :=
  inj_countable Byte.to_N Byte.of_N _.
Next Obligation. apply Byte.of_to_N. Qed.

(** The bits of the number that stands for a value. *)
Fixpoint bits (p : positive) : bytes :=
  match p with
  | xH => []
  | xO p => Byte.x30 :: bits p
  | xI p => Byte.x31 :: bits p
  end.
Fixpoint unbits (b : bytes) : positive :=
  match b with
  | [] => xH
  | Byte.x30 :: b => xO (unbits b)
  | _ :: b => xI (unbits b)
  end.
Lemma unbits_bits p : unbits (bits p) = p.
Proof. induction p as [p IH|p IH|]; simpl; congruence. Qed.

Definition encode_bytes `{Countable A} (a : A) : bytes := bits (encode a).
Definition decode_bytes `{Countable A} (b : bytes) : option A := decode (unbits b).
Lemma decode_encode_bytes `{Countable A} (a : A) : decode_bytes (encode_bytes a) = Some a.
Proof. unfold decode_bytes, encode_bytes. by rewrite unbits_bits, decode_encode. Qed.

(** A protobuf runtime that marshals everything, for witnesses. *)
Definition coded `{Countable A} : ProtoMessage A := {|
  proto_Marshal a := Ok (encode_bytes a);
  proto_Unmarshal b := match decode_bytes b with Some a => Ok a | None => Err (EForeign "proto") end;
|}.
Lemma coded_laws `{Countable A} : ProtoLaws A (H := coded).
Proof.
  split. intros m b [= <-]. cbn [proto_Unmarshal coded]. by rewrite decode_encode_bytes.
Qed.

#[export] Program Instance Reply_countable : Countable Reply :=
  inj_countable' (fun r => (Rep_RequestId r, Rep_ServiceCode r, Rep_Code r, Rep_Data r))
    (fun '(i, s, c, d) => {| Rep_RequestId := i; Rep_ServiceCode := s; Rep_Code := c; Rep_Data := d |}) _.
Next Obligation. by intros []. Qed.
#[export] Program Instance Multicast_countable : Countable Multicast :=
  inj_countable' (fun m => (Mc_Receiver m, Mc_Time m, Mc_Content m, Mc_Stream m, Mc_ToEveryone m))
    (fun '(r, t, c, s, e) => {| Mc_Receiver := r; Mc_Time := t; Mc_Content := c; Mc_Stream := s;
                                Mc_ToEveryone := e |}) _.
Next Obligation. by intros []. Qed.
