(* ===== verification/Codec.v ===== *)
(** * Codec: [internal/codec/message.go]

    Length-prefixed framing of messages over a byte stream, with the reuse of
    message buffers. A frame is four bytes of length, most significant first, and
    the data; a frame of length zero is a heartbeat. *)

From S2P Require Import Prelude External Messages.

Local Open Scope Z_scope.
Local Open Scope go_scope.

Definition SizeLen : nat := 4.

Definition byte_Z (b : byte) : Z := Z.of_N (Byte.to_N b).
Definition Z_byte (z : Z) : byte := default Byte.x00 (Byte.of_N (Z.to_N (z `mod` 256))).

(** [binary.BigEndian]: writing a [uint32] and [Uint32]. *)
Definition put_uint32 (z : Z) : bytes :=
  [Z_byte (Z.shiftr z 24); Z_byte (Z.shiftr z 16); Z_byte (Z.shiftr z 8); Z_byte z].
Definition get_uint32 (b : bytes) : Z :=
  foldl (fun acc x => Z.lor (Z.shiftl acc 8) (byte_Z x)) 0 b.

(** ** Sending *)

Definition SendBytes {A} (data : bytes) (sender : bytes -> A) : A :=
  let buf := put_uint32 (wrap_u 32 (Z.of_nat (length data))) in
  let buf := if decide (data = []) then buf else (buf ++ data)%list in
  sender buf.

Definition SendReply `{ProtoMessage Reply} {A} (reply : Reply) (sender : bytes -> result A)
  : result A :=
  match proto_Marshal reply with
  | Err err => Err (Errorf "marshal reply, %w" [] (Some err))
  | Ok data => SendBytes data sender
  end.

(** ** Readers

    What an [io.Reader] will deliver: the pieces successive calls of [Read] find,
    and the error when they are used up. *)
Record reader := { chunks : list bytes; read_err : gerror }.

(** The loop of [io.ReadFull] for [n] more bytes: the bytes read and what is left. *)
Fixpoint read_loop (n : nat) (cs : list bytes) : bytes * list bytes :=
  match n, cs with
  | O, _ => ([], cs)
  | _, [] => ([], [])
  | _, c :: cs' =>
      if (length c <=? n)%nat then
        let '(b, rest) := read_loop (n - length c) cs' in (c ++ b, rest)
      else (take n c, drop n c :: cs')
  end.

(** The error of a read that found [b] when more was asked for. *)
Definition short_error (b : bytes) (err : gerror) : gerror :=
  match b, err with
  | _ :: _, ESentinel io_EOF => ESentinel io_ErrUnexpectedEOF
  | _, e => e
  end.

(** [io.ReadFull]: with no byte read the reader's error is returned, with some but
    not all of them [io.EOF] becomes [io.ErrUnexpectedEOF]. The bytes are in the
    buffer in any case. *)
Definition io_ReadFull (r : reader) (n : nat) : bytes * option gerror * reader :=
  let '(b, rest) := read_loop n (chunks r) in
  let r' := {| chunks := rest; read_err := read_err r |} in
  if (length b =? n)%nat then (b, None, r')
  else
    (b, Some (short_error b (read_err r)), r').

(** ** Messages

    [data] is the backing array of the field [data], as long as its capacity. *)
Record Message := { data : bytes; size : Z }.

Definition Bytes (msg : Message) : outcome bytes :=
  if decide (0 <= size msg <= Z.of_nat (length (data msg)))
  then Ret (take (Z.to_nat (size msg)) (data msg)) else Panic.
Definition Len (msg : Message) : Z := size msg.
Definition Reset (msg : Message) : Message := {| data := data msg; size := 0 |}.

(** Overwriting the front of an array. *)
Definition overwrite (b arr : bytes) : bytes := b ++ drop (length b) arr.

Section Read.
(** [MaxMessageSize], and the capacity [append] chooses when it has to grow an
    array of the first capacity to hold the second number of elements. *)
Variable MaxMessageSize : Z.
Variable grow_cap : nat -> nat -> nat.

Definition grow (arr : bytes) (s : nat) : bytes :=
  if (length arr <? s)%nat
  then arr ++ replicate (max s (grow_cap (length arr) s) - length arr) Byte.x00
  else arr.

(** [ReadMessage(r, msg)]: the error, the message and what is left to read. *)
Definition ReadMessage (r : reader) (msg : Message)
  : outcome (option gerror * Message * reader) :=
  if (length (data msg) <? SizeLen)%nat then Panic
  else
    let '(b, err, r) := io_ReadFull r SizeLen in
    let msg := {| data := overwrite b (data msg); size := size msg |} in
    match err with
    | Some err => Ret (Some (Errorf "read size frame, %w" [] (Some err)), msg, r)
    | None =>
        let msg := {| data := data msg; size := get_uint32 (take SizeLen (data msg)) |} in
        if size msg =? 0 then Ret (None, msg, r)
        else if MaxMessageSize <? size msg
        then Ret (Some (Errorf "message size exceeds the limit, %d" [AInt (size msg)] None), msg, r)
        else
          let s := Z.to_nat (size msg) in
          let msg := {| data := grow (data msg) s; size := size msg |} in
          let '(b, err, r) := io_ReadFull r s in
          let msg := {| data := overwrite b (data msg); size := size msg |} in
          match err with
          | Some err => Ret (Some (Errorf "read data frame, %w" [] (Some err)), msg, r)
          | None => Ret (None, msg, r)
          end
    end.
End Read.

(** ** The pool of messages: a channel of 1024, never waited for *)

Definition pool_cap : nat := 1024.

(** [messagePool.Get] *)
Definition pool_Get (pool : list Message) : Message * list Message :=
  match pool with
  | msg :: pool => (Reset msg, pool)
  | [] => ({| data := replicate (4 * 1024) Byte.x00; size := 0 |}, [])
  end.

(** [messagePool.Put] *)
Definition pool_Put (pool : list Message) (msg : Message) : list Message :=
  if (length pool <? pool_cap)%nat then (pool ++ [msg])%list else pool.

(** ** Lengths *)

Lemma byte_Z_range b : 0 <= byte_Z b < 256.
Proof. unfold byte_Z. pose proof (Byte.to_N_bounded b). lia. Qed.

Lemma byte_Z_byte z : byte_Z (Z_byte z) = z `mod` 256.
Proof.
  unfold byte_Z, Z_byte. pose proof (Z.mod_pos_bound z 256 ltac:(lia)) as Hm.
  destruct (Byte.of_N (Z.to_N (z `mod` 256))) as [b|] eqn:Hb; simpl.
  - apply Byte.to_of_N in Hb. rewrite Hb. lia.
  - apply Byte.of_N_None_iff in Hb. lia.
Qed.

Lemma lor_shift8 a b : 0 <= a -> 0 <= b < 256 -> Z.lor (Z.shiftl a 8) b = a * 256 + b.
Proof.
  intros Ha Hb. rewrite <- Z.add_nocarry_lor.
  - rewrite Z.shiftl_mul_pow2 by lia. lia.
  - apply Z.bits_inj'. intros n Hn. rewrite Z.land_spec, Z.bits_0.
    destruct (Z_lt_dec n 8) as [Hlt|Hge].
    + by rewrite Z.shiftl_spec_low.
    + rewrite (Z.bits_above_log2 b n); [by rewrite andb_false_r|lia|].
      destruct (decide (b = 0)) as [->|]; [simpl; lia|].
      assert (Z.log2 b < 8); [|lia]. by apply Z.log2_lt_pow2; lia.
Qed.

Lemma get_uint32_four b0 b1 b2 b3 :
  get_uint32 [b0; b1; b2; b3]
  = ((byte_Z b0 * 256 + byte_Z b1) * 256 + byte_Z b2) * 256 + byte_Z b3.
Proof.
  unfold get_uint32. cbn [foldl].
  pose proof (byte_Z_range b0). pose proof (byte_Z_range b1).
  pose proof (byte_Z_range b2). pose proof (byte_Z_range b3).
  rewrite (lor_shift8 0), (lor_shift8 _ (byte_Z b1)) by lia.
  rewrite (lor_shift8 _ (byte_Z b2)), (lor_shift8 _ (byte_Z b3)) by lia. lia.
Qed.

Lemma get_put_uint32 z : 0 <= z < 2 ^ 32 -> get_uint32 (put_uint32 z) = z.
Proof.
  intros Hz. unfold put_uint32.
  rewrite get_uint32_four, !byte_Z_byte, !Z.shiftr_div_pow2 by lia.
  Z.to_euclidean_division_equations; lia.
Qed.

Lemma get_uint32_range b : length b = SizeLen -> 0 <= get_uint32 b < 2 ^ 32.
Proof.
  intros Hl. destruct b as [|b0 [|b1 [|b2 [|b3 [|]]]]]; try discriminate Hl.
  rewrite get_uint32_four.
  pose proof (byte_Z_range b0). pose proof (byte_Z_range b1).
  pose proof (byte_Z_range b2). pose proof (byte_Z_range b3). lia.
Qed.

(** ** Reading *)

(** What is left to read, whatever the pieces it arrives in. *)
Definition pending (r : reader) : bytes := mjoin (chunks r).

Lemma read_loop_spec n cs :
  (read_loop n cs).1 = take n (mjoin cs) /\ mjoin (read_loop n cs).2 = drop n (mjoin cs).
Proof.
  revert n. induction cs as [|c cs IH]; intros [|n]; [done|done|done|].
  cbn [read_loop]. change (mjoin (c :: cs)) with (c ++ mjoin cs)%list.
  destruct (Nat.leb_spec (length c) (S n)) as [Hle|Hgt].
  - destruct (IH (S n - length c)%nat) as [H1 H2].
    destruct (read_loop (S n - length c) cs) as [b rest]. simpl fst in *. simpl snd in *.
    rewrite H1, H2, take_app_ge, drop_app_ge by done. done.
  - split; [by rewrite take_app_le by lia|].
    rewrite drop_app_le by lia. reflexivity.
Qed.

Lemma io_ReadFull_spec r n :
  exists r', read_err r' = read_err r /\ pending r' = drop n (pending r) /\
    io_ReadFull r n =
      (take n (pending r),
       if (n <=? length (pending r))%nat then None
       else Some (short_error (pending r) (read_err r)), r').
Proof.
  unfold io_ReadFull, pending. pose proof (read_loop_spec n (chunks r)) as [H1 H2].
  destruct (read_loop n (chunks r)) as [b rest]. simpl in *. subst b.
  eexists {| chunks := rest; read_err := read_err r |}. split_and!; [done|done|].
  destruct (Nat.leb_spec n (length (mjoin (chunks r)))) as [Hle|Hgt].
  - rewrite length_take_le, Nat.eqb_refl by done. done.
  - rewrite take_ge by lia. destruct (Nat.eqb_spec (length (mjoin (chunks r))) n); [lia|].
    done.
Qed.

Lemma take_overwrite b arr n : length b = n -> take n (overwrite b arr) = b.
Proof. intros <-. unfold overwrite. by rewrite take_app_length. Qed.

Lemma length_overwrite b arr :
  (length b <= length arr)%nat -> length (overwrite b arr) = length arr.
Proof. intros. unfold overwrite. rewrite length_app, length_drop. lia. Qed.

Lemma length_grow gc arr s :
  (length arr <= length (grow gc arr s))%nat /\ (s <= length (grow gc arr s))%nat.
Proof.
  unfold grow. destruct (Nat.ltb_spec (length arr) s); [|lia].
  rewrite length_app, length_replicate. lia.
Qed.

Lemma Bytes_data b arr s :
  s = Z.of_nat (length b) -> (length b <= length arr)%nat ->
  Bytes {| data := overwrite b arr; size := s |} = Ret b.
Proof.
  intros -> Hle. unfold Bytes. simpl. rewrite length_overwrite by done.
  rewrite decide_True by lia. by rewrite Nat2Z.id, take_overwrite.
Qed.

Section Claims.
Variable MaxMessageSize : Z.
Variable grow_cap : nat -> nat -> nat.

(** What a call of [ReadMessage] must do with the bytes [s] still to be read, with
    [err] after them: the error, the size field, the payload and how many bytes are
    consumed. *)
Inductive read_spec (s : bytes) (err : gerror)
  : option gerror -> option Z -> option bytes -> nat -> Prop :=
  | read_no_header :
      (length s < SizeLen)%nat ->
      read_spec s err (Some (Errorf "read size frame, %w" [] (Some (short_error s err))))
        None None (length s)
  | read_heartbeat :
      (SizeLen <= length s)%nat -> get_uint32 (take SizeLen s) = 0 ->
      read_spec s err None (Some 0) (Some []) SizeLen
  | read_oversize n :
      (SizeLen <= length s)%nat -> get_uint32 (take SizeLen s) = n -> MaxMessageSize < n ->
      n <> 0 ->
      read_spec s err (Some (Errorf "message size exceeds the limit, %d" [AInt n] None))
        (Some n) None SizeLen
  | read_short n :
      (SizeLen <= length s)%nat -> get_uint32 (take SizeLen s) = n ->
      0 < n <= MaxMessageSize -> (length s < SizeLen + Z.to_nat n)%nat ->
      read_spec s err
        (Some (Errorf "read data frame, %w" [] (Some (short_error (drop SizeLen s) err))))
        (Some n) None (length s)
  | read_full n :
      get_uint32 (take SizeLen s) = n ->
      0 < n <= MaxMessageSize -> (SizeLen + Z.to_nat n <= length s)%nat ->
      read_spec s err None (Some n) (Some (take (Z.to_nat n) (drop SizeLen s)))
        (SizeLen + Z.to_nat n).

Lemma ReadMessage_run r msg :
  (SizeLen <= length (data msg))%nat ->
  exists err msg' r' sz payload n,
    ReadMessage MaxMessageSize grow_cap r msg = Ret (err, msg', r') /\
    read_spec (pending r) (read_err r) err sz payload n /\
    pending r' = drop n (pending r) /\ read_err r' = read_err r /\
    size msg' = default (size msg) sz /\
    (forall b, payload = Some b -> Bytes msg' = Ret b) /\
    (length (data msg) <= length (data msg'))%nat /\
    (MaxMessageSize < size msg' -> length (data msg') = length (data msg)).
Proof.
  intros Hcap. unfold ReadMessage. destruct (Nat.ltb_spec (length (data msg)) SizeLen) as [|_]; [lia|].
  destruct (io_ReadFull_spec r SizeLen) as (r1 & He1 & Hp1 & ->).
  destruct (Nat.leb_spec SizeLen (length (pending r))) as [Hh|Hh]; cycle 1.
  { rewrite take_ge by lia.
    do 3 eexists. exists None, None, (length (pending r)). split; [done|].
    split; [by apply read_no_header|]. simpl data. rewrite length_overwrite by lia.
    rewrite Hp1, !drop_ge by lia. split_and!; auto; done. }
  assert (length (take SizeLen (pending r)) = SizeLen) as Ht by (rewrite length_take_le; lia).
  cbv zeta. cbn [data size]. rewrite take_overwrite by done.
  set (n := get_uint32 (take SizeLen (pending r))).
  destruct (get_uint32_range _ Ht) as [Hn0 _]. fold n in Hn0.
  destruct (Z.eqb_spec n 0) as [Hz|Hnz].
  { do 3 eexists. exists (Some n), (Some []), SizeLen. split; [done|].
    split; [rewrite Hz; by apply read_heartbeat|]. cbn [data size].
    rewrite length_overwrite by lia. split_and!; auto; try done.
    intros b [= <-]. unfold Bytes. cbn [data size]. rewrite Hz, decide_True by lia. done. }
  destruct (Z.ltb_spec MaxMessageSize n) as [Hmax|Hmax].
  { do 3 eexists. exists (Some n), None, SizeLen. split; [done|].
    split; [by apply read_oversize|]. cbn [data size].
    rewrite length_overwrite by lia. split_and!; auto; done. }
  destruct (length_grow grow_cap (overwrite (take SizeLen (pending r)) (data msg)) (Z.to_nat n))
    as [Hg1 Hg2]. rewrite length_overwrite in Hg1 by lia.
  destruct (io_ReadFull_spec r1 (Z.to_nat n)) as (r2 & He2 & Hp2 & ->).
  rewrite Hp1 in *. rewrite length_drop, drop_drop in *.
  destruct (Nat.leb_spec (Z.to_nat n) (length (pending r) - SizeLen)) as [Hd|Hd].
  - do 3 eexists. exists (Some n), (Some (take (Z.to_nat n) (drop SizeLen (pending r)))),
      (SizeLen + Z.to_nat n)%nat. split; [done|].
    assert (length (take (Z.to_nat n) (drop SizeLen (pending r))) = Z.to_nat n) as Hl
      by (rewrite length_take_le; rewrite ?length_drop; lia).
    split; [apply read_full; [done|lia|lia]|]. cbn [data size].
    split_and!; [done|congruence|done| |rewrite length_overwrite; lia|lia].
    intros b [= <-]. apply Bytes_data; lia.
  - rewrite take_ge by (rewrite length_drop; lia).
    do 3 eexists. exists (Some n), None, (length (pending r)). split; [by rewrite He1|].
    split; [apply read_short; [done|done|lia|lia]|]. cbn [data size].
    rewrite length_overwrite by (rewrite length_drop; lia).
    rewrite Hp2, !drop_ge by lia.
    split_and!; [done|congruence|done|done|lia|lia].
Qed.
(** One call to [sender]: the frame. *)
Definition frame (m : bytes) : bytes := SendBytes m (fun buf => buf).

Lemma frame_eq m : frame m = (put_uint32 (wrap_u 32 (Z.of_nat (length m))) ++ m)%list.
Proof. unfold frame, SendBytes. case_decide; [subst; done|done]. Qed.

Lemma read_spec_frame m rest err e sz payload n :
  Z.of_nat (length m) <= MaxMessageSize -> Z.of_nat (length m) < 2 ^ 32 ->
  read_spec (frame m ++ rest) err e sz payload n ->
  e = None /\ payload = Some m /\ drop n (frame m ++ rest) = rest /\
  sz = Some (Z.of_nat (length m)).
Proof.
  intros Hmax H32. rewrite frame_eq, wrap_u_small, <- app_assoc by lia.
  set (h := put_uint32 (Z.of_nat (length m))).
  assert (length h = SizeLen) as Hlh by done.
  assert (get_uint32 h = Z.of_nat (length m)) as Hget by (apply get_put_uint32; lia).
  assert (take SizeLen (h ++ m ++ rest) = h) as Ht by (by rewrite <- Hlh, take_app_length).
  assert (drop SizeLen (h ++ m ++ rest) = m ++ rest)%list as Hd
    by (by rewrite <- Hlh, drop_app_length).
  assert (length (h ++ m ++ rest) = SizeLen + (length m + length rest))%nat as Hl
    by (by rewrite !length_app, Hlh).
  intros Hr. inversion Hr; subst; try rewrite Ht in *; try rewrite Hl in *;
    rewrite ?Hget in *; try lia.
  - assert (m = []) as -> by (apply length_zero_iff_nil; lia). by rewrite Hd.
  - rewrite <- drop_drop, Hd, Nat2Z.id, take_app_length, drop_app_length. done.
Qed.

(** Reading [k] messages one after another with the same buffer, as the read loops
    of the transports do, keeping a copy of each payload. *)
Fixpoint read_messages (k : nat) (r : reader) (msg : Message)
  : outcome (option gerror * list bytes * Message * reader) :=
  match k with
  | O => Ret (None, [], msg, r)
  | S k =>
      let! (err, msg, r) := ReadMessage MaxMessageSize grow_cap r msg in
      match err with
      | Some err => Ret (Some err, [], msg, r)
      | None =>
          let! b := Bytes msg in
          let! (err, bs, msg, r) := read_messages k r msg in
          Ret (err, b :: bs, msg, r)
      end
  end.

(** C35. [ReadMessage] on any reader and any message buffer that holds a length:
    it does not panic, and the error, the payload and the bytes consumed are those of
    [read_spec], so they depend on the bytes of the stream only and not on the pieces
    they arrive in. The buffer never shrinks, and it grows only for a message within
    the limit: a peer that announces a longer one is refused before a byte of it is
    read or a byte is allocated. *)
Theorem ReadMessage_total r msg :
  (SizeLen <= length (data msg))%nat ->
  exists err msg' r' sz payload n,
    ReadMessage MaxMessageSize grow_cap r msg = Ret (err, msg', r') /\
    read_spec (pending r) (read_err r) err sz payload n /\
    pending r' = drop n (pending r) /\ read_err r' = read_err r /\
    size msg' = default (size msg) sz /\
    (forall b, payload = Some b -> Bytes msg' = Ret b) /\
    (length (data msg) <= length (data msg'))%nat /\
    (MaxMessageSize < size msg' -> length (data msg') = length (data msg)).
Proof. apply ReadMessage_run. Qed.

(** C3. Frames survive the stream: payloads no longer than the limit (empty ones,
    the heartbeats, included) written one after another with [SendBytes] are read back
    by successive calls of [ReadMessage] as they were and in order, whatever pieces the
    stream is delivered in and whatever the reused buffer held; nothing of what
    follows them is consumed. *)
Theorem frames_roundtrip ms rest r msg :
  MaxMessageSize < 2 ^ 32 ->
  Forall (fun m => Z.of_nat (length m) <= MaxMessageSize) ms ->
  (SizeLen <= length (data msg))%nat ->
  pending r = (mjoin (frame <$> ms) ++ rest)%list ->
  exists msg' r', read_messages (length ms) r msg = Ret (None, ms, msg', r') /\
    pending r' = rest /\ read_err r' = read_err r.
Proof.
  intros Hlim Hms. revert r msg. induction Hms as [|m ms Hm Hms IH]; intros r msg Hcap Hp.
  { by exists msg, r. }
  change (mjoin (frame <$> m :: ms)) with (frame m ++ mjoin (frame <$> ms))%list in Hp.
  rewrite <- app_assoc in Hp.
  destruct (ReadMessage_run r msg Hcap) as
    (e & msg1 & r1 & sz & payload & n & Hrun & Hspec & Hp1 & He1 & _ & Hb & Hc & _).
  rewrite Hp in Hspec, Hp1.
  destruct (read_spec_frame _ _ _ _ _ _ _ Hm ltac:(lia) Hspec) as (-> & -> & Hdrop & ->).
  destruct (IH r1 msg1) as (msg2 & r2 & Hrun2 & Hp2 & He2); [lia|congruence|].
  exists msg2, r2. simpl. rewrite Hrun. simpl. rewrite (Hb m eq_refl). simpl. rewrite Hrun2.
  split_and!; [done|done|congruence].
Qed.
End Claims.

Definition sample_stream : reader :=
  {| chunks := [[Byte.x00; Byte.x00; Byte.x00]; []; [Byte.x02; Byte.x61]; [Byte.x62; Byte.x00];
                [Byte.x00; Byte.x00; Byte.x00; Byte.x7f]];
     read_err := io_EOF |}.
Definition sample_buffer : Message := {| data := replicate 4 Byte.xff; size := 9 |}.

Lemma frames_roundtrip_witness :
  exists msg' r', read_messages 65536 (fun _ n => n) 2 sample_stream sample_buffer
    = Ret (None, [[Byte.x61; Byte.x62]; []], msg', r') /\
    pending r' = [Byte.x7f] /\ read_err r' = io_EOF.
Proof.
  apply (frames_roundtrip 65536 (fun _ n => n) [[Byte.x61; Byte.x62]; []] [Byte.x7f]
           sample_stream sample_buffer).
  - lia.
  - apply Forall_cons_2; [|apply Forall_cons_2; [|by apply Forall_nil_2]]; simpl; lia.
  - apply le_n.
  - reflexivity.
Defined.

Lemma ReadMessage_total_witness :
  exists err msg' r' sz payload n,
    ReadMessage 65536 (fun _ n => n) sample_stream sample_buffer = Ret (err, msg', r') /\
    read_spec 65536 (pending sample_stream) io_EOF err sz payload n /\
    pending r' = drop n (pending sample_stream) /\ read_err r' = io_EOF /\
    size msg' = default 9 sz /\
    (forall b, payload = Some b -> Bytes msg' = Ret b) /\
    (4 <= length (data msg'))%nat /\ (65536 < size msg' -> length (data msg') = 4%nat).
Proof.
  apply (ReadMessage_total 65536 (fun _ n => n) sample_stream sample_buffer). apply le_n.
Defined.
