(* ===== verification/Registry.v ===== *)
(** * Registry: [cluster/registry.go], [cluster/event.go]

    The cluster's nodes as a process follows them in etcd: its own entry under a
    lease, the watch with its retries, the application of changes by revision and
    the full synchronisation. The etcd client is outside: its answers are arguments,
    and what is written to it a result. *)

From S2P Require Import Prelude External Entry PathLib Samples Balancer Resolver.

Local Open Scope go_scope.
Local Open Scope Z_scope.

(** [json.Marshal] and [json.Unmarshal] of a node entry. *)
Class EntryJSON `{U : ULID} := {
  json_Marshal : NodeEntry -> result string;
  json_Unmarshal : string -> result NodeEntry;
}.

Inductive EventType := PUT | DELETE | UnknownEventType (n : Z).
Record KeyValue := { kv_Key : string; kv_Value : string; kv_ModRevision : Z }.
Record Event := { ev_Type : EventType; ev_Kv : KeyValue; ev_PrevKv : option KeyValue }.

(** The response of a [Get]: the revision of its header and the keys. *)
Record GetResponse := { Header_Revision : Z; Kvs : list KeyValue }.

(** What the watch channel yields. *)
Record WatchResponse := { w_Err : option gerror; w_Created : bool; w_Events : list Event }.

Definition NoLease : Z := 0.

Section Registry.
Context `{U : ULID} `{R : MapRange} `{N : Net} `{X : XXHash} `{G : GRPCDial} `{J : !EntryJSON}.
Variable registered : gmap string BalancerFactory.

Inductive node_event :=
  | eventUpdateNode (Entry : NodeEntry)
  | eventDeleteNode (Entry : NodeEntry).

(** [versions] and [maxRev] are the variables [runWatcher] shares with its
    goroutines; [events] lists what was sent to the channel of that name. *)
Record Registry := {
  keyPrefix : string;
  resolver : grpcResolver;
  leaseID : Z;
  leaseTTL : Z;
  watchRetryMax : Z;
  watchRetryInterval : Z;
  nodes : gmap ulid NodeEntry;
  versions : gmap string Z;
  maxRev : Z;
  events : list node_event;
}.

Definition set_resolver (r : Registry) x := {|
  keyPrefix := keyPrefix r; resolver := x; leaseID := leaseID r; leaseTTL := leaseTTL r;
  watchRetryMax := watchRetryMax r; watchRetryInterval := watchRetryInterval r;
  nodes := nodes r; versions := versions r; maxRev := maxRev r; events := events r |}.
Definition set_nodes (r : Registry) x ev := {|
  keyPrefix := keyPrefix r; resolver := resolver r; leaseID := leaseID r; leaseTTL := leaseTTL r;
  watchRetryMax := watchRetryMax r; watchRetryInterval := watchRetryInterval r;
  nodes := x; versions := versions r; maxRev := maxRev r; events := (events r ++ [ev])%list |}.
Definition set_versions (r : Registry) x m := {|
  keyPrefix := keyPrefix r; resolver := resolver r; leaseID := leaseID r; leaseTTL := leaseTTL r;
  watchRetryMax := watchRetryMax r; watchRetryInterval := watchRetryInterval r;
  nodes := nodes r; versions := x; maxRev := m; events := events r |}.
Definition set_lease (r : Registry) x := {|
  keyPrefix := keyPrefix r; resolver := resolver r; leaseID := x; leaseTTL := leaseTTL r;
  watchRetryMax := watchRetryMax r; watchRetryInterval := watchRetryInterval r;
  nodes := nodes r; versions := versions r; maxRev := maxRev r; events := events r |}.
Definition set_config (r : Registry) prefix ttl max interval := {|
  keyPrefix := prefix; resolver := resolver r; leaseID := leaseID r; leaseTTL := ttl;
  watchRetryMax := max; watchRetryInterval := interval;
  nodes := nodes r; versions := versions r; maxRev := maxRev r; events := events r |}.

(** The key of a node's entry. *)
Definition entry_key (prefix : string) (id : ulid) : string := path_Join prefix (ulid_String id).

(** ** The functions of [runWatcher] *)

Definition removeNode (r : Registry) (entry : NodeEntry) : outcome Registry :=
  let! res := Remove registered (resolver r) entry in
  let r := set_resolver r res in
  Ret (set_nodes r (delete (ID entry) (nodes r)) (eventDeleteNode entry)).

(** [apply]: the error of [json.Unmarshal] is only logged. *)
Definition apply (r : Registry) (ev : Event) : outcome Registry :=
  let rev := kv_ModRevision (ev_Kv ev) in
  let r := if maxRev r <? rev then set_versions r (versions r) rev else r in
  let key := kv_Key (ev_Kv ev) in
  if match versions r !! key with Some ver => rev <=? ver | None => false end then Ret r
  else
    let r := set_versions r (<[key := rev]> (versions r)) (maxRev r) in
    let kv := match ev_Type ev with DELETE => ev_PrevKv ev | _ => Some (ev_Kv ev) end in
    match kv with
    | None => Panic
    | Some kv =>
        match json_Unmarshal (kv_Value kv) with
        | Err _ => Ret r
        | Ok entry =>
            match ev_Type ev with
            | PUT =>
                let! res := Update registered (resolver r) entry in
                let r := set_resolver r res in
                Ret (set_nodes r (<[ID entry := entry]> (nodes r)) (eventUpdateNode entry))
            | DELETE => removeNode r entry
            | UnknownEventType _ => Ret r
            end
        end
    end.

(** The first loop of [resync]. *)
Fixpoint apply_kvs (r : Registry) (kvs : list KeyValue) : outcome Registry :=
  match kvs with
  | [] => Ret r
  | kv :: kvs =>
      let! r := apply r {| ev_Type := PUT; ev_Kv := kv; ev_PrevKv := None |} in
      apply_kvs r kvs
  end.

(** The second one, over the nodes. *)
Fixpoint remove_stale (r : Registry) (exists_ : gset string) (rev : Z) (entries : list NodeEntry)
  : outcome Registry :=
  match entries with
  | [] => Ret r
  | entry :: entries =>
      let key := entry_key (keyPrefix r) (ID entry) in
      if bool_decide (key ∈ exists_) then remove_stale r exists_ rev entries
      else
        let r := set_versions r (<[key := rev]> (versions r)) (maxRev r) in
        let! r := removeNode r entry in
        remove_stale r exists_ rev entries
  end.

Definition resync (r : Registry) (get : result GetResponse) : outcome (option gerror * Registry) :=
  match get with
  | Err err => Ret (Some (Errorf "get exist entries, %w" [] (Some err)), r)
  | Ok resp =>
      let r := if Header_Revision resp <? maxRev r
               then set_versions r ∅ (Header_Revision resp) else r in
      let exists_ : gset string := list_to_set (kv_Key <$> Kvs resp) in
      let! r := apply_kvs r (Kvs resp) in
      let! r := remove_stale r exists_ (Header_Revision resp) (range_values (nodes r)) in
      Ret (None, r)
  end.

(** ** The watch

    What [select] finds in [consume]: the client's context is done, the channel is
    closed, or a response; [get] is what [resync] gets if the response makes it run. *)
Inductive watch_input :=
  | WatchDone (err : gerror)
  | WatchClosed
  | WatchResp (resp : WatchResponse) (get : result GetResponse).

(** The loop over [wResp.Events]. *)
Fixpoint apply_events (r : Registry) (evs : list Event) : outcome Registry :=
  match evs with
  | [] => Ret r
  | ev :: evs =>
      match ev_Type ev with
      | PUT | DELETE => let! r := apply r ev in apply_events r evs
      | UnknownEventType _ => apply_events r evs
      end
  end.

(** [consume]: the error, the registry and [retries]. It is blocked when nothing
    more comes. *)
Fixpoint consume (r : Registry) (retries : Z) (inputs : list watch_input)
  : outcome (gerror * Registry * Z) :=
  match inputs with
  | [] => Blocked
  | WatchDone err :: _ => Ret (err, r, retries)
  | WatchClosed :: _ => Ret (ErrorsNew "watch channel closed", r, retries)
  | WatchResp resp get :: inputs =>
      match w_Err resp with
      | Some err => Ret (Errorf "watch response, %w" [] (Some err), r, retries)
      | None =>
          let! r := if w_Created resp
                    then (let! (_, r) := resync r get in Ret r)
                    else Ret r in
          let! r := apply_events r (w_Events resp) in
          consume r 0 inputs
      end
  end.

(** The loop around it. A session is what one watch yields, and whether the
    client's context is done in the pause after it. *)
Fixpoint watch_loop (r : Registry) (retries : Z) (sessions : list (list watch_input * bool))
  : outcome Registry :=
  match sessions with
  | [] => Blocked
  | (inputs, done_) :: sessions =>
      let! (err, r, retries) := consume r retries inputs in
      if errors_Is err context_Canceled then Ret r
      else if watchRetryMax r <=? retries then Panic
      else if done_ then Ret r
      else watch_loop r (wrap_s 64 (retries + 1)) sessions
  end.

(** ** Construction *)

Definition WithKeyPrefix (prefix : string) (r : Registry) : Registry :=
  set_config r prefix (leaseTTL r) (watchRetryMax r) (watchRetryInterval r).
(** The dial options are part of [grpc_NewClient]. *)
Definition WithGRPCDialOptions (r : Registry) : Registry := set_resolver r newGRPCResolver.
Definition WithLeaseTTL (seconds : Z) (r : Registry) : Registry :=
  set_config r (keyPrefix r) seconds (watchRetryMax r) (watchRetryInterval r).
Definition WithWatchRetry (maxRetries interval : Z) (r : Registry) : Registry :=
  let r := if 0 <? maxRetries
           then set_config r (keyPrefix r) (leaseTTL r) maxRetries (watchRetryInterval r) else r in
  if 0 <? interval then set_config r (keyPrefix r) (leaseTTL r) (watchRetryMax r) interval else r.

Definition Second : Z := 10 ^ 9.

(** [NewRegistry] up to the call of [runWatcher]. *)
Definition initial_registry (opt : list (Registry -> Registry)) : Registry :=
  foldl (fun r fn => fn r)
    {| keyPrefix := "/nodehub/node"; resolver := newGRPCResolver; leaseID := NoLease;
       leaseTTL := 10; watchRetryMax := 10; watchRetryInterval := 30 * Second;
       nodes := ∅; versions := ∅; maxRev := 0; events := [] |} opt.

(** [NewRegistry], up to the start of its goroutines; [get] is what the first
    synchronisation gets. *)
Definition NewRegistry (opt : list (Registry -> Registry)) (get : result GetResponse)
  : outcome (result Registry) :=
  let! (err, r) := resync (initial_registry opt) get in
  Ret match err with
      | Some err => Err (Errorf "run watcher, %w" [] (Some err))
      | None => Ok r
      end.

(** ** The node's own entry *)

(** [initLease]: the answers of [Grant] and of [KeepAlive]. *)
Definition initLease (r : Registry) (grant : result Z) (keepalive : option gerror)
  : option gerror * Registry :=
  if negb (leaseID r =? NoLease) then (None, r)
  else
    match grant with
    | Err err => (Some (Errorf "grant lease, %w" [] (Some err)), r)
    | Ok id =>
        match keepalive with
        | Some err => (Some (Errorf "keep lease alive, %w" [] (Some err)), r)
        | None => (None, set_lease r id)
        end
    end.

(** The goroutine that keeps the lease: an answer on the channel, the closing of the
    channel, a tick with the answer of [TimeToLive], the end of the client. *)
Inductive keeper_input :=
  | KeepAliveResp | KeepAliveClosed | KeeperTick (ttl : result Z) | KeeperDone.

Fixpoint lease_keeper (inputs : list keeper_input) : outcome () :=
  match inputs with
  | [] => Blocked
  | KeepAliveResp :: inputs => lease_keeper inputs
  | KeepAliveClosed :: _ => Panic
  | KeeperTick (Err _) :: inputs => lease_keeper inputs
  | KeeperTick (Ok ttl) :: inputs => if ttl <? 0 then Panic else lease_keeper inputs
  | KeeperDone :: _ => Ret ()
  end.

(** A write: the key, the value and the lease. *)
Definition etcd_put : Type := string * string * Z.

(** [Put]: the error, the registry and what is written; [put] is the answer of the
    write. *)
Definition Put (r : Registry) (entry : NodeEntry) (grant : result Z) (keepalive put : option gerror)
  : option gerror * Registry * option etcd_put :=
  match Validate entry with
  | Err err => (Some (Errorf "validate entry, %w" [] (Some err)), r, None)
  | Ok _ =>
      match json_Marshal entry with
      | Err err => (Some (Errorf "marshal entry, %w" [] (Some err)), r, None)
      | Ok value =>
          let '(err, r) := initLease r grant keepalive in
          match err with
          | Some err => (Some (Errorf "run keeper, %w" [] (Some err)), r, None)
          | None =>
              let key := entry_key (keyPrefix r) (ID entry) in
              (put, r, Some (key, value, leaseID r))
          end
      end
  end.

(** ** Queries *)

Definition GetGRPCDesc (r : Registry) (serviceCode : Z) : option GRPCServiceDesc :=
  GetDesc (resolver r) serviceCode.
Definition AllocGRPCNode (r : Registry) (serviceCode : Z) (sess : Session) (seed : Z)
  : outcome (result ulid) := AllocNode (resolver r) serviceCode sess seed.
Definition PickGRPCNode (r : Registry) (serviceCode : Z) (seed : Z) : outcome (result ulid) :=
  PickNode (resolver r) serviceCode seed.
Definition GetGRPCConn (r : Registry) (nodeID : ulid) : result conn * Registry :=
  let '(c, res) := GetConn (resolver r) nodeID in (c, set_resolver r res).

(** The clients are wrappers of the connection. *)
Definition GetGatewayClient (r : Registry) (nodeID : ulid) : result conn * Registry :=
  match nodes r !! nodeID with
  | None => (Err ErrNodeNotFoundOrDown, r)
  | Some entry =>
      let '(c, res) := getConn (resolver r) (Endpoint (GRPC entry)) in (c, set_resolver r res)
  end.
Definition GetNodeClient (r : Registry) (nodeID : ulid) : result conn * Registry :=
  match nodes r !! nodeID with
  | None => (Err ErrNodeNotFoundOrDown, r)
  | Some entry =>
      let '(c, res) := getConn (resolver r) (Endpoint (GRPC entry)) in (c, set_resolver r res)
  end.

(** [ForeachNodes]: [f] works on a state and tells whether to go on. *)
Definition ForeachNodes {S} (r : Registry) (f : S -> NodeEntry -> S * bool) (s : S) : S :=
  (fix go (s : S) (es : list NodeEntry) : S :=
     match es with
     | [] => s
     | e :: es => let '(s, more) := f s e in if more : bool then go s es else s
     end) s (range_values (nodes r)).

(** What the handlers of the two subscriptions are called with, for events none of
    which is dropped. *)
Definition SubscribeUpdate (evs : list node_event) : list NodeEntry :=
  omap (fun ev => match ev with eventUpdateNode e => Some e | _ => None end) evs.
Definition SubscribeDelete (evs : list node_event) : list NodeEntry :=
  omap (fun ev => match ev with eventDeleteNode e => Some e | _ => None end) evs.

(** [Close]: the registry and whether a lease is revoked. *)
Definition Close (r : Registry) : Registry * option Z :=
  let revoked := if negb (leaseID r =? NoLease) then Some (leaseID r) else None in
  (set_resolver r (Resolver.Close (resolver r)), revoked).
End Registry.

(** ** The history of the keys

    A change of a key at a revision: the entry put, or [None] for a deletion. *)
Section History.
Context `{L : ULIDLaws} `{R : MapRange} `{N : Net} `{X : XXHash} `{G : GRPCDial} `{J : !EntryJSON}.

Record change := { ch_rev : Z; ch_key : string; ch_entry : option NodeEntry }.

Definition rev_lt (c d : change) : Prop := ch_rev c < ch_rev d.

(** The entry of a key after the changes up to a revision. *)
Definition state_at (H : list change) (key : string) (rev : Z) : option NodeEntry :=
  foldl (fun acc c => if bool_decide (ch_key c = key) && (ch_rev c <=? rev)
                      then ch_entry c else acc) None H.

(** The revision of the last change of a key up to a revision, or 0. *)
Definition last_rev (H : list change) (key : string) (rev : Z) : Z :=
  foldl (fun acc c => if bool_decide (ch_key c = key) && (ch_rev c <=? rev)
                      then ch_rev c else acc) 0 H.

Variable prefix : string.
Variable codes : ulid -> list Z.

(** Revisions increase; an entry is put under the key of its node, and lists the
    same services each time. *)
Record valid_history (H : list change) : Prop := {
  vh_sorted : StronglySorted rev_lt H;
  vh_pos : Forall (fun c => 0 < ch_rev c) H;
  vh_entry : forall c e, c ∈ H -> ch_entry c = Some e ->
    ch_key c = entry_key prefix (ID e) /\ lists_codes codes e;
}.

(** The event that reports a change: a deletion comes with the previous entry. *)
Definition reports (H : list change) (ev : Event) (c : change) : Prop :=
  kv_Key (ev_Kv ev) = ch_key c /\ kv_ModRevision (ev_Kv ev) = ch_rev c /\
  match ch_entry c with
  | Some e => ev_Type ev = PUT /\ json_Unmarshal (kv_Value (ev_Kv ev)) = Ok e
  | None => ev_Type ev = DELETE /\ exists kv e, ev_PrevKv ev = Some kv /\
      json_Unmarshal (kv_Value kv) = Ok e /\ state_at H (ch_key c) (ch_rev c - 1) = Some e
  end.

(** The answer of a [Get] of all the keys at a revision. *)
Record snapshot_of (H : list change) (resp : GetResponse) : Prop := {
  snap_kv : forall kv, kv ∈ Kvs resp -> exists e,
    kv_ModRevision kv = last_rev H (kv_Key kv) (Header_Revision resp) /\
    state_at H (kv_Key kv) (Header_Revision resp) = Some e /\
    json_Unmarshal (kv_Value kv) = Ok e;
  snap_all : forall key e, state_at H key (Header_Revision resp) = Some e ->
    exists kv, kv ∈ Kvs resp /\ kv_Key kv = key;
}.

Lemma entry_key_inj a b : entry_key prefix a = entry_key prefix b -> a = b.
Proof.
  intros E. apply ulid_string_inj. eapply path_Join_inj; [| |exact E]; apply ulid_string_plain.
Qed.

Lemma state_last_snoc H c key rev :
  state_at (H ++ [c]) key rev =
    (if bool_decide (ch_key c = key) && (ch_rev c <=? rev) then ch_entry c
     else state_at H key rev) /\
  last_rev (H ++ [c]) key rev =
    (if bool_decide (ch_key c = key) && (ch_rev c <=? rev) then ch_rev c
     else last_rev H key rev).
Proof. unfold state_at, last_rev. by rewrite !foldl_snoc. Qed.

Lemma sorted_snoc H c :
  StronglySorted rev_lt (H ++ [c]) ->
  StronglySorted rev_lt H /\ forall d, d ∈ H -> ch_rev d < ch_rev c.
Proof.
  rewrite StronglySorted_app. intros (Hlt & Hs & _). split; [done|].
  intros d Hd. apply (Hlt d c Hd). by left.
Qed.

(** What the two functions say: the last change is a change of the key, it is within
    the revision, and the entry is its entry. *)
Lemma last_rev_change H key rev :
  StronglySorted rev_lt H -> Forall (fun c => 0 < ch_rev c) H ->
  (last_rev H key rev = 0 /\ state_at H key rev = None /\
     forall c, c ∈ H -> ch_key c = key -> rev < ch_rev c) \/
  (exists c, c ∈ H /\ ch_key c = key /\ ch_rev c <= rev /\ last_rev H key rev = ch_rev c /\
     state_at H key rev = ch_entry c /\
     forall d, d ∈ H -> ch_key d = key -> ch_rev d <= rev -> ch_rev d <= ch_rev c).
Proof.
  induction H as [|c H IH] using rev_ind; intros Hs Hp.
  { left. split_and!; [done|done|set_solver]. }
  apply sorted_snoc in Hs as [Hs Hlt]. apply Forall_app in Hp as [Hp Hc].
  destruct (state_last_snoc H c key rev) as [-> ->].
  case_bool_decide as Hk; simpl; [destruct (Z.leb_spec (ch_rev c) rev) as [Hle|Hgt]|].
  - right. exists c. split_and!; try done; [set_solver|].
    intros d [Hd|Hd]%elem_of_app _ _; [by apply Z.lt_le_incl, Hlt|].
    apply list_elem_of_singleton in Hd as ->. done.
  - destruct (IH Hs Hp) as [(H1 & H2 & H3)|(d & Hd & H1 & H2 & H3 & H4 & H5)]; [left|right].
    + split_and!; try done. intros d [Hd|Hd%list_elem_of_singleton]%elem_of_app; subst; eauto.
    + exists d. split_and!; try done; [set_solver|].
      intros d' [Hd'|Hd'%list_elem_of_singleton]%elem_of_app; subst; [eauto|lia].
  - destruct (IH Hs Hp) as [(H1 & H2 & H3)|(d & Hd & H1 & H2 & H3 & H4 & H5)]; [left|right].
    + split_and!; try done. intros d [Hd|Hd%list_elem_of_singleton]%elem_of_app; subst; [eauto|done].
    + exists d. split_and!; try done; [set_solver|].
      intros d' [Hd'|Hd'%list_elem_of_singleton]%elem_of_app; subst; [eauto|done].
Qed.

Lemma rev_inj H c d :
  StronglySorted rev_lt H -> c ∈ H -> d ∈ H -> ch_rev c = ch_rev d -> c = d.
Proof.
  intros Hs. revert c d. induction Hs as [|z l Hl IH Hz]; intros x y; [set_solver|].
  unfold rev_lt in Hz. rewrite Forall_forall in Hz.
  intros [->|Hx]%elem_of_cons [->|Hy]%elem_of_cons E; eauto.
  - apply Hz in Hy. lia.
  - apply Hz in Hx. lia.
Qed.

(** Two revisions with no change of the key between them have the same entry. *)
Lemma state_at_same H key r1 r2 :
  valid_history H -> r1 <= r2 -> last_rev H key r2 <= r1 ->
  state_at H key r1 = state_at H key r2.
Proof.
  intros [Hs Hp _] Hle Hlast.
  destruct (last_rev_change H key r2 Hs Hp) as [(H1 & H2 & H3)|(d & Hd & H1 & H2 & H3 & H4 & H5)];
  destruct (last_rev_change H key r1 Hs Hp) as [(G1 & G2 & G3)|(c & Hc & G1 & G2 & G3 & G4 & G5)].
  - congruence.
  - specialize (H3 c Hc G1). lia.
  - specialize (G3 d Hd H1). lia.
  - assert (c = d) as ->; [|congruence]. apply (rev_inj H); [done|done|done|].
    apply Z.le_antisymm; [apply H5; [done|done|lia]|apply G5; [done|done|lia]].
Qed.

Lemma state_at_change H c :
  valid_history H -> c ∈ H ->
  state_at H (ch_key c) (ch_rev c) = ch_entry c /\ last_rev H (ch_key c) (ch_rev c) = ch_rev c.
Proof.
  intros [Hs Hp _] Hc.
  destruct (last_rev_change H (ch_key c) (ch_rev c) Hs Hp)
    as [(_ & _ & H3)|(d & Hd & H1 & H2 & H3 & H4 & H5)].
  - specialize (H3 c Hc eq_refl). lia.
  - assert (d = c) as ->; [|done]. apply (rev_inj H); [done|done|done|].
    apply Z.le_antisymm; [done|]. by apply H5.
Qed.

Lemma state_at_entry H key rev e :
  valid_history H -> state_at H key rev = Some e ->
  key = entry_key prefix (ID e) /\ lists_codes codes e /\
  exists c, c ∈ H /\ ch_key c = key /\ ch_rev c <= rev /\ ch_entry c = Some e /\
    last_rev H key rev = ch_rev c.
Proof.
  intros [Hs Hp He] Hst.
  destruct (last_rev_change H key rev Hs Hp)
    as [(_ & H2 & _)|(c & Hc & H1 & H2 & H3 & H4 & H5)]; [congruence|].
  rewrite Hst in H4. destruct (He c e Hc (eq_sym H4)) as [E ?].
  split_and!; [congruence|done|]. eauto 10.
Qed.

Lemma last_rev_le H key rev : valid_history H -> 0 <= rev -> last_rev H key rev <= rev.
Proof.
  intros [Hs Hp _] ?. destruct (last_rev_change H key rev Hs Hp)
    as [(-> & _)|(c & _ & _ & Hle & -> & _)]; done.
Qed.
End History.

(** ** The nodes the resolver keeps *)
Section Kept.
Context `{L : ULIDLaws} `{R : MapRange} `{N : Net} `{X : XXHash} `{G : GRPCDial} `{J : !EntryJSON}.
Context (registered : gmap string BalancerFactory) `{B : !BalancerSpec registered}.
Variable codes : ulid -> list Z.

Lemma updateBalancer_nodes r c r' : updateBalancer registered r c = Ret r' -> allNodes r' = allNodes r.
Proof.
  unfold updateBalancer. intros H.
  destruct (services r !! c) as [d|]; [|by simplify_eq].
  destruct (Public d); simpl in H; [|by simplify_eq].
  destruct (default [] _); [by simplify_eq|].
  apply outcome_bind_Ret in H as ([b ns] & _ & H). by simplify_eq.
Qed.

Lemma update_descs_nodes descs r r' :
  update_descs registered r descs = Ret r' -> allNodes r' = allNodes r.
Proof.
  revert r. induction descs as [|d descs IH]; intros r; simpl; [by intros [= ->]|].
  destruct (0 <? Code d); [|apply IH].
  intros (r1 & E1%updateBalancer_nodes & E2%IH)%outcome_bind_Ret.
  by rewrite E2, E1, (proj1 (proj2 (updateServiceNodes_same _ _))).
Qed.

Lemma remove_descs_nodes descs r r' :
  remove_descs registered r descs = Ret r' -> allNodes r' = allNodes r.
Proof.
  revert r. induction descs as [|d descs IH]; intros r; simpl; [by intros [= ->]|].
  destruct (0 <? Code d); [|apply IH].
  intros (r1 & E1%updateBalancer_nodes & E2%IH)%outcome_bind_Ret.
  by rewrite E2, E1, (proj1 (proj2 (updateServiceNodes_same _ _))).
Qed.

Lemma Update_nodes r e r' :
  Update registered r e = Ret r' ->
  allNodes r' = if bool_decide (Services (GRPC e) = []) then allNodes r
                else <[ID e := e]> (allNodes r).
Proof.
  unfold Update. case_bool_decide; [by intros [= ->]|].
  intros (r1 & E%update_descs_nodes & [= <-])%outcome_bind_Ret.
  case_bool_decide; [rewrite (proj1 (proj2 (drop_conn_same _ _)))|]; by rewrite E.
Qed.

Lemma Remove_nodes r e r' :
  Remove registered r e = Ret r' ->
  allNodes r' = if bool_decide (Services (GRPC e) = []) then allNodes r
                else delete (ID e) (allNodes r).
Proof.
  unfold Remove. case_bool_decide; [by intros [= ->]|].
  intros (r1 & E%remove_descs_nodes & [= <-])%outcome_bind_Ret.
  by rewrite (proj1 (proj2 (drop_conn_same _ _))), E.
Qed.

(** The nodes a subscriber of both kinds of events knows. *)
Definition replay (evs : list node_event) : gmap ulid NodeEntry :=
  foldl (fun m ev => match ev with
                     | eventUpdateNode e => <[ID e := e]> m
                     | eventDeleteNode e => delete (ID e) m
                     end) ∅ evs.

(** The resolver holds the nodes that offer services, and the events sent tell all. *)
Record registry_ok (r : Registry) : Prop := {
  ro_keyed : keyed (nodes r);
  ro_codes : forall id e, nodes r !! id = Some e -> lists_codes codes e;
  ro_resolver : resolver_inv registered codes (resolver r);
  ro_sync : forall id, allNodes (resolver r) !! id =
    (e ← nodes r !! id; if bool_decide (Services (GRPC e) = []) then None else Some e);
  ro_events : replay (events r) = nodes r;
}.

Lemma same_services (r : Registry) e e0 :
  registry_ok r -> lists_codes codes e -> nodes r !! ID e = Some e0 ->
  Services (GRPC e) = [] -> Services (GRPC e0) = [].
Proof.
  intros [Hk Hc _ _ _] He Hid Hs. specialize (Hc _ _ Hid). apply Hk in Hid.
  unfold lists_codes in *. rewrite Hid, <- He, Hs in Hc. by apply fmap_nil_inv in Hc.
Qed.

Definition stored (r : Registry) res (e : NodeEntry) : Registry :=
  set_nodes (set_resolver r res) (<[ID e := e]> (nodes r)) (eventUpdateNode e).
Definition removed (r : Registry) res (e : NodeEntry) : Registry :=
  set_nodes (set_resolver r res) (delete (ID e) (nodes r)) (eventDeleteNode e).

Lemma stored_ok r e :
  registry_ok r -> lists_codes codes e ->
  exists res, Update registered (resolver r) e = Ret res /\ registry_ok (stored r res e).
Proof.
  intros Hr He. destruct (Update_inv registered codes (resolver r) e (ro_resolver _ Hr) He)
    as (res & Hu & Hinv).
  exists res. split; [done|]. apply Update_nodes in Hu. pose proof Hr as [Hk Hc _ Hs Hev].
  split; simpl; try done.
  - intros id n. rewrite lookup_insert_Some. intros [[<- <-]|[_ ?]]; [done|by apply Hk].
  - intros id n. rewrite lookup_insert_Some. intros [[<- <-]|[_ ?]]; [done|by eapply Hc].
  - intros id. rewrite Hu. case_bool_decide as Hn; (destruct (decide (id = ID e)) as [->|Hne];
      [rewrite !lookup_insert_eq; simpl|rewrite ?lookup_insert_ne by done; apply Hs]).
    + rewrite Hs, bool_decide_true by done. destruct (nodes r !! ID e) as [e0|] eqn:He0; [|done].
      simpl. by rewrite bool_decide_true by (by eapply same_services).
    + by rewrite bool_decide_false.
  - unfold replay in *. by rewrite foldl_snoc, Hev.
Qed.

Lemma removed_ok r e :
  registry_ok r -> lists_codes codes e ->
  exists res, removeNode registered r e = Ret (removed r res e) /\ registry_ok (removed r res e).
Proof.
  intros Hr He. destruct (Remove_inv registered codes (resolver r) e (ro_resolver _ Hr) He)
    as (res & Hu & Hinv).
  exists res. unfold removeNode. rewrite Hu. split; [done|]. apply Remove_nodes in Hu.
  pose proof Hr as [Hk Hc _ Hs Hev].
  split; simpl; try done.
  - intros id n. rewrite lookup_delete_Some. intros [_ ?]. by apply Hk.
  - intros id n. rewrite lookup_delete_Some. intros [_ ?]. by eapply Hc.
  - intros id. rewrite Hu. case_bool_decide as Hn; (destruct (decide (id = ID e)) as [->|Hne];
      [rewrite !lookup_delete_eq; simpl|rewrite ?lookup_delete_ne by done; apply Hs]).
    + rewrite Hs. destruct (nodes r !! ID e) as [e0|] eqn:He0; [|done].
      simpl. by rewrite bool_decide_true by (by eapply same_services).
    + done.
  - unfold replay in *. by rewrite foldl_snoc, Hev.
Qed.

Lemma versions_ok r x m : registry_ok r -> registry_ok (set_versions r x m).
Proof. by intros []. Qed.
End Kept.

(** ** Following a history *)
Section Follow.
Context `{L : ULIDLaws} `{R : MapRange} `{N : Net} `{X : XXHash} `{G : GRPCDial} `{J : !EntryJSON}.
Context (registered : gmap string BalancerFactory) `{B : !BalancerSpec registered}.
Variable prefix : string.
Variable codes : ulid -> list Z.
Variable H : list change.
Hypothesis HH : valid_history prefix codes H.
Let key := entry_key prefix.

(** A node whose key has a version is what the history says at this version; [obs]
    bounds the revisions seen. *)
Record follows (obs : Z) (r : Registry) : Prop := {
  fo_prefix : keyPrefix r = prefix;
  fo_ok : registry_ok registered codes r;
  fo_nodes : forall id v, versions r !! key id = Some v -> nodes r !! id = state_at H (key id) v;
  fo_obs : forall k v, versions r !! k = Some v -> v <= obs;
  fo_max : maxRev r <= obs;
  fo_pos : 0 <= obs;
}.

(** No node is known without a version for its key. *)
Definition versioned (r : Registry) : Prop :=
  forall id, versions r !! key id = None -> nodes r !! id = None.

(** Versions only grow. *)
Definition newer (r r' : Registry) : Prop :=
  forall k v, versions r !! k = Some v -> exists v', versions r' !! k = Some v' /\ v <= v'.

Lemma newer_refl r : newer r r.
Proof. intros k v ?. eauto with lia. Qed.
Lemma newer_trans r1 r2 r3 : newer r1 r2 -> newer r2 r3 -> newer r1 r3.
Proof. intros H1 H2 k v (v' & (v'' & ? & ?)%H2 & ?)%H1. eauto with lia. Qed.

Lemma newer_insert r k rev m :
  match versions r !! k with Some v => v <= rev | None => True end ->
  newer r (set_versions r (<[k := rev]> (versions r)) m).
Proof.
  intros Hv k' v Hk'. simpl. destruct (decide (k' = k)) as [->|Hne].
  - rewrite lookup_insert_eq. rewrite Hk' in Hv. eauto.
  - rewrite lookup_insert_ne by done. eauto with lia.
Qed.

(** Raising the version of a key to [rev] together with storing or deleting the node
    it belongs to. *)
Lemma follows_set obs r r' id rev m :
  follows obs r -> obs <= m -> rev <= m -> maxRev r' <= m ->
  keyPrefix r' = prefix -> registry_ok registered codes r' ->
  versions r' = <[key id := rev]> (versions r) ->
  nodes r' !! id = state_at H (key id) rev ->
  (forall id', id' <> id -> nodes r' !! id' = nodes r !! id') ->
  follows m r'.
Proof.
  intros [Hp Ho Hn Hobs Hm Hpos] Hom Hrev Hmax Hp' Ho' Hv Hid Hother. split; try done.
  - intros id' v. rewrite Hv. destruct (decide (id' = id)) as [->|Hne].
    + rewrite lookup_insert_eq. by intros [= <-].
    + rewrite Hother by done. rewrite lookup_insert_ne; [apply Hn|].
      intros E%entry_key_inj. congruence.
  - intros k v. rewrite Hv, lookup_insert_Some. intros [[<- <-]|[_ ?%Hobs]]; lia.
  - lia.
Qed.

Lemma versioned_set r r' id rev :
  versioned r -> versions r' = <[key id := rev]> (versions r) ->
  (forall id', id' <> id -> nodes r' !! id' = nodes r !! id') -> versioned r'.
Proof.
  intros Hr Hv Hother id'. rewrite Hv, lookup_insert_None. intros [Hn Hne].
  rewrite Hother; [by apply Hr|]. by intros ->.
Qed.

(** What [apply] leaves alone: the versions of the other keys, and that nodes have
    versions. *)
Definition local_to (k : string) (r r' : Registry) : Prop :=
  (versioned r -> versioned r') /\ forall k', k' <> k -> versions r' !! k' = versions r !! k'.

Lemma local_set r r' id rev :
  versions r' = <[key id := rev]> (versions r) ->
  (forall id', id' <> id -> nodes r' !! id' = nodes r !! id') -> local_to (key id) r r'.
Proof.
  intros Hv Hother. split; [intros Hr; by eapply versioned_set|].
  intros k' Hne. by rewrite Hv, lookup_insert_ne.
Qed.

(** A change that is taken over: the version of its key becomes its revision, and its
    node is what the history says at this revision. *)
Lemma taken_over obs r r' id c :
  follows obs r -> newer r (set_versions r (<[ch_key c := ch_rev c]> (versions r)) (maxRev r')) ->
  ch_key c = key id -> maxRev r' <= Z.max obs (ch_rev c) ->
  keyPrefix r' = prefix -> registry_ok registered codes r' ->
  versions r' = <[ch_key c := ch_rev c]> (versions r) ->
  nodes r' !! id = state_at H (key id) (ch_rev c) ->
  (forall id', id' <> id -> nodes r' !! id' = nodes r !! id') ->
  follows (Z.max obs (ch_rev c)) r' /\ newer r r' /\ local_to (ch_key c) r r' /\
  exists v, versions r' !! ch_key c = Some v /\ ch_rev c <= v.
Proof.
  intros Hf Hnew Hk Hm Hp Ho Hv Hid Hother. split_and!.
  - rewrite Hk in Hv. apply (follows_set obs r _ id (ch_rev c)); try done; lia.
  - unfold newer in *. by rewrite Hv.
  - rewrite Hk in *. by apply (local_set _ _ id (ch_rev c)).
  - exists (ch_rev c). by rewrite Hv, lookup_insert_eq.
Qed.

Lemma apply_follows obs r ev c :
  follows obs r -> c ∈ H -> reports H ev c ->
  exists r', apply registered r ev = Ret r' /\ follows (Z.max obs (ch_rev c)) r' /\
    newer r r' /\ local_to (ch_key c) r r' /\
    exists v, versions r' !! ch_key c = Some v /\ ch_rev c <= v.
Proof.
  intros Hf Hc (Hkey & Hrev & Hev). pose proof Hf as [Hp Ho Hn Hobs Hmax Hpos].
  unfold apply. rewrite Hkey, Hrev.
  set (r1 := if maxRev r <? ch_rev c then set_versions r (versions r) (ch_rev c) else r).
  assert (versions r1 = versions r /\ nodes r1 = nodes r /\ keyPrefix r1 = prefix /\
          maxRev r1 <= Z.max obs (ch_rev c) /\ registry_ok registered codes r1)
    as (Ev & En & Ep & Em & Eo).
  { subst r1. destruct (Z.ltb_spec (maxRev r) (ch_rev c)); simpl; split_and!; auto; try lia.
    by apply versions_ok. }
  assert (follows (Z.max obs (ch_rev c)) r1) as Hf1.
  { split; rewrite ?Ev, ?En; try done; [|lia]. intros k v ?%Hobs. lia. }
  assert (local_to (ch_key c) r r1) as Hloc1.
  { unfold local_to, versioned. by rewrite Ev, En. }
  rewrite Ev. destruct (match versions r !! ch_key c with Some ver => _ | None => false end) eqn:Hst.
  { exists r1. split; [done|]. split; [done|]. split; [unfold newer; rewrite Ev; apply newer_refl|].
    split; [done|]. rewrite Ev. destruct (versions r !! ch_key c) as [ver|]; [|done].
    apply Z.leb_le in Hst. eauto. }
  set (r2 := set_versions r1 (<[ch_key c := ch_rev c]> (versions r)) (maxRev r1)).
  assert (newer r r2) as Hnew.
  { intros k v Hk. simpl. destruct (decide (k = ch_key c)) as [->|Hne].
    - rewrite lookup_insert_eq. rewrite Hk in Hst. apply Z.leb_gt in Hst. eauto with lia.
    - rewrite lookup_insert_ne by done. eauto with lia. }
  assert (registry_ok registered codes r2) as Ho2 by (by apply versions_ok).
  destruct (state_at_change _ _ H c HH Hc) as [Hst_c _].
  destruct (ch_entry c) as [e|] eqn:He.
  - destruct Hev as [-> Hjson]. rewrite Hjson.
    destruct (vh_entry _ _ _ HH c e Hc He) as [Hk Hcodes].
    destruct (stored_ok registered codes r2 e Ho2 Hcodes) as (res & Hup & Hok).
    rewrite Hup. cbn [outcome_bind]. exists (stored r2 res e). split; [done|].
    apply (taken_over obs r _ (ID e) c); simpl; try done.
    + rewrite lookup_insert_eq. unfold key. by rewrite <- Hk, Hst_c.
    + intros id' Hne. by rewrite lookup_insert_ne, En.
  - destruct Hev as [-> (kv & e & -> & Hjson & Hold)]. rewrite Hjson.
    destruct (state_at_entry _ _ H _ _ e HH Hold) as (Hk & Hcodes & _).
    destruct (removed_ok registered codes r2 e Ho2 Hcodes) as (res & Hup & Hok).
    rewrite Hup. exists (removed r2 res e). split; [done|].
    apply (taken_over obs r _ (ID e) c); simpl; try done.
    + rewrite lookup_delete_eq. unfold key. by rewrite <- Hk, Hst_c.
    + intros id' Hne. by rewrite lookup_delete_ne, En.
Qed.

Lemma follows_weaken obs obs' r : obs <= obs' -> follows obs r -> follows obs' r.
Proof. intros Hle [Hp Ho Hn Hobs Hm Hpos]. split; try done; try lia. intros k v ?%Hobs. lia. Qed.

(** A key of a snapshot is reported like a change. *)
Lemma snapshot_reports resp kv :
  snapshot_of H resp -> kv ∈ Kvs resp ->
  exists c, c ∈ H /\ ch_rev c <= Header_Revision resp /\ ch_key c = kv_Key kv /\
    ch_rev c = last_rev H (kv_Key kv) (Header_Revision resp) /\
    reports H {| ev_Type := PUT; ev_Kv := kv; ev_PrevKv := None |} c.
Proof.
  intros [Hkv _] Hin. destruct (Hkv kv Hin) as (e & Hrev & Hst & Hjson).
  destruct (state_at_entry _ _ H _ _ e HH Hst) as (_ & _ & c & Hc & Hk & Hle & He & Hl).
  exists c. split_and!; try done. unfold reports. rewrite He. simpl. split_and!; congruence.
Qed.

Lemma apply_kvs_follows resp kvs r :
  snapshot_of H resp -> follows (Header_Revision resp) r -> (forall kv, kv ∈ kvs -> kv ∈ Kvs resp) ->
  exists r', apply_kvs registered r kvs = Ret r' /\ follows (Header_Revision resp) r' /\
    newer r r' /\ (versioned r -> versioned r') /\
    (forall k, (forall kv, kv ∈ kvs -> kv_Key kv <> k) -> versions r' !! k = versions r !! k) /\
    forall kv, kv ∈ kvs -> exists v, versions r' !! kv_Key kv = Some v /\
      last_rev H (kv_Key kv) (Header_Revision resp) <= v.
Proof.
  intros Hs. revert r. induction kvs as [|kv kvs IH]; intros r Hf Hin.
  { exists r. split_and!; [done|done|apply newer_refl|done|done|set_solver]. }
  destruct (snapshot_reports resp kv Hs) as (c & Hc & Hle & Hk & Hl & Hrep); [apply Hin; by left|].
  destruct (apply_follows _ r _ c Hf Hc Hrep) as (r1 & H1 & Hf1 & Hn1 & [Hver1 Hloc1] & v & Hv & Hcv).
  simpl. rewrite H1. cbn [outcome_bind].
  rewrite Z.max_l in Hf1 by lia.
  destruct (IH r1 Hf1) as (r2 & H2 & Hf2 & Hn2 & Hver2 & Hloc2 & Hall);
    [intros; apply Hin; by right|].
  exists r2. split_and!; [done|done|by eapply newer_trans|by auto| |].
  { intros k Hk'. rewrite Hloc2 by (intros; apply Hk'; by right).
    apply Hloc1. rewrite Hk. intros ->. by apply (Hk' kv); [left|]. }
  intros kv' [->|Hkv']%elem_of_cons; [|by apply Hall].
  rewrite Hk in Hv. destruct (Hn2 _ _ Hv) as (v' & ? & ?). exists v'. split; [done|lia].
Qed.

Lemma remove_stale_follows rev (ex : gset string) entries r :
  follows rev r ->
  (forall e, e ∈ entries -> lists_codes codes e /\
     (key (ID e) ∉ ex -> state_at H (key (ID e)) rev = None)) ->
  exists r', remove_stale registered r ex rev entries = Ret r' /\ follows rev r' /\
    (forall k, k ∈ ex -> versions r' !! k = versions r !! k) /\
    (forall e, e ∈ entries -> key (ID e) ∉ ex ->
       nodes r' !! ID e = None /\ versions r' !! key (ID e) = Some rev) /\
    (forall id, nodes r !! id = None -> nodes r' !! id = None) /\ newer r r'.
Proof.
  revert r. induction entries as [|e es IH]; intros r Hf Hes.
  { exists r. split_and!; try done; [set_solver|apply newer_refl]. }
  simpl. rewrite (fo_prefix _ _ Hf). fold (key (ID e)).
  assert (forall e', e' ∈ es -> lists_codes codes e' /\
    (key (ID e') ∉ ex -> state_at H (key (ID e')) rev = None)) as Hes'
    by (intros; apply Hes; by right).
  destruct (Hes e) as [Hcodes Hgone]; [by left|]. case_bool_decide as Hex.
  { destruct (IH r Hf Hes') as (r' & H1 & H2 & H3 & H4 & H5 & H6).
    exists r'. split_and!; try done. intros e' [->|?]%elem_of_cons; auto. done. }
  set (r1 := set_versions r (<[key (ID e) := rev]> (versions r)) (maxRev r)).
  destruct (removed_ok registered codes r1 e) as (res & Hup & Hok);
    [by apply versions_ok, (fo_ok _ _ Hf)|done|].
  rewrite Hup. cbn [outcome_bind].
  assert (newer r (removed r1 res e)) as Hnew.
  { apply (newer_insert r (key (ID e)) rev (maxRev r)).
    destruct (versions r !! key (ID e)) eqn:Hv; [|done]. by eapply fo_obs. }
  assert (follows rev (removed r1 res e)) as Hf1.
  { apply (follows_set rev r _ (ID e) rev); try done; try lia.
    - apply (fo_max _ _ Hf).
    - apply (fo_prefix _ _ Hf).
    - simpl. rewrite lookup_delete_eq. symmetry. by apply Hgone.
    - intros id' Hne. simpl. by rewrite lookup_delete_ne. }
  destruct (IH _ Hf1 Hes') as (r' & H1 & H2 & H3 & H4 & H5 & H6).
  exists r'. split_and!; try done.
  - intros k Hk. rewrite H3 by done. simpl. rewrite lookup_insert_ne; [done|]. intros <-. done.
  - intros e' [->|?]%elem_of_cons ?; [|auto]. split; [apply H5; simpl; apply lookup_delete_eq|].
    destruct (H6 (key (ID e)) rev) as (v & Hv & Hle); [simpl; by rewrite lookup_insert_eq|].
    rewrite Hv. f_equal. apply Z.le_antisymm; [|done]. by eapply (fo_obs _ _ H2).
  - intros id Hid. apply H5. simpl. by apply lookup_delete_None; right.
  - by eapply newer_trans.
Qed.

(** The two loops of [resync] on a snapshot at least as new as all that was seen. *)
Lemma resync_loops resp r :
  snapshot_of H resp -> follows (Header_Revision resp) r ->
  exists r1 r2, apply_kvs registered r (Kvs resp) = Ret r1 /\
    remove_stale registered r1 (list_to_set (kv_Key <$> Kvs resp)) (Header_Revision resp)
      (range_values (nodes r1)) = Ret r2 /\
    follows (Header_Revision resp) r2 /\ newer r r2 /\ versioned r2 /\
    (forall id, nodes r2 !! id = state_at H (key id) (Header_Revision resp)) /\
    (forall id, (is_Some (nodes r !! id) /\ versioned r) \/
       is_Some (state_at H (key id) (Header_Revision resp)) ->
       exists v, versions r2 !! key id = Some v /\
         last_rev H (key id) (Header_Revision resp) <= v).
Proof.
  intros Hs Hf. set (rev := Header_Revision resp).
  set (ex := list_to_set (kv_Key <$> Kvs resp) : gset string).
  assert (forall k, k ∉ ex -> state_at H k rev = None) as Hgone.
  { intros k Hk. destruct (state_at H k rev) as [e|] eqn:E; [|done].
    destruct (snap_all _ _ Hs k e E) as (kv & Hkv & <-). destruct Hk.
    apply elem_of_list_to_set. by apply list_elem_of_fmap_2. }
  destruct (apply_kvs_follows resp (Kvs resp) r Hs Hf)
    as (r1 & H1 & Hf1 & Hn1 & Hver1 & Hloc1 & Hall); [done|].
  destruct (remove_stale_follows rev ex (range_values (nodes r1)) r1 Hf1)
    as (r2 & H2 & Hf2 & Hkeep & Hrem & Hnone & Hn2).
  { intros e (id & Hid)%elem_of_range_values. split; [|by apply Hgone].
    by eapply (ro_codes _ _ _ (fo_ok _ _ Hf1)). }
  assert (forall id, key id ∈ ex -> exists v, versions r2 !! key id = Some v /\
    last_rev H (key id) rev <= v) as Hin.
  { intros id Hex. rewrite Hkeep by done.
    apply elem_of_list_to_set, list_elem_of_fmap in Hex as (kv & -> & Hkv). by apply Hall. }
  assert (forall id, nodes r2 !! id = state_at H (key id) rev) as Hnodes.
  { intros id. destruct (decide (key id ∈ ex)) as [Hex|Hex].
    - destruct (Hin id Hex) as (v & Hv & Hle). rewrite (fo_nodes _ _ Hf2 id v Hv).
      apply (state_at_same prefix codes); [done|by eapply (fo_obs _ _ Hf2)|done].
    - rewrite Hgone by done. destruct (nodes r1 !! id) as [e|] eqn:Hid; [|by apply Hnone].
      pose proof (ro_keyed _ _ _ (fo_ok _ _ Hf1) _ _ Hid) as <-.
      apply Hrem; [|done]. apply elem_of_range_values. eauto. }
  exists r1, r2. split_and!; try done; [by eapply newer_trans| |].
  - intros id Hv. rewrite Hnodes. apply Hgone. intros (v & Hv' & _)%Hin. congruence.
  - intros id Hknown. destruct (decide (key id ∈ ex)) as [Hex|Hex]; [by apply Hin|].
    destruct Hknown as [[[e Hid] Hver]|[e He]]; [|fold rev in He; by rewrite Hgone in He].
    exists rev. split; [|by eapply last_rev_le; [|apply (fo_pos _ _ Hf)]].
    assert (nodes r1 !! id = Some e) as Hid1.
    { destruct (versions r !! key id) as [v|] eqn:Hv; [|by rewrite Hver in Hid].
      rewrite (fo_nodes _ _ Hf1 id v), <- (fo_nodes _ _ Hf id v); [done|done|].
      rewrite Hloc1; [done|]. intros kv Hkv E. apply Hex.
      apply elem_of_list_to_set. rewrite <- E. by apply list_elem_of_fmap_2. }
    pose proof (ro_keyed _ _ _ (fo_ok _ _ Hf1) _ _ Hid1) as <-.
    apply Hrem; [|done]. apply elem_of_range_values. eauto.
Qed.
End Follow.

(** ** Runs *)
Section Runs.
Context `{L : ULIDLaws} `{R : MapRange} `{N : Net} `{X : XXHash} `{G : GRPCDial} `{J : !EntryJSON}.
Context (registered : gmap string BalancerFactory) `{B : !BalancerSpec registered}.
Variable prefix : string.
Variable codes : ulid -> list Z.

(** What happens to a registry: an event of the watch, a synchronisation, a use. *)
Inductive registry_input :=
  | InEvent (ev : Event)
  | InResync (get : result GetResponse)
  | InConn (nodeID : ulid)
  | InGatewayClient (nodeID : ulid)
  | InNodeClient (nodeID : ulid).

Definition run_input (r : Registry) (i : registry_input) : outcome Registry :=
  match i with
  | InEvent ev => apply registered r ev
  | InResync get => let! (_, r) := resync registered r get in Ret r
  | InConn id => Ret (GetGRPCConn r id).2
  | InGatewayClient id => Ret (GetGatewayClient r id).2
  | InNodeClient id => Ret (GetNodeClient r id).2
  end.

Fixpoint run_inputs (r : Registry) (ins : list registry_input) : outcome Registry :=
  match ins with
  | [] => Ret r
  | i :: ins => let! r := run_input r i in run_inputs r ins
  end.

(** Inputs that tell of one history: events report its changes, in any order and any
    number of times, and a snapshot is no older than what was told before. [obs] is the
    newest revision told. *)
Definition input_ok (H : list change) (obs : Z) (i : registry_input) : Prop :=
  match i with
  | InEvent ev => exists c, c ∈ H /\ reports H ev c
  | InResync (Ok resp) => obs <= Header_Revision resp /\ snapshot_of H resp
  | _ => True
  end.
Definition next_obs (obs : Z) (i : registry_input) : Z :=
  match i with
  | InEvent ev => Z.max obs (kv_ModRevision (ev_Kv ev))
  | InResync (Ok resp) => Header_Revision resp
  | _ => obs
  end.
Fixpoint consistent (H : list change) (obs : Z) (ins : list registry_input) : Prop :=
  match ins with
  | [] => True
  | i :: ins => input_ok H obs i /\ consistent H (next_obs obs i) ins
  end.

Lemma consistent_snoc H ins obs i :
  consistent H obs (ins ++ [i]) <->
  consistent H obs ins /\ input_ok H (foldl next_obs obs ins) i.
Proof.
  revert obs. induction ins as [|j ins IH]; intros obs; simpl; [tauto|].
  rewrite IH. tauto.
Qed.

Lemma run_inputs_snoc r ins i :
  run_inputs r (ins ++ [i]) = (let! r := run_inputs r ins in run_input r i).
Proof.
  revert r. induction ins as [|j ins IH]; intros r; simpl; [by destruct (run_input r i)|].
  destruct (run_input r j); [apply IH|done|done].
Qed.

Definition initial : Registry := initial_registry [WithKeyPrefix prefix].

Lemma follows_initial H : follows registered prefix codes H 0 initial.
Proof.
  split; simpl; try done; try lia. split; simpl; try done.
  - apply resolver_inv_init.
Qed.

Lemma registry_ok_resolver r res :
  registry_ok registered codes r -> allNodes res = allNodes (resolver r) ->
  resolver_inv registered codes res -> registry_ok registered codes (set_resolver r res).
Proof. intros [Hk Hc _ Hs He] E Hinv. split; simpl; try done. intros id. by rewrite E. Qed.

Lemma getConn_nodes (res : grpcResolver) e : allNodes (getConn res e).2 = allNodes res.
Proof. unfold getConn. destruct (conns res !! e); [done|]. by destruct (grpc_NewClient e). Qed.

(** A use changes the resolver's connections only. *)
Lemma run_use r i :
  registry_ok registered codes r ->
  match i with InConn _ | InGatewayClient _ | InNodeClient _ => True | _ => False end ->
  exists res, run_input r i = Ret (set_resolver r res) /\
    registry_ok registered codes (set_resolver r res).
Proof.
  intros Hr Hi. pose proof (ro_resolver _ _ _ Hr) as Hinv.
  assert (set_resolver r (resolver r) = r) as Hid by by destruct r.
  assert (exists res, run_input r i = Ret (set_resolver r res) /\
    allNodes res = allNodes (resolver r) /\ resolver_inv registered codes res)
    as (res & ? & ? & ?); [|exists res; eauto using registry_ok_resolver].
  destruct i as [| |id|id|id]; try done; simpl.
  - unfold GetGRPCConn. destruct (GetConn (resolver r) id) as [c res] eqn:E.
    assert (res = (GetConn (resolver r) id).2) as -> by (by rewrite E).
    eexists. split; [done|]. split; [|by apply GetConn_inv].
    unfold GetConn. destruct (_ !! id); [|done]. case_bool_decide; [done|apply getConn_nodes].
  - unfold GetGatewayClient. destruct (nodes r !! id) as [e|]; [|exists (resolver r); by rewrite Hid].
    destruct (getConn (resolver r) (Endpoint (GRPC e))) as [c res] eqn:E.
    assert (res = (getConn (resolver r) (Endpoint (GRPC e))).2) as -> by (by rewrite E).
    eexists. split; [done|]. split; [apply getConn_nodes|by apply getConn_inv].
  - unfold GetNodeClient. destruct (nodes r !! id) as [e|]; [|exists (resolver r); by rewrite Hid].
    destruct (getConn (resolver r) (Endpoint (GRPC e))) as [c res] eqn:E.
    assert (res = (getConn (resolver r) (Endpoint (GRPC e))).2) as -> by (by rewrite E).
    eexists. split; [done|]. split; [apply getConn_nodes|by apply getConn_inv].
Qed.

Section Valid.
Variable H : list change.
Hypothesis HH : valid_history prefix codes H.
Let key := entry_key prefix.

Lemma run_use_follows obs r i :
  follows registered prefix codes H obs r -> versioned prefix r ->
  match i with InConn _ | InGatewayClient _ | InNodeClient _ => True | _ => False end ->
  exists r', run_input r i = Ret r' /\ follows registered prefix codes H obs r' /\
    versioned prefix r' /\ newer r r' /\ True.
Proof.
  intros Hf Hv Hi. destruct (run_use r i (fo_ok _ _ _ _ _ _ Hf) Hi) as (res & H1 & Hok).
  exists (set_resolver r res). destruct Hf. split_and!; auto; [by split|].
  intros k v ?. exists v. auto with lia.
Qed.

Lemma resync_follows obs r resp :
  follows registered prefix codes H obs r -> obs <= Header_Revision resp -> snapshot_of H resp ->
  exists r', resync registered r (Ok resp) = Ret (None, r') /\
    follows registered prefix codes H (Header_Revision resp) r' /\ newer r r' /\
    versioned prefix r' /\
    (forall id, nodes r' !! id = state_at H (key id) (Header_Revision resp)) /\
    (forall id, (is_Some (nodes r !! id) /\ versioned prefix r) \/
       is_Some (state_at H (key id) (Header_Revision resp)) ->
       exists v, versions r' !! key id = Some v /\
         last_rev H (key id) (Header_Revision resp) <= v).
Proof.
  intros Hf Hle Hs. unfold resync.
  destruct (Z.ltb_spec (Header_Revision resp) (maxRev r)) as [Hlt|_].
  { pose proof (fo_max _ _ _ _ _ _ Hf). lia. }
  destruct (resync_loops registered prefix codes H HH resp r Hs)
    as (r1 & r2 & H1 & H2 & Hf2 & Hn & Hv & Hall & Hkept); [by eapply follows_weaken|].
  rewrite H1. cbn [outcome_bind]. rewrite H2. exists r2. auto 10.
Qed.

(** One input, and then all of them. *)
Lemma run_input_follows obs r i :
  follows registered prefix codes H obs r -> versioned prefix r -> input_ok H obs i ->
  exists r', run_input r i = Ret r' /\ follows registered prefix codes H (next_obs obs i) r' /\
    versioned prefix r' /\ newer r r' /\
    match i with
    | InEvent ev => exists v, versions r' !! kv_Key (ev_Kv ev) = Some v /\
                              kv_ModRevision (ev_Kv ev) <= v
    | _ => True
    end.
Proof.
  intros Hf Hv Hc. destruct i as [ev|[resp|err]|id|id|id]; simpl in Hc; simpl next_obs.
  - destruct Hc as (c & Hc & Hr).
    destruct (apply_follows _ _ _ _ HH _ _ _ _ Hf Hc Hr) as (r' & H1 & Hf' & Hn & [Hver _] & Hv').
    destruct Hr as (Ek & Er & _). rewrite Ek, Er. exists r'. split_and!; auto.
  - destruct Hc as (Hle & Hs).
    destruct (resync_follows _ _ _ Hf Hle Hs) as (r' & H1 & Hf' & Hn & Hver & _).
    exists r'. cbn [run_input]. rewrite H1. split_and!; auto.
  - exists r. split_and!; auto. apply newer_refl.
  - by apply run_use_follows.
  - by apply run_use_follows.
  - by apply run_use_follows.
Qed.

Lemma run_inputs_follows ins obs r :
  follows registered prefix codes H obs r -> versioned prefix r -> consistent H obs ins ->
  exists r', run_inputs r ins = Ret r' /\
    follows registered prefix codes H (foldl next_obs obs ins) r' /\
    versioned prefix r' /\ newer r r' /\
    forall ev, InEvent ev ∈ ins -> exists v, versions r' !! kv_Key (ev_Kv ev) = Some v /\
      kv_ModRevision (ev_Kv ev) <= v.
Proof.
  revert obs r. induction ins as [|i ins IH]; intros obs r Hf Hv Hc.
  { exists r. split_and!; auto; [apply newer_refl|set_solver]. }
  destruct Hc as [Hi Hc].
  destruct (run_input_follows _ _ _ Hf Hv Hi) as (r1 & H1 & Hf1 & Hv1 & Hn1 & Hev1).
  destruct (IH _ _ Hf1 Hv1 Hc) as (r2 & H2 & Hf2 & Hv2 & Hn2 & Hev2).
  exists r2. simpl. rewrite H1. split_and!; auto; [by eapply newer_trans|].
  intros ev [<-|Hin]%elem_of_cons; [|by apply Hev2].
  destruct Hev1 as (v & Hv' & Hle). destruct (Hn2 _ _ Hv') as (v2 & ? & ?). eauto with lia.
Qed.

Lemma initial_follows ins :
  consistent H 0 ins ->
  exists r, run_inputs initial ins = Ret r /\
    follows registered prefix codes H (foldl next_obs 0 ins) r /\ versioned prefix r /\
    forall ev, InEvent ev ∈ ins -> exists v, versions r !! kv_Key (ev_Kv ev) = Some v /\
      kv_ModRevision (ev_Kv ev) <= v.
Proof.
  intros Hc. destruct (run_inputs_follows ins 0 initial) as (r & H1 & Hf & Hv & _ & Hev);
    [apply follows_initial|done|done|]. eauto.
Qed.
End Valid.
End Runs.

(** The newest revision applied does not go back. *)
Section Max.
Context `{U : ULID} `{R : MapRange} `{N : Net} `{X : XXHash} `{G : GRPCDial} `{J : !EntryJSON}.
Context (registered : gmap string BalancerFactory).

Lemma removeNode_fields r e r' :
  removeNode registered r e = Ret r' ->
  maxRev r' = maxRev r /\ versions r' = versions r /\ nodes r' = delete (ID e) (nodes r).
Proof. unfold removeNode. intros (res & _ & [= <-])%outcome_bind_Ret. done. Qed.

Lemma apply_max r ev r' : apply registered r ev = Ret r' -> maxRev r <= maxRev r'.
Proof.
  unfold apply. set (r1 := if _ <? _ then _ else r).
  assert (maxRev r <= maxRev r1) as Hle.
  { subst r1. destruct (Z.ltb_spec (maxRev r) (kv_ModRevision (ev_Kv ev))); simpl; lia. }
  destruct (match versions r1 !! _ with Some _ => _ | None => _ end); [by intros [= <-]|].
  destruct (match ev_Type ev with DELETE => _ | _ => _ end); [|done].
  destruct (json_Unmarshal _); [|by intros [= <-]].
  destruct (ev_Type ev).
  - by intros (res & _ & [= <-])%outcome_bind_Ret.
  - by intros [-> _]%removeNode_fields.
  - by intros [= <-].
Qed.

Lemma apply_kvs_max kvs r r' : apply_kvs registered r kvs = Ret r' -> maxRev r <= maxRev r'.
Proof.
  revert r. induction kvs as [|kv kvs IH]; intros r; simpl; [by intros [= <-]|].
  intros (r1 & H1%apply_max & H2%IH)%outcome_bind_Ret. lia.
Qed.

Lemma remove_stale_max ex rev es r r' :
  remove_stale registered r ex rev es = Ret r' -> maxRev r' = maxRev r.
Proof.
  revert r. induction es as [|e es IH]; intros r; simpl; [by intros [= <-]|].
  case_bool_decide; [apply IH|].
  intros (r1 & [H1 _]%removeNode_fields & H2%IH)%outcome_bind_Ret. by rewrite H2, H1.
Qed.
End Max.

(** A node that stays unknown through the loops of [resync]. *)
Section Missed.
Context `{L : ULIDLaws} `{R : MapRange} `{N : Net} `{X : XXHash} `{G : GRPCDial} `{J : !EntryJSON}.
Context (registered : gmap string BalancerFactory) `{B : !BalancerSpec registered}.
Variable codes : ulid -> list Z.

(** The node is unknown, and its key has a version not below [v]. *)
Definition missed (prefix : string) (id : ulid) (v : Z) (r : Registry) : Prop :=
  registry_ok registered codes r /\ keyPrefix r = prefix /\ nodes r !! id = None /\
  exists v', versions r !! entry_key prefix id = Some v' /\ v <= v'.

(** A key that does not bring it back. *)
Definition old_kv (prefix : string) (id : ulid) (v : Z) (kv : KeyValue) : Prop :=
  forall e, json_Unmarshal (kv_Value kv) = Ok e ->
    lists_codes codes e /\ kv_Key kv = entry_key prefix (ID e) /\
    (ID e = id -> kv_ModRevision kv <= v).

Lemma apply_kv_missed prefix id v r kv :
  missed prefix id v r -> old_kv prefix id v kv ->
  exists r', apply registered r {| ev_Type := PUT; ev_Kv := kv; ev_PrevKv := None |} = Ret r' /\
    missed prefix id v r'.
Proof.
  intros (Hok & Hp & Hid & v' & Hv & Hle) Hkv. unfold apply. cbn [ev_Kv ev_Type].
  set (r1 := if _ <? _ then _ else r).
  assert (versions r1 = versions r /\ missed prefix id v r1) as [-> Hr1].
  { subst r1. destruct (maxRev r <? _); (split; [done|]); split_and!; eauto.
    by apply versions_ok. }
  destruct (match versions r !! _ with Some _ => _ | None => _ end) eqn:Hst; [eauto|].
  set (r2 := set_versions r1 _ _). destruct Hr1 as (Hok1 & Hp1 & Hid1 & _).
  assert (exists v', versions r2 !! entry_key prefix id = Some v' /\ v <= v') as Hver.
  { simpl. destruct (decide (kv_Key kv = entry_key prefix id)) as [Ek|Hne].
    - rewrite Ek, lookup_insert_eq. rewrite Ek, Hv in Hst. apply Z.leb_gt in Hst. eauto with lia.
    - rewrite lookup_insert_ne by done. eauto. }
  assert (missed prefix id v r2) as Hr2 by (split_and!; try done; by apply versions_ok).
  destruct (json_Unmarshal (kv_Value kv)) as [e|] eqn:He; [|eauto].
  destruct (Hkv e He) as (Hcodes & Ek & Hold).
  destruct (stored_ok registered codes r2 e) as (res & Hup & Hok2); [apply Hr2|done|].
  rewrite Hup. cbn [outcome_bind]. exists (stored r2 res e). split; [done|].
  split_and!; [done|done| |done].
  simpl. rewrite lookup_insert_ne; [done|]. intros E. specialize (Hold E).
  rewrite Ek, E, Hv in Hst. apply Z.leb_gt in Hst. lia.
Qed.

Lemma apply_kvs_missed prefix kvs r id v :
  missed prefix id v r -> (forall kv, kv ∈ kvs -> old_kv prefix id v kv) ->
  exists r', apply_kvs registered r kvs = Ret r' /\ missed prefix id v r'.
Proof.
  revert r. induction kvs as [|kv kvs IH]; intros r Hr Hkvs; [by exists r|].
  destruct (apply_kv_missed prefix id v r kv Hr) as (r1 & H1 & Hr1); [apply Hkvs; by left|].
  simpl. rewrite H1. apply IH; [done|]. intros; apply Hkvs; by right.
Qed.

Lemma remove_stale_missed ex rev es r id :
  registry_ok registered codes r -> nodes r !! id = None ->
  (forall e, e ∈ es -> lists_codes codes e) ->
  exists r', remove_stale registered r ex rev es = Ret r' /\ nodes r' !! id = None.
Proof.
  revert r. induction es as [|e es IH]; intros r Hok Hid Hes; [by exists r|]. simpl.
  case_bool_decide; [apply IH; auto; intros; apply Hes; by right|].
  set (r1 := set_versions r _ _).
  destruct (removed_ok registered codes r1 e) as (res & Hup & Hok1);
    [by apply versions_ok|apply Hes; by left|].
  rewrite Hup. apply IH; [done| |intros; apply Hes; by right].
  simpl. apply lookup_delete_None. by right.
Qed.
End Missed.

(** ** The claims *)
Section Claims.
Context `{L : ULIDLaws} `{R : MapRange} `{N : Net} `{X : XXHash} `{G : GRPCDial} `{J : !EntryJSON}.
Context (registered : gmap string BalancerFactory) `{B : !BalancerSpec registered}.
Variable prefix : string.
Variable codes : ulid -> list Z.
Variable H : list change.
Let key := entry_key prefix.

(** C19. A registry that is told of a history of its keys by the watch and by
    synchronisations in any interleaving, events late, repeated and missing included,
    never panics, and it is right about every key at the version it keeps: a node it
    has heard nothing of is unknown; once the latest change of a node's key has been
    reported, whatever came before or after, the node is known with the entry of that
    change, or unknown if that was its deletion. The resolver holds exactly the known
    nodes that offer services and is up to date, and a subscriber that replays the
    events sent knows the same nodes. *)
Theorem registry_follows_history ins :
  valid_history prefix codes H -> consistent H 0 ins ->
  exists r, run_inputs registered (initial prefix) ins = Ret r /\
    (forall id, nodes r !! id = (v ← versions r !! key id; state_at H (key id) v)) /\
    (forall ev id, InEvent ev ∈ ins -> kv_Key (ev_Kv ev) = key id ->
       (forall c, c ∈ H -> ch_key c = key id -> ch_rev c <= kv_ModRevision (ev_Kv ev)) ->
       nodes r !! id = state_at H (key id) (kv_ModRevision (ev_Kv ev))) /\
    (forall id, allNodes (resolver r) !! id =
       (e ← nodes r !! id; if bool_decide (Services (GRPC e) = []) then None else Some e)) /\
    resolver_inv registered codes (resolver r) /\ replay (events r) = nodes r.
Proof.
  intros HH Hc. destruct (initial_follows registered prefix codes H HH ins Hc)
    as (r & H1 & Hf & Hv & Hev).
  exists r. pose proof (fo_ok _ _ _ _ _ _ Hf) as [Hk _ Hr Hs He]. split_and!; try done.
  - intros id. destruct (versions r !! key id) as [v|] eqn:E; simpl; [|by apply Hv].
    by apply (fo_nodes _ _ _ _ _ _ Hf).
  - intros ev id Hin Hkey Hlast. destruct (Hev ev Hin) as (v & Hv' & Hle). rewrite Hkey in Hv'.
    rewrite (fo_nodes _ _ _ _ _ _ Hf id v Hv'). symmetry.
    apply (state_at_same prefix codes); [done|done|].
    destruct (last_rev_change H (key id) v (vh_sorted _ _ _ HH) (vh_pos _ _ _ HH))
      as [(E & _ & Hnone)|(c & Hc' & Hkc & _ & E & _)]; unfold key in *; rewrite E; [|by apply Hlast].
    assert (exists c, c ∈ H /\ reports H ev c) as (c & Hc' & Hrep).
    { clear -Hc Hin. revert Hc Hin. generalize 0. induction ins as [|i ins IH]; [set_solver|].
      intros obs [Hi Hc] [<-|Hin]%elem_of_cons; [done|by eapply IH]. }
    destruct Hrep as (E1 & E2 & _). rewrite E2.
    pose proof (proj1 (Forall_forall _ _) (vh_pos _ _ _ HH) c) as Hp.
    apply Z.lt_le_incl. by apply Hp.
Qed.

(** C2. A synchronisation with a snapshot no older than what the registry was told of
    brings it to exactly the snapshot, whatever it had missed: the known nodes are
    those of the snapshot with their entries, and the resolver and the events sent agree.
    An event from before the snapshot that arrives afterwards does not bring a node back
    nor change its entry, for the nodes known before and those of the snapshot. *)
Theorem resync_converges ins resp :
  valid_history prefix codes H -> consistent H 0 (ins ++ [InResync (Ok resp)]) ->
  exists r r', run_inputs registered (initial prefix) ins = Ret r /\
    resync registered r (Ok resp) = Ret (None, r') /\
    (forall id, nodes r' !! id = state_at H (key id) (Header_Revision resp)) /\
    (forall id, allNodes (resolver r') !! id =
       (e ← nodes r' !! id; if bool_decide (Services (GRPC e) = []) then None else Some e)) /\
    resolver_inv registered codes (resolver r') /\ replay (events r') = nodes r' /\
    forall ev c id, c ∈ H -> reports H ev c -> ch_key c = key id ->
      ch_rev c <= Header_Revision resp -> is_Some (nodes r !! id) \/ is_Some (nodes r' !! id) ->
      exists r'', apply registered r' ev = Ret r'' /\ nodes r'' = nodes r' /\
        resolver r'' = resolver r' /\ events r'' = events r'.
Proof.
  intros HH [Hc [Hle Hs]]%consistent_snoc.
  destruct (initial_follows registered prefix codes H HH ins Hc) as (r & H1 & Hf & Hv & _).
  destruct (resync_follows registered prefix codes H HH _ _ _ Hf Hle Hs)
    as (r' & H2 & Hf' & Hn & Hv' & Hall & Hkept).
  exists r, r'. pose proof (fo_ok _ _ _ _ _ _ Hf') as [_ _ Hr Hsync He].
  split_and!; try done. intros ev c id Hin (Ek & Er & _) Hkey Hrev Hknown.
  destruct (Hkept id) as (v & Hver & Hlast).
  { destruct Hknown as [|Hk]; [by left|right]. by rewrite <- Hall. }
  assert (ch_rev c <= v) as Hcv.
  { etrans; [|exact Hlast]. unfold key in *. destruct (last_rev_change H (entry_key prefix id) (Header_Revision resp)
      (vh_sorted _ _ _ HH) (vh_pos _ _ _ HH)) as [(_ & _ & Hno)|(d & _ & _ & _ & -> & _ & Hmax)].
    - specialize (Hno c Hin Hkey). lia.
    - by apply Hmax. }
  unfold apply. rewrite Ek, Er, Hkey.
  assert (versions (if maxRev r' <? ch_rev c then set_versions r' (versions r') (ch_rev c) else r')
          = versions r') as -> by (by destruct (_ <? _)).
  unfold key. rewrite Hver, (proj2 (Z.leb_le _ _) Hcv). eexists. split; [done|].
  by destruct (_ <? _).
Qed.

(** C36. A synchronisation with a snapshot older than the newest change applied, which
    etcd yields after its data was restored from a backup, brings the registry to
    exactly that snapshot, whatever it knew. *)
Theorem resync_after_restore r resp :
  valid_history prefix codes H -> snapshot_of H resp ->
  registry_ok registered codes r -> keyPrefix r = prefix ->
  0 <= Header_Revision resp < maxRev r ->
  exists r', resync registered r (Ok resp) = Ret (None, r') /\
    maxRev r' = Header_Revision resp /\
    (forall id, nodes r' !! id = state_at H (key id) (Header_Revision resp)) /\
    registry_ok registered codes r'.
Proof.
  intros HH Hs Hok Hp [Hpos Hlt]. unfold resync. rewrite (proj2 (Z.ltb_lt _ _) Hlt).
  destruct (resync_loops registered prefix codes H HH resp
              (set_versions r ∅ (Header_Revision resp)) Hs)
    as (r1 & r2 & H1 & H2 & Hf2 & Hn & Hv & Hall & _).
  { split; simpl; try done. by apply versions_ok. }
  rewrite H1. cbn [outcome_bind]. rewrite H2. exists r2. split_and!; try done.
  - apply Z.le_antisymm; [apply (fo_max _ _ _ _ _ _ Hf2)|].
    apply remove_stale_max in H2. apply apply_kvs_max in H1. simpl in H1. lia.
  - apply (fo_ok _ _ _ _ _ _ Hf2).
Qed.
End Claims.

(** ** Panics, the watch, and the limits of the revision check *)
Section Limits.
Context `{L : ULIDLaws} `{R : MapRange} `{N : Net} `{X : XXHash} `{G : GRPCDial} `{J : !EntryJSON}.
Context (registered : gmap string BalancerFactory) `{B : !BalancerSpec registered}.
Variable codes : ulid -> list Z.

(** [apply] ignores the event. *)
Definition stale (r : Registry) (ev : Event) : bool :=
  match versions r !! kv_Key (ev_Kv ev) with
  | Some ver => kv_ModRevision (ev_Kv ev) <=? ver
  | None => false
  end.

(** A newer value of a key is taken over. *)
Lemma apply_put_ok r ev e :
  registry_ok registered codes r -> stale r ev = false -> ev_Type ev = PUT ->
  json_Unmarshal (kv_Value (ev_Kv ev)) = Ok e -> lists_codes codes e ->
  exists r', apply registered r ev = Ret r' /\ registry_ok registered codes r' /\
    nodes r' !! ID e = Some e.
Proof.
  intros Hok Hst Hty Hj He. unfold apply, stale in *. set (r1 := if _ <? _ then _ else r).
  assert (versions r1 = versions r /\ registry_ok registered codes r1) as [-> Hok1].
  { subst r1. destruct (maxRev r <? _); [|done]. split; [done|]. by apply versions_ok. }
  rewrite Hst, Hty, Hj. set (r2 := set_versions r1 _ _).
  destruct (stored_ok registered codes r2 e) as (res & Hup & Hok2); [by apply versions_ok|done|].
  rewrite Hup. eexists. split; [done|]. split; [done|]. simpl. apply lookup_insert_eq.
Qed.

(** If every entry stored in etcd lists the services known of its node, [apply]
    panics in one case only: a deletion that is not ignored and comes without the
    previous value, which etcd omits when the revision before was compacted. In every
    other case, values that are no entries included, it returns. *)
Theorem apply_panics_iff r ev :
  (forall s e, json_Unmarshal s = Ok e -> lists_codes codes e) ->
  registry_ok registered codes r ->
  is_Ret (apply registered r ev) = false <->
  stale r ev = false /\ ev_Type ev = DELETE /\ ev_PrevKv ev = None.
Proof.
  intros Hjson Hok. unfold apply, stale. set (r1 := if _ <? _ then _ else r).
  assert (versions r1 = versions r /\ registry_ok registered codes r1) as [-> Hok1].
  { subst r1. destruct (maxRev r <? _); [|done]. split; [done|]. by apply versions_ok. }
  destruct (match versions r !! _ with Some _ => _ | None => _ end); [simpl; naive_solver|].
  set (r2 := set_versions r1 _ _).
  assert (registry_ok registered codes r2) as Hok2 by (by apply versions_ok).
  destruct (ev_Type ev) eqn:Ht, (ev_PrevKv ev) as [pkv|] eqn:Hpkv; simpl; try naive_solver;
    (destruct (json_Unmarshal _) as [e|] eqn:He; [apply Hjson in He|simpl; naive_solver]);
    try (destruct (stored_ok registered codes r2 e Hok2 He) as (res & Hup & _);
         simpl in Hup; rewrite Hup; simpl; naive_solver);
    try (destruct (removed_ok registered codes r2 e Hok2 He) as (res & Hup & _);
         rewrite Hup; simpl; naive_solver);
    simpl; naive_solver.
Qed.

(** Etcd data restored to a revision that is not below the newest change applied
    is not recognised as restored: a node whose key was given a version by a
    synchronisation, which may be above the newest change applied, and which the
    restored data contains at or below this version, stays unknown. *)
Theorem restored_node_missed r id v resp :
  registry_ok registered codes r -> nodes r !! id = None ->
  versions r !! entry_key (keyPrefix r) id = Some v ->
  (forall kv, kv ∈ Kvs resp -> old_kv codes (keyPrefix r) id v kv) ->
  maxRev r <= Header_Revision resp ->
  exists r', resync registered r (Ok resp) = Ret (None, r') /\ nodes r' !! id = None.
Proof.
  intros Hok Hid Hv Hkvs Hmax. unfold resync. rewrite (proj2 (Z.ltb_ge _ _) Hmax).
  destruct (apply_kvs_missed registered codes (keyPrefix r) (Kvs resp) r id v)
    as (r1 & H1 & Hok1 & _ & Hid1 & _); [split_and!; eauto with lia|done|].
  destruct (remove_stale_missed registered codes (list_to_set (kv_Key <$> Kvs resp)) (Header_Revision resp)
    (range_values (nodes r1)) r1 id Hok1 Hid1) as (r2 & H2 & Hid2).
  { intros e (i & Hi)%elem_of_range_values. by eapply (ro_codes _ _ _ Hok1). }
  rewrite H1. cbn [outcome_bind]. rewrite H2. exists r2. done.
Qed.

(** A session of the watch that ends with an error before any response. *)
Definition failing (s : list watch_input * bool) : Prop :=
  s.2 = false /\
  match s.1 with
  | WatchDone err :: _ => errors_Is err context_Canceled = false
  | WatchClosed :: _ => True
  | WatchResp resp _ :: _ => exists err, w_Err resp = Some err /\
      errors_Is err context_Canceled = false
  | [] => False
  end.

(** The watch is retried after a failure, and gives up, ending the process, at the
    failure that follows [watchRetryMax] retries in a row without a response; a response
    sets the count back to zero. *)
Theorem watch_gives_up r retries sessions :
  0 <= retries <= watchRetryMax r -> in_int64 (watchRetryMax r) -> Forall failing sessions ->
  watch_loop registered r retries sessions =
    (if watchRetryMax r - retries <? Z.of_nat (length sessions) then Panic else Blocked) /\
  forall resp get inputs d sessions, w_Err resp = None ->
    watch_loop registered r retries ((WatchResp resp get :: inputs, d) :: sessions)
    = watch_loop registered r 0 ((WatchResp resp get :: inputs, d) :: sessions).
Proof.
  intros Hr Hmax HF. split.
  - revert retries Hr. induction HF as [|s ss Hs HF IH]; intros retries Hr.
    { change (Z.of_nat (length (@nil (list watch_input * bool)))) with 0. cbn [watch_loop]. destruct (Z.ltb_spec (watchRetryMax r - retries) 0); [lia|done]. }
    destruct s as [inputs d]. destruct Hs as [Hd Hs]. simpl in Hd, Hs. subst d.
    simpl. assert (exists err, consume registered r retries inputs = Ret (err, r, retries) /\
      errors_Is err context_Canceled = false) as (err & -> & Herr).
    { destruct inputs as [|[err| |resp get] inputs]; [done|eauto|eauto|].
      destruct Hs as (err & E & Herr). simpl. rewrite E. eauto. }
    simpl. rewrite Herr. destruct (Z.leb_spec (watchRetryMax r) retries).
    + destruct (Z.ltb_spec (watchRetryMax r - retries) (Z.of_nat (S (length ss)))); [done|lia].
    + rewrite wrap_s_int64 by (unfold in_int64 in *; lia). rewrite IH by lia.
      destruct (Z.ltb_spec (watchRetryMax r - (retries + 1)) (Z.of_nat (length ss)));
      destruct (Z.ltb_spec (watchRetryMax r - retries) (Z.of_nat (S (length ss)))); done || lia.
  - intros resp get inputs d ss E. simpl. by rewrite E.
Qed.
End Limits.

(** ** Witnesses *)

Definition node_a : NodeEntry := sample_node 1 NodeOK "10.0.0.1:9000" [sample_desc 7 "idHash"].
Definition node_b : NodeEntry := sample_node 2 NodeOK "10.0.0.2:9000" [sample_desc 7 "idHash"].

#[export] Instance sample_EntryJSON : EntryJSON := {|
  json_Marshal e := Ok (if bool_decide (ID e = sample_id 1) then "a" else "b")%string;
  json_Unmarshal s :=
    if bool_decide (s = "a"%string) then Ok node_a
    else if bool_decide (s = "b"%string) then Ok node_b
    else Err (EForeign "json");
|}.

Definition sample_prefix : string := "/nodehub/node".
Definition key_a : string := entry_key sample_prefix (sample_id 1).
Definition key_b : string := entry_key sample_prefix (sample_id 2).

(** The nodes are put at revisions 3 and 5, the first one is deleted at 8. *)
Definition put_a : change := {| ch_rev := 3; ch_key := key_a; ch_entry := Some node_a |}.
Definition put_b : change := {| ch_rev := 5; ch_key := key_b; ch_entry := Some node_b |}.
Definition delete_a : change := {| ch_rev := 8; ch_key := key_a; ch_entry := None |}.
Definition sample_history : list change := [put_a; put_b; delete_a].

Definition kv_a : KeyValue := {| kv_Key := key_a; kv_Value := "a"; kv_ModRevision := 3 |}.
Definition kv_b : KeyValue := {| kv_Key := key_b; kv_Value := "b"; kv_ModRevision := 5 |}.
Definition ev_put_a : Event := {| ev_Type := PUT; ev_Kv := kv_a; ev_PrevKv := None |}.
Definition ev_put_b : Event := {| ev_Type := PUT; ev_Kv := kv_b; ev_PrevKv := None |}.
Definition ev_delete_a : Event := {|
  ev_Type := DELETE; ev_Kv := {| kv_Key := key_a; kv_Value := ""; kv_ModRevision := 8 |};
  ev_PrevKv := Some kv_a |}.

Lemma sample_history_valid : valid_history sample_prefix sample_codes sample_history.
Proof.
  split.
  - unfold sample_history, rev_lt.
    repeat constructor; simpl; lia.
  - repeat constructor; simpl; lia.
  - intros c e Hc He. unfold sample_history in Hc.
    apply elem_of_cons in Hc as [->|Hc]; [injection He as <-; done|].
    apply elem_of_cons in Hc as [->|Hc]; [injection He as <-; done|].
    apply list_elem_of_singleton in Hc as ->. discriminate He.
Qed.

Lemma sample_reports :
  reports sample_history ev_put_a put_a /\ reports sample_history ev_put_b put_b /\
  reports sample_history ev_delete_a delete_a.
Proof.
  split; [|split]; (split; [done|split; [done|simpl]]).
  - by split.
  - by split.
  - split; [done|]. exists kv_a, node_a. vm_compute. auto.
Qed.

Definition snapshot_6 : GetResponse := {| Header_Revision := 6; Kvs := [kv_b; kv_a] |}.
Definition snapshot_9 : GetResponse := {| Header_Revision := 9; Kvs := [kv_b] |}.

Lemma sample_state key rev :
  state_at sample_history key rev =
    (if bool_decide (key_a = key) && (8 <=? rev) then None
     else if bool_decide (key_b = key) && (5 <=? rev) then Some node_b
     else if bool_decide (key_a = key) && (3 <=? rev) then Some node_a else None).
Proof. reflexivity. Qed.

Lemma snapshot_6_ok : snapshot_of sample_history snapshot_6.
Proof.
  split.
  - intros kv Hkv. apply elem_of_cons in Hkv as [->|Hkv].
    + exists node_b. vm_compute. auto.
    + apply list_elem_of_singleton in Hkv as ->. exists node_a. vm_compute. auto.
  - intros key e. rewrite sample_state. simpl. rewrite andb_false_r.
    case_bool_decide as Hb; simpl; [|case_bool_decide as Ha; simpl; [|done]]; intros _.
    + exists kv_b. split; [left|done].
    + exists kv_a. split; [right; left|done].
Qed.

Lemma snapshot_9_ok : snapshot_of sample_history snapshot_9.
Proof.
  split.
  - intros kv Hkv. apply list_elem_of_singleton in Hkv as ->. exists node_b. vm_compute. auto.
  - intros key e. rewrite sample_state. simpl.
    case_bool_decide as Ha; simpl; [done|].
    case_bool_decide as Hb; simpl; [|done]. intros _. exists kv_b. split; [left|done].
Qed.

(** The deletion is told first, the snapshot is older, the puts come last. *)
Definition sample_inputs : list registry_input :=
  [InEvent ev_put_b; InResync (Ok snapshot_6); InGatewayClient (sample_id 1);
   InEvent ev_delete_a; InEvent ev_put_a; InEvent ev_put_b].

Lemma sample_consistent : consistent sample_history 0 sample_inputs.
Proof.
  destruct sample_reports as (Ha & Hb & Hd). simpl. split_and!; try done.
  - exists put_b. split; [right; left|done].
  - exact snapshot_6_ok.
  - exists delete_a. split; [right; right; left|done].
  - exists put_a. split; [left|done].
  - exists put_b. split; [right; left|done].
Qed.

Lemma registry_follows_history_witness :
  exists r, run_inputs builtin (initial sample_prefix) sample_inputs = Ret r /\
    nodes r !! sample_id 1 = state_at sample_history key_a 8 /\ replay (events r) = nodes r.
Proof.
  destruct (registry_follows_history builtin sample_prefix sample_codes sample_history sample_inputs
    sample_history_valid sample_consistent) as (r & H1 & _ & H2 & _ & _ & H3).
  exists r. split; [exact H1|]. split; [|exact H3].
  apply (H2 ev_delete_a (sample_id 1)).
  - right. right. right. left.
  - reflexivity.
  - intros c Hc _. apply elem_of_cons in Hc as [->|Hc]; [simpl; lia|].
    apply elem_of_cons in Hc as [->|Hc]; [simpl; lia|].
    apply list_elem_of_singleton in Hc as ->. simpl. lia.
Defined.

Lemma sample_consistent_resync :
  consistent sample_history 0 ([InEvent ev_put_a] ++ [InResync (Ok snapshot_9)]).
Proof.
  destruct sample_reports as (Ha & Hb & Hd). simpl. split_and!; try done.
  - exists put_a. split; [left|done].
  - exact snapshot_9_ok.
Qed.

Lemma resync_converges_witness :
  exists r r', run_inputs builtin (initial sample_prefix) [InEvent ev_put_a] = Ret r /\
    resync builtin r (Ok snapshot_9) = Ret (None, r') /\
    (forall id, nodes r' !! id =
       state_at sample_history (entry_key sample_prefix id) (Header_Revision snapshot_9)).
Proof.
  destruct (resync_converges builtin sample_prefix sample_codes sample_history [InEvent ev_put_a]
    snapshot_9 sample_history_valid sample_consistent_resync) as (r & r' & H1 & H2 & H3 & _).
  exists r, r'. auto.
Defined.

Definition newer_registry : Registry := set_versions (initial sample_prefix) ∅ 50.

Lemma newer_registry_ok : registry_ok builtin sample_codes newer_registry.
Proof. apply versions_ok. apply (follows_initial builtin sample_prefix sample_codes sample_history). Qed.

Lemma resync_after_restore_witness :
  exists r', resync builtin newer_registry (Ok snapshot_9) = Ret (None, r') /\ maxRev r' = 9 /\
    (forall id, nodes r' !! id =
       state_at sample_history (entry_key sample_prefix id) (Header_Revision snapshot_9)) /\
    registry_ok builtin sample_codes r'.
Proof.
  apply (resync_after_restore builtin sample_prefix sample_codes sample_history newer_registry
           snapshot_9).
  - exact sample_history_valid.
  - exact snapshot_9_ok.
  - exact newer_registry_ok.
  - reflexivity.
  - simpl. lia.
Defined.

Lemma sample_json_codes s e : json_Unmarshal s = Ok e -> lists_codes sample_codes e.
Proof. simpl. repeat case_bool_decide; intros [= <-]; done. Qed.

Lemma apply_panics_iff_witness :
  is_Ret (apply builtin newer_registry
    {| ev_Type := DELETE; ev_Kv := ev_Kv ev_delete_a; ev_PrevKv := None |}) = false.
Proof.
  apply (apply_panics_iff builtin sample_codes newer_registry
    {| ev_Type := DELETE; ev_Kv := ev_Kv ev_delete_a; ev_PrevKv := None |}).
  - exact sample_json_codes.
  - exact newer_registry_ok.
  - vm_compute. auto.
Defined.

(** Node 1 is deleted unseen at 8 and found missing by a synchronisation at 9; then etcd
    is restored to revision 6, where the node is registered. *)
Definition synced_registry : Registry :=
  outcome_get newer_registry
    (run_inputs builtin (initial sample_prefix)
       [InEvent ev_put_a; InEvent ev_put_b; InResync (Ok snapshot_9)]).

Lemma synced_registry_ok : registry_ok builtin sample_codes synced_registry.
Proof.
  destruct (initial_follows builtin sample_prefix sample_codes sample_history sample_history_valid
    [InEvent ev_put_a; InEvent ev_put_b; InResync (Ok snapshot_9)]) as (r & H1 & Hf & _).
  - destruct sample_reports as (Ha & Hb & Hd). simpl. split_and!; try done.
    + exists put_a. split; [left|done].
    + exists put_b. split; [right; left|done].
    + exact snapshot_9_ok.
  - unfold synced_registry. rewrite H1. apply (fo_ok _ _ _ _ _ _ Hf).
Qed.

Lemma restored_node_missed_witness :
  exists r', resync builtin synced_registry (Ok snapshot_6) = Ret (None, r') /\
    nodes r' !! sample_id 1 = None.
Proof.
  apply (restored_node_missed builtin sample_codes synced_registry (sample_id 1) 9 snapshot_6).
  - exact synced_registry_ok.
  - vm_compute. reflexivity.
  - vm_compute. reflexivity.
  - intros kv Hkv e He. split; [by eapply sample_json_codes|].
    apply elem_of_cons in Hkv as [->|Hkv].
    + injection He as <-. split; [vm_compute; reflexivity|]. intros E. discriminate E.
    + apply list_elem_of_singleton in Hkv as ->. injection He as <-.
      split; [vm_compute; reflexivity|]. simpl. lia.
  - vm_compute. discriminate.
Defined.

Lemma watch_gives_up_witness :
  watch_loop builtin (initial sample_prefix) 0 (replicate 11 ([WatchClosed], false)) = Panic.
Proof.
  rewrite (proj1 (watch_gives_up builtin (initial sample_prefix) 0
    (replicate 11 ([WatchClosed], false)) ltac:(simpl; lia) ltac:(unfold in_int64; simpl; lia)
    ltac:(repeat constructor))).
  reflexivity.
Defined.
