(* ===== verification/Typing.v ===== *)
(** * Typing: what the cluster's registries hold is well formed
      ([cluster/entry.go], [cluster/registry.go], [cluster/resolver.go])

    A node validates its entry before it writes it. Whatever a registry is told of what
    was written, in whatever order and however incompletely, all it hands out is then
    well formed. *)

From S2P Require Import Prelude External Entry PathLib Samples Balancer Resolver StateTable Messages Registry.

Local Open Scope Z_scope.

Section Typing.
Context `{L : ULIDLaws} `{R : MapRange} `{N : Net} `{X : XXHash} `{G : GRPCDial} `{J : !EntryJSON}.
Context (registered : gmap string BalancerFactory) `{B : !BalancerSpec registered}.

(** ** Types *)

(** A description filed under a code. *)
Definition desc_typed (code : Z) (desc : GRPCServiceDesc) : Prop :=
  valid_desc desc /\ Code desc = code /\ 0 < code.

(** The entries the registry was told of, which are valid. *)
Variable told : NodeEntry -> Prop.
Hypothesis told_valid : forall e, told e -> valid_entry e.

(** A node of the resolver: one it was told of, and with services, so that it has an
    endpoint. *)
Definition node_typed (e : NodeEntry) : Prop := told e /\ Services (GRPC e) <> [].

Record resolver_typed (r : grpcResolver) : Prop := {
  rt_nodes : forall id e, allNodes r !! id = Some e -> ID e = id /\ node_typed e;
  rt_services : forall code desc, services r !! code = Some desc -> desc_typed code desc;
  rt_ok : forall code es, okNodes r !! code = Some es ->
    0 < code /\ es <> [] /\ Forall (fun e => node_typed e /\ offers code e) es;
}.

(** If no node ever lists other services, what is derived from the nodes is up to date. *)
Definition current (r : grpcResolver) : Prop :=
  forall codes, (forall e, told e -> lists_codes codes e) -> resolver_inv registered codes r.

Record registry_typed (r : Registry) : Prop := {
  gt_nodes : forall id e, nodes r !! id = Some e -> ID e = id /\ told e;
  gt_resolver : resolver_typed (resolver r);
  gt_current : current (resolver r);
}.

(** A value as [Put] writes it. *)
Definition written (value : string) : Prop :=
  exists r entry grant keepalive put err r' key lease,
    Put r entry grant keepalive put = (err, r', Some (key, value, lease)).

(** The values an input tells of. *)
Definition event_values (ev : Event) : list string :=
  match ev_Type ev with
  | DELETE => match ev_PrevKv ev with Some kv => [kv_Value kv] | None => [] end
  | _ => [kv_Value (ev_Kv ev)]
  end.
Definition input_values (i : registry_input) : list string :=
  match i with
  | InEvent ev => event_values ev
  | InResync (Ok resp) => kv_Value <$> Kvs resp
  | _ => []
  end.

(** A value that decodes to such an entry, if it does. *)
Definition value_typed (value : string) : Prop :=
  forall e, json_Unmarshal value = Ok e -> told e.

(** ** The resolver *)

Lemma resolver_typed_init : resolver_typed newGRPCResolver.
Proof. split; simpl; intros *; by rewrite lookup_empty. Qed.

Lemma updateServiceNodes_typed r code :
  0 < code -> resolver_typed r -> resolver_typed (updateServiceNodes r code).
Proof.
  intros Hcode [Hn Hs Ho]. unfold updateServiceNodes.
  destruct (filter _ (range_values (allNodes r))) as [|e es] eqn:E; split; simpl; try done.
  - intros c es [_ ?]%lookup_delete_Some. by eapply Ho.
  - intros c es'. rewrite lookup_insert_Some. intros [[<- <-]|[_ ?]]; [|by eapply Ho].
    split; [done|]. split; [done|].
    rewrite <- E. apply Forall_forall. intros x [Hx%provides_offers Hin]%list_elem_of_filter.
    apply elem_of_range_values in Hin as [id Hid]. split; [by eapply Hn|done].
Qed.

Lemma updateBalancer_typed r code r' :
  resolver_typed r -> updateBalancer registered r code = Ret r' -> resolver_typed r'.
Proof.
  intros Hr. unfold updateBalancer. destruct (services r !! code) as [desc|]; [|by intros [= <-]].
  destruct (negb (Public desc)); [by intros [= <-]|].
  destruct (okNodes r !! code) as [es|] eqn:Hok; simpl; cycle 1.
  { intros [= <-]. destruct Hr as [Hn Hs Ho]. by split. }
  pose proof Hr as [Hn Hs Ho]. destruct (Ho _ _ Hok) as (Hcode & Hne & Hes). destruct es as [|e es]; [done|].
  destruct (balancer_spec code (e :: es)) as (b & es' & Hb & Hp & _).
  rewrite Hb. simpl. intros [= <-]. split; simpl; try done.
  intros c es0. rewrite lookup_insert_Some. intros [[<- <-]|[_ ?]]; [|by eapply Ho].
  split; [done|]. split; [|by rewrite Hp]. intros ->. by apply Permutation_nil_l in Hp.
Qed.

Lemma drop_conn_typed r ep : resolver_typed r -> resolver_typed (drop_conn r ep).
Proof. intros [Hn Hs Ho]. unfold drop_conn. by destruct (conns r !! ep); split. Qed.

Lemma update_descs_typed descs r r' :
  resolver_typed r -> Forall valid_desc descs -> update_descs registered r descs = Ret r' ->
  resolver_typed r'.
Proof.
  intros Hr Hd. revert r Hr. induction Hd as [|desc descs Hdesc _ IH]; intros r Hr; simpl; [by intros [= <-]|].
  destruct (Z.ltb_spec 0 (Code desc)); [|by apply IH]. intros (r1 & H1 & H2)%outcome_bind_Ret.
  apply (IH r1); [|done]. eapply updateBalancer_typed; [|exact H1]. apply updateServiceNodes_typed; [done|].
  destruct Hr as [Hn Hs Ho]. split; simpl; try done.
  intros c d. rewrite lookup_insert_Some. intros [[<- <-]|[_ ?]]; [done|by apply Hs].
Qed.

Lemma remove_descs_typed descs r r' :
  resolver_typed r -> remove_descs registered r descs = Ret r' -> resolver_typed r'.
Proof.
  revert r. induction descs as [|desc descs IH]; intros r Hr; simpl; [by intros [= <-]|].
  destruct (Z.ltb_spec 0 (Code desc)); [|by apply IH]. intros (r1 & H1 & H2)%outcome_bind_Ret.
  apply (IH r1); [|done]. eapply updateBalancer_typed; [|exact H1]. by apply updateServiceNodes_typed.
Qed.

Lemma valid_descs e : valid_entry e -> Forall valid_desc (Services (GRPC e)).
Proof. intros (_ & _ & _ & [->|[_ H]] & _); [constructor|done]. Qed.

Lemma Update_typed r e r' :
  resolver_typed r -> current r -> told e -> Update registered r e = Ret r' -> resolver_typed r' /\ current r'.
Proof.
  intros Hr Hcur He Hup. split.
  - revert Hup. unfold Update. case_bool_decide as Hs; [by intros [= <-]|].
    intros (r1 & H1 & [= <-])%outcome_bind_Ret.
    apply update_descs_typed in H1; [by case_bool_decide; [apply drop_conn_typed|]| |by apply valid_descs, told_valid].
    destruct Hr as [Hn Hsv Ho]. split; simpl; try done.
    intros id e'. rewrite lookup_insert_Some. intros [[<- <-]|[_ ?]]; [by split|by eapply Hn].
  - intros codes Hst. destruct (Update_inv registered codes r e (Hcur codes Hst) (Hst e He)) as (r2 & E & Hi).
    congruence.
Qed.

Lemma Remove_typed r e r' :
  resolver_typed r -> current r -> told e -> Resolver.Remove registered r e = Ret r' ->
  resolver_typed r' /\ current r'.
Proof.
  intros Hr Hcur He Hrm. split.
  - revert Hrm. unfold Resolver.Remove. case_bool_decide; [by intros [= <-]|].
    intros (r1 & H1 & [= <-])%outcome_bind_Ret. apply drop_conn_typed.
    eapply remove_descs_typed; [|exact H1]. destruct Hr as [Hn Hs Ho]. split; simpl; try done.
    intros id e' [_ ?]%lookup_delete_Some. by eapply Hn.
  - intros codes Hst. destruct (Remove_inv registered codes r e (Hcur codes Hst) (Hst e He)) as (r2 & E & Hi).
    congruence.
Qed.

Lemma getConn_typed r ep : resolver_typed r -> current r -> resolver_typed (getConn r ep).2 /\ current (getConn r ep).2.
Proof.
  intros [Hn Hs Ho] Hcur. split; [|intros codes Hst; by apply getConn_inv, Hcur].
  unfold getConn. destruct (conns r !! ep); [by split|]. by destruct (grpc_NewClient ep); split.
Qed.

Lemma GetConn_typed r id : resolver_typed r -> current r -> resolver_typed (GetConn r id).2 /\ current (GetConn r id).2.
Proof.
  intros Hr Hcur. unfold GetConn. destruct (allNodes r !! id); [|done]. case_bool_decide; [done|].
  by apply getConn_typed.
Qed.

(** ** The registry *)

Lemma registry_typed_versions r vs m : registry_typed r -> registry_typed (set_versions r vs m).
Proof. by intros [Hn Hr Hc]; split. Qed.

Lemma removeNode_typed r e r' :
  registry_typed r -> told e -> removeNode registered r e = Ret r' -> registry_typed r'.
Proof.
  intros [Hn Hr Hc] He. unfold removeNode. intros (res & H & [= <-])%outcome_bind_Ret.
  destruct (Remove_typed _ _ _ Hr Hc He H) as [Hr' Hc']. split; simpl; [|done|done].
  intros id e' [_ ?]%lookup_delete_Some. by eapply Hn.
Qed.

Lemma apply_typed r ev r' :
  registry_typed r -> Forall value_typed (event_values ev) -> apply registered r ev = Ret r' ->
  registry_typed r'.
Proof.
  intros Hr Hv. unfold apply. set (r1 := if _ <? _ then _ else r).
  assert (registry_typed r1) as Hr1 by (subst r1; destruct (_ <? _); [by apply registry_typed_versions|done]).
  clearbody r1. destruct (match versions r1 !! _ with Some _ => _ | None => _ end); [by intros [= <-]|].
  set (r2 := set_versions r1 _ _). assert (registry_typed r2) as Hr2 by (by apply registry_typed_versions).
  clearbody r2. destruct (match ev_Type ev with DELETE => _ | _ => _ end) as [kv|] eqn:Ekv; [|done].
  assert (value_typed (kv_Value kv)) as Ht.
  { unfold event_values in Hv. destruct (ev_Type ev).
    - injection Ekv as <-. exact (proj1 (Forall_singleton _ _) Hv).
    - rewrite Ekv in Hv. exact (proj1 (Forall_singleton _ _) Hv).
    - injection Ekv as <-. exact (proj1 (Forall_singleton _ _) Hv). }
  destruct (json_Unmarshal (kv_Value kv)) as [e|] eqn:He; [|by intros [= <-]]. apply Ht in He.
  destruct (ev_Type ev); [|by intros; eapply removeNode_typed|by intros [= <-]].
  intros (res & H & [= <-])%outcome_bind_Ret. destruct Hr2 as [Hn Hres Hcur].
  destruct (Update_typed _ _ _ Hres Hcur He H) as [Hres' Hcur']. split; simpl; [|done|done].
  intros id e'. rewrite lookup_insert_Some. intros [[<- <-]|[_ ?]]; [done|by eapply Hn].
Qed.

Lemma apply_kvs_typed kvs r r' :
  registry_typed r -> Forall value_typed (kv_Value <$> kvs) -> apply_kvs registered r kvs = Ret r' ->
  registry_typed r'.
Proof.
  revert r. induction kvs as [|kv kvs IH]; intros r Hr; cbn [apply_kvs]; [by intros _ [= <-]|].
  rewrite fmap_cons. intros [Hv Hvs]%Forall_cons (r1 & H1 & H2)%outcome_bind_Ret.
  apply (IH r1); [|done..]. eapply apply_typed; [done| |done]. by apply Forall_singleton.
Qed.

Lemma remove_stale_typed present rev es r r' :
  registry_typed r -> Forall told es -> remove_stale registered r present rev es = Ret r' -> registry_typed r'.
Proof.
  intros Hr Hes. revert r Hr. induction Hes as [|e es He _ IH]; intros r Hr; cbn [remove_stale]; [by intros [= <-]|].
  case_bool_decide; [by apply IH|]. intros (r1 & H1 & H2)%outcome_bind_Ret. apply (IH r1); [|done].
  eapply removeNode_typed; [|done..]. by apply registry_typed_versions.
Qed.

Lemma run_input_typed r i r' :
  registry_typed r -> Forall value_typed (input_values i) -> run_input registered r i = Ret r' ->
  registry_typed r'.
Proof.
  intros Hr Hv. pose proof Hr as [Hn Hres Hcur]. destruct i as [ev|get|id|id|id]; simpl in *.
  - by apply apply_typed.
  - intros ([err r1] & H & [= <-])%outcome_bind_Ret. unfold resync in H.
    destruct get as [resp|]; [|by injection H as _ <-].
    apply outcome_bind_Ret in H as (r2 & H2 & H). apply outcome_bind_Ret in H as (r3 & H3 & [= _ <-]).
    assert (registry_typed r2) as Hr2.
    { eapply apply_kvs_typed; [|exact Hv|exact H2]. destruct (_ <? _); [by apply registry_typed_versions|done]. }
    eapply remove_stale_typed; [exact Hr2| |exact H3]. apply Forall_forall.
    intros e [id Hid]%elem_of_range_values. destruct Hr2 as [Hn2 _ _]. by destruct (Hn2 _ _ Hid).
  - intros [= <-]. unfold GetGRPCConn. destruct (GetConn_typed (resolver r) id Hres Hcur) as [H1 H2].
    destruct (GetConn (resolver r) id). by split.
  - intros [= <-]. unfold GetGatewayClient. destruct (nodes r !! id) as [e|]; [|done].
    destruct (getConn_typed (resolver r) (Endpoint (GRPC e)) Hres Hcur) as [H1 H2].
    destruct (getConn _ _). by split.
  - intros [= <-]. unfold GetNodeClient. destruct (nodes r !! id) as [e|]; [|done].
    destruct (getConn_typed (resolver r) (Endpoint (GRPC e)) Hres Hcur) as [H1 H2].
    destruct (getConn _ _). by split.
Qed.

Lemma run_inputs_typed ins r r' :
  registry_typed r -> Forall (fun i => Forall value_typed (input_values i)) ins ->
  run_inputs registered r ins = Ret r' -> registry_typed r'.
Proof.
  revert r. induction ins as [|i ins IH]; intros r Hr; cbn [run_inputs]; [by intros _ [= <-]|].
  intros [Hi His]%Forall_cons (r1 & H1 & H2)%outcome_bind_Ret. apply (IH r1); [|done..].
  by eapply run_input_typed.
Qed.

Lemma registry_typed_initial prefix : registry_typed (initial prefix).
Proof.
  split; [simpl; intros *; by rewrite lookup_empty|apply resolver_typed_init|].
  intros codes _. apply resolver_inv_init.
Qed.

(** What a typed registry hands out. *)
Lemma node_endpoint e : node_typed e -> Endpoint (GRPC e) <> ""%string.
Proof. intros [Ht Hs]. by destruct (told_valid e Ht) as (_ & _ & _ & [?|[? _]] & _). Qed.

Lemma PickGRPCNode_typed r code seed id :
  registry_typed r -> PickGRPCNode r code seed = Ret (Ok id) ->
  0 < code /\ exists e, ID e = id /\ node_typed e /\ offers code e.
Proof.
  intros [_ [_ _ Hok] _]. unfold PickGRPCNode, PickNode.
  destruct (okNodes (resolver r) !! code) as [es|] eqn:E; simpl; [|done].
  destruct (Hok _ _ E) as (Hcode & _ & Hes). intros Hpick. split; [done|]. assert (id ∈ ID <$> es) as Hin.
  { destruct es as [|e [|e' es]]; [done|injection Hpick as <-; by left|].
    apply outcome_bind_Ret in Hpick as (i & _ & Hi). by eapply node_ID_elem. }
  apply list_elem_of_fmap in Hin as (e & -> & He). exists e. split; [done|].
  exact (proj1 (Forall_forall _ _) Hes _ He).
Qed.

Lemma PickGRPCNode_current r code seed id codes :
  registry_typed r -> (forall e, told e -> lists_codes codes e) -> PickGRPCNode r code seed = Ret (Ok id) ->
  exists e, allNodes (resolver r) !! id = Some e /\ offers code e.
Proof.
  intros Hr Hst Hp. destruct (PickGRPCNode_typed _ _ _ _ Hr Hp) as [Hcode _].
  destruct (resolver_inv_allocation registered codes (resolver r) code (gt_current _ Hr codes Hst) Hcode) as [H _].
  unfold PickGRPCNode in Hp. destruct (H seed) as [[_ E]|(id' & e & He & Ho & E)]; rewrite E in Hp; [done|].
  injection Hp as <-. eauto.
Qed.
End Typing.

(** ** The claims *)
Section Claims.
Context `{L : ULIDLaws} `{R : MapRange} `{N : Net} `{X : XXHash} `{G : GRPCDial} `{J : !EntryJSON}.
Context (registered : gmap string BalancerFactory) `{B : !BalancerSpec registered}.

(** An entry that some of the inputs tells of. *)
Definition told_by (ins : list registry_input) (e : NodeEntry) : Prop :=
  exists i value, i ∈ ins /\ value ∈ input_values i /\ json_Unmarshal value = Ok e.

Lemma written_valid value e :
  (forall e s, json_Marshal e = Ok s -> json_Unmarshal s = Ok e) -> written value ->
  json_Unmarshal value = Ok e -> valid_entry e.
Proof.
  intros Hjson (r & entry & grant & ka & put & err & r' & key & lease & H) He. unfold Put in H.
  destruct (Validate entry) as [[]|] eqn:Hv; [|done].
  destruct (json_Marshal entry) as [v|] eqn:Hm; [|done]. destruct (initLease r grant ka) as [[?|] ?]; [done|].
  injection H as _ _ _ -> _. apply Hjson in Hm. assert (e = entry) as -> by congruence.
  by apply Validate_sound.
Qed.

(** C21. A cluster whose nodes write their entries with [Put] is well typed: after any
    inputs, in any order, with any values of the cluster's keys among them lost or
    repeated, every node a registry knows is filed under its ID and has a valid entry, of
    which an input told; every description it returns is valid and that of the code asked
    for; a node picked by [PickGRPCNode] is one an input told of as "ok" and listing the
    service, with an endpoint, and it is among the nodes known to list the service now, if
    no node ever lists other services than before; and a node a connection is made to by
    [GetGRPCConn] is the one known under the ID, has services and an endpoint, is not down,
    and the connection is that of its endpoint. *)
Theorem cluster_well_typed prefix ins r :
  (forall e s, json_Marshal e = Ok s -> json_Unmarshal s = Ok e) ->
  Forall (fun i => Forall written (input_values i)) ins ->
  run_inputs registered (initial prefix) ins = Ret r ->
  (forall id e, nodes r !! id = Some e -> ID e = id /\ told_by ins e /\ valid_entry e) /\
  (forall code desc, GetGRPCDesc r code = Some desc -> valid_desc desc /\ Code desc = code /\ 0 < code) /\
  (forall code seed id, PickGRPCNode r code seed = Ret (Ok id) ->
     (exists e, ID e = id /\ told_by ins e /\ valid_entry e /\ offers code e /\ Endpoint (GRPC e) <> ""%string) /\
     (forall codes, (forall e, told_by ins e -> lists_codes codes e) ->
        exists e, allNodes (resolver r) !! id = Some e /\ offers code e)) /\
  (forall id c r', GetGRPCConn r id = (Ok c, r') ->
     exists e, allNodes (resolver r) !! id = Some e /\ ID e = id /\ told_by ins e /\ valid_entry e /\
       Services (GRPC e) <> [] /\ Endpoint (GRPC e) <> ""%string /\ State e <> NodeDown /\
       conns (resolver r') !! Endpoint (GRPC e) = Some c).
Proof.
  intros Hjson Hw Hrun. rewrite Forall_forall in Hw.
  assert (forall e, told_by ins e -> valid_entry e) as Hvalid.
  { intros e (i & value & Hi & Hv & He). eapply written_valid; [done| |exact He].
    by apply (proj1 (Forall_forall _ _) (Hw i Hi)). }
  assert (registry_typed registered (told_by ins) r) as Hr.
  { eapply (run_inputs_typed registered (told_by ins) Hvalid ins); [apply registry_typed_initial| |done].
    apply Forall_forall. intros i Hi. apply Forall_forall. intros v Hv e He. by exists i, v. }
  pose proof Hr as [Hn [Hnodes Hs _] _]. split_and!.
  - intros id e He. destruct (Hn _ _ He). auto.
  - done.
  - intros code seed id Hp. split; [|intros codes Hst; by eapply PickGRPCNode_current].
    destruct (PickGRPCNode_typed _ _ _ _ _ _ Hr Hp) as (_ & e & Hid & He & Ho). exists e.
    split_and!; [done|by apply He|by apply Hvalid, He|done|by eapply node_endpoint].
  - intros id c r'. unfold GetGRPCConn, GetConn. destruct (allNodes (resolver r) !! id) as [e|] eqn:E; [|done].
    destruct (Hnodes _ _ E) as [Hid He]. case_bool_decide as Hd; [done|]. intros Hg. exists e.
    split_and!; [done|done|by apply He|by apply Hvalid, He|by apply He|by eapply node_endpoint|done|].
    revert Hg. unfold getConn. destruct (conns (resolver r) !! _) as [c'|] eqn:Ec.
    + by intros [= -> <-].
    + destruct (grpc_NewClient _); [done|]. intros [= <- <-]. simpl. by rewrite lookup_insert_eq.
Qed.
End Claims.

(** ** The witness *)

#[local] Instance typed_EntryJSON : EntryJSON := {|
  json_Marshal e := if decide (e = node_a) then Ok "a"%string
                    else if decide (e = node_b) then Ok "b"%string else Err (EForeign "json");
  json_Unmarshal s := if decide (s = "a"%string) then Ok node_a
                      else if decide (s = "b"%string) then Ok node_b else Err (EForeign "json");
|}.

Lemma typed_json_roundtrip e s : json_Marshal e = Ok s -> json_Unmarshal s = Ok e.
Proof. simpl. repeat case_decide; intros [= <-]; subst; done. Qed.

Definition typed_inputs : list registry_input := [InEvent ev_put_b; InEvent ev_put_a].

Lemma node_a_written : written "a".
Proof.
  exists (initial sample_prefix), node_a, (Ok 1), None, None. do 4 eexists. vm_compute. reflexivity.
Qed.
Lemma node_b_written : written "b".
Proof.
  exists (initial sample_prefix), node_b, (Ok 1), None, None. do 4 eexists. vm_compute. reflexivity.
Qed.

Lemma cluster_well_typed_witness :
  exists r, run_inputs builtin (initial sample_prefix) typed_inputs = Ret r /\
    nodes r !! sample_id 1 = Some node_a /\ valid_entry node_a.
Proof.
  assert (match run_inputs builtin (initial sample_prefix) typed_inputs with Ret _ => true | _ => false end
    = true) as Hret by (vm_compute; reflexivity).
  destruct (run_inputs builtin (initial sample_prefix) typed_inputs) as [r| |] eqn:E;
    [clear Hret|discriminate Hret..].
  exists r. split; [reflexivity|].
  assert (nodes r !! sample_id 1 = Some node_a) as Ha.
  { assert (r = outcome_get (initial sample_prefix) (run_inputs builtin (initial sample_prefix) typed_inputs)) as ->
      by (by rewrite E). vm_compute. reflexivity. }
  split; [exact Ha|].
  destruct (cluster_well_typed builtin sample_prefix typed_inputs r typed_json_roundtrip) as [H _].
  - repeat constructor; [exact node_b_written|exact node_a_written].
  - exact E.
  - apply (H _ _ Ha).
Defined.
