(* ===== verification/Agreement.v ===== *)
(** * Agreement: what the processes of a cluster have in common

    Each process follows etcd by itself ([Registry]) and ranges over its maps in an order
    of its own. What they know and decide is the same nevertheless. *)

From S2P Require Import Prelude External Entry PathLib Samples Balancer Resolver Messages Registry.

Local Open Scope go_scope.
Local Open Scope Z_scope.

Section Resolvers.
Context `{L : ULIDLaws} `{N : Net} `{X : XXHash} `{G : GRPCDial}.
Context (registered : gmap string BalancerFactory) `{B : !BalancerSpec registered}.
Context (codes : ulid -> list Z).
(** The orders in which two processes range over maps. *)
Context (R1 R2 : MapRange).

(** The nodes that offer a service, in the orders of the two. *)
Lemma providers_perm (m : gmap ulid NodeEntry) c :
  keyed m -> providers (R := R1) m c ≡ₚ providers (R := R2) m c.
Proof.
  intros Hk. apply NoDup_Permutation.
  - eapply NoDup_fmap_1. by apply (providers_NoDup (R := R1)).
  - eapply NoDup_fmap_1. by apply (providers_NoDup (R := R2)).
  - intros node. by rewrite (elem_of_providers (R := R1)), (elem_of_providers (R := R2)).
Qed.

(** Resolvers that know the same nodes have the same balancers of public services. *)
Lemma same_balancer r1 r2 c d1 d2 :
  resolver_inv (R := R1) registered codes r1 -> resolver_inv (R := R2) registered codes r2 ->
  allNodes r1 = allNodes r2 -> 0 < c ->
  GetDesc r1 c = Some d1 -> GetDesc r2 c = Some d2 -> Public d1 = true -> Public d2 = true ->
  serviceBalancer r1 !! c = serviceBalancer r2 !! c.
Proof.
  intros [Hk1 _ Hf1 _] [Hk2 _ Hf2 _] E Hc Hd1 Hd2 Hp1 Hp2.
  destruct (Hf1 c Hc) as (_ & _ & H1), (Hf2 c Hc) as (_ & _ & H2).
  destruct (H1 d1 Hd1 Hp1) as [Hn1 Hs1], (H2 d2 Hd2 Hp2) as [Hn2 Hs2]. rewrite <- E in *.
  pose proof (providers_perm _ c Hk1) as Hperm.
  destruct (decide (providers (R := R1) (allNodes r1) c = [])) as [E1|E1].
  - rewrite Hn1, Hn2; [done| |done]. rewrite E1 in Hperm. by apply Permutation_nil_l in Hperm.
  - assert (providers (R := R2) (allNodes r1) c <> []) as E2.
    { intros E2. rewrite E2 in Hperm. by apply Permutation_nil_r in Hperm. }
    destruct (Hs1 E1) as (b1 & n1 & -> & Hb1), (Hs2 E2) as (b2 & n2 & -> & Hb2).
    rewrite (NewBalancer_perm _ _ _ _ (providers_NoDup (R := R1) _ _ Hk1) Hperm) in Hb1. congruence.
Qed.
End Resolvers.

Section Claims.
Context `{L : ULIDLaws} `{N : Net} `{X : XXHash} `{G : GRPCDial} `{J : !EntryJSON}.
Context (registered : gmap string BalancerFactory) `{B : !BalancerSpec registered}.
Context (prefix : string) (codes : ulid -> list Z) (H : list change).
Context (R1 R2 : MapRange).

(** C17. Processes agree: two processes that each were told of the history of the cluster in
    some way of their own, events late, repeated, out of order or missing, and last
    synchronised at moments between which no node changed, know the same nodes and, for a
    service that both know as public, send the same session to the same node, for every
    policy that needs no randomness, and with the same random numbers else, whatever the
    orders in which the two range over their maps. *)
Theorem processes_agree ins1 resp1 ins2 resp2 :
  valid_history prefix codes H ->
  consistent H 0 (ins1 ++ [InResync (Ok resp1)]) -> consistent H 0 (ins2 ++ [InResync (Ok resp2)]) ->
  (forall id, state_at H (entry_key prefix id) (Header_Revision resp1)
            = state_at H (entry_key prefix id) (Header_Revision resp2)) ->
  exists r1 r2,
    run_inputs (R := R1) registered (initial prefix) (ins1 ++ [InResync (Ok resp1)]) = Ret r1 /\
    run_inputs (R := R2) registered (initial prefix) (ins2 ++ [InResync (Ok resp2)]) = Ret r2 /\
    nodes r1 = nodes r2 /\
    forall c d1 d2, 0 < c -> GetGRPCDesc r1 c = Some d1 -> GetGRPCDesc r2 c = Some d2 ->
      Public d1 = true -> Public d2 = true ->
      forall sess seed, AllocGRPCNode r1 c sess seed = AllocGRPCNode r2 c sess seed.
Proof.
  intros HH Hc1 Hc2 Hsame.
  assert (forall (R : MapRange) ins resp, consistent H 0 (ins ++ [InResync (Ok resp)]) ->
    exists r, run_inputs (R := R) registered (initial prefix) (ins ++ [InResync (Ok resp)]) = Ret r /\
      registry_ok (R := R) registered codes r /\
      forall id, nodes r !! id = state_at H (entry_key prefix id) (Header_Revision resp)) as Hrun.
  { intros R ins resp [Hc [Hle Hs]]%consistent_snoc.
    destruct (initial_follows (R := R) registered prefix codes H HH ins Hc) as (r & Hr & Hf & _ & _).
    destruct (resync_follows (R := R) registered prefix codes H HH _ _ _ Hf Hle Hs)
      as (r' & Hr' & Hf' & _ & _ & Hall & _).
    exists r'. split; [|split; [apply Hf'|done]].
    rewrite run_inputs_snoc, Hr. cbn [outcome_bind run_input]. by rewrite Hr'. }
  destruct (Hrun R1 _ _ Hc1) as (r1 & Hr1 & Hok1 & Hn1), (Hrun R2 _ _ Hc2) as (r2 & Hr2 & Hok2 & Hn2).
  exists r1, r2. assert (nodes r1 = nodes r2) as Hn by (apply map_eq; intros id; by rewrite Hn1, Hn2).
  split_and!; try done. intros c d1 d2 Hc Hd1 Hd2 Hp1 Hp2 sess seed.
  assert (allNodes (resolver r1) = allNodes (resolver r2)) as Ha.
  { apply map_eq. intros id. rewrite (ro_sync _ _ _ Hok1), (ro_sync _ _ _ Hok2). by rewrite Hn. }
  unfold AllocGRPCNode, AllocNode.
  by rewrite (same_balancer registered codes R1 R2 (resolver r1) (resolver r2) c d1 d2
    (ro_resolver _ _ _ Hok1) (ro_resolver _ _ _ Hok2) Ha Hc Hd1 Hd2 Hp1 Hp2).
Qed.
End Claims.

(** ** Witnesses *)

(** Ranging over maps backwards. *)
Program Definition backwards : MapRange := {| range_order A l := rev l |}.
Next Obligation. intros A l. symmetry. apply Permutation_rev. Qed.

Definition told_1 : list registry_input := [InEvent ev_put_a] ++ [InResync (Ok snapshot_6)].
Definition told_2 : list registry_input :=
  [InEvent ev_put_b; InEvent ev_put_a; InEvent ev_put_b] ++ [InResync (Ok snapshot_6)].

Lemma told_consistent : consistent sample_history 0 told_1 /\ consistent sample_history 0 told_2.
Proof.
  destruct sample_reports as (Ha & Hb & _).
  split; simpl; split_and!; try done; try exact snapshot_6_ok.
  - exists put_a. split; [left|done].
  - exists put_b. split; [right; left|done].
  - exists put_a. split; [left|done].
  - exists put_b. split; [right; left|done].
Qed.

Definition process_1 : Registry :=
  outcome_get (initial sample_prefix) (run_inputs (R := sample_MapRange) builtin (initial sample_prefix) told_1).
Definition process_2 : Registry :=
  outcome_get (initial sample_prefix) (run_inputs (R := backwards) builtin (initial sample_prefix) told_2).

Lemma processes_agree_witness :
  match AllocGRPCNode process_1 7 {| Session_ID := "alice"; RemoteAddr := "" |} 0 with
  | Ret (Ok _) => True | _ => False end /\
  AllocGRPCNode process_1 7 {| Session_ID := "alice"; RemoteAddr := "" |} 0 =
  AllocGRPCNode process_2 7 {| Session_ID := "alice"; RemoteAddr := "" |} 0.
Proof.
  split; [vm_compute; exact I|].
  destruct (processes_agree builtin sample_prefix sample_codes sample_history sample_MapRange backwards
    [InEvent ev_put_a] snapshot_6 [InEvent ev_put_b; InEvent ev_put_a; InEvent ev_put_b] snapshot_6
    sample_history_valid (proj1 told_consistent) (proj2 told_consistent) (fun _ => eq_refl))
    as (r1 & r2 & H1 & H2 & _ & H).
  assert (process_1 = r1) as <- by (unfold process_1, told_1; rewrite H1; reflexivity).
  assert (process_2 = r2) as <- by (unfold process_2, told_2; rewrite H2; reflexivity).
  apply (H 7 (sample_desc 7 "idHash") (sample_desc 7 "idHash")).
  - lia.
  - vm_compute. reflexivity.
  - vm_compute. reflexivity.
  - reflexivity.
  - reflexivity.
Defined.

(** ** Where they need not agree *)

Definition hidden_node : NodeEntry := sample_node 1 NodeOK "10.0.0.1:9000"
  [{| Desc_Name := "helloworld.Greeter"; Code := 7; Path := "/helloworld.Greeter"; Public := false;
      Balancer_policy := ""; Weight := 0; Stateful := false; Allocation := "" |}].
Definition told_of (n1 n2 : NodeEntry) : outcome grpcResolver :=
  let! r := Update (R := sample_MapRange) builtin newGRPCResolver n1 in
  Update (R := sample_MapRange) builtin r n2.

(** The description of a service, which says whether it is public and stateful, is that of
    the node a process heard of last; while nodes of two versions run, processes that know
    the same nodes can treat the requests to a service differently. *)
Theorem descriptions_can_differ :
  exists n1 n2 r1 r2, told_of n1 n2 = Ret r1 /\ told_of n2 n1 = Ret r2 /\
    allNodes r1 = allNodes r2 /\
    Public <$> GetDesc r1 7 = Some true /\ Public <$> GetDesc r2 7 = Some false.
Proof.
  exists hidden_node, node_b, (outcome_get newGRPCResolver (told_of hidden_node node_b)),
    (outcome_get newGRPCResolver (told_of node_b hidden_node)).
  split_and!; try (apply outcome_get_Ret); vm_compute; reflexivity.
Qed.
