(* ===== verification/Gateway.v ===== *)
(** * Gateway: [SessionHub] and the handlers of [Proxy] ([component/gateway/proxy.go]),
      [gwService] ([component/gateway/grpc.go])

    The state of a gateway and what acts on it from outside a client's connection:
    the management service, cluster events, multicasts and the zombie scan. *)

From stdpp Require Import functions.
From S2P Require Import Prelude External Entry PathLib Samples Balancer Resolver StateTable Messages Registry.

Local Open Scope go_scope.
Local Open Scope Z_scope.

Abbreviation MD := (gmap string (list string)) (only parsing).

(** ** Sessions

    A session is a pointer; two connections of one user are two sessions. [Sent] lists
    the replies written to the client. *)
Abbreviation sess_ptr := nat (only parsing).

Record SessionObj := {
  Sess_ID : string;
  Sess_Type : string;
  Sess_Metadata : MD;
  Sess_LocalAddr : string;
  Sess_RemoteAddr : string;
  LastRWTime : Z;
  Sess_Closed : bool;
  Sent : list Reply;
}.

(** The transports implement the interface [Session]: the errors of [Send] and [Close]. *)
Class SessionIface := {
  session_Send : SessionObj -> Reply -> option gerror;
  session_Close : SessionObj -> option gerror;
}.

Definition SetID (id : string) (o : SessionObj) : SessionObj := {|
  Sess_ID := id; Sess_Type := Sess_Type o; Sess_Metadata := Sess_Metadata o;
  Sess_LocalAddr := Sess_LocalAddr o; Sess_RemoteAddr := Sess_RemoteAddr o;
  LastRWTime := LastRWTime o; Sess_Closed := Sess_Closed o; Sent := Sent o |}.
Definition SetMetadata (md : MD) (o : SessionObj) : SessionObj := {|
  Sess_ID := Sess_ID o; Sess_Type := Sess_Type o; Sess_Metadata := md;
  Sess_LocalAddr := Sess_LocalAddr o; Sess_RemoteAddr := Sess_RemoteAddr o;
  LastRWTime := LastRWTime o; Sess_Closed := Sess_Closed o; Sent := Sent o |}.
Definition closed (o : SessionObj) : SessionObj := {|
  Sess_ID := Sess_ID o; Sess_Type := Sess_Type o; Sess_Metadata := Sess_Metadata o;
  Sess_LocalAddr := Sess_LocalAddr o; Sess_RemoteAddr := Sess_RemoteAddr o;
  LastRWTime := LastRWTime o; Sess_Closed := true; Sent := Sent o |}.
Definition sent (reply : Reply) (o : SessionObj) : SessionObj := {|
  Sess_ID := Sess_ID o; Sess_Type := Sess_Type o; Sess_Metadata := Sess_Metadata o;
  Sess_LocalAddr := Sess_LocalAddr o; Sess_RemoteAddr := Sess_RemoteAddr o;
  LastRWTime := LastRWTime o; Sess_Closed := Sess_Closed o; Sent := (Sent o ++ [reply])%list |}.

(** What the balancers see of a session. *)
Definition balancer_view (o : SessionObj) : Session :=
  {| Session_ID := Sess_ID o; RemoteAddr := Sess_RemoteAddr o |}.

Section Gateway.
Context `{U : ULID} `{R : MapRange} `{N : Net} `{X : XXHash} `{G : GRPCDial} `{SI : SessionIface}.

(** [Proxy] with its [SessionHub], without the jobs of [cleanJobs]. *)
Record Gateway := {
  gw_nodeID : string;
  sessions : gmap string sess_ptr;
  hub_closed : bool;
  sessionCount : Z;
  table : stateTable;
  gw_registry : Registry;
  heap : sess_ptr -> SessionObj;
}.

Definition set_sessions (gw : Gateway) x := {|
  gw_nodeID := gw_nodeID gw; sessions := x; hub_closed := hub_closed gw;
  sessionCount := sessionCount gw; table := table gw; gw_registry := gw_registry gw;
  heap := heap gw |}.
Definition set_hub_closed (gw : Gateway) x := {|
  gw_nodeID := gw_nodeID gw; sessions := sessions gw; hub_closed := x;
  sessionCount := sessionCount gw; table := table gw; gw_registry := gw_registry gw;
  heap := heap gw |}.
Definition set_table (gw : Gateway) x := {|
  gw_nodeID := gw_nodeID gw; sessions := sessions gw; hub_closed := hub_closed gw;
  sessionCount := sessionCount gw; table := x; gw_registry := gw_registry gw;
  heap := heap gw |}.
Definition set_registry (gw : Gateway) x := {|
  gw_nodeID := gw_nodeID gw; sessions := sessions gw; hub_closed := hub_closed gw;
  sessionCount := sessionCount gw; table := table gw; gw_registry := x; heap := heap gw |}.
Definition set_heap (gw : Gateway) x := {|
  gw_nodeID := gw_nodeID gw; sessions := sessions gw; hub_closed := hub_closed gw;
  sessionCount := sessionCount gw; table := table gw; gw_registry := gw_registry gw;
  heap := x |}.

(** [sessionCount.Add(delta)], an [atomic.Int32]. *)
Definition count_add (gw : Gateway) (delta : Z) : Gateway := {|
  gw_nodeID := gw_nodeID gw; sessions := sessions gw; hub_closed := hub_closed gw;
  sessionCount := wrap_s 32 (sessionCount gw + delta); table := table gw;
  gw_registry := gw_registry gw; heap := heap gw |}.

Definition set_sess (gw : Gateway) (s : sess_ptr) (f : SessionObj -> SessionObj) : Gateway :=
  set_heap gw (<[s := f (heap gw s)]> (heap gw)).

(** ** [SessionHub] *)

Definition hub_Store (gw : Gateway) (s : sess_ptr) : Gateway :=
  set_sessions gw (<[Sess_ID (heap gw s) := s]> (sessions gw)).
Definition hub_Load (gw : Gateway) (id : string) : option sess_ptr := sessions gw !! id.

(** [CompareAndDelete(sess.ID(), sess)] *)
Definition hub_Delete (gw : Gateway) (s : sess_ptr) : Gateway :=
  if bool_decide (sessions gw !! Sess_ID (heap gw s) = Some s)
  then set_sessions gw (delete (Sess_ID (heap gw s)) (sessions gw)) else gw.

(** A call of [sess.Close()]. *)
Definition sess_Close (gw : Gateway) (s : sess_ptr) : option gerror * Gateway :=
  (session_Close (heap gw s), set_sess gw s closed).

Definition hub_Close (gw : Gateway) : Gateway :=
  if hub_closed gw then gw
  else
    foldl (fun gw '(id, s) =>
             let gw := (sess_Close gw s).2 in set_sessions gw (delete id (sessions gw)))
      (set_hub_closed gw true) (range_entries (sessions gw)).

(** [Send] of a session, and [sendReply], which only logs its error. *)
Definition sess_Send (gw : Gateway) (s : sess_ptr) (reply : Reply) : option gerror * Gateway :=
  match session_Send (heap gw s) reply with
  | None => (None, set_sess gw s (sent reply))
  | Some err => (Some err, gw)
  end.
Definition sendReply (gw : Gateway) (s : sess_ptr) (reply : Reply) : Gateway :=
  (sess_Send gw s reply).2.

(** ** [init]: the handlers of events, multicasts and node deletions *)

Record UserConnected := {
  UserID : string; GatewayID : string; Ev_RemoteAddr : string; Ev_Metadata : MD }.

Definition on_UserConnected (gw : Gateway) (ev : UserConnected) : Gateway :=
  if bool_decide (GatewayID ev = gw_nodeID gw) then gw
  else
    let gw := match hub_Load gw (UserID ev) with
              | Some s => (sess_Close gw s).2
              | None => gw
              end in
    set_table gw (CleanSession (table gw) (UserID ev)).

(** The sessions a multicast goes to, once per mention. *)
Definition receivers (gw : Gateway) (msg : Multicast) : list sess_ptr :=
  match Mc_Receiver msg with
  | [] => if Mc_ToEveryone msg then range_values (sessions gw) else []
  | ids => omap (hub_Load gw) ids
  end.

(** The handler of multicasts: a task per receiver is submitted, [submit] being the
    answer of the pool to each submission in turn, and the handler returns when all the
    tasks are done. They are done here in the order of their submission; see
    [deliver_permutation]. *)
Definition accepted (submit : nat -> option gerror) (ss : list sess_ptr) : list sess_ptr :=
  omap (fun '(i, s) => match submit i with None => Some s | Some _ => None end)
    (imap (fun i s => (i, s)) ss).

Definition deliver (gw : Gateway) (reply : Reply) (ss : list sess_ptr) : Gateway :=
  foldl (fun gw s => sendReply gw s reply) gw ss.

Definition on_multicast (gw : Gateway) (msg : Multicast) (submit : nat -> option gerror) : Gateway :=
  deliver gw (Mc_Content msg) (accepted submit (receivers gw msg)).

Definition on_node_deleted (gw : Gateway) (entry : NodeEntry) : Gateway :=
  set_table gw (CleanNode (table gw) (ID entry)).

(** A tick of [removeZombie]. *)
Definition remove_zombies (gw : Gateway) (now keepaliveInterval : Z) : Gateway :=
  foldl (fun gw s => if keepaliveInterval <? now - LastRWTime (heap gw s)
                     then (sess_Close gw s).2 else gw)
    gw (range_values (sessions gw)).

(** ** [gwService] *)

Definition IsSessionExist (gw : Gateway) (id : string) : bool :=
  match hub_Load gw id with Some _ => true | None => false end.

Record nh_Session := {
  SessionId : string; nh_RemoteAddr : string; nh_Type : string;
  nh_Metadata : list (string * list string) }.

Definition describe (o : SessionObj) : nh_Session := {|
  SessionId := Sess_ID o; nh_RemoteAddr := Sess_RemoteAddr o; nh_Type := Sess_Type o;
  nh_Metadata := range_entries (Sess_Metadata o) |}.

(** [ListSessions]: what is sent on the stream and the error. [send] answers for each
    message given the ones before it. *)
Fixpoint list_sessions (gw : Gateway) (send : list nh_Session -> nh_Session -> option gerror)
  (done_ : list nh_Session) (ss : list sess_ptr) : list nh_Session * option gerror :=
  match ss with
  | [] => (done_, None)
  | s :: ss =>
      let info := describe (heap gw s) in
      match send done_ info with
      | Some err => (done_, Some err)
      | None => list_sessions gw send (done_ ++ [info]) ss
      end
  end.
Definition ListSessions (gw : Gateway) (send : list nh_Session -> nh_Session -> option gerror)
  : list nh_Session * option gerror := list_sessions gw send [] (range_values (sessions gw)).

Definition SessionCount (gw : Gateway) : Z := sessionCount gw.

Definition CloseSession (gw : Gateway) (id : string) : result bool * Gateway :=
  match hub_Load gw id with
  | Some s =>
      let '(err, gw) := sess_Close gw s in
      match err with Some err => (Err err, gw) | None => (Ok true, gw) end
  | None => (Ok false, gw)
  end.

Definition SetServiceRoute (gw : Gateway) (id : string) (serviceCode : Z) (node : string)
  : result () * Gateway :=
  match hub_Load gw id with
  | Some _ =>
      match ulid_Parse node with
      | Err err => (Err (StatusErrorf codes_InvalidArgument "invalid node id, %v" [AErr err]), gw)
      | Ok nodeID => (Ok (), set_table gw (Store (table gw) id serviceCode nodeID))
      end
  | None => (Ok (), gw)
  end.

Definition RemoveServiceRoute (gw : Gateway) (id : string) (serviceCode : Z) : result () * Gateway :=
  (Ok (), set_table gw (StateTable.Remove (table gw) id serviceCode)).

Definition ReplaceServiceRoute (gw : Gateway) (old new : string) : result () * Gateway :=
  match ulid_Parse old with
  | Err err => (Err (StatusErrorf codes_InvalidArgument "invalid node id, %v" [AErr err]), gw)
  | Ok oldID =>
      match ulid_Parse new with
      | Err err => (Err (StatusErrorf codes_InvalidArgument "invalid node id, %v" [AErr err]), gw)
      | Ok newID => (Ok (), set_table gw (ReplaceNode (table gw) oldID newID))
      end
  end.

(** [SendReply]; the getters of a request without a reply yield zeros. *)
Definition SendReply (gw : Gateway) (id : string) (reply : Reply) : result bool * Gateway :=
  match hub_Load gw id with
  | None => (Ok false, gw)
  | Some s =>
      if Rep_ServiceCode reply =? 0
      then (Err (StatusErrorf codes_InvalidArgument "invalid reply, from_service is empty" []), gw)
      else if Rep_Code reply =? 0
      then (Err (StatusErrorf codes_InvalidArgument "invalid reply, message_type is empty" []), gw)
      else
        let '(err, gw) := sess_Send gw s reply in
        match err with Some err => (Err err, gw) | None => (Ok true, gw) end
  end.
End Gateway.

(** ** Deliveries *)
Section Delivery.
Context `{U : ULID} `{R : MapRange} `{N : Net} `{X : XXHash} `{G : GRPCDial} `{SI : SessionIface}.

(** A delivery to one session. *)
Definition try_send (reply : Reply) (o : SessionObj) : SessionObj :=
  match session_Send o reply with None => sent reply o | Some _ => o end.

(** All but the sessions' contents. *)
Definition same_but_heap (gw gw' : Gateway) : Prop :=
  gw_nodeID gw' = gw_nodeID gw /\ sessions gw' = sessions gw /\ hub_closed gw' = hub_closed gw /\
  sessionCount gw' = sessionCount gw /\ table gw' = table gw /\ gw_registry gw' = gw_registry gw.

Lemma sendReply_heap gw s reply s' :
  heap (sendReply gw s reply) s' = if decide (s' = s) then try_send reply (heap gw s) else heap gw s'.
Proof.
  unfold sendReply, sess_Send, try_send. destruct (session_Send _ _); simpl.
  - case_decide; by subst.
  - case_decide as E; [subst; apply fn_lookup_insert|by apply fn_lookup_insert_ne].
Qed.

Lemma sendReply_same gw s reply : same_but_heap gw (sendReply gw s reply).
Proof. unfold sendReply, sess_Send. by destruct (session_Send _ _). Qed.

Lemma same_but_heap_trans gw1 gw2 gw3 :
  same_but_heap gw1 gw2 -> same_but_heap gw2 gw3 -> same_but_heap gw1 gw3.
Proof. unfold same_but_heap. intros; intuition congruence. Qed.

(** How many of the pointers are [s]. *)
Definition mentions (s : sess_ptr) (ss : list sess_ptr) : nat := length (filter (fun x => x = s) ss).

Lemma deliver_heap reply ss gw s :
  heap (deliver gw reply ss) s = Nat.iter (mentions s ss) (try_send reply) (heap gw s).
Proof.
  revert gw. induction ss as [|x ss IH]; intros gw; [done|]. simpl. rewrite IH, sendReply_heap.
  unfold mentions. rewrite filter_cons. case_decide as E1; case_decide as E2; subst; try done.
  simpl length. by rewrite Nat.iter_succ_r.
Qed.

Lemma deliver_same reply ss gw : same_but_heap gw (deliver gw reply ss).
Proof.
  revert gw. induction ss as [|x ss IH]; intros gw; [by split_and!|].
  eapply same_but_heap_trans; [apply sendReply_same|apply IH].
Qed.

Lemma mentions_permutation s ss ss' : ss ≡ₚ ss' -> mentions s ss = mentions s ss'.
Proof. intros Hp. unfold mentions. by rewrite Hp. Qed.

Lemma accepted_all submit ss : (forall i, submit i = None) -> accepted submit ss = ss.
Proof.
  intros Hs. unfold accepted.
  assert (forall (f : nat -> nat), omap (fun '(i, s) => match submit i with None => Some s | Some _ => None end)
            (imap (fun i s => (f i, s)) ss) = ss) as Hall; [|by apply (Hall id)].
  induction ss as [|s ss IH]; intros f; [done|]. simpl. rewrite Hs. f_equal. apply (IH (f ∘ S)).
Qed.

Lemma iter_try_send reply n o :
  (forall o', Sess_ID o' = Sess_ID o -> session_Send o' reply = None) ->
  Nat.iter n (try_send reply) o
  = {| Sess_ID := Sess_ID o; Sess_Type := Sess_Type o; Sess_Metadata := Sess_Metadata o;
       Sess_LocalAddr := Sess_LocalAddr o; Sess_RemoteAddr := Sess_RemoteAddr o;
       LastRWTime := LastRWTime o; Sess_Closed := Sess_Closed o;
       Sent := Sent o ++ replicate n reply |}.
Proof.
  intros Hs. induction n as [|n IH]; simpl.
  - rewrite app_nil_r. by destruct o.
  - rewrite IH. unfold try_send. rewrite Hs by done. unfold sent. simpl. f_equal.
    rewrite <- app_assoc. f_equal. by rewrite <- replicate_cons_app.
Qed.
Lemma zombies_fold now interval ss gw s :
  let gw' := foldl (fun gw s => if interval <? now - LastRWTime (heap gw s)
                                then (sess_Close gw s).2 else gw) gw ss in
  heap gw' s = (if bool_decide (s ∈ ss) && (interval <? now - LastRWTime (heap gw s))
                then closed (heap gw s) else heap gw s) /\
  sessions gw' = sessions gw /\ table gw' = table gw.
Proof.
  revert gw. induction ss as [|x ss IH]; intros gw; [done|]. cbn [foldl].
  destruct (IH (if interval <? now - LastRWTime (heap gw x) then (sess_Close gw x).2 else gw))
    as (-> & -> & ->).
  split; [|by destruct (interval <? _)].
  destruct (interval <? now - LastRWTime (heap gw x)) eqn:Hx; simpl.
  - destruct (decide (s = x)) as [->|Hne].
    + rewrite fn_lookup_insert. rewrite (bool_decide_true (x ∈ x :: ss)) by (by left).
      simpl. rewrite Hx. by destruct (bool_decide _).
    + rewrite fn_lookup_insert_ne by done.
      by rewrite (bool_decide_ext (s ∈ x :: ss) (s ∈ ss)) by set_solver.
  - destruct (decide (s = x)) as [->|Hne].
    + rewrite Hx, !andb_false_r. done.
    + by rewrite (bool_decide_ext (s ∈ x :: ss) (s ∈ ss)) by set_solver.
Qed.

(** A session of the hub is there once, under its own ID. *)
Lemma mentions_named gw ids s :
  (forall id s, sessions gw !! id = Some s -> Sess_ID (heap gw s) = id) ->
  mentions s (omap (hub_Load gw) ids) =
    if bool_decide (hub_Load gw (Sess_ID (heap gw s)) = Some s)
    then length (filter (fun id => id = Sess_ID (heap gw s)) ids) else 0%nat.
Proof.
  intros Hids. unfold mentions. induction ids as [|id ids IH]; [by case_bool_decide|]. csimpl.
  rewrite filter_cons. destruct (hub_Load gw id) as [s'|] eqn:Hl.
  - rewrite filter_cons. destruct (decide (s' = s)) as [->|Hne].
    + pose proof (Hids _ _ Hl) as Hid. rewrite <- Hid in Hl. rewrite (bool_decide_true _ Hl) in *.
      rewrite decide_True by done. csimpl. by rewrite IH.
    + rewrite IH. case_bool_decide as Hb; [|done].
      rewrite decide_False; [done|]. congruence.
  - rewrite IH. case_bool_decide as Hb; [|done]. rewrite decide_False; [done|]. congruence.
Qed.

Lemma mentions_everyone gw s :
  (forall id s, sessions gw !! id = Some s -> Sess_ID (heap gw s) = id) ->
  mentions s (range_values (sessions gw)) =
    if bool_decide (hub_Load gw (Sess_ID (heap gw s)) = Some s) then 1%nat else 0%nat.
Proof.
  intros Hids. unfold mentions, range_values. rewrite range_order_perm.
  assert (length (filter (fun x => x = s) (map_to_list (sessions gw)).*2)
          = length (filter (fun p => p.2 = s) (map_to_list (sessions gw)))) as ->.
  { generalize (map_to_list (sessions gw)). intros l. induction l as [|[id x] l IH]; [done|].
    rewrite fmap_cons, !filter_cons. cbn [snd]. case_decide; cbn [length]; by rewrite IH. }
  case_bool_decide as Hb.
  - assert (filter (fun p => p.2 = s) (map_to_list (sessions gw)) ≡ₚ [(Sess_ID (heap gw s), s)]) as ->;
      [|done].
    apply NoDup_Permutation; [apply NoDup_filter, NoDup_map_to_list|apply NoDup_singleton|].
    intros [id x]. rewrite list_elem_of_filter, list_elem_of_singleton, elem_of_map_to_list. simpl.
    split; [intros [-> H]|by intros [= -> ->]]. by rewrite (Hids _ _ H).
  - apply length_zero_iff_nil. destruct (filter _ _) as [|[id x] l] eqn:E; [done|].
    assert ((id, x) ∈ filter (fun p => p.2 = s) (map_to_list (sessions gw))) as Hin
      by (rewrite E; by left).
    apply list_elem_of_filter in Hin as [<- H%elem_of_map_to_list]. simpl in *.
    destruct Hb. by rewrite (Hids _ _ H).
Qed.

(** What a multicast to named users adds to a session. *)
Lemma on_multicast_named gw msg submit s :
  (forall i, submit i = None) ->
  (forall id s, sessions gw !! id = Some s -> Sess_ID (heap gw s) = id) ->
  (forall o, session_Send o (Mc_Content msg) = None) ->
  Mc_Receiver msg <> [] ->
  Sent (heap (on_multicast gw msg submit) s) =
    (Sent (heap gw s) ++
     replicate (if bool_decide (hub_Load gw (Sess_ID (heap gw s)) = Some s)
                then length (filter (fun id => id = Sess_ID (heap gw s)) (Mc_Receiver msg))
                else 0) (Mc_Content msg))%list.
Proof.
  intros Hsub Hids Hsend Hne. unfold on_multicast.
  rewrite accepted_all, deliver_heap, iter_try_send by done. simpl. do 2 f_equal.
  unfold receivers. destruct (Mc_Receiver msg) as [|id ids] eqn:E; [done|]. rewrite <- E.
  by apply mentions_named.
Qed.
End Delivery.

(** ** The claims *)
Section Claims.
Context `{U : ULID} `{R : MapRange} `{N : Net} `{X : XXHash} `{G : GRPCDial} `{SI : SessionIface}.

(** C32. A multicast reaches whom it names and nobody else: if it names users, each
    session of theirs on this gateway is sent the content once per mention, and users
    connected elsewhere are skipped; if it names nobody, every session is sent it once
    when it is for everyone, and no session otherwise. The order in which the pool runs
    the tasks does not matter, and nothing else of the gateway changes. *)
Theorem multicast_delivery gw msg submit ss s :
  (forall i, submit i = None) ->
  (forall id s, sessions gw !! id = Some s -> Sess_ID (heap gw s) = id) ->
  (forall o, session_Send o (Mc_Content msg) = None) ->
  ss ≡ₚ accepted submit (receivers gw msg) ->
  same_but_heap gw (deliver gw (Mc_Content msg) ss) /\
  heap (on_multicast gw msg submit) s = heap (deliver gw (Mc_Content msg) ss) s /\
  Sent (heap (deliver gw (Mc_Content msg) ss) s) =
    Sent (heap gw s) ++
    replicate
      (if bool_decide (Mc_Receiver msg = []) then
         if Mc_ToEveryone msg && bool_decide (hub_Load gw (Sess_ID (heap gw s)) = Some s) then 1
         else 0
       else if bool_decide (hub_Load gw (Sess_ID (heap gw s)) = Some s)
       then length (filter (fun id => id = Sess_ID (heap gw s)) (Mc_Receiver msg))
       else 0)%nat (Mc_Content msg).
Proof.
  intros Hsub Hids Hsend Hp. split; [apply deliver_same|].
  unfold on_multicast. rewrite !deliver_heap, (mentions_permutation s _ _ Hp). split; [done|].
  rewrite iter_try_send by done. simpl. do 2 f_equal. rewrite accepted_all by done.
  clear Hp Hsub Hsend. unfold receivers.
  destruct (Mc_Receiver msg) as [|id0 ids0] eqn:Er.
  - rewrite bool_decide_true by done. destruct (Mc_ToEveryone msg); [|done]. simpl.
    by apply mentions_everyone.
  - rewrite bool_decide_false by done. rewrite <- Er. by apply mentions_named.
Qed.
(** When a user connects to another gateway, this one closes the user's session if
    it has one and forgets the routes of the user and of nobody else; its own
    announcements change nothing. *)
Theorem user_moved gw ev :
  let gw' := on_UserConnected gw ev in
  (GatewayID ev = gw_nodeID gw -> gw' = gw) /\
  (GatewayID ev <> gw_nodeID gw ->
   (forall id code, Find (table gw') id code =
      if decide (id = UserID ev) then None else Find (table gw) id code) /\
   sessions gw' = sessions gw /\
   forall s, heap gw' s = if decide (hub_Load gw (UserID ev) = Some s) then closed (heap gw s)
                          else heap gw s).
Proof.
  unfold on_UserConnected. split; [intros E; by rewrite bool_decide_true|].
  intros Hne. rewrite bool_decide_false by done.
  destruct (hub_Load gw (UserID ev)) as [s0|] eqn:Hl; simpl.
  - split; [intros; apply CleanSession_Find|]. split; [done|]. intros s.
    case_decide as E; [injection E as ->; apply fn_lookup_insert|].
    apply fn_lookup_insert_ne. congruence.
  - split; [intros; apply CleanSession_Find|]. done.
Qed.

(** A tick of the zombie scan closes exactly the sessions of the gateway on which
    nothing was read or written for longer than the keepalive interval. *)
Theorem zombies_closed gw now interval s :
  heap (remove_zombies gw now interval) s =
    (if bool_decide (s ∈ range_values (sessions gw)) &&
        (interval <? now - LastRWTime (heap gw s))
     then closed (heap gw s) else heap gw s) /\
  sessions (remove_zombies gw now interval) = sessions gw /\
  table (remove_zombies gw now interval) = table gw.
Proof.
  unfold remove_zombies. destruct (zombies_fold now interval (range_values (sessions gw)) gw s)
    as (-> & -> & ->). done.
Qed.
End Claims.

(** ** Witnesses *)

#[export] Instance sample_SessionIface : SessionIface := {|
  session_Send o _ := if Sess_Closed o then Some (EForeign "closed") else None;
  session_Close _ := None;
|}.

Definition sample_session (id : string) : SessionObj := {|
  Sess_ID := id; Sess_Type := "tcp"; Sess_Metadata := ∅; Sess_LocalAddr := "127.0.0.1:1";
  Sess_RemoteAddr := "127.0.0.1:2"; LastRWTime := 0; Sess_Closed := false; Sent := [] |}.

Definition sample_gateway (reg : Registry) : Gateway := {|
  gw_nodeID := "gw"; sessions := <["alice"%string := 0%nat]> (<["bob"%string := 1%nat]> ∅);
  hub_closed := false; sessionCount := 2; table := newStateTable; gw_registry := reg;
  heap := fun s => match s with 0%nat => sample_session "alice" | 1%nat => sample_session "bob"
                           | _ => sample_session "" end |}.

Definition sample_reply : Reply :=
  {| Rep_RequestId := 0; Rep_ServiceCode := 7; Rep_Code := 2; Rep_Data := [] |}.
Definition sample_multicast : Multicast := {|
  Mc_Receiver := ["bob"; "carol"; "bob"]%string; Mc_Time := None; Mc_Content := sample_reply;
  Mc_Stream := ""; Mc_ToEveryone := false |}.

Lemma sample_gateway_ids reg id s :
  sessions (sample_gateway reg) !! id = Some s -> Sess_ID (heap (sample_gateway reg) s) = id.
Proof.
  simpl. rewrite lookup_insert_Some. intros [[<- <-]|[_ H]]; [done|].
  apply lookup_insert_Some in H as [[<- <-]|[_ H]]; [done|]. by rewrite lookup_empty in H.
Qed.

(** A transport whose writes do not fail. *)
Definition open_SessionIface : SessionIface := {|
  session_Send _ _ := None; session_Close _ := None |}.

Lemma multicast_delivery_witness :
  Sent (heap (deliver (SI := open_SessionIface) (sample_gateway (initial ""))
          sample_reply [1; 1]%nat) 1%nat)
  = [] ++ replicate 2 sample_reply.
Proof.
  exact (proj2 (proj2 (multicast_delivery (SI := open_SessionIface) (sample_gateway (initial ""))
    sample_multicast (fun _ => None) [1; 1]%nat 1%nat (fun _ => eq_refl)
    (sample_gateway_ids (initial "")) (fun _ => eq_refl) (Permutation_refl _)))).
Defined.
