(* ===== verification/Auth.v ===== *)
(** * Auth: the initializers of the example gateways ([example/echo/gateway/main.go],
      [example/chat/gateway/main.go])

    A gateway of the examples asks clients for a token: [initializer], given to
    [WithInitializer], reads the first request of a session in a goroutine of its own and
    waits for it for five seconds. The two goroutines share the results of the function. *)

From stdpp Require Import pretty functions.
From S2P Require Import Prelude External Entry PathLib Samples Balancer Resolver StateTable Messages Registry Gateway.

Local Open Scope go_scope.
Local Open Scope Z_scope.

(** ** Messages ([auth/message.proto]) and the generated [PackAuthorizeAck] *)

Record AuthorizeToken := { at_Token : string }.
Record AuthorizeAck := { aa_UserId : string }.

Definition Services_AUTH : Z := 1.
Definition ReplyCode_AUTHORIZE_ACK : Z := 1.

Definition PackAuthorizeAck `{ProtoMessage AuthorizeAck} (msg : AuthorizeAck) : result Reply :=
  match proto_Marshal msg with
  | Err err => Err err
  | Ok data => Ok {| Rep_RequestId := 0; Rep_ServiceCode := Services_AUTH;
                     Rep_Code := ReplyCode_AUTHORIZE_ACK; Rep_Data := data |}
  end.

Definition the_token : string := "0d8b750e-35e8-4f98-b032-f389d401213e".

(** [metadata.New(nil)] *)
Definition no_md : gmap string (list string) := ∅.

(** The channel [errC]: the goroutine has sent nothing yet, has sent an error and closed
    it, or has closed it; an error is received once. *)
Inductive errC := Reading | Failed (err : gerror) | ClosedC.

(** Where the function is: before [select], after it, or at its end. *)
Inductive auth_phase :=
  | Selecting
  | Selected (err : option gerror)
  | Returned (res : result (string * gmap string (list string)))
  | Panicked.

(** [userID], [md] and [requestID] are variables of both goroutines; [written] is what was
    sent to the session. *)
Record Auth := {
  au_errC : errC;
  au_userID : string;
  au_md : option (gmap string (list string));
  au_requestID : Z;
  au_phase : auth_phase;
  au_sent : list Reply;
}.

Definition auth_start : Auth := {|
  au_errC := Reading; au_userID := ""; au_md := None; au_requestID := 1; au_phase := Selecting;
  au_sent := [] |}.

Definition set_auth_phase (a : Auth) (p : auth_phase) : Auth := {|
  au_errC := au_errC a; au_userID := au_userID a; au_md := au_md a; au_requestID := au_requestID a;
  au_phase := p; au_sent := au_sent a |}.

Section Auth.
Context `{PT : !ProtoMessage AuthorizeToken} `{PA : !ProtoMessage AuthorizeAck}.

(** [validToken]: the error. *)
Definition validToken (req : Request) : option gerror :=
  if negb (bool_decide (Req_Method req = "Authorize"%string)) then Some (ErrorsNew "invalid method")
  else
    match proto_Unmarshal (A := AuthorizeToken) (Req_Data req) with
    | Err err => Some err
    | Ok token =>
        if bool_decide (at_Token token = the_token) then None else Some (ErrorsNew "invalid token")
    end.

(** The goroutine, when [sess.Recv] returns; [id] is [ulid.Make().String()]. *)
Definition auth_recv (a : Auth) (recv : result Request) (id : string) : Auth :=
  match recv with
  | Err err => {| au_errC := Failed err; au_userID := au_userID a; au_md := au_md a;
                  au_requestID := au_requestID a; au_phase := au_phase a; au_sent := au_sent a |}
  | Ok req =>
      match validToken req with
      | Some err => {| au_errC := Failed err; au_userID := au_userID a; au_md := au_md a;
                       au_requestID := Req_Id req; au_phase := au_phase a; au_sent := au_sent a |}
      | None => {| au_errC := ClosedC; au_userID := id; au_md := Some no_md;
                   au_requestID := Req_Id req; au_phase := au_phase a; au_sent := au_sent a |}
      end
  end.

(** The end of the function, with the answer of [sess.Send]. *)
Definition auth_end (a : Auth) (err : option gerror) (send : option gerror) : Auth :=
  match err with
  | Some err => set_auth_phase a (Returned (Err err))
  | None =>
      match PackAuthorizeAck {| aa_UserId := au_userID a |} with
      | Err _ => set_auth_phase a Panicked
      | Ok reply =>
          match send with
          | Some _ => set_auth_phase a Panicked
          | None => {| au_errC := au_errC a; au_userID := au_userID a; au_md := au_md a;
                       au_requestID := au_requestID a;
                       au_phase := Returned (Ok (au_userID a, default no_md (au_md a)));
                       au_sent := (au_sent a ++ [SetRequestId reply (au_requestID a)])%list |}
          end
      end
  end.

(** The steps: the goroutine reads; the [select] takes from [errC], or from the context, for
    which [err] is the reason it ended; the function ends. *)
Inductive auth_label :=
  | ARecv (recv : result Request) (id : string)
  | ASelectErr
  | ASelectDone (err : gerror)
  | AEnd (send : option gerror).

Definition auth_step (a : Auth) (l : auth_label) : option Auth :=
  match l, au_errC a, au_phase a with
  | ARecv recv id, Reading, _ => Some (auth_recv a recv id)
  | ASelectErr, Failed err, Selecting =>
      Some (set_auth_phase {| au_errC := ClosedC; au_userID := au_userID a; au_md := au_md a;
                              au_requestID := au_requestID a; au_phase := au_phase a;
                              au_sent := au_sent a |} (Selected (Some err)))
  | ASelectErr, ClosedC, Selecting => Some (set_auth_phase a (Selected None))
  | ASelectDone err, _, Selecting => Some (set_auth_phase a (Selected (Some err)))
  | AEnd send, _, Selected err => Some (auth_end a err send)
  | _, _, _ => None
  end.

Fixpoint auth_run (a : Auth) (ls : list auth_label) : option Auth :=
  match ls with
  | [] => Some a
  | l :: ls => match auth_step a l with Some a => auth_run a ls | None => None end
  end.

(** ** Lemmas *)

(** A request that proves its sender to be allowed in. *)
Definition admits (req : Request) : Prop :=
  Req_Method req = "Authorize"%string /\
  exists token, proto_Unmarshal (Req_Data req) = Ok token /\ at_Token token = the_token.

Lemma validToken_None req : validToken req = None <-> admits req.
Proof.
  unfold validToken, admits. case_bool_decide as Hm; simpl; [|naive_solver].
  destruct (proto_Unmarshal _) as [t|]; [|naive_solver].
  case_bool_decide as Ht; naive_solver.
Qed.

(** What was read, if anything. *)
Definition first_read (ls : list auth_label) : option (result Request * string) :=
  head (omap (fun l => match l with ARecv r id => Some (r, id) | _ => None end) ls).

(** How the shared variables stand, given what was read. *)
Record auth_inv (read : option (result Request * string)) (a : Auth) : Prop := {
  ai_reading : au_errC a = Reading <-> read = None;
  ai_admitted : au_errC a = ClosedC -> au_phase a = Selecting \/ au_phase a = Selected None ->
    exists req id, read = Some (Ok req, id) /\ admits req /\ au_userID a = id /\
      au_requestID a = Req_Id req /\ au_md a = Some no_md;
  ai_selected : au_phase a = Selected None -> au_errC a = ClosedC;
  ai_sent : match au_phase a with
            | Returned (Ok (id, md)) => exists req data, read = Some (Ok req, id) /\ admits req /\
                md = no_md /\ proto_Marshal {| aa_UserId := id |} = Ok data /\
                au_sent a = [{| Rep_RequestId := Req_Id req; Rep_ServiceCode := Services_AUTH;
                                Rep_Code := ReplyCode_AUTHORIZE_ACK; Rep_Data := data |}]
            | _ => au_sent a = []
            end;
}.

Definition read_by (read : option (result Request * string)) (l : auth_label)
  : option (result Request * string) :=
  match read, l with
  | None, ARecv r id => Some (r, id)
  | _, _ => read
  end.

Lemma auth_recv_inv a recv id :
  au_errC a = Reading -> auth_inv None a -> auth_inv (Some (recv, id)) (auth_recv a recv id).
Proof.
  intros Hr [_ _ Hs Hsent].
  assert (forall e, au_errC a = e -> au_phase a <> Selected None \/ e = ClosedC) as Hno.
  { intros e <-. destruct (au_errC a); auto; left; intros E; apply Hs in E; congruence. }
  assert (match au_phase a with Returned (Ok _) => False | _ => au_sent a = [] end) as Hempty.
  { destruct (au_phase a) as [| |[[x md]|]|]; try done. by destruct Hsent as (req & data & ? & _). }
  destruct (Hno _ Hr) as [Hsel|]; [|congruence].
  destruct recv as [req|err]; simpl; [destruct (validToken req) as [err|] eqn:Hv|].
  - split; simpl; try done; try (by split); try (rewrite <- Hr; by split); try (rewrite ?E; exact Hr). destruct (au_phase a) as [| |[[]|]|]; try done; by destruct Hempty.
  - split; simpl; try done; try (by split); try (rewrite <- Hr; by split); try (rewrite ?E; exact Hr).
    + intros _ _. exists req, id. split_and!; try done. by apply validToken_None.
    + destruct (au_phase a) as [| |[[]|]|]; try done; by destruct Hempty.
  - split; simpl; try done; try (by split); try (rewrite <- Hr; by split); try (rewrite ?E; exact Hr). destruct (au_phase a) as [| |[[]|]|]; try done; by destruct Hempty.
Qed.

Lemma auth_end_Some a send a' :
  auth_step a (AEnd send) = Some a' -> exists err, au_phase a = Selected err /\ a' = auth_end a err send.
Proof. simpl. destruct (au_errC a), (au_phase a); try done; intros [= <-]; eauto. Qed.

Lemma auth_step_inv read a l a' :
  auth_inv read a -> auth_step a l = Some a' -> auth_inv (read_by read l) a'.
Proof.
  intros Hinv. pose proof Hinv as [Hr Ha Hs Hsent]. destruct l as [recv id| |err|send].
  - simpl. destruct (au_errC a) eqn:E; try done. intros [= <-]. rewrite (proj1 Hr eq_refl) in *.
    by apply auth_recv_inv.
  - replace (read_by read ASelectErr) with read by (by destruct read).
    simpl. destruct (au_errC a) eqn:E, (au_phase a) eqn:Ep; try done; intros [= <-]; split; simpl; try done; try (by split); try (rewrite <- Hr; by split); try (rewrite ?E; exact Hr).
    + intros _ [?|?]; congruence.
    + intros _ _. by apply Ha; auto.
  - replace (read_by read (ASelectDone err)) with read by (by destruct read).
    simpl. destruct (au_errC a) eqn:E, (au_phase a) eqn:Ep; try done; intros [= <-]; split; simpl; try done; try (by split); try (rewrite <- Hr; by split); try (rewrite ?E; exact Hr);
      try (by rewrite E); by intros _ [?|?].
  - replace (read_by read (AEnd send)) with read by (by destruct read).
    intros (e & Ep & ->)%auth_end_Some. rewrite Ep in *. destruct e as [err|]; simpl.
    { split; simpl; try done; try (by split); try (rewrite <- Hr; by split); try (rewrite ?E; exact Hr). by intros _ [?|?]. }
    unfold PackAuthorizeAck. destruct (proto_Marshal _) as [data|] eqn:Hd; [destruct send as [err|]|].
    + split; simpl; try done; try (by split); try (rewrite <- Hr; by split); try (rewrite ?E; exact Hr). by intros _ [?|?].
    + pose proof (Hs eq_refl) as Hc. destruct (Ha Hc (or_intror eq_refl)) as (req & id & -> & Hadm & Hu & Hq & Hm).
      split; simpl; try done; try (by split); try (rewrite <- Hr; by split); try (rewrite ?E; exact Hr); [by intros _ [?|?]|].
      rewrite Hm. exists req, data. rewrite Hu in *. split_and!; try done.
      rewrite Hsent, <- Hq. done.
    + split; simpl; try done; try (by split); try (rewrite <- Hr; by split); try (rewrite ?E; exact Hr). by intros _ [?|?].
Qed.

Lemma auth_run_inv ls read a a' :
  auth_inv read a -> auth_run a ls = Some a' -> auth_inv (foldl read_by read ls) a'.
Proof.
  revert read a. induction ls as [|l ls IH]; intros read a Hinv; simpl; [by intros [= <-]|].
  destruct (auth_step a l) as [a1|] eqn:E; [|done]. apply IH. by eapply auth_step_inv.
Qed.

Lemma read_first ls read : foldl read_by read ls = match read with Some r => Some r | None => first_read ls end.
Proof.
  revert read. induction ls as [|l ls IH]; intros read; simpl; [by destruct read|].
  rewrite IH. unfold first_read. by destruct read, l.
Qed.
End Auth.

(** ** The claims *)
Section Claims.
Context `{PT : !ProtoMessage AuthorizeToken} `{PA : !ProtoMessage AuthorizeAck}.

(** Only clients with the token are let in: however the goroutine that reads and the
    function that waits for it interleave, [initializer] returns without an error only if
    the first thing read from the session was a request to authorize that carries the token,
    and then with the user ID that was made for it, having sent the client one reply, which
    carries the ID of that request and the user ID; otherwise it has sent nothing. A client
    that is heard in time is let in. *)
Theorem authorized_only ls a :
  auth_run auth_start ls = Some a ->
  match au_phase a with
  | Returned (Ok (id, md)) =>
      exists req data, first_read ls = Some (Ok req, id) /\ admits req /\ md = no_md /\
        proto_Marshal {| aa_UserId := id |} = Ok data /\
        au_sent a = [{| Rep_RequestId := Req_Id req; Rep_ServiceCode := Services_AUTH;
                        Rep_Code := ReplyCode_AUTHORIZE_ACK; Rep_Data := data |}]
  | _ => au_sent a = []
  end /\
  forall req id data, admits req -> proto_Marshal {| aa_UserId := id |} = Ok data ->
    exists a', auth_run auth_start [ARecv (Ok req) id; ASelectErr; AEnd None] = Some a' /\
      au_phase a' = Returned (Ok (id, no_md)).
Proof.
  intros Hrun. split.
  - apply (auth_run_inv ls None) in Hrun; [|by split].
    rewrite read_first in Hrun. apply Hrun.
  - intros req id data Hadm Hd. apply validToken_None in Hadm. cbn [auth_run auth_step auth_start au_errC].
    unfold auth_recv. rewrite Hadm. simpl. unfold PackAuthorizeAck. rewrite Hd. eauto.
Qed.
End Claims.

(** ** Witnesses *)

#[local] Instance sample_Token : ProtoMessage AuthorizeToken := {|
  proto_Marshal t := Ok (encode_bytes (at_Token t));
  proto_Unmarshal b := match decode_bytes b with
                       | Some t => Ok {| at_Token := t |}
                       | None => Err (EForeign "proto")
                       end;
|}.
#[local] Instance sample_Ack : ProtoMessage AuthorizeAck := {|
  proto_Marshal m := Ok (encode_bytes (aa_UserId m));
  proto_Unmarshal b := match decode_bytes b with
                       | Some i => Ok {| aa_UserId := i |}
                       | None => Err (EForeign "proto")
                       end;
|}.

Definition token_request : Request := {|
  Req_Id := 42; Req_ServiceCode := 0; Req_Method := "Authorize"; Req_Data := encode_bytes the_token;
  Req_NodeId := ""; Req_NoReply := false; Req_Stream := "" |}.

(** The token arrives, but the context ends first; and in time. *)
Definition too_late : list auth_label :=
  [ASelectDone context_DeadlineExceeded; ARecv (Ok token_request) "u"; AEnd None].

Lemma authorized_only_witness :
  (exists a, auth_run auth_start too_late = Some a /\ au_sent a = [] /\ au_userID a = "u"%string) /\
  exists a', auth_run auth_start [ARecv (Ok token_request) "u"; ASelectErr; AEnd None] = Some a' /\
      au_phase a' = Returned (Ok ("u"%string, no_md)).
Proof.
  destruct (auth_run auth_start too_late) as [a|] eqn:E; [|discriminate E].
  destruct (authorized_only too_late a E) as [H1 H2]. split.
  - exists a. split; [reflexivity|].
    vm_compute in E. injection E as <-. split; reflexivity.
  - apply (H2 token_request "u"%string (encode_bytes "u"%string)); [|reflexivity].
    split; [reflexivity|]. exists {| at_Token := the_token |}. split; [|reflexivity].
    cbn [proto_Unmarshal sample_Token Req_Data token_request]. by rewrite decode_encode_bytes.
Defined.

(** ** The chat gateway

    Its initializer asks for nothing and numbers the users: [uid] is an [atomic.Int32] of
    the process, and [fmt.Sprintf("%d", n)] is [pretty n]. *)

Definition chat_initializer (uid : Z) : Z * (string * gmap string (list string)) :=
  let n := wrap_s 32 (uid + 1) in (n, (pretty n, no_md)).

(** The IDs of the users that connect one after another. *)
Fixpoint chat_users (n : nat) (uid : Z) : list string :=
  match n with
  | O => []
  | S n => let '(uid, (id, _)) := chat_initializer uid in id :: chat_users n uid
  end.

Lemma chat_users_lookup n uid i id :
  chat_users n uid !! i = Some id -> (i < n)%nat /\ id = pretty (wrap_s 32 (uid + Z.of_nat i + 1)).
Proof.
  revert uid i. induction n as [|n IH]; intros uid [|i]; cbn [chat_users chat_initializer]; try done.
  - intros [= <-]. split; [lia|]. do 2 f_equal. lia.
  - intros (Hi & ->)%IH. split; [lia|]. f_equal. unfold wrap_s.
    replace (((uid + 1 + 2 ^ (32 - 1)) `mod` 2 ^ 32 - 2 ^ (32 - 1) + Z.of_nat i + 1 + 2 ^ (32 - 1)))
      with ((uid + 1 + 2 ^ (32 - 1)) `mod` 2 ^ 32 + (Z.of_nat i + 1)) by lia.
    rewrite Zplus_mod_idemp_l. do 2 f_equal. lia.
Qed.

(** The users of one gateway are told apart, up to the range of the counter: of any four
    billion connections in a row no two get the same ID. *)
Theorem chat_users_distinct n uid :
  Z.of_nat n <= 2 ^ 32 -> NoDup (chat_users n uid).
Proof.
  intros Hn. apply NoDup_alt. intros i j id (Hi & ->)%chat_users_lookup (Hj & E)%chat_users_lookup.
  apply (inj pretty) in E. unfold wrap_s in E.
  set (a := uid + Z.of_nat i + 1 + 2 ^ (32 - 1)) in *. set (b := uid + Z.of_nat j + 1 + 2 ^ (32 - 1)) in *.
  pose proof (Z.div_mod a (2 ^ 32) ltac:(done)) as Ha. pose proof (Z.div_mod b (2 ^ 32) ltac:(done)) as Hb.
  assert (2 ^ 32 * (a / 2 ^ 32 - b / 2 ^ 32) = Z.of_nat i - Z.of_nat j) as Hq by lia.
  assert (a / 2 ^ 32 - b / 2 ^ 32 = 0) by lia. lia.
Qed.

(** The users of two gateways are not: each process counts for itself, so that its first
    user is a user of every other, whose session the other closes when it hears of the
    connection ([on_UserConnected]). *)
Theorem chat_users_collide `{R : MapRange} `{SI : SessionIface} `{U : ULID} `{N : Net} `{X : XXHash} `{G : GRPCDial}
    (gw : Gateway) s ev :
  hub_Load gw (chat_initializer 0).2.1 = Some s ->
  UserID ev = (chat_initializer 0).2.1 -> GatewayID ev <> gw_nodeID gw ->
  Sess_Closed (heap (on_UserConnected gw ev) s) = true.
Proof.
  intros Hl Hu Hne. unfold on_UserConnected. rewrite bool_decide_false, Hu, Hl by done.
  cbn. by rewrite fn_lookup_insert.
Qed.
