(* ===== verification/Request.v ===== *)
(** * Request: [getUpstream] and [handleRequest] ([component/gateway/proxy.go])

    What a gateway does with one request of a client: the choice of the upstream
    node, the forwarded call and the answer. *)

From stdpp Require Import functions.
From S2P Require Import Prelude External Entry PathLib Samples Balancer Resolver StateTable Messages Registry Gateway.

Local Open Scope go_scope.
Local Open Scope Z_scope.

(** Keys of the metadata ([component/rpc/grpc_server.go]). *)
Definition MDSessID : string := "x-sess".
Definition MDTransactionID : string := "x-trans".
Definition MDGateway : string := "x-gw".

(** [emptypb.Empty]: the request's data travels in its unknown fields. *)
Record Empty := { unknown_fields : bytes }.
Definition emptyMessage : Empty := {| unknown_fields := [] |}.

(** A call of [conn.Invoke]. *)
Record call := {
  call_conn : conn;
  call_md : gmap string (list string);
  call_timeout : option Z;
  call_method : string;
  call_input : Empty;
}.

(** What the upstream answers. *)
Class Upstream := { conn_Invoke : call -> result Reply }.

Definition newEmptyMessage `{ProtoMessage Empty} (data : bytes) : result Empty :=
  match data with
  | [] => Ok emptyMessage
  | _ => proto_Unmarshal data
  end.

(** What a request finds besides the state: the answer of the interceptor, the
    balancer's random numbers, the new transaction ID, and the configured timeout. *)
Record request_env `{U : ULID} := {
  RequestInterceptor : SessionObj -> Request -> result bool;
  seed : Z;
  transaction : ulid;
  RequstTimeout : Z;
}.

Section Request.
Context `{U : ULID} `{R : MapRange} `{N : Net} `{X : XXHash} `{G : GRPCDial} `{SI : SessionIface}.
Context `{PE : !ProtoMessage Empty} `{PR : !ProtoMessage RPCError} `{UP : Upstream}.

(** From the label [FINISH] on, with the deferred [stateTable.Store] if there is one. *)
Definition finish (gw : Gateway) (s : sess_ptr) (serviceCode : Z) (nodeID : ulid) (store : bool)
  : result conn * Gateway :=
  let '(c, reg) := GetGRPCConn (gw_registry gw) nodeID in
  let gw := set_registry gw reg in
  match c with
  | Err err => (Err (StatusErrorf codes_Aborted "get grpc conn, %v" [AErr err]), gw)
  | Ok c =>
      (Ok c, if store then set_table gw (Store (table gw) (Sess_ID (heap gw s)) serviceCode nodeID)
             else gw)
  end.

Definition alloc (gw : Gateway) (s : sess_ptr) (serviceCode : Z) (seed : Z) (store : bool)
  : outcome (result conn * Gateway) :=
  let! r := AllocGRPCNode (gw_registry gw) serviceCode (balancer_view (heap gw s)) seed in
  match r with
  | Err err => Ret (Err (StatusErrorf codes_Aborted "pick grpc node, %v" [AErr err]), gw)
  | Ok nodeID => Ret (finish gw s serviceCode nodeID store)
  end.

(** One call by itself. Its accesses to the table and the registry are steps of their own
    in [Routing], where other calls come in between; [Routing.run_alone_getUpstream] shows
    that this is a run of them that nobody interrupts. *)
Definition getUpstream (gw : Gateway) (s : sess_ptr) (req : Request) (desc : GRPCServiceDesc)
  (seed : Z) : outcome (result conn * Gateway) :=
  let code := Req_ServiceCode req in
  if negb (Stateful desc) then alloc gw s code seed false
  else if bool_decide (Allocation desc = ClientAllocate) && negb (bool_decide (Req_NodeId req = ""%string))
  then
    match ulid_Parse (Req_NodeId req) with
    | Err _ => Ret (Err (StatusErrorf codes_InvalidArgument "invalid request.NodeId, %s"
                           [AStr (Req_NodeId req)]), gw)
    | Ok nodeID => Ret (finish gw s code nodeID true)
    end
  else
    match Find (table gw) (Sess_ID (heap gw s)) code with
    | Some nodeID => Ret (finish gw s code nodeID false)
    | None =>
        if negb (bool_decide (Allocation desc = AutoAllocate)) && (ulid_Time ulid_zero =? 0)
        then Ret (Err (StatusErrorf codes_Aborted "no node allocated" []), gw)
        else alloc gw s code seed true
    end.

(** [handleRequest] up to the call of [conn.Invoke]. *)
Definition forwarded_md (gw : Gateway) (s : sess_ptr) (trans : ulid) : gmap string (list string) :=
  let md := Sess_Metadata (heap gw s) in
  let md := <[MDTransactionID := [ulid_String trans]]> md in
  let md := <[MDSessID := [Sess_ID (heap gw s)]]> md in
  <[MDGateway := [gw_nodeID gw]]> md.

Definition prepare (gw : Gateway) (s : sess_ptr) (req : Request) (env : request_env)
  : outcome (result call * Gateway) :=
  match RequestInterceptor env (heap gw s) req with
  | Err err => Ret (Err (Errorf "request interceptor, %w" [] (Some err)), gw)
  | Ok false => Ret (Err (ErrorsNew "request interceptor denied"), gw)
  | Ok true =>
      match GetGRPCDesc (gw_registry gw) (Req_ServiceCode req) with
      | None => Ret (Err (StatusErrorf codes_Unimplemented "unknown service %d"
                            [AInt (Req_ServiceCode req)]), gw)
      | Some desc =>
          if negb (Public desc)
          then Ret (Err (StatusErrorf codes_PermissionDenied "request private service" []), gw)
          else
            let! (r, gw) := getUpstream gw s req desc (seed env) in
            match r with
            | Err err => Ret (Err err, gw)
            | Ok c =>
                match newEmptyMessage (Req_Data req) with
                | Err err => Ret (Err (Errorf "unmarshal request data, %w" [] (Some err)), gw)
                | Ok input =>
                    Ret (Ok {| call_conn := c;
                               call_md := forwarded_md gw s (transaction env);
                               call_timeout := if 0 <? RequstTimeout env
                                               then Some (RequstTimeout env) else None;
                               call_method := path_Join (Path desc) (Req_Method req);
                               call_input := input |}, gw)
                end
            end
      end
  end.

(** The deferred function that answers an error; the error of [NewReply] is dropped,
    and a reply that is nil then panics. *)
Definition mask_unknown (st : Status) : Status :=
  if bool_decide (St_Code st = codes_Unknown)
  then {| St_Code := codes_Unknown; St_Message := TextFormat "unknown error" [] |} else st.

Definition rpc_error (req : Request) (st : Status) : RPCError := {|
  Err_RequestService := Req_ServiceCode req;
  Err_RequestMethod := Req_Method req;
  Err_Status := mask_unknown st |}.

Definition fail_request (gw : Gateway) (s : sess_ptr) (req : Request) (err : gerror)
  : outcome Gateway :=
  match status_FromError err with
  | None => Ret gw
  | Some st =>
      match NewReply ReplyCode_RPC_ERROR (rpc_error req st) with
      | Err _ => Panic
      | Ok reply => Ret (sendReply gw s (SetRequestId reply (Req_Id req)))
      end
  end.

Definition handleRequest (gw : Gateway) (s : sess_ptr) (req : Request) (env : request_env)
  : outcome Gateway :=
  let! (r, gw) := prepare gw s req env in
  match r with
  | Err err => fail_request gw s req err
  | Ok c =>
      match conn_Invoke c with
      | Err err => fail_request gw s req err
      | Ok output =>
          if Req_NoReply req then Ret gw
          else
            let output := SetRequestId output (Req_Id req) in
            let output := SetServiceCode output (Req_ServiceCode req) in
            Ret (sendReply gw s output)
      end
  end.
End Request.

(** ** Lemmas *)
Section Lemmas.
Context `{L : ULIDLaws} `{R : MapRange} `{N : Net} `{X : XXHash} `{G : GRPCDial} `{SI : SessionIface}.

(** What choosing an upstream leaves alone. *)
Definition same_sessions (gw gw' : Gateway) : Prop :=
  gw_nodeID gw' = gw_nodeID gw /\ sessions gw' = sessions gw /\ hub_closed gw' = hub_closed gw /\
  sessionCount gw' = sessionCount gw /\ heap gw' = heap gw.

Lemma finish_same gw s c id st : same_sessions gw (finish gw s c id st).2.
Proof.
  unfold finish. destruct (GetGRPCConn _ _) as [[r|e] reg]; [destruct st|]; by split_and!.
Qed.

Lemma alloc_same gw s c sd st r gw' : alloc gw s c sd st = Ret (r, gw') -> same_sessions gw gw'.
Proof.
  unfold alloc. intros ([id|err] & _ & [= E])%outcome_bind_Ret.
  - pose proof (finish_same gw s c id st) as Hf. rewrite E in Hf. exact Hf.
  - simplify_eq. by split_and!.
Qed.

Lemma getUpstream_same gw s req desc sd r gw' :
  getUpstream gw s req desc sd = Ret (r, gw') -> same_sessions gw gw'.
Proof.
  assert (forall id st, Ret (finish gw s (Req_ServiceCode req) id st) = Ret (r, gw') ->
            same_sessions gw gw') as Hfin.
  { intros id st [= E]. pose proof (finish_same gw s (Req_ServiceCode req) id st) as Hf.
    rewrite E in Hf. exact Hf. }
  unfold getUpstream. destruct (negb (Stateful desc)); [apply alloc_same|].
  destruct (_ && _).
  { destruct (ulid_Parse _); [apply Hfin|]. intros [= <- <-]. by split_and!. }
  destruct (Find _ _ _); [apply Hfin|]. destruct (_ && _); [|apply alloc_same].
  intros [= <- <-]. by split_and!.
Qed.

Lemma prepare_heap `{!ProtoMessage Empty} gw s req env r gw' :
  prepare gw s req env = Ret (r, gw') -> heap gw' = heap gw.
Proof.
  unfold prepare. destruct (RequestInterceptor env _ req) as [[]|]; [|by intros [= _ <-]..].
  destruct (GetGRPCDesc _ _) as [desc|]; [|by intros [= _ <-]].
  destruct (Public desc); [|by intros [= _ <-]]. simpl.
  intros ([[cn|] gw1] & Hup & Hp)%outcome_bind_Ret;
    apply getUpstream_same in Hup as (_ & _ & _ & _ & <-); [|by simplify_eq].
  by destruct (newEmptyMessage _); simplify_eq.
Qed.

(** The method and the input of the forwarded call. *)
Lemma prepare_call `{!ProtoMessage Empty} gw s req env c gw' :
  prepare gw s req env = Ret (Ok c, gw') ->
  exists desc, GetGRPCDesc (gw_registry gw) (Req_ServiceCode req) = Some desc /\
    call_method c = path_Join (Path desc) (Req_Method req) /\
    newEmptyMessage (Req_Data req) = Ok (call_input c).
Proof.
  unfold prepare. destruct (RequestInterceptor env _ req) as [[]|]; [|done|done].
  destruct (GetGRPCDesc _ _) as [desc|]; [|done]. destruct (Public desc); [|done]. simpl.
  intros ([[cn|] gw1] & Hup & Hp)%outcome_bind_Ret; [|done].
  destruct (newEmptyMessage _) as [input|]; [|done]. injection Hp as <- <-. by exists desc.
Qed.

Lemma prepare_md `{!ProtoMessage Empty} gw s req env c gw' :
  prepare gw s req env = Ret (Ok c, gw') -> call_md c = forwarded_md gw s (transaction env).
Proof.
  unfold prepare. destruct (RequestInterceptor env _ req) as [[]|]; [|done|done].
  destruct (GetGRPCDesc _ _) as [desc|]; [|done]. destruct (Public desc); [|done]. simpl.
  intros ([[cn|] gw1] & Hup & Hp)%outcome_bind_Ret; [|done].
  destruct (newEmptyMessage _); [|done]. injection Hp as <- <-. simpl.
  destruct (getUpstream_same _ _ _ _ _ _ _ Hup) as (En & _ & _ & _ & Eh).
  unfold forwarded_md. by rewrite Eh, En.
Qed.
End Lemmas.

(** ** The claims *)
Section Claims.
Context `{L : ULIDLaws} `{R : MapRange} `{N : Net} `{X : XXHash} `{G : GRPCDial} `{SI : SessionIface}.
Context `{PE : !ProtoMessage Empty} `{PR : !ProtoMessage RPCError} `{UP : Upstream}.

(** C27. A request is forwarded only if the interceptor passed it and its service is
    known and public. The call goes over the connection [getUpstream] found, with the
    metadata of the session, in which the user ID, the gateway and the transaction are
    the gateway's own whatever else the metadata says; its method is the service's path
    joined with the method the client names, and its data what the client sent. *)
Theorem forwarded_call gw s req env c gw' :
  prepare gw s req env = Ret (Ok c, gw') ->
  RequestInterceptor env (heap gw s) req = Ok true /\
  exists desc, GetGRPCDesc (gw_registry gw) (Req_ServiceCode req) = Some desc /\
    Public desc = true /\
    getUpstream gw s req desc (seed env) = Ret (Ok (call_conn c), gw') /\
    call_md c !! MDSessID = Some [Sess_ID (heap gw s)] /\
    call_md c !! MDGateway = Some [gw_nodeID gw] /\
    call_md c !! MDTransactionID = Some [ulid_String (transaction env)] /\
    (forall k, k <> MDSessID -> k <> MDGateway -> k <> MDTransactionID ->
       call_md c !! k = Sess_Metadata (heap gw s) !! k) /\
    call_method c = path_Join (Path desc) (Req_Method req) /\
    newEmptyMessage (Req_Data req) = Ok (call_input c) /\
    call_timeout c = (if 0 <? RequstTimeout env then Some (RequstTimeout env) else None).
Proof.
  unfold prepare. intros Hp. destruct (RequestInterceptor env _ req) as [[]|]; [|done|done].
  split; [done|]. destruct (GetGRPCDesc _ _) as [desc|] eqn:Hd; [|done]. exists desc.
  destruct (Public desc) eqn:Hpub; [|done]. simpl in Hp.
  apply outcome_bind_Ret in Hp as ([[cn|] gw1] & Hup & Hp); [|done].
  destruct (newEmptyMessage _) eqn:Hin; [|done]. injection Hp as <- <-. simpl.
  destruct (getUpstream_same _ _ _ _ _ _ _ Hup) as (En & _ & _ & _ & Eh).
  unfold forwarded_md. rewrite Eh, En. split_and!; try done.
  - by rewrite lookup_insert_ne, lookup_insert_eq.
  - by rewrite lookup_insert_eq.
  - by rewrite lookup_insert_ne, lookup_insert_ne, lookup_insert_eq.
  - intros k H1 H2 H3. by rewrite !lookup_insert_ne by done.
Qed.

(** C28. The check that a service is public looks at the service code only, and the
    method a client names is joined to the path of the service as it is: a plain method
    stays within the service, but one that starts with ".." and a slash reaches the
    methods of any other service of the upstream node, private ones included. *)
Theorem method_escapes gw s req env c gw' desc x y e :
  prepare gw s req env = Ret (Ok c, gw') ->
  GetGRPCDesc (gw_registry gw) (Req_ServiceCode req) = Some desc ->
  plain x -> plain y -> plain e -> Path desc = ("/" ++ x)%string ->
  (Req_Method req = e -> call_method c = ("/" ++ x ++ "/" ++ e)%string) /\
  (Req_Method req = ("../" ++ y ++ "/" ++ e)%string ->
   call_method c = ("/" ++ y ++ "/" ++ e)%string).
Proof.
  intros Hp Hd Hx Hy He Hpath. unfold prepare in Hp.
  destruct (RequestInterceptor env _ req) as [[]|]; [|done|done]. rewrite Hd in Hp.
  destruct (Public desc); [|done]. simpl in Hp.
  apply outcome_bind_Ret in Hp as ([[cn|] gw1] & _ & Hp); [|done].
  destruct (newEmptyMessage _); [|done]. injection Hp as <- <-. simpl. rewrite Hpath.
  split; intros ->; [by apply path_Join_service|by apply path_Join_escape].
Qed.

(** What the client is sent for a request. *)
Inductive answer (req : Request) : result Reply -> option Reply -> Prop :=
  | answer_reply output :
      Req_NoReply req = false ->
      answer req (Ok output) (Some {| Rep_RequestId := Req_Id req;
                                      Rep_ServiceCode := Req_ServiceCode req;
                                      Rep_Code := Rep_Code output; Rep_Data := Rep_Data output |})
  | answer_none output : Req_NoReply req = true -> answer req (Ok output) None
  | answer_status err st data :
      status_FromError err = Some st ->
      proto_Unmarshal data = Ok (rpc_error req st) ->
      answer req (Err err) (Some {| Rep_RequestId := Req_Id req; Rep_ServiceCode := 0;
                                    Rep_Code := ReplyCode_RPC_ERROR; Rep_Data := data |})
  | answer_dropped err : status_FromError err = None -> answer req (Err err) None.

(** The result of a request: the error of its preparation, or what the upstream says. *)
Definition request_result (r : result call) : result Reply :=
  match r with Err err => Err err | Ok c => conn_Invoke c end.

(** C1. A request that is handled is answered at most once, to its session and no
    other: with the upstream's reply carrying the request's ID and service unless the
    client asked for none; with an RPC error carrying the request's ID, which decodes to
    the service, the method and the status, if there was an error with a status, the
    text being withheld if the code is Unknown; not at all for other errors. The only
    panics are those of the balancer and of an error reply that cannot be marshalled. *)
Theorem handleRequest_answer gw s req env r gw1 `{PL : !ProtoLaws RPCError} :
  prepare gw s req env = Ret (r, gw1) ->
  (exists gw' a, handleRequest gw s req env = Ret gw' /\ answer req (request_result r) a /\
     same_but_heap gw1 gw' /\
     forall s', heap gw' s' =
       match a with
       | Some reply => if decide (s' = s) then try_send reply (heap gw s) else heap gw s'
       | None => heap gw s'
       end) \/
  (handleRequest gw s req env = Panic /\ exists err st err',
     request_result r = Err err /\ status_FromError err = Some st /\
     proto_Marshal (rpc_error req st) = Err err').
Proof.
  intros Hp. unfold handleRequest. rewrite Hp. cbn [outcome_bind].
  assert (heap gw1 = heap gw) as Eh by (by eapply prepare_heap).
  assert (forall err, request_result r = Err err ->
    (exists gw' a, fail_request gw1 s req err = Ret gw' /\ answer req (Err err) a /\
     same_but_heap gw1 gw' /\
     forall s', heap gw' s' =
       match a with
       | Some reply => if decide (s' = s) then try_send reply (heap gw s) else heap gw s'
       | None => heap gw s'
       end) \/
    (fail_request gw1 s req err = Panic /\ exists st err',
      status_FromError err = Some st /\ proto_Marshal (rpc_error req st) = Err err')) as Hfail.
  { intros err _. unfold fail_request. destruct (status_FromError err) as [st|] eqn:Hst.
    - unfold NewReply. destruct (proto_Marshal (rpc_error req st)) as [data|err'] eqn:Hm; [|eauto 10].
      left. eexists _, (Some _). split; [done|]. split; [|split; [apply sendReply_same|]].
      + eapply answer_status; [done|]. by apply proto_roundtrip.
      + intros s'. by rewrite sendReply_heap, Eh.
    - left. exists gw1, None. split_and!; try done; [by apply answer_dropped|]. by rewrite Eh. }
  destruct r as [c|err]; simpl in *; [destruct (conn_Invoke c) as [output|err] eqn:Hc|].
  - left. destruct (Req_NoReply req) eqn:Hno.
    + exists gw1, None. split_and!; try done; [by apply answer_none|]. by rewrite Eh.
    + eexists _, (Some _). split; [done|]. split; [by apply answer_reply|].
      split; [apply sendReply_same|]. intros s'. by rewrite sendReply_heap, Eh.
  - destruct (Hfail err eq_refl) as [?|(? & st & err' & ? & ?)]; [by left|right]. eauto 10.
  - destruct (Hfail err eq_refl) as [?|(? & st & err' & ? & ?)]; [by left|right]. eauto 10.
Qed.
End Claims.

(** ** Witnesses *)

Definition public_desc : GRPCServiceDesc := {|
  Desc_Name := "chat.Room"; Code := 7; Path := "/chat.Room"; Public := true;
  Balancer_policy := ""; Weight := 0; Stateful := true; Allocation := AutoAllocate |}.
Definition private_desc : GRPCServiceDesc := {|
  Desc_Name := "chat.Admin"; Code := 8; Path := "/chat.Admin"; Public := false;
  Balancer_policy := ""; Weight := 0; Stateful := false; Allocation := "" |}.

Definition room_node : NodeEntry := sample_node 1 NodeOK "10.0.0.1:9000" [public_desc; private_desc].

Definition room_registry : Registry :=
  set_resolver (initial "") (outcome_get newGRPCResolver (Update builtin newGRPCResolver room_node)).
Definition room_gateway : Gateway := sample_gateway room_registry.

#[export] Instance sample_Empty : ProtoMessage Empty := {|
  proto_Marshal e := Ok (unknown_fields e);
  proto_Unmarshal b := Ok {| unknown_fields := b |};
|}.

(** Only refusals of private services can be written: the service is the length. *)
Definition marshal_refusal (e : RPCError) : result bytes :=
  match Err_RequestService e, St_Message (Err_Status e) with
  | Zpos p, TextFormat f [] =>
      if decide (Err_RequestMethod e = "m"%string /\ St_Code (Err_Status e) = codes_PermissionDenied /\
                 f = "request private service"%string)
      then Ok (replicate (Pos.to_nat p) Byte.x01) else Err (EForeign "proto")
  | _, _ => Err (EForeign "proto")
  end.
#[export] Instance sample_RPCError : ProtoMessage RPCError := {|
  proto_Marshal := marshal_refusal;
  proto_Unmarshal b := Ok {|
    Err_RequestService := Z.of_nat (length b); Err_RequestMethod := "m";
    Err_Status := {| St_Code := codes_PermissionDenied;
                     St_Message := TextFormat "request private service" [] |} |};
|}.
#[export] Instance sample_RPCErrorLaws : ProtoLaws RPCError.
Proof.
  split. intros [service method [c text]] b. cbn. unfold marshal_refusal. cbn.
  destruct service as [|p|p]; [done| |done]. destruct text as [f [|]|]; [|done|done].
  case_decide as H; [|done]. destruct H as (-> & -> & ->). intros [= <-].
  rewrite length_replicate, positive_nat_Z. done.
Qed.

#[export] Instance sample_Upstream : Upstream := {|
  conn_Invoke c := Ok {| Rep_RequestId := 0; Rep_ServiceCode := 0; Rep_Code := 2;
                         Rep_Data := unknown_fields (call_input c) |};
|}.

Definition sample_env : request_env := {|
  RequestInterceptor _ _ := Ok true; seed := 3; transaction := sample_id 9; RequstTimeout := 5 |}.
Definition sample_request (code : Z) (method : string) : Request := {|
  Req_Id := 42; Req_ServiceCode := code; Req_Method := method; Req_Data := [];
  Req_NodeId := ""; Req_NoReply := false; Req_Stream := "" |}.

Definition room_upstream : Gateway :=
  (outcome_get (Err io_EOF, room_gateway)
     (getUpstream room_gateway 0 (sample_request 7 "m") public_desc 3)).2.

Definition sample_call (method : string) : call := {|
  call_conn := 0%nat; call_md := forwarded_md room_gateway 0 (sample_id 9);
  call_timeout := Some 5; call_method := method; call_input := emptyMessage |}.

(** Runs of [prepare] that reach the call. *)
Definition is_prepared (o : outcome (result call * Gateway)) : bool :=
  match o with Ret (Ok _, _) => true | _ => false end.
Lemma is_prepared_Ret o : is_prepared o = true -> exists c gw, o = Ret (Ok c, gw).
Proof. destruct o as [[[c|] gw]| |]; try done. by exists c, gw. Qed.

Lemma sample_prepare :
  prepare room_gateway 0 (sample_request 7 "../nodehub.Node/Shutdown") sample_env
  = Ret (Ok (sample_call "/nodehub.Node/Shutdown"), room_upstream).
Proof. vm_compute. reflexivity. Qed.

Lemma forwarded_call_witness :
  call_md (sample_call "/nodehub.Node/Shutdown") !! MDSessID = Some ["alice"%string].
Proof.
  destruct (forwarded_call room_gateway 0 (sample_request 7 "../nodehub.Node/Shutdown") sample_env
    _ _ sample_prepare) as (_ & desc & _ & _ & _ & H & _).
  exact H.
Defined.

Lemma method_escapes_witness :
  call_method (sample_call "/nodehub.Node/Shutdown") = "/nodehub.Node/Shutdown"%string.
Proof.
  apply (method_escapes room_gateway 0 (sample_request 7 "../nodehub.Node/Shutdown") sample_env
    _ _ public_desc "chat.Room" "nodehub.Node" "Shutdown" sample_prepare).
  - vm_compute. reflexivity.
  - vm_compute. repeat split; discriminate.
  - vm_compute. repeat split; discriminate.
  - vm_compute. repeat split; discriminate.
  - reflexivity.
  - reflexivity.
Defined.

Lemma handleRequest_answer_witness :
  exists gw' a, handleRequest room_gateway 0 (sample_request 8 "m") sample_env = Ret gw' /\
    answer (sample_request 8 "m")
      (Err (StatusErrorf codes_PermissionDenied "request private service" [])) a.
Proof.
  destruct (handleRequest_answer room_gateway 0 (sample_request 8 "m") sample_env
    (Err (StatusErrorf codes_PermissionDenied "request private service" [])) room_gateway)
    as [(gw' & a & H1 & H2 & _)|(_ & err & st & err' & He & Hst & Hm)].
  - vm_compute. reflexivity.
  - exists gw', a. split; [exact H1|exact H2].
  - injection He as <-. injection Hst as <-. discriminate Hm.
Defined.
