(* ===== verification/Routing.v ===== *)
(** * Routing: requests of one user that look for an upstream at once
      ([getUpstream] of [component/gateway/proxy.go])

    Requests without a stream are handled concurrently, those of one session too, and
    [getUpstream] takes no lock: it reads the routing table, asks the balancer, gets the
    connection and stores the route, and other requests, the handlers of the RPC services
    and the registry's updates come in between. Each of these accesses is a step here;
    [Request.getUpstream] is the run of one call that nobody interrupts. One [Find] or
    [Store] of the table is one step, and so is one call of the registry. *)

From S2P Require Import Prelude External Entry PathLib Samples Balancer Resolver StateTable Messages Registry Gateway Request.

Local Open Scope Z_scope.

Section Routing.
Context `{U : ULID} `{R : MapRange} `{N : Net} `{X : XXHash} `{G : GRPCDial} `{SI : SessionIface}.

(** Where a call of [getUpstream] is. *)
Inductive phase :=
  | AtStart
  | AtAlloc (store : bool)
  | AtConn (nodeID : ulid) (store : bool)
  | AtStore (nodeID : ulid) (c : conn)
  | Done (nodeID : ulid) (c : conn)
  | Failed (err : gerror)
  | Panicked.

Definition finished (ph : phase) : bool :=
  match ph with Done _ _ | Failed _ | Panicked => true | _ => false end.

(** The next access of a call: the tests up to [stateTable.Find], the balancer, the
    connection, the deferred [stateTable.Store]. *)
Definition upstream_step (gw : Gateway) (s : sess_ptr) (req : Request) (desc : GRPCServiceDesc)
  (seed : Z) (ph : phase) : Gateway * phase :=
  let code := Req_ServiceCode req in
  match ph with
  | AtStart =>
      (gw,
       if negb (Stateful desc) then AtAlloc false
       else if bool_decide (Allocation desc = ClientAllocate) && negb (bool_decide (Req_NodeId req = ""%string))
       then
         match ulid_Parse (Req_NodeId req) with
         | Err _ => Failed (StatusErrorf codes_InvalidArgument "invalid request.NodeId, %s" [AStr (Req_NodeId req)])
         | Ok nodeID => AtConn nodeID true
         end
       else
         match Find (table gw) (Sess_ID (heap gw s)) code with
         | Some nodeID => AtConn nodeID false
         | None =>
             if negb (bool_decide (Allocation desc = AutoAllocate)) && (ulid_Time ulid_zero =? 0)
             then Failed (StatusErrorf codes_Aborted "no node allocated" [])
             else AtAlloc true
         end)
  | AtAlloc store =>
      (gw,
       match AllocGRPCNode (gw_registry gw) code (balancer_view (heap gw s)) seed with
       | Ret (Ok nodeID) => AtConn nodeID store
       | Ret (Err err) => Failed (StatusErrorf codes_Aborted "pick grpc node, %v" [AErr err])
       | Panic => Panicked
       | Blocked => AtAlloc store
       end)
  | AtConn nodeID store =>
      let '(r, reg) := GetGRPCConn (gw_registry gw) nodeID in
      (set_registry gw reg,
       match r with
       | Err err => Failed (StatusErrorf codes_Aborted "get grpc conn, %v" [AErr err])
       | Ok c => if store then AtStore nodeID c else Done nodeID c
       end)
  | AtStore nodeID c =>
      (set_table gw (Store (table gw) (Sess_ID (heap gw s)) code nodeID), Done nodeID c)
  | Done _ _ | Failed _ | Panicked => (gw, ph)
  end.

Record pending := {
  pc_sess : sess_ptr;
  pc_req : Request;
  pc_desc : GRPCServiceDesc;
  pc_phase : phase;
}.
Definition at_phase (c : pending) (ph : phase) : pending :=
  {| pc_sess := pc_sess c; pc_req := pc_req c; pc_desc := pc_desc c; pc_phase := ph |}.

(** The gateway and the calls of [getUpstream] so far, in the order they began. *)
Record RState := { rs_gw : Gateway; rs_calls : list pending }.

Inductive rlabel :=
  | RBegin (s : sess_ptr) (req : Request) (desc : GRPCServiceDesc)
  | RStep (j : nat) (seed : Z)
  | RTable (op : table_op)
  | RRegistry (reg : Registry).

Definition routing_step (st : RState) (l : rlabel) : option RState :=
  match l with
  | RBegin s req desc =>
      Some {| rs_gw := rs_gw st;
              rs_calls := rs_calls st ++ [{| pc_sess := s; pc_req := req; pc_desc := desc; pc_phase := AtStart |}] |}
  | RStep j seed =>
      match rs_calls st !! j with
      | None => None
      | Some c =>
          let '(gw, ph) := upstream_step (rs_gw st) (pc_sess c) (pc_req c) (pc_desc c) seed (pc_phase c) in
          Some {| rs_gw := gw; rs_calls := <[j := at_phase c ph]> (rs_calls st) |}
      end
  | RTable op =>
      Some {| rs_gw := set_table (rs_gw st) (run_table_op (table (rs_gw st)) op); rs_calls := rs_calls st |}
  | RRegistry reg => Some {| rs_gw := set_registry (rs_gw st) reg; rs_calls := rs_calls st |}
  end.

(** Runs whose steps satisfy a condition. *)
Inductive routing_run (ok : RState -> rlabel -> Prop) (st : RState) : list rlabel -> RState -> Prop :=
  | run_here : routing_run ok st [] st
  | run_on ls l st1 st2 :
      routing_run ok st ls st1 -> ok st1 l -> routing_step st1 l = Some st2 ->
      routing_run ok st (ls ++ [l]) st2.

Lemma run_invariant (ok : RState -> rlabel -> Prop) (I : RState -> Prop) st ls st' :
  (forall st1 l st2, I st1 -> ok st1 l -> routing_step st1 l = Some st2 -> I st2) ->
  routing_run ok st ls st' -> I st -> I st'.
Proof. intros Hstep Hrun HI. induction Hrun; eauto. Qed.

(** ** One call *)

Fixpoint run_alone (n : nat) (gw : Gateway) (s : sess_ptr) (req : Request) (desc : GRPCServiceDesc)
  (seed : Z) (ph : phase) : Gateway * phase :=
  match n with
  | O => (gw, ph)
  | S n => let '(gw, ph) := upstream_step gw s req desc seed ph in run_alone n gw s req desc seed ph
  end.

(** The result of a call that has ended. *)
Definition phase_result (gw : Gateway) (ph : phase) : outcome (result conn * Gateway) :=
  match ph with
  | Done _ c => Ret (Ok c, gw)
  | Failed err => Ret (Err err, gw)
  | Panicked => Panic
  | _ => Blocked
  end.
End Routing.

Section Lemmas.
Context `{L : ULIDLaws} `{R : MapRange} `{N : Net} `{X : XXHash} `{G : GRPCDial} `{SI : SessionIface}.

Lemma set_registry_same gw : set_registry gw (gw_registry gw) = gw.
Proof. by destruct gw. Qed.

Lemma upstream_step_heap gw s req desc sd ph : heap (upstream_step gw s req desc sd ph).1 = heap gw.
Proof. destruct ph; simpl; try done. by destruct (GetGRPCConn _ _). Qed.

Lemma routing_step_heap st l st' : routing_step st l = Some st' -> heap (rs_gw st') = heap (rs_gw st).
Proof.
  destruct l as [s req desc|j sd|op|reg]; simpl; try by intros [= <-].
  destruct (rs_calls st !! j) as [c|]; [|done].
  pose proof (upstream_step_heap (rs_gw st) (pc_sess c) (pc_req c) (pc_desc c) sd (pc_phase c)) as H.
  destruct (upstream_step _ _ _ _ _ _) as [gw ph]. by intros [= <-].
Qed.

(** A call that nobody interrupts is [Request.getUpstream]. *)
Lemma run_alone_getUpstream gw s req desc sd :
  getUpstream gw s req desc sd =
  phase_result (run_alone 4 gw s req desc sd AtStart).1 (run_alone 4 gw s req desc sd AtStart).2.
Proof.
  assert (forall n ph, finished ph = true -> run_alone n gw s req desc sd ph = (gw, ph)) as Hend.
  { intros n ph Hf. induction n; simpl; [done|]. by destruct ph. }
  assert (forall id st n gw1, n >= 2 ->
    Ret (finish gw1 s (Req_ServiceCode req) id st) =
    phase_result (run_alone n gw1 s req desc sd (AtConn id st)).1 (run_alone n gw1 s req desc sd (AtConn id st)).2)%nat
    as Hconn.
  { intros id st n gw1 Hn. destruct n as [|[|n]]; [lia..|]. unfold finish. cbn [run_alone upstream_step].
    assert (forall m g ph, finished ph = true -> run_alone m g s req desc sd ph = (g, ph)) as Hend'.
    { intros m g ph Hf. induction m; simpl; [done|]. by destruct ph. }
    destruct (GetGRPCConn _ _) as [[c|err] reg]; [destruct st|]; cbn [run_alone upstream_step];
      rewrite Hend' by done; done. }
  assert (forall st n, n >= 3 ->
    alloc gw s (Req_ServiceCode req) sd st =
    phase_result (run_alone n gw s req desc sd (AtAlloc st)).1 (run_alone n gw s req desc sd (AtAlloc st)).2)%nat
    as Halloc.
  { intros st n Hn. destruct n as [|n]; [lia|]. unfold alloc. cbn [run_alone upstream_step].
    destruct (AllocGRPCNode _ _ _ _) as [[id|err]| |] eqn:E; cbn [outcome_bind].
    - apply Hconn. lia.
    - by rewrite Hend.
    - by rewrite Hend.
    - clear Hn. induction n; [done|]. cbn [run_alone upstream_step]. by rewrite E. }
  assert (forall n ph, run_alone (S n) gw s req desc sd ph =
    run_alone n (upstream_step gw s req desc sd ph).1 s req desc sd (upstream_step gw s req desc sd ph).2) as HS.
  { intros n ph. cbn [run_alone]. by destruct (upstream_step _ _ _ _ _ _). }
  unfold getUpstream. rewrite (HS 3%nat). clear HS. cbn [upstream_step fst snd].
  destruct (negb (Stateful desc)); [by apply Halloc; lia|].
  destruct (_ && _); [destruct (ulid_Parse _); [by apply Hconn; lia|by rewrite Hend]|].
  destruct (Find _ _ _); [by apply Hconn; lia|].
  destruct (_ && _); [by rewrite Hend|by apply Halloc; lia].
Qed.
End Lemmas.

(** ** The claim *)
Section Claims.
Context `{L : ULIDLaws} `{R : MapRange} `{N : Net} `{X : XXHash} `{G : GRPCDial} `{SI : SessionIface}.
Context (user : string) (code : Z).

Definition route (st : RState) : option ulid := Find (table (rs_gw st)) user code.

(** Requests of the user to the service. *)
Definition concerns (gw : Gateway) (s : sess_ptr) (req : Request) : Prop :=
  Sess_ID (heap gw s) = user /\ Req_ServiceCode req = code.

(** Requests that leave the choice of the node to the gateway. *)
Definition names_no_node (req : Request) (desc : GRPCServiceDesc) : Prop :=
  Stateful desc = true /\ (Req_NodeId req = ""%string \/ Allocation desc <> ClientAllocate).

(** Steps that leave the user's route alone as far as others can change it: a change of
    the table by an RPC or the registry keeps it, and a request of the user to the service
    that begins satisfies a condition. *)
Definition undisturbed (begins : Request -> GRPCServiceDesc -> Prop) (st : RState) (l : rlabel) : Prop :=
  match l with
  | RBegin s req desc => concerns (rs_gw st) s req -> begins req desc
  | RTable op => Find (run_table_op (table (rs_gw st)) op) user code = route st
  | RStep _ _ | RRegistry _ => True
  end.

(** A request of the user to the service that has ended. *)
Definition ended (gw : Gateway) (c : pending) : Prop :=
  concerns gw (pc_sess c) (pc_req c) -> finished (pc_phase c) = true.

Lemma upstream_step_table gw s req desc sd ph :
  table_wf (table gw) ->
  table_wf (table (upstream_step gw s req desc sd ph).1) /\
  forall u c, Find (table (upstream_step gw s req desc sd ph).1) u c =
    match ph with
    | AtStore n _ => if decide (u = Sess_ID (heap gw s) /\ c = Req_ServiceCode req) then Some n else Find (table gw) u c
    | _ => Find (table gw) u c
    end.
Proof.
  intros Hwf. destruct ph as [|st|n st|n c| | |]; simpl; try done.
  - by destruct (GetGRPCConn _ _).
  - split; [by apply Store_wf|]. intros u c'. by apply Store_Find.
Qed.

(** *** Once the route is there *)

(** The error of a node that is not known, or down, or cannot be dialed. *)
Definition no_conn (err : gerror) : gerror := StatusErrorf codes_Aborted "get grpc conn, %v" [AErr err].

(** The requests that began after the first [from] ones are on their way to the node. *)
Record settled (from : nat) (nodeID : ulid) (st : RState) : Prop := {
  sl_wf : table_wf (table (rs_gw st));
  sl_from : (from <= length (rs_calls st))%nat;
  sl_route : route st = Some nodeID;
  sl_old : forall k c, (k < from)%nat -> rs_calls st !! k = Some c -> ended (rs_gw st) c;
  sl_new : forall k c, (from <= k)%nat -> rs_calls st !! k = Some c ->
    concerns (rs_gw st) (pc_sess c) (pc_req c) ->
    names_no_node (pc_req c) (pc_desc c) /\
    (pc_phase c = AtStart \/ pc_phase c = AtConn nodeID false \/
     (exists cn, pc_phase c = Done nodeID cn) \/ (exists err, pc_phase c = Failed (no_conn err)));
}.

Lemma finished_step gw s req desc sd ph : finished ph = true -> upstream_step gw s req desc sd ph = (gw, ph).
Proof. by destruct ph. Qed.

Lemma follows_route gw s req desc sd nodeID :
  names_no_node req desc -> Find (table gw) (Sess_ID (heap gw s)) (Req_ServiceCode req) = Some nodeID ->
  upstream_step gw s req desc sd AtStart = (gw, AtConn nodeID false).
Proof.
  intros [Hst Hno] Hf. simpl. rewrite Hst, Hf. simpl.
  replace (bool_decide _ && _) with false; [done|]. symmetry. apply andb_false_iff.
  destruct Hno as [->|Hne]; [by right|left; by apply bool_decide_eq_false].
Qed.

Lemma settled_step from nodeID st l st' :
  settled from nodeID st -> undisturbed names_no_node st l -> routing_step st l = Some st' ->
  settled from nodeID st'.
Proof.
  intros Hs Hok Hstep. pose proof (routing_step_heap _ _ _ Hstep) as Eh. pose proof Hs as [Hwf Hfrom Hr Hold Hnew].
  unfold ended, concerns, route in *.
  destruct l as [s req desc|j sd|op|reg]; simpl in *.
  - injection Hstep as <-. split; simpl; try done.
    + rewrite length_app. lia.
    + intros k c Hk Hc. rewrite lookup_app_l in Hc by lia. exact (Hold k c Hk Hc).
    + intros k c Hk [Hc|[_ Hc]]%lookup_app_Some Hcon; [eauto|].
      apply list_lookup_singleton_Some in Hc as [_ <-]. simpl in *. split; [by apply Hok|by left].
  - destruct (rs_calls st !! j) as [c|] eqn:Hj; [|done].
    destruct (upstream_step_table (rs_gw st) (pc_sess c) (pc_req c) (pc_desc c) sd (pc_phase c) Hwf) as [Hwf' Hf].
    assert (j < from \/ from <= j)%nat as Hcase by lia.
    assert (concerns (rs_gw st) (pc_sess c) (pc_req c) -> forall n cn, pc_phase c <> AtStore n cn) as Hno.
    { intros Hcon n cn E. destruct Hcase as [Hlt|Hge].
      - pose proof (Hold j c Hlt Hj Hcon) as Hfin. by rewrite E in Hfin.
      - destruct (Hnew j c Hge Hj Hcon) as [_ [?|[?|[[? ?]|[? ?]]]]]; congruence. }
    destruct (upstream_step _ _ _ _ _ _) as [gw ph] eqn:E. injection Hstep as <-. simpl in *.
    split; simpl; try done.
    + by rewrite length_insert.
    + unfold route. simpl. rewrite Hf. destruct (pc_phase c) eqn:Eph; try done. rewrite decide_False; [done|].
      intros [-> ->]. by eapply Hno.
    + intros k c' Hk. destruct (decide (j = k)) as [<-|Hne].
      * rewrite list_lookup_insert_eq by (by eapply lookup_lt_Some). intros [= <-]. unfold ended, concerns. simpl.
        rewrite Eh. intros Hcon. pose proof (Hold j c Hk Hj Hcon) as Hfin.
        rewrite finished_step in E by done. by injection E as <- <-.
      * rewrite list_lookup_insert_ne by done. unfold ended, concerns. simpl. rewrite Eh. eauto.
    + intros k c' Hk. destruct (decide (j = k)) as [<-|Hne]; cycle 1.
      { rewrite list_lookup_insert_ne by done. unfold concerns. simpl. rewrite Eh. eauto. }
      rewrite list_lookup_insert_eq by (by eapply lookup_lt_Some). intros [= <-]. unfold concerns. simpl.
      rewrite Eh. intros Hcon. destruct (Hnew j c Hk Hj Hcon) as [Hnn Hph]. split; [done|].
      destruct Hph as [Eph|[Eph|[[cn Eph]|[err Eph]]]]; rewrite Eph in E.
      * rewrite (follows_route _ _ _ _ _ nodeID) in E; [|done|by destruct Hcon as [-> ->]].
        injection E as _ <-. auto.
      * simpl in E. destruct (GetGRPCConn _ _) as [[cn|err] reg]; injection E as _ <-; eauto 6.
      * injection E as _ <-. eauto 6.
      * injection E as _ <-. eauto 6.
  - injection Hstep as <-. split; simpl; try done; [by apply (run_table_op_refines _ op)|by rewrite <- Hr].
  - by injection Hstep as <-; split.
Qed.

(** *** The request that makes the route *)

(** How the node of a request is chosen that began in [st0] and had ended after [ls]. *)
Inductive chosen (st0 : RState) (ls : list rlabel) (c : pending) (nodeID : ulid) : Prop :=
  | by_client :
      Allocation (pc_desc c) = ClientAllocate -> Req_NodeId (pc_req c) <> ""%string ->
      ulid_Parse (Req_NodeId (pc_req c)) = Ok nodeID -> chosen st0 ls c nodeID
  | by_route :
      Allocation (pc_desc c) <> ClientAllocate \/ Req_NodeId (pc_req c) = ""%string ->
      route st0 = Some nodeID -> chosen st0 ls c nodeID
  | by_balancer ok ls1 st1 seed :
      Allocation (pc_desc c) = AutoAllocate -> route st0 = None ->
      ls1 `prefix_of` ls -> routing_run ok st0 ls1 st1 ->
      AllocGRPCNode (gw_registry (rs_gw st1)) code (balancer_view (heap (rs_gw st0) (pc_sess c))) seed
        = Ret (Ok nodeID) ->
      chosen st0 ls c nodeID.

(** What holds of the call [c] while it is the only one of the user to the service. *)
Definition on_its_way (st0 : RState) (ls : list rlabel) (c : pending) (st : RState) (ph : phase) : Prop :=
  match ph with
  | AtStart => route st = route st0
  | AtAlloc store =>
      store = true /\ Allocation (pc_desc c) = AutoAllocate /\ route st = route st0 /\ route st0 = None
  | AtConn n store => chosen st0 ls c n /\ route st = route st0 /\ (store = false -> route st0 = Some n)
  | AtStore n _ => chosen st0 ls c n
  | Done n _ => chosen st0 ls c n /\ route st = Some n
  | Failed _ | Panicked => True
  end.

Record first_call (st0 : RState) (ls : list rlabel) (j : nat) (c : pending) (st : RState) : Prop := {
  fc_wf : table_wf (table (rs_gw st));
  fc_heap : heap (rs_gw st) = heap (rs_gw st0);
  fc_call : exists ph, rs_calls st !! j = Some (at_phase c ph) /\ on_its_way st0 ls c st ph;
  fc_others : forall k c', k <> j -> rs_calls st !! k = Some c' -> ended (rs_gw st) c';
}.

Lemma chosen_more st0 ls l c n : chosen st0 ls c n -> chosen st0 (ls ++ [l]) c n.
Proof.
  intros [H1 H2 H3|H1 H2|ok ls1 st1 sd H1 H2 H3 H4 H5]; [by apply by_client|by apply by_route|].
  eapply by_balancer; [done..| |done|done]. by apply prefix_app_r.
Qed.

Lemma on_its_way_more st0 ls l c st st' ph :
  on_its_way st0 ls c st ph -> route st' = route st -> on_its_way st0 (ls ++ [l]) c st' ph.
Proof.
  intros H E. destruct ph; simpl in *; rewrite ?E; try done.
  - destruct H as (? & ? & ?). split_and!; [by apply chosen_more|done..].
  - by apply chosen_more.
  - destruct H as [? ?]. split; [by apply chosen_more|done].
Qed.

Lemma on_its_way_step ok st0 ls l c st sd gw' ph' ph calls' :
  routing_run ok st0 ls st -> heap (rs_gw st) = heap (rs_gw st0) ->
  table_wf (table (rs_gw st)) -> concerns (rs_gw st0) (pc_sess c) (pc_req c) -> Stateful (pc_desc c) = true ->
  on_its_way st0 ls c st ph ->
  upstream_step (rs_gw st) (pc_sess c) (pc_req c) (pc_desc c) sd ph = (gw', ph') ->
  on_its_way st0 (ls ++ [l]) c {| rs_gw := gw'; rs_calls := calls' |} ph'.
Proof.
  intros Hrun Eh Hwf [Hu Hc] Hst Hw E.
  destruct (upstream_step_table (rs_gw st) (pc_sess c) (pc_req c) (pc_desc c) sd ph Hwf) as [_ Hf].
  rewrite E in Hf. simpl in Hf. rewrite <- Eh in Hu.
  assert (forall n, chosen st0 ls c n -> chosen st0 (ls ++ [l]) c n) as Hmore by (intros n; apply chosen_more).
  destruct ph as [|store|n store|n cn|n cn|err|]; simpl in E; unfold on_its_way in Hw.
  - injection E as <- <-. rewrite Hst, Hu, Hc. simpl negb. cbn iota.
    destruct (bool_decide (Allocation (pc_desc c) = ClientAllocate)) eqn:Ha;
      [apply bool_decide_eq_true in Ha|apply bool_decide_eq_false in Ha];
    (destruct (bool_decide (Req_NodeId (pc_req c) = ""%string)) eqn:Hn;
      [apply bool_decide_eq_true in Hn|apply bool_decide_eq_false in Hn]); simpl;
    try (destruct (ulid_Parse _) as [n|] eqn:Hp; [|done]; simpl; split_and!; [by apply by_client|done|done]);
    (change (Find (table (rs_gw st)) user code) with (route st); rewrite Hw;
     destruct (route st0) as [n|] eqn:Hr0; simpl;
     [split_and!; [apply Hmore, by_route; tauto|by rewrite Hr0|done]|]);
    rewrite ulid_time_zero; simpl; rewrite andb_true_r;
    (destruct (bool_decide (Allocation (pc_desc c) = AutoAllocate)) eqn:Hauto; [|done]);
    apply bool_decide_eq_true in Hauto; simpl; split_and!; try done; by rewrite Hr0.
  - destruct Hw as (-> & Hauto & Hr & Hnone). injection E as <- <-.
    destruct (AllocGRPCNode _ _ _ _) as [[n|err]| |] eqn:Hal; simpl; try done.
    split_and!; [|done|done]. rewrite Hc, Eh in Hal.
    eapply by_balancer; [done|done| |done|done]. by apply prefix_app_r.
  - destruct Hw as (Hch & Hr & Hs). destruct (GetGRPCConn _ _) as [[cn|err] reg]; injection E as <- <-; [|done].
    destruct store; simpl; [by apply Hmore|]. split; [by apply Hmore|]. unfold route in *. simpl. rewrite Hr. auto.
  - injection E as <- <-. split; [by apply Hmore|]. unfold route. simpl. rewrite Hf, decide_True; done.
  - injection E as <- <-. destruct Hw. split; [by apply Hmore|done].
  - by injection E as <- <-.
  - by injection E as <- <-.
Qed.

(** A call that has ended, or is another's, does not touch the user's route. *)
Lemma other_call_keeps st c sd gw ph calls :
  table_wf (table (rs_gw st)) -> ended (rs_gw st) c ->
  upstream_step (rs_gw st) (pc_sess c) (pc_req c) (pc_desc c) sd (pc_phase c) = (gw, ph) ->
  route {| rs_gw := gw; rs_calls := calls |} = route st.
Proof.
  intros Hwf Hend E.
  destruct (upstream_step_table (rs_gw st) (pc_sess c) (pc_req c) (pc_desc c) sd (pc_phase c) Hwf) as [_ Hf].
  rewrite E in Hf. simpl in Hf. unfold route. simpl. rewrite Hf.
  destruct (pc_phase c) eqn:Eph; try done. rewrite decide_False; [done|]. intros [Eu Ec].
  unfold ended, concerns in Hend. rewrite Eph in Hend. by specialize (Hend (conj (eq_sym Eu) (eq_sym Ec))).
Qed.

Lemma ended_step gw gw' c sd ph :
  heap gw' = heap gw -> ended gw c ->
  upstream_step gw (pc_sess c) (pc_req c) (pc_desc c) sd (pc_phase c) = (gw', ph) ->
  ended gw' (at_phase c ph).
Proof.
  intros Eh Hend E. unfold ended, concerns in *. rewrite Eh. simpl. intros Hcon.
  rewrite finished_step in E by auto. injection E as _ <-. auto.
Qed.

Lemma first_call_step ok st0 ls j c st l st' :
  concerns (rs_gw st0) (pc_sess c) (pc_req c) -> Stateful (pc_desc c) = true ->
  routing_run ok st0 ls st -> first_call st0 ls j c st -> undisturbed (fun _ _ => False) st l ->
  routing_step st l = Some st' -> first_call st0 (ls ++ [l]) j c st'.
Proof.
  intros Hcon Hst Hrun [Hwf Eh (ph & Hj & Hw) Hothers] Hok Hstep.
  pose proof (routing_step_heap _ _ _ Hstep) as Eh'.
  destruct l as [s req desc|i sd|op|reg]; simpl in Hstep, Hok.
  - injection Hstep as <-. split; simpl in *; [done..| |].
    + exists ph. split; [by apply lookup_app_Some; left|]. by apply on_its_way_more with (st := st).
    + intros k c' Hk [Hc|[_ Hc]]%lookup_app_Some; [by eapply Hothers|].
      apply list_lookup_singleton_Some in Hc as [_ <-]. intros Hcon'. destruct (Hok Hcon').
  - destruct (rs_calls st !! i) as [ci|] eqn:Hi; [|done].
    destruct (upstream_step_table (rs_gw st) (pc_sess ci) (pc_req ci) (pc_desc ci) sd (pc_phase ci) Hwf) as [Hwf' _].
    destruct (upstream_step _ _ _ _ _ _) as [gw ph'] eqn:E. injection Hstep as <-. simpl in *.
    assert (forall c', ended (rs_gw st) c' -> ended gw c') as Hended
      by (intros c'; unfold ended, concerns; by rewrite Eh').
    destruct (decide (i = j)) as [->|Hne].
    + assert (ci = at_phase c ph) as -> by congruence. split; simpl; [done|congruence| |].
      * exists ph'. split; [by rewrite list_lookup_insert_eq by (by eapply lookup_lt_Some)|].
        eapply on_its_way_step; done.
      * intros k c' Hk. rewrite list_lookup_insert_ne by done. intros Hc'. by eapply Hended, Hothers.
    + split; simpl; [done|congruence| |].
      * exists ph. split; [by rewrite list_lookup_insert_ne|].
        apply on_its_way_more with (st := st); [done|]. by eapply other_call_keeps; [|eapply Hothers|].
      * intros k c' Hk. destruct (decide (i = k)) as [<-|Hne'].
        -- rewrite list_lookup_insert_eq by (by eapply lookup_lt_Some). intros [= <-].
           by eapply ended_step; [|eapply Hothers|].
        -- rewrite list_lookup_insert_ne by done. intros Hc'. by eapply Hended, Hothers.
  - injection Hstep as <-. split; simpl; [by apply (run_table_op_refines _ op)|done| |done].
    exists ph. split; [done|]. by apply on_its_way_more with (st := st).
  - injection Hstep as <-. split; simpl; [done..| |done].
    exists ph. split; [done|]. by apply on_its_way_more with (st := st).
Qed.

Lemma first_call_run st0 ls j c st :
  concerns (rs_gw st0) (pc_sess c) (pc_req c) -> Stateful (pc_desc c) = true ->
  first_call st0 [] j c st0 -> routing_run (undisturbed (fun _ _ => False)) st0 ls st ->
  first_call st0 ls j c st.
Proof.
  intros Hcon Hst H0 Hrun. induction Hrun; [done|]. by eapply first_call_step.
Qed.

(** C4. Requests of a user to a stateful service stick to a node, whatever else goes on
    at the same time, if the user waits for the first one. Let a request of the user to
    the service begin when no other one of the user to it is on its way, let none begin
    before it has found its upstream, and let nobody else change the user's route (an RPC
    that stores, removes or replaces it, the clean-up of the node or of the session); any
    requests of other users or to other services, other changes of the table and any
    changes of the registry may come between the steps. Then the node is the one the
    client names if the service leaves the choice to clients, else the one the user was
    routed to, else, if the service is allocated automatically, the one the balancer
    chose; the user is routed to it; and as long as nobody else changes the route it stays,
    and every request of the user to the service that begins later and names no node,
    any number of them at once, is on its way to that node or has got a connection to it,
    or has failed for want of a connection to it. *)
Theorem sticky_routing st0 ls1 st1 ls2 st2 j c nodeID cn :
  table_wf (table (rs_gw st0)) ->
  rs_calls st0 !! j = Some c -> concerns (rs_gw st0) (pc_sess c) (pc_req c) ->
  Stateful (pc_desc c) = true -> pc_phase c = AtStart ->
  (forall k c', k <> j -> rs_calls st0 !! k = Some c' -> ended (rs_gw st0) c') ->
  routing_run (undisturbed (fun _ _ => False)) st0 ls1 st1 ->
  rs_calls st1 !! j = Some (at_phase c (Done nodeID cn)) ->
  routing_run (undisturbed names_no_node) st1 ls2 st2 ->
  chosen st0 ls1 c nodeID /\ route st1 = Some nodeID /\ route st2 = Some nodeID /\
  forall k c', (length (rs_calls st1) <= k)%nat -> rs_calls st2 !! k = Some c' ->
    concerns (rs_gw st2) (pc_sess c') (pc_req c') ->
    pc_phase c' = AtStart \/ pc_phase c' = AtConn nodeID false \/
    (exists cn', pc_phase c' = Done nodeID cn') \/ (exists err, pc_phase c' = Failed (no_conn err)).
Proof.
  intros Hwf Hj Hcon Hst Hph Hothers Hrun1 Hdone Hrun2.
  assert (first_call st0 ls1 j c st1) as [Hwf1 Eh1 (ph & Hj1 & Hw) Hothers1].
  { eapply first_call_run; [done..| |done]. split; [done|done| |done].
    exists AtStart. split; [|done]. rewrite Hj, <- Hph. by destruct c. }
  assert (ph = Done nodeID cn) as -> by (rewrite Hdone in Hj1; unfold at_phase in Hj1; congruence). destruct Hw as [Hch Hr].
  assert (settled (length (rs_calls st1)) nodeID st2) as Hs.
  { eapply (run_invariant _ (settled (length (rs_calls st1)) nodeID)); [|exact Hrun2|].
    - intros. by eapply settled_step.
    - split; [done..| |].
      + intros k c' _ Hk. destruct (decide (k = j)) as [->|Hne]; [|by eapply Hothers1].
        intros _. rewrite Hdone in Hk. by injection Hk as <-.
      + intros k c' Hk Hc. apply lookup_lt_Some in Hc. lia. }
  split_and!; [done|done|by destruct Hs|].
  intros k c' Hk Hc Hcc. by destruct (sl_new _ _ _ Hs k c' Hk Hc Hcc).
Qed.

(** First requests of a user that run at once need not agree: each finds no route, each
    asks the balancer, and a third request, served by the node of the first while the
    second has not stored its own, is followed by a change of the route. *)
Theorem first_requests_race st0 s req desc sd1 sd2 n1 n2 c1 c2 reg1 reg2 :
  table_wf (table (rs_gw st0)) -> rs_calls st0 = [] -> concerns (rs_gw st0) s req ->
  Stateful desc = true -> Allocation desc = AutoAllocate -> route st0 = None ->
  AllocGRPCNode (gw_registry (rs_gw st0)) code (balancer_view (heap (rs_gw st0) s)) sd1 = Ret (Ok n1) ->
  AllocGRPCNode (gw_registry (rs_gw st0)) code (balancer_view (heap (rs_gw st0) s)) sd2 = Ret (Ok n2) ->
  GetGRPCConn (gw_registry (rs_gw st0)) n1 = (Ok c1, reg1) -> GetGRPCConn reg1 n2 = (Ok c2, reg2) ->
  exists st1 st2 ls1 ls2,
    routing_run (fun _ _ => True) st0 ls1 st1 /\ routing_run (fun _ _ => True) st1 ls2 st2 /\
    (pc_phase <$> rs_calls st1) = [Done n1 c1; AtConn n2 true] /\ route st1 = Some n1 /\
    (pc_phase <$> rs_calls st2) = [Done n1 c1; Done n2 c2] /\ route st2 = Some n2.
Proof.
  intros Hwf Hcalls [Hu Hc] Hst Hauto Hr Ha1 Ha2 Hc1 Hc2.
  destruct st0 as [gw calls]. simpl in *. subst calls. unfold route in Hr. simpl in Hr.
  set (call ph := {| pc_sess := s; pc_req := req; pc_desc := desc; pc_phase := ph |}).
  set (gw1 := set_table (set_registry gw reg1) (Store (table gw) user code n1)).
  set (gw2 := set_table (set_registry gw1 reg2) (Store (table gw1) user code n2)).
  assert (forall sd, upstream_step gw s req desc sd AtStart = (gw, AtAlloc true)) as Hstart.
  { intros sd. simpl. rewrite Hst, Hauto, Hu, Hc, Hr. done. }
  assert (table_wf (table gw1)) as Hwf1 by by apply Store_wf.
  exists {| rs_gw := gw1; rs_calls := [call (Done n1 c1); call (AtConn n2 true)] |},
    {| rs_gw := gw2; rs_calls := [call (Done n1 c1); call (Done n2 c2)] |},
    ([] ++ [RBegin s req desc] ++ [RBegin s req desc] ++ [RStep 0 0] ++ [RStep 1 0] ++ [RStep 0 sd1] ++ [RStep 1 sd2]
      ++ [RStep 0 0] ++ [RStep 0 0]),
    ([] ++ [RStep 1 0] ++ [RStep 1 0]).
  split_and!; [| |done| |done|].
  - rewrite !app_assoc.
    eapply (run_on _ _ _ _ {| rs_gw := set_registry gw reg1; rs_calls := [call (AtStore n1 c1); call (AtConn n2 true)] |});
      [|done|simpl; by rewrite Hu, Hc].
    eapply (run_on _ _ _ _ {| rs_gw := gw; rs_calls := [call (AtConn n1 true); call (AtConn n2 true)] |});
      [|done|simpl; by rewrite Hc1].
    eapply (run_on _ _ _ _ {| rs_gw := gw; rs_calls := [call (AtConn n1 true); call (AtAlloc true)] |});
      [|done|simpl; by rewrite Hc, Ha2].
    eapply (run_on _ _ _ _ {| rs_gw := gw; rs_calls := [call (AtAlloc true); call (AtAlloc true)] |});
      [|done|simpl; by rewrite Hc, Ha1].
    eapply (run_on _ _ _ _ {| rs_gw := gw; rs_calls := [call (AtAlloc true); call AtStart] |});
      [|done|cbn -[upstream_step]; by rewrite Hstart].
    eapply (run_on _ _ _ _ {| rs_gw := gw; rs_calls := [call AtStart; call AtStart] |});
      [|done|cbn -[upstream_step]; by rewrite Hstart].
    eapply (run_on _ _ _ _ {| rs_gw := gw; rs_calls := [call AtStart] |}); [|done|done].
    eapply (run_on _ _ _ _ {| rs_gw := gw; rs_calls := [] |}); [apply run_here|done|done].
  - rewrite !app_assoc.
    eapply (run_on _ _ _ _ {| rs_gw := set_registry gw1 reg2; rs_calls := [call (Done n1 c1); call (AtStore n2 c2)] |});
      [|done|simpl; by rewrite Hu, Hc].
    eapply run_on; [apply run_here|done|]. simpl. by rewrite Hc2.
  - unfold route. simpl. rewrite Store_Find by done. by rewrite decide_True.
  - unfold route. simpl. rewrite Store_Find by done. by rewrite decide_True.
Qed.
End Claims.

(** ** The witness *)

(** Runs computed from their labels. *)
Section Execution.
Context `{U : ULID} `{R : MapRange} `{N : Net} `{X : XXHash} `{G : GRPCDial} `{SI : SessionIface}.

Definition steps (st : RState) (ls : list rlabel) : RState :=
  foldl (fun st l => default st (routing_step st l)) st ls.

Definition can_step (st : RState) (l : rlabel) : bool :=
  match l with RStep j _ => bool_decide (j < length (rs_calls st))%nat | _ => true end.
Lemma can_step_Some st l : can_step st l = true -> is_Some (routing_step st l).
Proof.
  destruct l as [s req desc|j sd|op|reg]; simpl; try by eexists.
  intros Hj%bool_decide_eq_true. apply lookup_lt_is_Some in Hj as [c ->].
  destruct (upstream_step _ _ _ _ _ _). by eexists.
Qed.

(** Every step of them can be taken and satisfies the condition. *)
Fixpoint steps_ok (ok : RState -> rlabel -> Prop) (st : RState) (ls : list rlabel) : Prop :=
  match ls with
  | [] => True
  | l :: ls => ok st l /\ can_step st l = true /\ steps_ok ok (steps st [l]) ls
  end.

Lemma steps_run ok st ls : steps_ok ok st ls -> routing_run ok st ls (steps st ls).
Proof.
  intros H. assert (forall ls0 st0, routing_run ok st0 ls0 st -> routing_run ok st0 (ls0 ++ ls) (steps st ls)) as Hgen.
  { revert st H. induction ls as [|l ls IH]; intros st; simpl.
    - intros _ ls0 st0. by rewrite app_nil_r.
    - intros (Hok & [st1 E]%can_step_Some & H) ls0 st0 Hrun. rewrite E in H |- *. simpl in H |- *.
      specialize (IH st1 H (ls0 ++ [l]) st0). rewrite <- app_assoc in IH. apply IH. by eapply run_on. }
  apply (Hgen []). apply run_here.
Qed.
End Execution.

(** Two nodes have a stateful service. *)
Definition lobby_desc : GRPCServiceDesc := {|
  Desc_Name := "chat.Lobby"; Code := 7; Path := "/chat.Lobby"; Public := true;
  Balancer_policy := BalancerRandom; Weight := 0; Stateful := true; Allocation := AutoAllocate |}.
Definition lobby_node (n : N) (endpoint : string) : NodeEntry := sample_node n NodeOK endpoint [lobby_desc].
Definition lobby_registry : Registry :=
  set_resolver (initial "")
    (outcome_get newGRPCResolver
       (Update builtin
          (outcome_get newGRPCResolver (Update builtin newGRPCResolver (lobby_node 1 "10.0.0.1:9000")))
          (lobby_node 2 "10.0.0.2:9000"))).

Definition lobby0 : RState :=
  steps {| rs_gw := sample_gateway lobby_registry; rs_calls := [] |} [RBegin 0 (sample_request 7 "m") lobby_desc].
Definition lobby_call (ph : phase) : pending :=
  {| pc_sess := 0%nat; pc_req := sample_request 7 "m"; pc_desc := lobby_desc; pc_phase := ph |}.
Definition first_labels (seed : Z) : list rlabel :=
  [RStep 0 seed; RTable (TStore "bob" 7 (sample_id 2)); RStep 0 seed; RStep 0 seed; RStep 0 seed].
Definition later_labels : list rlabel :=
  [RBegin 0 (sample_request 7 "m") lobby_desc; RBegin 0 (sample_request 7 "n") lobby_desc;
   RStep 2 4; RStep 1 5; RStep 1 4].
Definition lobby1 : RState := steps lobby0 (first_labels 1).
Definition lobby2 : RState := steps lobby1 later_labels.

(** The nodes of the calls that have got a connection. *)
Definition nodes_of (st : RState) : list (option ulid) :=
  (fun c => match pc_phase c with Done n _ => Some n | _ => None end) <$> rs_calls st.

(** The first of two calls that look for an upstream one after the other goes to the
    first node, the balancer would choose the second one for the others. *)
Example lobby_nodes :
  nodes_of lobby2 = [Some (sample_id 1); Some (sample_id 1); None] /\
  nodes_of (steps lobby0 (first_labels 4)) = [Some (sample_id 2)].
Proof. vm_compute. done. Qed.

Lemma lobby_first_run : routing_run (undisturbed "alice" 7 (fun _ _ => False)) lobby0 (first_labels 1) lobby1.
Proof. apply steps_run. repeat (split; [vm_compute; reflexivity || exact I|split; [vm_compute; reflexivity|]]). exact I. Qed.
Lemma lobby_later_run : routing_run (undisturbed "alice" 7 names_no_node) lobby1 later_labels lobby2.
Proof.
  apply steps_run. do 2 (split; [intros _; split; [exact eq_refl|by left]|split; [vm_compute; reflexivity|]]).
  repeat (split; [exact I|split; [vm_compute; reflexivity|]]). exact I.
Qed.
Lemma lobby_first_call : rs_calls lobby0 = [lobby_call AtStart] /\ rs_calls lobby1 = [lobby_call (Done (sample_id 1) 0%nat)].
Proof. split; vm_compute; reflexivity. Qed.
Lemma lobby_second_call :
  length (rs_calls lobby1) = 1%nat /\ rs_calls lobby2 !! 1%nat = Some (lobby_call (Done (sample_id 1) 0%nat)).
Proof. split; vm_compute; reflexivity. Qed.

Lemma lobby_second_concerns : concerns "alice" 7 (rs_gw lobby2) 0%nat (sample_request 7 "m").
Proof. split; vm_compute; reflexivity. Qed.

Lemma sticky_routing_witness :
  route "alice" 7 lobby2 = Some (sample_id 1) /\
  exists c, rs_calls lobby2 !! 1%nat = Some c /\
    (pc_phase c = AtStart \/ pc_phase c = AtConn (sample_id 1) false \/
     (exists cn, pc_phase c = Done (sample_id 1) cn) \/ (exists err, pc_phase c = Failed (no_conn err))).
Proof.
  destruct lobby_first_call as [H0 H1]. destruct lobby_second_call as [Hlen H2].
  destruct (sticky_routing "alice" 7 lobby0 (first_labels 1) lobby1 later_labels lobby2 0 (lobby_call AtStart)
    (sample_id 1) 0%nat) as (_ & _ & Hr & Hc).
  - exact table_wf_init.
  - rewrite H0. reflexivity.
  - split; reflexivity.
  - reflexivity.
  - reflexivity.
  - rewrite H0. intros [|k] c' Hk Hc'; [destruct (Hk eq_refl)|discriminate Hc'].
  - exact lobby_first_run.
  - rewrite H1. reflexivity.
  - exact lobby_later_run.
  - split; [exact Hr|]. eexists. split; [exact H2|]. apply (Hc 1%nat).
    + rewrite Hlen. apply le_n.
    + exact H2.
    + exact lobby_second_concerns.
Defined.
