(* ===== verification/Lifecycle.v ===== *)
(** * Lifecycle: [handleSession], [onConnect], [onDisconnect]
      ([component/gateway/proxy.go])

    The connections of a gateway, their clean-up timers, and the ways their goroutines
    interleave. Each connection runs [handleSession] and each timer its function; a step
    is one operation on the state they share. *)

From stdpp Require Import functions.
From S2P Require Import Prelude External Entry PathLib Samples Balancer Resolver StateTable Messages Registry Gateway.

Local Open Scope go_scope.
Local Open Scope Z_scope.

Abbreviation timer_ptr := nat (only parsing).

(** Where the goroutine of a connection is; the names say what was done last. *)
Inductive phase :=
  | PAccepted       (** before [Initializer] *)
  | PInitialized    (** the ID is set, [ConnectInterceptor] passed *)
  | PPrevClosed     (** the other connection of the user, if any, is closed *)
  | PJobLoaded (t : timer_ptr)  (** [cleanJobs] has a timer *)
  | PJobStopped     (** the timer is stopped *)
  | PStuck          (** blocked on [<-timer.C] *)
  | PJobDropped     (** no timer in [cleanJobs] *)
  | PPublished      (** [UserConnected] is published *)
  | PStored         (** in [sessions] *)
  | PConnected      (** counted, receiving requests *)
  | PUncounted      (** the loop has ended *)
  | PDeleted        (** out of [sessions] *)
  | PScheduled      (** the clean-up is scheduled *)
  | PDone.          (** closed *)

#[export] Instance phase_eq_dec : EqDecision phase.
Proof. solve_decision. Defined.

(** A timer of [time.AfterFunc], and where its function is. *)
Inductive timer_state :=
  | Armed | Stopped
  | Fired           (** the function has started *)
  | Absent          (** it did not find the session *)
  | Finished        (** all but the removal from [cleanJobs] *)
  | Returned.
#[export] Instance timer_state_eq_dec : EqDecision timer_state.
Proof. solve_decision. Defined.

Record Timer := { t_deadline : Z; t_user : string; t_state : timer_state }.

Definition set_timer (x : timer_state) (t : Timer) : Timer :=
  {| t_deadline := t_deadline t; t_user := t_user t; t_state := x |}.

Section Lifecycle.
Context `{U : ULID} `{R : MapRange} `{N : Net} `{X : XXHash} `{G : GRPCDial} `{SI : SessionIface}.

Record LState := {
  gw : Gateway;
  now : Z;
  phases : gmap sess_ptr phase;
  cleanJobs : gmap string timer_ptr;
  timers : list Timer;
}.

Definition set_gw (st : LState) x := {|
  gw := x; now := now st; phases := phases st; cleanJobs := cleanJobs st; timers := timers st |}.
Definition set_phase (st : LState) s p := {|
  gw := gw st; now := now st; phases := <[s := p]> (phases st); cleanJobs := cleanJobs st;
  timers := timers st |}.
Definition set_cleanJobs (st : LState) x := {|
  gw := gw st; now := now st; phases := phases st; cleanJobs := x; timers := timers st |}.
Definition set_timers (st : LState) x := {|
  gw := gw st; now := now st; phases := phases st; cleanJobs := cleanJobs st; timers := x |}.
Definition set_now (st : LState) x := {|
  gw := gw st; now := x; phases := phases st; cleanJobs := cleanJobs st; timers := timers st |}.

Definition id_of (st : LState) (s : sess_ptr) : string := Sess_ID (heap (gw st) s).

(** The steps. *)
Inductive label :=
  | LAccept (s : sess_ptr)
  | LInit (s : sess_ptr) (userID : string) (md : gmap string (list string))
  | LInitFailed (s : sess_ptr)
  | LClosePrev (s : sess_ptr)
  | LLoadJob (s : sess_ptr)
  | LStopJob (s : sess_ptr)
  | LDropJob (s : sess_ptr)
  | LPublish (s : sess_ptr)
  | LPublishFailed (s : sess_ptr)
  | LStore (s : sess_ptr)
  | LCount (s : sess_ptr)
  | LLoopEnds (s : sess_ptr)
  | LDelete (s : sess_ptr)
  | LSchedule (s : sess_ptr)
  | LClose (s : sess_ptr)
  | LTick (later : Z)
  | LFire (t : timer_ptr)
  | LLookup (t : timer_ptr)
  | LClean (t : timer_ptr)
  | LForget (t : timer_ptr)
  | LUserConnected (ev : UserConnected)
  | LZombies (interval : Z)
  | LRoute (s : sess_ptr) (serviceCode : Z) (nodeID : ulid).

Definition Minute : Z := 60 * 10 ^ 9.

(** The connection has begun to receive requests. *)
Definition was_connected (p : phase) : bool :=
  match p with PConnected | PUncounted | PDeleted | PScheduled | PDone => true | _ => false end.

(** A request of the session stores a route; requests can outlive the connection. *)
Definition store_route (st : LState) (s : sess_ptr) (code : Z) (id : ulid) : option LState :=
  match phases st !! s with
  | Some p =>
      if was_connected p
      then Some (set_gw st (set_table (gw st) (Store (table (gw st)) (id_of st s) code id)))
      else None
  | None => None
  end.

(** The goroutine of [s] in phase [p] goes on. *)
Definition at_phase (st : LState) (s : sess_ptr) (p : phase) (next : LState) : option LState :=
  if decide (phases st !! s = Some p) then Some next else None.

(** ** The goroutine of a connection *)

Definition accept (st : LState) (s : sess_ptr) : option LState :=
  match phases st !! s with
  | None => Some (set_phase st s PAccepted)
  | Some _ => None
  end.

(** [Initializer] yields a user ID and metadata, and [ConnectInterceptor] passes; an
    empty ID is an error, like those of the two. *)
Definition init (st : LState) (s : sess_ptr) (userID : string) (md : gmap string (list string))
  : option LState :=
  if decide (userID = ""%string) then None
  else at_phase st s PAccepted
         (set_phase (set_gw st (set_sess (gw st) s (fun o => SetMetadata md (SetID userID o))))
            s PInitialized).

Definition close_and_end (st : LState) (s : sess_ptr) : LState :=
  set_phase (set_gw st (sess_Close (gw st) s).2) s PDone.

Definition init_failed (st : LState) (s : sess_ptr) : option LState :=
  at_phase st s PAccepted (close_and_end st s).

Definition close_prev (st : LState) (s : sess_ptr) : option LState :=
  at_phase st s PInitialized
    (match hub_Load (gw st) (id_of st s) with
     | Some prev => set_phase (set_gw st (sess_Close (gw st) prev).2) s PPrevClosed
     | None => set_phase st s PPrevClosed
     end).

Definition load_job (st : LState) (s : sess_ptr) : option LState :=
  at_phase st s PPrevClosed
    (match cleanJobs st !! id_of st s with
     | Some t => set_phase st s (PJobLoaded t)
     | None => set_phase st s PJobDropped
     end).

(** [timer.Stop()] is true if it stops the timer; if not, nothing is ever sent on the
    channel of a timer of [AfterFunc], which is nil. *)
Definition stop_job (st : LState) (s : sess_ptr) : option LState :=
  match phases st !! s with
  | Some (PJobLoaded t) =>
      match timers st !! t with
      | Some tm =>
          if decide (t_state tm = Armed)
          then Some (set_phase (set_timers st (alter (set_timer Stopped) t (timers st))) s PJobStopped)
          else Some (set_phase st s PStuck)
      | None => None
      end
  | _ => None
  end.

Definition drop_job (st : LState) (s : sess_ptr) : option LState :=
  at_phase st s PJobStopped
    (set_phase (set_cleanJobs st (delete (id_of st s) (cleanJobs st))) s PJobDropped).

Definition publish (st : LState) (s : sess_ptr) : option LState :=
  at_phase st s PJobDropped (set_phase st s PPublished).
Definition publish_failed (st : LState) (s : sess_ptr) : option LState :=
  at_phase st s PJobDropped (close_and_end st s).

Definition store (st : LState) (s : sess_ptr) : option LState :=
  at_phase st s PPublished (set_phase (set_gw st (hub_Store (gw st) s)) s PStored).

Definition count (st : LState) (s : sess_ptr) : option LState :=
  at_phase st s PStored (set_phase (set_gw st (count_add (gw st) 1)) s PConnected).

(** The loop ends: the client is gone, the session was closed, or the gateway stops. *)
Definition loop_ends (st : LState) (s : sess_ptr) : option LState :=
  at_phase st s PConnected (set_phase (set_gw st (count_add (gw st) (-1))) s PUncounted).

(** [onDisconnect] *)
Definition delete_session (st : LState) (s : sess_ptr) : option LState :=
  at_phase st s PUncounted (set_phase (set_gw st (hub_Delete (gw st) s)) s PDeleted).

Definition schedule (st : LState) (s : sess_ptr) : option LState :=
  let job := {| t_deadline := now st + 5 * Minute; t_user := id_of st s; t_state := Armed |} in
  let st' := set_timers st (timers st ++ [job]) in
  at_phase st s PDeleted
    (set_phase (set_cleanJobs st' (<[id_of st s := length (timers st)]> (cleanJobs st)))
       s PScheduled).

Definition close_session (st : LState) (s : sess_ptr) : option LState :=
  at_phase st s PScheduled (close_and_end st s).

(** ** Timers *)

Definition at_timer (st : LState) (t : timer_ptr) (x : timer_state) (next : Timer -> LState)
  : option LState :=
  match timers st !! t with
  | Some tm => if decide (t_state tm = x) then Some (next tm) else None
  | None => None
  end.

Definition move_timer (st : LState) (t : timer_ptr) (x : timer_state) : LState :=
  set_timers st (alter (set_timer x) t (timers st)).

Definition fire (st : LState) (t : timer_ptr) : option LState :=
  match timers st !! t with
  | Some tm => if decide (t_state tm = Armed /\ t_deadline tm <= now st)
               then Some (move_timer st t Fired) else None
  | None => None
  end.

Definition lookup_session (st : LState) (t : timer_ptr) : option LState :=
  at_timer st t Fired (fun tm =>
    move_timer st t (match hub_Load (gw st) (t_user tm) with
                     | Some _ => Finished | None => Absent end)).

Definition clean (st : LState) (t : timer_ptr) : option LState :=
  at_timer st t Absent (fun tm =>
    move_timer (set_gw st (set_table (gw st) (CleanSession (table (gw st)) (t_user tm)))) t Finished).

Definition forget (st : LState) (t : timer_ptr) : option LState :=
  at_timer st t Finished (fun tm =>
    move_timer (set_cleanJobs st (delete (t_user tm) (cleanJobs st))) t Returned).

(** ** All steps; [None] if the step is not possible *)
Definition lstep (st : LState) (l : label) : option LState :=
  match l with
  | LAccept s => accept st s
  | LInit s id md => init st s id md
  | LInitFailed s => init_failed st s
  | LClosePrev s => close_prev st s
  | LLoadJob s => load_job st s
  | LStopJob s => stop_job st s
  | LDropJob s => drop_job st s
  | LPublish s => publish st s
  | LPublishFailed s => publish_failed st s
  | LStore s => store st s
  | LCount s => count st s
  | LLoopEnds s => loop_ends st s
  | LDelete s => delete_session st s
  | LSchedule s => schedule st s
  | LClose s => close_session st s
  | LTick later => if decide (0 <= later) then Some (set_now st (now st + later)) else None
  | LFire t => fire st t
  | LLookup t => lookup_session st t
  | LClean t => clean st t
  | LForget t => forget st t
  | LUserConnected ev => Some (set_gw st (on_UserConnected (gw st) ev))
  | LZombies interval => Some (set_gw st (remove_zombies (gw st) (now st) interval))
  | LRoute s code id => store_route st s code id
  end.

Fixpoint lrun (st : LState) (ls : list label) : option LState :=
  match ls with
  | [] => Some st
  | l :: ls => match lstep st l with Some st => lrun st ls | None => None end
  end.

(** A gateway that has just started. *)
Definition lstart (g : Gateway) : LState := {|
  gw := g; now := 0; phases := ∅; cleanJobs := ∅; timers := [] |}.
Definition fresh_gateway (g : Gateway) : Prop :=
  sessions g = ∅ /\ sessionCount g = 0.
End Lifecycle.

(** ** What a step does to the phases and the sessions *)
Section Shape.
Context `{U : ULID} `{R : MapRange} `{N : Net} `{X : XXHash} `{G : GRPCDial} `{SI : SessionIface}.

Definition open (st : LState) (s : sess_ptr) : Prop := Sess_Closed (heap (gw st) s) = false.

(** The phases that follow each other. *)
Definition next_phase (p : option phase) (q : phase) : Prop :=
  match p, q with
  | None, PAccepted
  | Some PAccepted, (PInitialized | PDone)
  | Some PInitialized, PPrevClosed
  | Some PPrevClosed, (PJobLoaded _ | PJobDropped)
  | Some (PJobLoaded _), (PJobStopped | PStuck)
  | Some PJobStopped, PJobDropped
  | Some PJobDropped, (PPublished | PDone)
  | Some PPublished, PStored
  | Some PStored, PConnected
  | Some PConnected, PUncounted
  | Some PUncounted, PDeleted
  | Some PDeleted, PScheduled
  | Some PScheduled, PDone => True
  | _, _ => False
  end.

(** IDs stay, and what is closed stays closed. *)
Definition keeps (st st' : LState) (s : sess_ptr) : Prop :=
  id_of st' s = id_of st s /\ (open st' s -> open st s).

Definition quiet (st st' : LState) : Prop :=
  phases st' = phases st /\ sessions (gw st') = sessions (gw st) /\
  sessionCount (gw st') = sessionCount (gw st) /\ forall s, keeps st st' s.

Record moves (l : label) (st st' : LState) (s : sess_ptr) (p : option phase) (q : phase) : Prop := {
  mv_from : phases st !! s = p;
  mv_to : phases st' = <[s := q]> (phases st);
  mv_next : next_phase p q;
  mv_others : forall s', s' <> s -> keeps st st' s';
  mv_self : p <> Some PAccepted -> keeps st st' s;
  mv_sessions : sessions (gw st') =
    match q with
    | PStored => <[id_of st s := s]> (sessions (gw st))
    | PDeleted => if decide (sessions (gw st) !! id_of st s = Some s)
                  then delete (id_of st s) (sessions (gw st)) else sessions (gw st)
    | _ => sessions (gw st)
    end;
  mv_count : sessionCount (gw st') =
    match q with
    | PConnected => wrap_s 32 (sessionCount (gw st) + 1)
    | PUncounted => wrap_s 32 (sessionCount (gw st) + -1)
    | _ => sessionCount (gw st)
    end;
  mv_prev : q = PPrevClosed ->
    forall prev, sessions (gw st) !! id_of st s = Some prev -> ~ open st' prev;
  mv_label : q = PPrevClosed -> l = LClosePrev s;
}.

Lemma at_phase_Some st s p next st' :
  at_phase st s p next = Some st' -> phases st !! s = Some p /\ st' = next.
Proof. unfold at_phase. case_decide; [|done]. by intros [= <-]. Qed.

Lemma at_timer_Some st t x next st' :
  at_timer st t x next = Some st' -> exists tm, timers st !! t = Some tm /\ st' = next tm.
Proof. unfold at_timer. destruct (timers st !! t); [|done]. case_decide; [|done]. intros [= <-]. eauto. Qed.

(** Closing a session. *)
Lemma set_sess_heap g s f s' :
  heap (set_sess g s f) s' = if decide (s' = s) then f (heap g s) else heap g s'.
Proof.
  simpl. case_decide as E; [subst; apply fn_lookup_insert|by apply fn_lookup_insert_ne].
Qed.

(** What a step makes of a session: it stays, is closed, or is initialised. *)
Inductive sess_step (o : SessionObj) : SessionObj -> Prop :=
  | sess_same : sess_step o o
  | sess_closed : sess_step o (closed o)
  | sess_init id md : sess_step o (SetMetadata md (SetID id o)).

Lemma close_step g s0 s : sess_step (heap g s) (heap (sess_Close g s0).2 s).
Proof. unfold sess_Close. simpl snd. rewrite set_sess_heap. case_decide; subst; constructor. Qed.

Lemma store_route_Some st s code id st' :
  store_route st s code id = Some st' ->
  st' = set_gw st (set_table (gw st) (Store (table (gw st)) (id_of st s) code id)).
Proof. unfold store_route. destruct (phases st !! s) as [p|]; [|done]. destruct (was_connected p); [|done]. by intros [= <-]. Qed.

Lemma lstep_heap st l st' s :
  lstep st l = Some st' -> sess_step (heap (gw st) s) (heap (gw st') s).
Proof.
  intros H. destruct l; simpl in H;
    try (apply at_phase_Some in H as [_ ->]); try (apply store_route_Some in H as ->); try (apply at_timer_Some in H as (tm & _ & ->));
    try apply sess_same; try apply close_step.
  - unfold accept in H. case_in H; apply sess_same.
  - unfold init in H. case_decide; [done|]. apply at_phase_Some in H as [_ ->]. cbn [gw set_phase set_gw].
    rewrite set_sess_heap. case_decide; subst; constructor.
  - destruct (hub_Load _ _); [apply close_step|apply sess_same].
  - destruct (cleanJobs _ !! _); apply sess_same.
  - unfold stop_job in H. inv_all H; apply sess_same.
  - simpl. unfold hub_Delete. case_bool_decide; apply sess_same.
  - case_in H; apply sess_same.
  - unfold fire in H. inv_all H; apply sess_same.
  - injection H as <-. cbn [gw set_gw]. unfold on_UserConnected. case_bool_decide; [apply sess_same|].
    destruct (hub_Load _ _); [apply close_step|apply sess_same].
  - injection H as <-. cbn [gw set_gw]. unfold remove_zombies.
    destruct (zombies_fold (now st) interval (range_values (sessions (gw st))) (gw st) s) as (-> & _).
    case_match; constructor.
Qed.

Lemma close_keeps st st' s :
  heap (gw st') = heap (sess_Close (gw st) s).2 -> forall s', keeps st st' s'.
Proof.
  intros E s'. unfold keeps, id_of, open. rewrite E. unfold sess_Close. simpl snd.
  rewrite set_sess_heap. case_decide; by subst.
Qed.

Lemma close_closes st st' s : heap (gw st') = heap (sess_Close (gw st) s).2 -> ~ open st' s.
Proof.
  intros E. unfold open. rewrite E. unfold sess_Close. simpl snd.
  rewrite set_sess_heap, decide_True by done. done.
Qed.

Lemma keeps_refl st st' : heap (gw st') = heap (gw st) -> forall s, keeps st st' s.
Proof. intros E s. unfold keeps, id_of, open. by rewrite E. Qed.

(** The steps that move a connection and leave the sessions alone. *)
Lemma moves_plain l st s p q :
  phases st !! s = p -> next_phase p q ->
  match q with PStored | PDeleted | PConnected | PUncounted | PPrevClosed => False | _ => True end ->
  forall st', phases st' = <[s := q]> (phases st) ->
  (forall s', keeps st st' s') -> sessions (gw st') = sessions (gw st) ->
  sessionCount (gw st') = sessionCount (gw st) -> moves l st st' s p q.
Proof. intros Hp Hn Hq st' Ht Hk Hs Hc. split; auto; destruct q; done. Qed.

Lemma UserConnected_keeps st ev : quiet st (set_gw st (on_UserConnected (gw st) ev)).
Proof.
  unfold on_UserConnected. case_bool_decide; [by split_and!|].
  destruct (hub_Load (gw st) (UserID ev)) as [s|]; [|by split_and!].
  split_and!; try done. by apply (close_keeps _ _ s).
Qed.

Lemma zombies_keep st interval : quiet st (set_gw st (remove_zombies (gw st) (now st) interval)).
Proof.
  unfold remove_zombies. set (ss := range_values _). clearbody ss.
  destruct (zombies_fold (now st) interval ss (gw st) 0%nat) as (_ & Es & _).
  split_and!; cbn [gw set_gw phases]; [done|exact Es| |].
  - clear Es. generalize (gw st). intros g. revert g.
    induction ss as [|x ss IH]; intros g; [done|]. cbn [foldl]. rewrite IH.
    by destruct (interval <? _).
  - intros s. unfold keeps, id_of, open. cbn [gw set_gw].
    destruct (zombies_fold (now st) interval ss (gw st) s) as (-> & _).
    by destruct (_ && _).
Qed.

Lemma close_and_end_moves l st s p :
  phases st !! s = p -> next_phase p PDone -> moves l st (close_and_end st s) s p PDone.
Proof.
  intros Hp Hn. apply moves_plain; try done. by apply (close_keeps _ _ s).
Qed.

Ltac moves_plainly :=
  right; eexists _, _, _; eapply moves_plain;
  [eassumption| | |reflexivity|by apply keeps_refl|reflexivity|reflexivity]; exact I.
Ltac plain_move H := apply at_phase_Some in H as [? ->]; moves_plainly.

(** Every step is quiet or moves one connection. *)
Lemma lstep_shape st l st' :
  lstep st l = Some st' -> quiet st st' \/ exists s p q, moves l st st' s p q.
Proof.
  intros H. destruct l; simpl in H.
  - unfold accept in H. destruct (phases st !! s) eqn:E; [done|]. injection H as <-. moves_plainly.
  - right. unfold init in H. case_decide; [done|]. apply at_phase_Some in H as [Hp ->].
    exists s, (Some PAccepted), PInitialized. split; try done.
    intros s' Hne. unfold keeps, id_of, open. simpl. by rewrite fn_lookup_insert_ne.
  - right. apply at_phase_Some in H as [Hp ->]. eexists _, _, _. by apply close_and_end_moves.
  - right. apply at_phase_Some in H as [Hp ->]. exists s, (Some PInitialized), PPrevClosed.
    destruct (hub_Load (gw st) (id_of st s)) as [prev|] eqn:Hl.
    + split; try done; try (intros; by apply (close_keeps _ _ prev)).
      intros _ prev' Hprev. unfold hub_Load in Hl. assert (prev' = prev) as -> by congruence.
      by apply close_closes with (st := st).
    + split; try done; try (intros; by apply keeps_refl).
      intros _ prev' Hprev. unfold hub_Load in Hl. congruence.
  - unfold load_job in H. destruct (cleanJobs st !! id_of st s); plain_move H.
  - unfold stop_job in H. destruct (phases st !! s) as [[]|] eqn:Hp; try done.
    destruct (timers st !! t); [|done]. case_decide; injection H as <-; moves_plainly.
  - unfold drop_job in H. plain_move H.
  - unfold publish in H. plain_move H.
  - right. apply at_phase_Some in H as [Hp ->]. eexists _, _, _. by apply close_and_end_moves.
  - right. apply at_phase_Some in H as [Hp ->]. exists s, (Some PPublished), PStored.
    split; try done; intros; by apply keeps_refl.
  - right. apply at_phase_Some in H as [Hp ->]. exists s, (Some PStored), PConnected.
    split; try done; intros; by apply keeps_refl.
  - right. apply at_phase_Some in H as [Hp ->]. exists s, (Some PConnected), PUncounted.
    split; try done; intros; by apply keeps_refl.
  - right. apply at_phase_Some in H as [Hp ->]. exists s, (Some PUncounted), PDeleted.
    unfold hub_Delete. split; try done; simpl.
    + intros. apply keeps_refl. by case_bool_decide.
    + intros. apply keeps_refl. by case_bool_decide.
    + unfold id_of. case_bool_decide; case_decide; done.
    + by case_bool_decide.
  - unfold schedule in H. plain_move H.
  - right. apply at_phase_Some in H as [Hp ->]. eexists _, _, _. by apply close_and_end_moves.
  - case_decide; [|done]. injection H as <-. left. split_and!; try done; by apply keeps_refl.
  - unfold fire in H. destruct (timers st !! t); [|done]. case_decide; [|done]. injection H as <-.
    left. split_and!; try done; by apply keeps_refl.
  - apply at_timer_Some in H as (tm & _ & ->). left. split_and!; try done; by apply keeps_refl.
  - apply at_timer_Some in H as (tm & _ & ->). left. split_and!; try done; by apply keeps_refl.
  - apply at_timer_Some in H as (tm & _ & ->). left. split_and!; try done; by apply keeps_refl.
  - injection H as <-. left. apply UserConnected_keeps.
  - injection H as <-. left. apply zombies_keep.
  - apply store_route_Some in H as ->. left. split_and!; try done; by apply keeps_refl.
Qed.
End Shape.

(** ** Invariants *)
Section Invariants.
Context `{U : ULID} `{R : MapRange} `{N : Net} `{X : XXHash} `{G : GRPCDial} `{SI : SessionIface}.

(** In [sessions]: from [PStored] up to the removal. *)
Definition listed (p : phase) : Prop := p = PStored \/ p = PConnected \/ p = PUncounted.
(** Accepted for requests. *)
Definition live (p : phase) : Prop := p = PStored \/ p = PConnected.
(** Between looking for another connection of the user and being stored. *)
Definition connecting (p : phase) : bool :=
  match p with
  | PPrevClosed | PJobLoaded _ | PJobStopped | PJobDropped | PPublished => true
  | _ => false
  end.

Definition connected (st : LState) : gmap sess_ptr phase :=
  filter (fun sp => sp.2 = PConnected) (phases st).

Record hub_inv (st : LState) : Prop := {
  hi_hub : forall id s, sessions (gw st) !! id = Some s ->
    id_of st s = id /\ exists p, phases st !! s = Some p /\ listed p;
  hi_count : sessionCount (gw st) = wrap_s 32 (Z.of_nat (size (connected st)));
}.

Lemma wrap_s_step w z d : 0 < w -> wrap_s w (wrap_s w z + d) = wrap_s w (z + d).
Proof.
  intros Hw. unfold wrap_s. f_equal.
  replace ((z + 2 ^ (w - 1)) `mod` 2 ^ w - 2 ^ (w - 1) + d + 2 ^ (w - 1))
    with ((z + 2 ^ (w - 1)) `mod` 2 ^ w + d) by lia.
  rewrite Zplus_mod_idemp_l. f_equal. lia.
Qed.

(** How the number of connected sessions changes. *)
Lemma connected_insert st s q :
  phases st !! s <> Some PConnected ->
  size (filter (fun sp => sp.2 = PConnected) (<[s := q]> (phases st)))
  = if decide (q = PConnected) then S (size (connected st)) else size (connected st).
Proof.
  intros Hp. unfold connected. case_decide as Hq.
  - rewrite map_filter_insert_True by done. apply map_size_insert_None.
    apply map_lookup_filter_None. right. intros x Hx Hx'. simpl in Hx'. congruence.
  - f_equal. apply map_filter_insert_not'; [done|]. intros x Hx Hx'. simpl in Hx'. congruence.
Qed.

Lemma connected_leave st s q :
  phases st !! s = Some PConnected -> q <> PConnected ->
  size (connected st) = S (size (filter (fun sp => sp.2 = PConnected) (<[s := q]> (phases st)))).
Proof.
  intros Hp Hq. unfold connected. rewrite map_filter_insert_False, map_filter_delete by done.
  rewrite <- (insert_delete_id (filter _ (phases st)) s PConnected) at 1
    by (by apply map_lookup_filter_Some).
  apply map_size_insert_None, lookup_delete_eq.
Qed.

Lemma listed_next p q :
  listed p -> next_phase (Some p) q -> q = PConnected \/ q = PUncounted \/ q = PDeleted.
Proof. intros [->|[->| ->]]; destruct q; intros Hn; try destruct Hn; auto. Qed.

Lemma lstep_hub_inv st l st' : hub_inv st -> lstep st l = Some st' -> hub_inv st'.
Proof.
  intros [Hh Hc] [(Ep & Es & Ec & Hk)|(s & p & q & [Hf Ht Hn Ho Hself Hs Hcnt _ _])]%lstep_shape.
  - split.
    + intros id s. rewrite Es, Ep. intros [E Hl]%Hh. by rewrite (proj1 (Hk s)).
    + unfold connected. by rewrite Ec, Ep.
  - split.
    + assert (forall id s', sessions (gw st) !! id = Some s' -> s' <> s ->
        id_of st' s' = id /\ exists p, phases st' !! s' = Some p /\ listed p) as Hother.
      { intros id s' [E Hl]%Hh Hne. rewrite (proj1 (Ho s' Hne)), Ht, lookup_insert_ne by done. done. }
      assert (forall id, sessions (gw st) !! id = Some s -> listed q ->
        id_of st' s = id /\ exists p, phases st' !! s = Some p /\ listed p) as Hsame.
      { intros id (E & p' & Hp' & Hl')%Hh Hq. rewrite Ht, lookup_insert_eq. split; [|eauto].
        rewrite (proj1 (Hself ltac:(intros ->; rewrite Hf in Hp'; injection Hp' as <-;
          destruct Hl' as [|[]]; done))). done. }
      intros id s' Hs'.
      destruct (decide (s' = s)) as [->|Hne]; [|].
      * destruct (decide (q = PStored)) as [->|Hq].
        { rewrite Ht, lookup_insert_eq. split; [|exists PStored; split; [done|by left]].
          rewrite Hs in Hs'. apply lookup_insert_Some in Hs' as [[<- _]|[_ Hs']].
          - apply Hself. by destruct p as [[]|].
          - apply Hsame; [done|by left]. }
        assert (sessions (gw st) !! id = Some s /\ (q = PDeleted -> False)) as [Hin Hdel].
        { rewrite Hs in Hs'. destruct q; try done.
          case_decide as Hd; [apply lookup_delete_Some in Hs' as [Hne Hs']|];
            destruct (Hh _ _ Hs') as [E _]; [done|by rewrite E in Hd]. }
        destruct (Hh _ _ Hin) as (_ & p' & Hp' & Hl'). rewrite <- Hf, Hp' in Hn.
        apply Hsame; [done|]. destruct (listed_next _ _ Hl' Hn) as [->|[->| ->]].
        -- by right; left.
        -- by right; right.
        -- by destruct Hdel.
      * apply Hother; [|done]. rewrite Hs in Hs'. destruct q; try done.
        -- apply lookup_insert_Some in Hs' as [[_ E]|[_ Hs']]; [by subst|done].
        -- case_decide; [by apply lookup_delete_Some in Hs' as [_ ?]|done].
    + unfold connected. rewrite Ht, Hcnt, Hc.
      destruct (decide (p = Some PConnected)) as [->|Hp].
      * destruct q; try done. rewrite (connected_leave st s PUncounted Hf) by done.
        rewrite wrap_s_step by done. f_equal. unfold connected. lia.
      * rewrite connected_insert by congruence.
        destruct q; try (by rewrite decide_False by done).
        -- rewrite decide_True by done. rewrite wrap_s_step by done. f_equal. lia.
        -- by destruct p as [[]|].
Qed.

(** ** One open session per user *)

(** The connection of a user is accepted by one goroutine at a time: no other is
    between looking for a previous session and storing its own. *)
Definition exclusive (st : LState) (l : label) : Prop :=
  match l with
  | LClosePrev s =>
      map_Forall (fun s' p => connecting p = true -> s' <> s -> id_of st s' <> id_of st s) (phases st)
  | _ => True
  end.

#[export] Instance exclusive_dec st l : Decision (exclusive st l).
Proof. destruct l; simpl; apply _. Defined.

Record one_inv (st : LState) : Prop := {
  oi_window : forall s s' p p', phases st !! s = Some p -> phases st !! s' = Some p' ->
    connecting p = true -> connecting p' = true -> id_of st s = id_of st s' -> s = s';
  oi_open : forall s p, phases st !! s = Some p -> live p -> open st s ->
    sessions (gw st) !! id_of st s = Some s;
  oi_closed : forall s s' p p', phases st !! s = Some p -> phases st !! s' = Some p' ->
    connecting p = true -> live p' -> id_of st s = id_of st s' -> ~ open st s';
}.

Lemma one_inv_quiet st st' : one_inv st -> quiet st st' -> one_inv st'.
Proof.
  intros [Hw Ho Hc] (Ep & Es & _ & Hk). split; rewrite ?Ep.
  - intros s s' p p'. rewrite (proj1 (Hk s)), (proj1 (Hk s')). apply Hw.
  - intros s p Hp Hl Hop. rewrite Es, (proj1 (Hk s)). eapply Ho; [done|done|by apply Hk].
  - intros s s' p p'. rewrite (proj1 (Hk s)), (proj1 (Hk s')). intros Hp Hp' H1 H2 E Hop.
    eapply Hc; [exact Hp|exact Hp'|done|done|done|by apply Hk].
Qed.

(** What a connection's move means for the two invariants below. *)
Lemma next_connecting p q :
  next_phase p q -> connecting q = true ->
  q = PPrevClosed \/ exists p', p = Some p' /\ connecting p' = true.
Proof. destruct q, p as [[]|]; simpl; intros Hn Hc; try done; eauto. Qed.

Lemma next_live p q :
  next_phase p q -> live q ->
  (q = PStored /\ p = Some PPublished) \/ (q = PConnected /\ p = Some PStored).
Proof. intros Hn [->| ->]; destruct p as [[]|]; simpl in Hn; try done; auto. Qed.

Lemma lstep_one_inv st l st' :
  one_inv st -> exclusive st l -> lstep st l = Some st' -> one_inv st'.
Proof.
  intros Hinv Hx [Hq|(s & p & q & [Hf Ht Hn Hoth Hself Hs _ Hprev Hlab])]%lstep_shape;
    [by eapply one_inv_quiet|].
  destruct Hinv as [Hw Ho Hc].
  assert (forall s0 p0, phases st' !! s0 = Some p0 -> (s0 = s /\ p0 = q) \/
    (s0 <> s /\ phases st !! s0 = Some p0 /\ keeps st st' s0)) as Hcase.
  { intros s0 p0. rewrite Ht, lookup_insert_Some. intros [[<- <-]|[Hne ?]]; [by left|right].
    split_and!; auto. }
  assert (connecting q = true \/ live q -> keeps st st' s) as Hks.
  { intros H. apply Hself. intros ->. destruct q; simpl in *; try done;
      destruct H as [H|[H|H]]; done. }
  split.
  - intros s1 s2 p1 p2 [[-> ->]|(Hn1 & Hp1 & [E1 _])]%Hcase [[-> ->]|(Hn2 & Hp2 & [E2 _])]%Hcase H1 H2;
      [done| | |rewrite E1, E2; by apply (Hw _ _ p1 p2)].
    + rewrite (proj1 (Hks (or_introl H1))), E2. intros E.
      destruct (next_connecting _ _ Hn H1) as [->|(p' & -> & Hp')].
      * rewrite (Hlab eq_refl) in Hx. destruct (Hx _ _ Hp2 H2 Hn2). done.
      * by apply (Hw _ _ p' p2).
    + rewrite (proj1 (Hks (or_introl H2))), E1. intros E.
      destruct (next_connecting _ _ Hn H2) as [->|(p' & -> & Hp')].
      * rewrite (Hlab eq_refl) in Hx. destruct (Hx _ _ Hp1 H1 Hn1). done.
      * by apply (Hw _ _ p1 p').
  - intros s1 p1 [[-> ->]|(Hn1 & Hp1 & [E1 Hop1])]%Hcase Hl1 Hop.
    + destruct (Hks (or_intror Hl1)) as [E Hk]. rewrite Hs, E.
      destruct (next_live _ _ Hn Hl1) as [[-> ->]|[-> ->]]; [by rewrite lookup_insert_eq|].
      eapply Ho; [done|by left|auto].
    + specialize (Ho _ _ Hp1 Hl1 (Hop1 Hop)). rewrite Hs, E1. destruct q; try done.
      * rewrite lookup_insert_ne; [done|]. intros E.
        assert (p = Some PPublished) as -> by (by destruct p as [[]|]).
        by apply (Hc s s1 PPublished p1 Hf Hp1 eq_refl Hl1 E), Hop1.
      * case_decide as Hd; [|done]. rewrite lookup_delete_ne; [done|]. congruence.
  - intros s1 s2 p1 p2 [[-> ->]|(Hn1 & Hp1 & [E1 _])]%Hcase [[-> ->]|(Hn2 & Hp2 & [E2 Hop2])]%Hcase H1 H2.
    + by destruct H2 as [->| ->].
    + rewrite (proj1 (Hks (or_introl H1))), E2. intros E Hop.
      destruct (next_connecting _ _ Hn H1) as [->|(p' & -> & Hp')].
      * apply (Hprev eq_refl s2); [|done]. rewrite E. by apply (Ho s2 p2); auto.
      * by apply (Hc s s2 p' p2 Hf Hp2 Hp' H2 E), Hop2.
    + destruct (Hks (or_intror H2)) as [E Hk]. rewrite E1, E. intros Eid Hop.
      destruct (next_live _ _ Hn H2) as [[-> ->]|[-> ->]].
      * apply Hn1. by apply (Hw s1 s p1 PPublished).
      * by apply (Hc s1 s p1 PStored Hp1 Hf H1 (or_introl eq_refl) Eid), Hk.
    + rewrite E1, E2. intros E Hop. by apply (Hc s1 s2 p1 p2 Hp1 Hp2 H1 H2 E), Hop2.
Qed.
End Invariants.

(** ** The claims *)
Section Claims.
Context `{U : ULID} `{R : MapRange} `{N : Net} `{X : XXHash} `{G : GRPCDial} `{SI : SessionIface}.

Lemma lrun_invariant (I : LState -> Prop) ls st st' :
  (forall st l st', I st -> lstep st l = Some st' -> I st') -> I st -> lrun st ls = Some st' -> I st'.
Proof.
  intros Hstep. revert st. induction ls as [|l ls IH]; intros st Hi; simpl; [by intros [= <-]|].
  destruct (lstep st l) as [st1|] eqn:E; [|done]. apply IH. by eapply Hstep.
Qed.

Lemma hub_inv_start g : fresh_gateway g -> hub_inv (lstart g).
Proof.
  intros [Hs Hc]. split; simpl.
  - intros id s. by rewrite Hs, lookup_empty.
  - unfold connected. simpl. by rewrite map_filter_empty, map_size_empty, Hc.
Qed.

(** C23. In every interleaving of connections, disconnections and clean-ups, a session
    found under a user ID has that ID and its goroutine is one that has stored it and
    has not removed it yet, so the handler of every session found is still running and
    removes it; [sessionCount] is the number of connections that receive requests (as a
    32-bit integer); and the removal of a session leaves a later session of the same
    user where it is. *)
Theorem hub_tracks_connections g ls st :
  fresh_gateway g -> lrun (lstart g) ls = Some st ->
  (forall id s, sessions (gw st) !! id = Some s ->
     id_of st s = id /\ exists p, phases st !! s = Some p /\ listed p) /\
  sessionCount (gw st) = wrap_s 32 (Z.of_nat (size (connected st))) /\
  (forall s st' id s', lstep st (LDelete s) = Some st' -> s' <> s ->
     sessions (gw st) !! id = Some s' -> sessions (gw st') !! id = Some s').
Proof.
  intros Hg Hrun.
  destruct (lrun_invariant hub_inv ls _ _ lstep_hub_inv (hub_inv_start g Hg) Hrun) as [Hh Hc].
  split_and!; [done|done|]. intros s st' id s' [_ ->]%at_phase_Some Hne Hs'. simpl.
  unfold hub_Delete. case_bool_decide as Hd; [|done]. simpl.
  rewrite lookup_delete_ne; [done|]. fold (id_of st s). intros <-. unfold id_of in Hs'. congruence.
Qed.

(** A run in which no two goroutines accept connections of one user at the same time. *)
Fixpoint exclusive_run (st : LState) (ls : list label) : Prop :=
  match ls with
  | [] => True
  | l :: ls => exclusive st l /\
      match lstep st l with Some st => exclusive_run st ls | None => True end
  end.

#[export] Instance exclusive_run_dec st ls : Decision (exclusive_run st ls).
Proof.
  revert st. induction ls as [|l ls IH]; intros st; simpl; [apply _|].
  apply and_dec; [apply _|]. destruct (lstep st l); [apply IH|apply _].
Defined.

Lemma exclusive_run_inv ls st st' :
  one_inv st -> exclusive_run st ls -> lrun st ls = Some st' -> one_inv st'.
Proof.
  revert st. induction ls as [|l ls IH]; intros st Hi; simpl; [by intros _ [= <-]|].
  intros [Hx Hxs]. destruct (lstep st l) as [st1|] eqn:E; [|done].
  apply IH; [|done]. by eapply lstep_one_inv.
Qed.

(** C6. If the connections of one user are accepted one after another, a user has at
    most one session that is open and accepts requests, however else the goroutines
    interleave: the others are closed; and it is the one found under the user's ID. *)
Theorem one_session_per_user g ls st s1 s2 p1 p2 :
  exclusive_run (lstart g) ls -> lrun (lstart g) ls = Some st ->
  phases st !! s1 = Some p1 -> live p1 -> open st s1 ->
  phases st !! s2 = Some p2 -> live p2 -> open st s2 ->
  id_of st s1 = id_of st s2 -> s1 = s2 /\ hub_Load (gw st) (id_of st s1) = Some s1.
Proof.
  intros Hx Hrun Hp1 Hl1 Ho1 Hp2 Hl2 Ho2 E.
  assert (one_inv (lstart g)) as Hi.
  { split; simpl; intros *; by rewrite lookup_empty. }
  destruct (exclusive_run_inv _ _ _ Hi Hx Hrun) as [_ Ho _].
  pose proof (Ho _ _ Hp1 Hl1 Ho1) as H1. pose proof (Ho _ _ Hp2 Hl2 Ho2) as H2.
  split; [congruence|done].
Qed.

Lemma move_timer_at st t x tm :
  timers st !! t = Some tm -> timers (move_timer st t x) !! t = Some (set_timer x tm).
Proof. intros Ht. simpl. by rewrite list_lookup_alter_eq, Ht. Qed.

Lemma at_timer_ok st t tm x next :
  timers st !! t = Some tm -> t_state tm = x -> at_timer st t x next = Some (next tm).
Proof. intros Ht Hx. unfold at_timer. by rewrite Ht, decide_True. Qed.

(** A clean-up whose time has come forgets the routes of its user if the user has
    no session then, even if a later disconnection has scheduled another clean-up, and
    it removes the later one from [cleanJobs]. *)
Theorem stale_cleanup_runs st t tm t' :
  timers st !! t = Some tm -> t_state tm = Armed -> t_deadline tm <= now st ->
  hub_Load (gw st) (t_user tm) = None -> cleanJobs st !! t_user tm = Some t' -> t' <> t ->
  exists st', lrun st [LFire t; LLookup t; LClean t; LForget t] = Some st' /\
    (forall code, Find (table (gw st')) (t_user tm) code = None) /\
    cleanJobs st' !! t_user tm = None /\ timers st' !! t' = timers st !! t'.
Proof.
  intros Ht Ha Hd Hl Hj Hne. cbn [lrun lstep]. unfold fire. rewrite Ht, decide_True by done.
  set (st1 := move_timer st t Fired).
  pose proof (move_timer_at st t Fired tm Ht) as Ht1. fold st1 in Ht1.
  unfold lookup_session. rewrite (at_timer_ok _ _ _ _ _ Ht1) by done.
  change (hub_Load (gw st1) (t_user (set_timer Fired tm))) with (hub_Load (gw st) (t_user tm)).
  rewrite Hl. set (st2 := move_timer st1 t Absent).
  pose proof (move_timer_at _ _ Absent _ Ht1) as Ht2. fold st2 in Ht2.
  unfold clean. rewrite (at_timer_ok _ _ _ _ _ Ht2) by done. set (st3 := move_timer _ t Finished).
  assert (timers st3 !! t = Some (set_timer Finished (set_timer Absent (set_timer Fired tm)))) as Ht3
    by (by apply move_timer_at).
  unfold forget. rewrite (at_timer_ok _ _ _ _ _ Ht3) by done.
  eexists. split; [reflexivity|]. split_and!.
  - intros code. change (Find (CleanSession (table (gw st)) (t_user tm)) (t_user tm) code = None).
    by rewrite CleanSession_Find, decide_True.
  - apply lookup_delete_eq.
  - simpl. by rewrite !list_lookup_alter_ne.
Qed.

Lemma stuck_forever st ls st' s :
  phases st !! s = Some PStuck -> lrun st ls = Some st' -> phases st' !! s = Some PStuck.
Proof.
  apply (lrun_invariant (fun st => phases st !! s = Some PStuck)). clear.
  intros st l st' Hp [(Ep & _)|(s' & p & q & [Hf Ht Hn _ _ _ _ _ _])]%lstep_shape; [by rewrite Ep|].
  rewrite Ht. destruct (decide (s' = s)) as [->|Hne]; [|by rewrite lookup_insert_ne].
  rewrite Hp in Hf. by subst p.
Qed.

(** A user who connects while a clean-up of theirs runs, that is between the start
    of the timer's function and the removal of the timer from [cleanJobs], can find the
    timer there, which no longer can be stopped; the goroutine of the connection then
    waits for a channel nothing is ever sent on, and is there forever: the session is
    neither stored nor closed by it. *)
Theorem reconnect_can_hang st s t tm :
  phases st !! s = Some PPrevClosed -> cleanJobs st !! id_of st s = Some t ->
  timers st !! t = Some tm -> t_state tm <> Armed ->
  exists st', lrun st [LLoadJob s; LStopJob s] = Some st' /\
    forall ls st'', lrun st' ls = Some st'' -> phases st'' !! s = Some PStuck.
Proof.
  intros Hp Hj Ht Ha. cbn [lrun lstep]. unfold load_job, at_phase.
  rewrite decide_True, Hj by done. unfold stop_job. cbn [phases set_phase timers].
  rewrite lookup_insert_eq, Ht, decide_False by done. eexists. split; [done|].
  intros ls st''. apply stuck_forever. simpl. apply lookup_insert_eq.
Qed.
End Claims.

(** ** Witnesses *)

Definition empty_gateway : Gateway := set_sessions (count_add (sample_gateway (initial "")) (-2)) ∅.

Definition connect (s : sess_ptr) : list label :=
  [LAccept s; LInit s "alice" ∅; LClosePrev s; LLoadJob s; LPublish s; LStore s; LCount s].
Definition disconnect (s : sess_ptr) : list label := [LLoopEnds s; LDelete s; LSchedule s; LClose s].

(** A second connection takes over from the first, which then ends; four minutes later
    the second ends. *)
Definition takeover : list label :=
  connect 0%nat ++ [LRoute 0%nat 7 (sample_id 1)] ++ connect 1%nat ++ disconnect 0%nat
  ++ [LTick (4 * Minute)].

Definition after (ls : list label) : LState :=
  default (lstart empty_gateway) (lrun (lstart empty_gateway) ls).

Lemma fresh_empty : fresh_gateway empty_gateway.
Proof. split; reflexivity. Qed.

Lemma takeover_run : lrun (lstart empty_gateway) takeover = Some (after takeover).
Proof.
  assert (is_Some (lrun (lstart empty_gateway) takeover)) as [st E] by (vm_compute; eauto).
  unfold after. by rewrite E.
Qed.

Lemma hub_tracks_connections_witness :
  id_of (after takeover) 1%nat = "alice"%string /\
  sessionCount (gw (after takeover)) = wrap_s 32 (Z.of_nat (size (connected (after takeover)))).
Proof.
  destruct (hub_tracks_connections empty_gateway takeover (after takeover) fresh_empty takeover_run)
    as (H1 & H2 & _).
  split; [|exact H2]. apply (H1 "alice"%string). vm_compute. reflexivity.
Defined.

Lemma takeover_exclusive : exclusive_run (lstart empty_gateway) takeover.
Proof. apply (bool_decide_unpack (exclusive_run (lstart empty_gateway) takeover)). by vm_compute. Qed.

Lemma one_session_per_user_witness :
  hub_Load (gw (after takeover)) (id_of (after takeover) 1%nat) = Some 1%nat.
Proof.
  apply (one_session_per_user empty_gateway takeover (after takeover) 1%nat 1%nat PConnected PConnected
    takeover_exclusive takeover_run).
  - vm_compute. reflexivity.
  - right. reflexivity.
  - vm_compute. reflexivity.
  - vm_compute. reflexivity.
  - right. reflexivity.
  - vm_compute. reflexivity.
  - reflexivity.
Defined.

(** Two connections of one user that are accepted at the same time can both end up
    open and accepting requests; only the later one is found under the user's ID, so
    that the other is out of reach of multicasts, of the management service and of the
    zombie scan. *)
Theorem duplicate_sessions_race :
  exists ls st, lrun (lstart empty_gateway) ls = Some st /\
    phases st !! 0%nat = Some PConnected /\ phases st !! 1%nat = Some PConnected /\
    open st 0%nat /\ open st 1%nat /\
    id_of st 0%nat = "alice"%string /\ id_of st 1%nat = "alice"%string /\
    hub_Load (gw st) "alice" = Some 1%nat.
Proof.
  set (ls := [LAccept 0%nat; LInit 0%nat "alice" ∅; LClosePrev 0%nat;
              LAccept 1%nat; LInit 1%nat "alice" ∅; LClosePrev 1%nat;
              LLoadJob 0%nat; LPublish 0%nat; LStore 0%nat; LCount 0%nat;
              LLoadJob 1%nat; LPublish 1%nat; LStore 1%nat; LCount 1%nat]).
  exists ls, (after ls). vm_compute. auto 10.
Qed.

Definition second_gone : list label :=
  takeover ++ disconnect 1%nat ++ [LTick (1 * Minute)].

Lemma stale_cleanup_runs_witness :
  timers (after second_gone) !! 1%nat =
    Some {| t_deadline := now (after second_gone) + 4 * Minute; t_user := "alice"; t_state := Armed |} /\
  Find (table (gw (after second_gone))) "alice" 7 = Some (sample_id 1) /\
  exists st', lrun (after second_gone) [LFire 0%nat; LLookup 0%nat; LClean 0%nat; LForget 0%nat] = Some st' /\
    forall code, Find (table (gw st')) "alice" code = None.
Proof.
  split; [vm_compute; reflexivity|]. split; [vm_compute; reflexivity|].
  destruct (stale_cleanup_runs (after second_gone) 0%nat
    {| t_deadline := 5 * Minute; t_user := "alice"; t_state := Armed |} 1%nat)
    as (st' & H1 & H2 & _).
  - vm_compute. reflexivity.
  - reflexivity.
  - vm_compute. discriminate.
  - vm_compute. reflexivity.
  - vm_compute. reflexivity.
  - discriminate.
  - exists st'. split; [exact H1|exact H2].
Defined.

Definition late_return : list label :=
  connect 0%nat ++ disconnect 0%nat ++ [LTick (5 * Minute); LFire 0%nat]
  ++ [LAccept 1%nat; LInit 1%nat "alice" ∅; LClosePrev 1%nat].

Lemma reconnect_can_hang_witness :
  exists st', lrun (after late_return) [LLoadJob 1%nat; LStopJob 1%nat] = Some st' /\
    forall ls st'', lrun st' ls = Some st'' -> phases st'' !! 1%nat = Some PStuck.
Proof.
  apply (reconnect_can_hang (after late_return) 1%nat 0%nat
    {| t_deadline := 5 * Minute; t_user := "alice"; t_state := Fired |}).
  - vm_compute. reflexivity.
  - vm_compute. reflexivity.
  - vm_compute. reflexivity.
  - discriminate.
Defined.
