(* ===== verification/Metrics.v ===== *)
(** * Metrics: [internal/metrics/metrics.go], [logger] and [logRequest]
      ([component/gateway/proxy.go])

    What the program tells Prometheus and its loggers. Prometheus is not part of the
    program: a metric is the list of the calls made for it, and its value what the calls
    add up to, as the client library documents. Durations are in nanoseconds. *)

From stdpp Require Import functions.
From S2P Require Import Prelude External Entry PathLib Samples Balancer Resolver StateTable Messages Registry Gateway Request Lifecycle.

Local Open Scope go_scope.
Local Open Scope Z_scope.
Local Open Scope list_scope.

(** ** The package [metrics] *)

Inductive sample :=
  | Inc (metric : string) (labels : list string)
  | Dec (metric : string) (labels : list string)
  | Add (metric : string) (labels : list string) (v : Z)
  | Observe (metric : string) (labels : list string) (v : Z).

#[export] Instance sample_eq_dec : EqDecision sample.
Proof. solve_decision. Defined.

(** The variables of the package; [registry] lists the collectors registered with it, and
    is [None] for nil. *)
Record metrics := {
  enabled : bool;
  registry : option (list string);
  samples : list sample;
}.

Definition no_metrics : metrics := {| enabled := false; registry := None; samples := [] |}.

Definition collectors : list string :=
  ["grpc_requests_total"; "grpc_request_duration_seconds"; "session_total"; "session_count";
   "payload_size"; "payload_size_total"; "message_queue_total"; "message_queue_delay"]%string.

(** [registry.MustRegister] of a collector panics if there is one of its name. *)
Definition MustRegister (reg : list string) (name : string) : outcome (list string) :=
  if bool_decide (name ∈ reg) then Panic else Ret (reg ++ [name]).

Fixpoint register_all (reg : list string) (names : list string) : outcome (list string) :=
  match names with
  | [] => Ret reg
  | name :: names => let! reg := MustRegister reg name in register_all reg names
  end.

Definition Init (m : metrics) : outcome metrics :=
  if enabled m then Ret m
  else
    let! reg := register_all [] collectors in
    Ret {| enabled := true; registry := Some reg; samples := [] |}.

(** Nothing is recorded before [Init]. *)
Definition record (m : metrics) (calls : list sample) : metrics :=
  if enabled m
  then {| enabled := enabled m; registry := registry m; samples := samples m ++ calls |}
  else m.

(** [code_text] is [status.Code(err).String()]. *)
Definition IncrGRPCRequests (m : metrics) (method code_text : string) (duration : Z) : metrics :=
  record m [Inc "grpc_requests_total" [method; code_text];
            Observe "grpc_request_duration_seconds" [method] duration].

Definition IncrGatewaySession (m : metrics) (sessionType : string) : metrics :=
  record m [Inc "session_total" [sessionType]; Inc "session_count" [sessionType]].

Definition DecrGatewaySession (m : metrics) (sessionType : string) : metrics :=
  record m [Dec "session_count" [sessionType]].

Definition IncrPayloadSize (m : metrics) (sessionType : string) (size : Z) : metrics :=
  record m [Observe "payload_size" [] size; Add "payload_size_total" [sessionType] size].

Definition IncrMessageQueue (m : metrics) (topic : string) (delay : Z) : metrics :=
  record m [Inc "message_queue_total" [topic]; Observe "message_queue_delay" [topic] delay].

(** What a call adds to a counter or gauge. *)
Definition contribution (metric : string) (labels : list string) (c : sample) : Z :=
  match c with
  | Inc n l => if bool_decide (n = metric /\ l = labels) then 1 else 0
  | Dec n l => if bool_decide (n = metric /\ l = labels) then -1 else 0
  | Add n l v => if bool_decide (n = metric /\ l = labels) then v else 0
  | Observe _ _ _ => 0
  end.

Definition value (m : metrics) (metric : string) (labels : list string) : Z :=
  foldr Z.add 0 (contribution metric labels <$> samples m).

Lemma value_record m calls metric labels :
  value (record m calls) metric labels =
    value m metric labels +
    (if enabled m then foldr Z.add 0 (contribution metric labels <$> calls) else 0).
Proof.
  unfold record, value. destruct (enabled m); [|lia]. simpl. rewrite fmap_app, foldr_app.
  generalize (foldr Z.add 0 (contribution metric labels <$> calls)). intros z.
  induction (samples m) as [|c cs IH]; csimpl; [lia|]. rewrite IH. lia.
Qed.

(** ** Sessions of a gateway, with the metrics *)
Section Sessions.
Context `{U : ULID} `{R : MapRange} `{N : Net} `{X : XXHash} `{G : GRPCDial} `{SI : SessionIface}.

(** [Init] is called when the metrics server starts; [handleSession] counts a session when
    it has been connected, and until its loop ends. *)
Inductive mlabel := MInit | MStep (l : label).

Definition type_at (st : LState) (s : sess_ptr) : string := Sess_Type (heap (gw st) s).

Definition counted (st : LState) (l : label) (m : metrics) : metrics :=
  match l with
  | LCount s => IncrGatewaySession m (type_at st s)
  | LLoopEnds s => DecrGatewaySession m (type_at st s)
  | _ => m
  end.

Definition mstep (x : LState * metrics) (l : mlabel) : option (LState * metrics) :=
  match l with
  | MInit => match Init x.2 with Ret m => Some (x.1, m) | _ => None end
  | MStep l => (fun st => (st, counted x.1 l x.2)) <$> lstep x.1 l
  end.

Fixpoint mrun (x : LState * metrics) (ls : list mlabel) : option (LState * metrics) :=
  match ls with
  | [] => Some x
  | l :: ls => match mstep x l with Some x => mrun x ls | None => None end
  end.

(** The connected sessions of a type of transport. *)
Definition connected_of (t : string) (st : LState) : gmap sess_ptr phase :=
  filter (fun sp => sp.2 = PConnected /\ type_at st sp.1 = t) (phases st).

(** The type of a session does not change. *)
Lemma lstep_type st l st' s : lstep st l = Some st' -> type_at st' s = type_at st s.
Proof. intros H%(lstep_heap _ _ _ s). unfold type_at. by destruct H. Qed.

Lemma connected_of_same t st st' :
  (forall s, type_at st' s = type_at st s) ->
  connected_of t st' = filter (fun sp => sp.2 = PConnected /\ type_at st sp.1 = t) (phases st').
Proof. intros Ht. apply map_filter_ext. intros s p _. simpl. by rewrite Ht. Qed.

(** A step after which session [s], whose phase [Hp] gives, is as little connected as before. *)
Ltac other Hother Hp := (eapply Hother; [exact Hp|done| |reflexivity]; done).

(** How the number of connected sessions of a type changes with a step. *)
Lemma connected_of_step t st l st' :
  lstep st l = Some st' ->
  Z.of_nat (size (connected_of t st')) = Z.of_nat (size (connected_of t st)) +
    match l with
    | LCount s => if bool_decide (type_at st s = t) then 1 else 0
    | LLoopEnds s => if bool_decide (type_at st s = t) then -1 else 0
    | _ => 0
    end.
Proof.
  intros H. rewrite (connected_of_same t st st') by (intros; by eapply lstep_type).
  unfold connected_of. set (P := fun sp : sess_ptr * phase => sp.2 = PConnected /\ type_at st sp.1 = t).
  assert (forall s p q, phases st !! s = p -> p <> Some PConnected -> q <> PConnected ->
    phases st' = <[s := q]> (phases st) ->
    Z.of_nat (size (filter P (phases st'))) = Z.of_nat (size (filter P (phases st))) + 0) as Hother.
  { intros s p q Hs Hp Hq ->. rewrite map_filter_insert_not'; [lia|by intros []|].
    intros y Hy [E _]. simpl in E. congruence. }
  assert (phases st' = phases st ->
    Z.of_nat (size (filter P (phases st'))) = Z.of_nat (size (filter P (phases st))) + 0) as Hnone
    by (intros ->; lia).
  destruct l; simpl in H;
    try (apply at_timer_Some in H as (tm & _ & ->); by apply Hnone);
    try (apply at_phase_Some in H as [Hp ->]; other Hother Hp).
  - unfold accept in H. destruct (phases st !! s) eqn:Hp; [done|]. injection H as <-. other Hother Hp.
  - unfold init in H. case_decide; [done|]. apply at_phase_Some in H as [Hp ->]. other Hother Hp.
  - apply at_phase_Some in H as [Hp ->]. destruct (hub_Load _ _); other Hother Hp.
  - apply at_phase_Some in H as [Hp ->]. destruct (cleanJobs _ !! _); other Hother Hp.
  - unfold stop_job in H. destruct (phases st !! s) as [[]|] eqn:Hp; try done. inv_all H; other Hother Hp.
  - apply at_phase_Some in H as [Hp ->]. simpl. case_bool_decide as Ht.
    + rewrite map_filter_insert_True by done. rewrite map_size_insert_None; [lia|].
      apply map_lookup_filter_None. right. intros x Hx [E _]. simpl in E. congruence.
    + rewrite map_filter_insert_not'; [lia|by intros [_ ?]|]. intros y Hy [E _]. simpl in E. congruence.
  - apply at_phase_Some in H as [Hp ->]. simpl. rewrite map_filter_insert_False by (by intros []).
    rewrite map_filter_delete. case_bool_decide as Ht.
    + rewrite map_size_delete_Some; [|by exists PConnected; apply map_lookup_filter_Some].
      assert (size (filter P (phases st)) <> 0%nat); [|lia].
      apply map_size_non_empty_iff. intros E. assert (filter P (phases st) !! s = Some PConnected) as Hs
        by (by apply map_lookup_filter_Some). by rewrite E, lookup_empty in Hs.
    + rewrite delete_id; [lia|]. apply map_lookup_filter_None. right. by intros x _ [_ ?].
  - case_decide; [|done]. injection H as <-. by apply Hnone.
  - unfold fire in H. inv_all H. by apply Hnone.
  - injection H as <-. by apply Hnone.
  - injection H as <-. by apply Hnone.
  - apply store_route_Some in H as ->. by apply Hnone.
Qed.

(** ** Runs *)

Lemma register_all_collectors : register_all [] collectors = Ret collectors.
Proof. by vm_compute. Qed.

Lemma Init_spec m m' :
  Init m = Ret m' ->
  m' = if enabled m then m else {| enabled := true; registry := Some collectors; samples := [] |}.
Proof. unfold Init. destruct (enabled m); [|rewrite register_all_collectors]; by intros [= <-]. Qed.

Lemma mstep_Some x l y :
  mstep x l = Some y ->
  match l with
  | MInit => exists m, Init x.2 = Ret m /\ y = (x.1, m)
  | MStep l => exists st, lstep x.1 l = Some st /\ y = (st, counted x.1 l x.2)
  end.
Proof.
  destruct l as [|l]; simpl; [destruct (Init x.2); try done; intros [= <-]; eauto|].
  intros (st & H & ->)%fmap_Some. eauto.
Qed.

(** Before [Init] nothing is recorded. *)
Lemma counted_disabled st l m : enabled m = false -> counted st l m = m.
Proof.
  intros He. destruct l; try done; simpl; unfold IncrGatewaySession, DecrGatewaySession, record;
    by rewrite He.
Qed.

Lemma mrun_disabled x ls y :
  enabled x.2 = false -> ~ In MInit ls -> mrun x ls = Some y -> y.2 = x.2.
Proof.
  revert x. induction ls as [|l ls IH]; intros x He Hno; simpl; [by intros [= <-]|].
  destruct (mstep x l) as [x1|] eqn:E; [|done]. apply mstep_Some in E. intros Hrun.
  destruct l as [|l]; [by destruct Hno; left|]. destruct E as (st & _ & ->).
  rewrite counted_disabled in Hrun by done. apply IH in Hrun; [done|done|].
  intros Hin. apply Hno. by right.
Qed.

(** A step moves the gauge as it moves the number of connected sessions. *)
Definition gauge (m : metrics) (t : string) : Z := value m "session_count" [t].

Lemma counted_gauge st l m t :
  enabled m = true ->
  enabled (counted st l m) = true /\
  gauge (counted st l m) t = gauge m t +
    match l with
    | LCount s => if bool_decide (type_at st s = t) then 1 else 0
    | LLoopEnds s => if bool_decide (type_at st s = t) then -1 else 0
    | _ => 0
    end.
Proof.
  intros He.
  assert (forall u, bool_decide ("session_count" = "session_count"%string /\ [u] = [t]) = bool_decide (u = t)) as Hb.
  { intros u. apply bool_decide_ext. split; [by intros [_ [=]]|by intros ->]. }
  destruct l; try (split; [done|simpl; lia]); simpl; unfold gauge, IncrGatewaySession, DecrGatewaySession;
    rewrite value_record, He; unfold record; rewrite He; (split; [done|]); simpl; rewrite Hb;
    case_bool_decide; lia.
Qed.

Lemma mrun_gauge x ls y t :
  enabled x.2 = true -> mrun x ls = Some y ->
  enabled y.2 = true /\
  gauge y.2 t - gauge x.2 t =
    Z.of_nat (size (connected_of t y.1)) - Z.of_nat (size (connected_of t x.1)).
Proof.
  revert x. induction ls as [|l ls IH]; intros x He; simpl; [intros [= <-]; split; [done|lia]|].
  destruct (mstep x l) as [x1|] eqn:E; [|done]. apply mstep_Some in E. intros Hrun.
  destruct l as [|l].
  - destruct E as (m & Hm & ->). apply Init_spec in Hm. rewrite He in Hm. subst m. by apply IH in Hrun.
  - destruct E as (st & Hst & ->). destruct (counted_gauge x.1 l x.2 t He) as [He' Hg].
    apply IH in Hrun as [? Hrun]; [|done]. split; [done|]. simpl in Hrun.
    rewrite Hg, (connected_of_step t _ _ _ Hst) in Hrun. lia.
Qed.

Lemma mrun_app x ls1 ls2 :
  mrun x (ls1 ++ ls2) = match mrun x ls1 with Some y => mrun y ls2 | None => None end.
Proof.
  revert x. induction ls1 as [|l ls1 IH]; intros x; simpl; [done|]. by destruct (mstep x l).
Qed.
End Sessions.

(** ** The package [logger] *)

Inductive Logger := nullLogger | Custom (name : string).
Inductive level := Debug | Info | Warn | Error.
#[export] Instance Logger_eq_dec : EqDecision Logger.
Proof. solve_decision. Defined.
#[export] Instance level_eq_dec : EqDecision level.
Proof. solve_decision. Defined.

(** The variable [defaultLogger]. *)
Definition defaultLogger : Logger := nullLogger.
Definition SetLogger (_ logger : Logger) : Logger := logger.
(** The logger stored in a context, if any. *)
Definition NewContext (_ : option Logger) (l : Logger) : option Logger := Some l.
Definition FromContext (ctx : option Logger) (default_ : Logger) : Logger := default default_ ctx.

(** The values the gateway logs of a request. *)
Inductive field :=
  | FString (s : string)
  | FSession (s : sess_ptr)
  | FRequest (req : Request)
  | FDuration (d : Z)
  | FConn (c : conn)
  | FError (e : gerror)
  | FMessage (t : status_text)
  | FCode (c : code).

Record line := {
  ln_logger : string; ln_level : level; ln_msg : string; ln_fields : list (string * field) }.

(** A call of a method of a logger: the lines that come out. *)
Definition log (l : Logger) (lv : level) (msg : string) (fields : list (string * field)) : list line :=
  match l with
  | nullLogger => []
  | Custom name => [{| ln_logger := name; ln_level := lv; ln_msg := msg; ln_fields := fields |}]
  end.

(** ** [logRequest] *)
Section LogRequest.
Context `{U : ULID} `{R : MapRange} `{N : Net} `{X : XXHash} `{G : GRPCDial} `{SI : SessionIface}.
Context `{PE : !ProtoMessage Empty} `{UP : Upstream}.
(** [codes.Code.String] *)
Context (code_String : code -> string).

(** [status.Code] *)
Definition status_Code (err : option gerror) : code :=
  match err with
  | None => codes_OK
  | Some err => match status_FromError err with Some st => St_Code st | None => codes_Unknown end
  end.

(** The variables of [handleRequest] when it ends: [conn], [desc], the transaction ID in
    [ctx], [method] and [err]. *)
Record variables := {
  v_conn : option conn;
  v_desc : option GRPCServiceDesc;
  v_trans : option ulid;
  v_method : string;
  v_err : option gerror;
}.

Definition failed (c : option conn) (desc : option GRPCServiceDesc) (trans : option ulid) (err : gerror)
  : variables :=
  {| v_conn := c; v_desc := desc; v_trans := trans; v_method := ""; v_err := Some err |}.

Definition at_end (gw : Gateway) (s : sess_ptr) (req : Request) (env : request_env) : outcome variables :=
  match RequestInterceptor env (heap gw s) req with
  | Err err => Ret (failed None None None (Errorf "request interceptor, %w" [] (Some err)))
  | Ok false => Ret (failed None None None (ErrorsNew "request interceptor denied"))
  | Ok true =>
      match GetGRPCDesc (gw_registry gw) (Req_ServiceCode req) with
      | None => Ret (failed None None None (StatusErrorf codes_Unimplemented "unknown service %d"
                                              [AInt (Req_ServiceCode req)]))
      | Some desc =>
          if negb (Public desc)
          then Ret (failed None (Some desc) None
                      (StatusErrorf codes_PermissionDenied "request private service" []))
          else
            let! (r, gw') := getUpstream gw s req desc (seed env) in
            match r with
            | Err err => Ret (failed None (Some desc) None err)
            | Ok c =>
                match newEmptyMessage (Req_Data req) with
                | Err err => Ret (failed (Some c) (Some desc) (Some (transaction env))
                                    (Errorf "unmarshal request data, %w" [] (Some err)))
                | Ok input =>
                    let method := path_Join (Path desc) (Req_Method req) in
                    let out := conn_Invoke
                      {| call_conn := c; call_md := forwarded_md gw' s (transaction env);
                         call_timeout := if 0 <? RequstTimeout env then Some (RequstTimeout env) else None;
                         call_method := method; call_input := input |} in
                    Ret {| v_conn := Some c; v_desc := Some desc; v_trans := Some (transaction env);
                           v_method := method;
                           v_err := match out with Ok _ => None | Err err => Some err end |}
                end
            end
      end
  end.

(** The fields of the line: those every request has, and those that are known. *)
Definition log_fields (gw : Gateway) (s : sess_ptr) (req : Request) (v : variables) (duration : Z)
  : list (string * field) :=
  [("gateway", FString (gw_nodeID gw)); ("session", FSession s); ("req", FRequest req);
   ("duration", FDuration duration)]%string ++
  match v_desc v with
  | Some desc => if bool_decide (Desc_Name desc = ""%string) then [] else [("service"%string, FString (Desc_Name desc))]
  | None => []
  end ++
  match v_conn v with Some c => [("upstream"%string, FConn c)] | None => [] end ++
  match v_trans v with Some id => [("transID"%string, FString (ulid_String id))] | None => [] end ++
  match v_err v with
  | None => []
  | Some err =>
      match status_FromError err with
      | Some st => [("error", FMessage (St_Message st)); ("grpcCode", FCode (St_Code st))]%string
      | None => [("error"%string, FError err)]
      end
  end.

(** The function [logRequest] returns, given the option [RequestLogger], which can be nil,
    and the default logger: the metrics and the lines that come out. *)
Definition logRequest (gw : Gateway) (s : sess_ptr) (req : Request) (RequestLogger : option Logger)
    (default_ : Logger) (m : metrics) (v : variables) (duration : Z) : metrics * list line :=
  let m := if bool_decide (v_method v = ""%string) then m
           else IncrGRPCRequests m (v_method v) (code_String (status_Code (v_err v))) duration in
  let fields := log_fields gw s req v duration in
  (m, match v_err v, RequestLogger with
      | None, None => []
      | None, Some l => log l Info "handle request" fields
      | Some _, Some l => log l Error "handle request" fields
      | Some _, None => log default_ Error "handle request" fields
      end).

(** The variables are those of the model of [handleRequest]. *)
Lemma at_end_prepare gw s req env r gw1 :
  prepare gw s req env = Ret (r, gw1) ->
  exists v, at_end gw s req env = Ret v /\
    match r with
    | Err err => v_method v = ""%string /\ v_err v = Some err
    | Ok c => v_method v = call_method c /\
        v_err v = match conn_Invoke c with Ok _ => None | Err err => Some err end
    end.
Proof.
  unfold prepare, at_end.
  destruct (RequestInterceptor env _ req) as [[]|]; [|by intros [= <- <-]; eauto..].
  destruct (GetGRPCDesc _ _) as [desc|]; [|by intros [= <- <-]; eauto].
  destruct (Public desc); [|by intros [= <- <-]; eauto]. simpl.
  intros ([[c|err] gw2] & -> & Hp)%outcome_bind_Ret; simpl; [|by injection Hp as <- <-; eauto].
  destruct (newEmptyMessage _); injection Hp as <- <-; eauto.
Qed.
End LogRequest.

(** ** The claims *)
Section Claims.
Context `{U : ULID} `{R : MapRange} `{N : Net} `{X : XXHash} `{G : GRPCDial} `{SI : SessionIface}.

(** C40. The gauge of sessions: when the metrics were initialised after [before] and
    however often again in [after], the gauge of a transport is the number of its connected
    sessions less the number of those that were connected when the metrics were initialised;
    so it is the number of connected sessions, and never negative, if the metrics come
    first, and is short by the others for good if they do not. *)
Theorem session_gauge g before after st0 m0 st m t :
  ~ In MInit before -> mrun (lstart g, no_metrics) before = Some (st0, m0) ->
  mrun (lstart g, no_metrics) (before ++ MInit :: after) = Some (st, m) ->
  value m "session_count" [t] =
    Z.of_nat (size (connected_of t st)) - Z.of_nat (size (connected_of t st0)).
Proof.
  intros Hno Hb Hrun. rewrite mrun_app, Hb in Hrun.
  apply mrun_disabled in Hb; [|done..]. simpl in Hb. subst m0.
  cbn [mrun] in Hrun. destruct (mstep _ _) as [[st1 m1]|] eqn:E; [|done].
  apply mstep_Some in E as (m2 & Hm2 & [= -> ->]). apply Init_spec in Hm2. simpl in Hm2.
  apply (mrun_gauge _ _ _ t) in Hrun as [_ Hg]; [|by subst m2]. simpl in Hg.
  change (value m "session_count" [t]) with (gauge m t).
  assert (gauge m2 t = 0) as E by (by subst m2). lia.
Qed.

(** Every request is recorded once: it counts for the method it was forwarded to, with the
    code of the error that its client is told, if it was forwarded, and for none if it was
    not; there is one line in the log at most, none if there is nothing to complain of and
    no logger of requests, and an error is logged as such, by that logger if there is one. *)
Theorem request_recorded `{PE : !ProtoMessage Empty} `{UP : Upstream} code_String
    gw s req env r gw1 lg default_ m duration :
  enabled m = true -> prepare gw s req env = Ret (r, gw1) ->
  exists v, at_end gw s req env = Ret v /\
    let err := match request_result r with Ok _ => None | Err err => Some err end in
    let '(m', lines) := logRequest code_String gw s req lg default_ m v duration in
    (forall method text, value m' "grpc_requests_total" [method; text] =
       value m "grpc_requests_total" [method; text] +
       match r with
       | Ok c => if bool_decide (call_method c <> ""%string /\ method = call_method c /\
                                 text = code_String (status_Code err)) then 1 else 0
       | Err _ => 0
       end) /\
    (forall e st, err = Some e -> status_FromError e = Some st ->
       St_Code (Err_Status (rpc_error req st)) = status_Code err) /\
    lines = match (if err then Some (default default_ lg) else lg) with
            | Some l => log l (if err then Error else Info) "handle request" (log_fields gw s req v duration)
            | None => []
            end.
Proof.
  intros He Hp. destruct (at_end_prepare _ _ _ _ _ _ Hp) as (v & Hv & Hr). exists v. split; [done|].
  set (err := match request_result r with Ok _ => None | Err err => Some err end). cbn zeta.
  assert (v_err v = err) as Herr by (destruct r; destruct Hr as [_ ->]; [|done]; unfold err; simpl; by case_match).
  unfold logRequest. split_and!.
  - intros method text. rewrite Herr. case_bool_decide as Hm.
    + destruct r as [c|]; [|lia]. destruct Hr as [Hr _]. rewrite bool_decide_false; [lia|]. intros [? _]. congruence.
    + destruct r as [c|e]; destruct Hr as [Hr _]; [|done]. unfold IncrGRPCRequests. rewrite value_record, He. simpl.
      rewrite Hr in *. rewrite Z.add_0_r. f_equal. f_equal.
      rewrite !bool_decide_decide. repeat case_decide; naive_solver.
  - intros e st -> Hst. unfold rpc_error, mask_unknown. simpl. rewrite Hst. by case_bool_decide.
  - rewrite Herr. by destruct err, lg.
Qed.
End Claims.

(** ** Witnesses *)

(** A connection before the metrics start, another of the same user after; both end. *)
Definition early : list mlabel := MStep <$> connect 0.
Definition late : list mlabel := MStep <$> connect 1 ++ disconnect 0 ++ disconnect 1.

Definition metrics_after (ls : list mlabel) : LState * metrics :=
  default (lstart empty_gateway, no_metrics) (mrun (lstart empty_gateway, no_metrics) ls).

Lemma metrics_run ls :
  bool_decide (is_Some (mrun (lstart empty_gateway, no_metrics) ls)) = true ->
  mrun (lstart empty_gateway, no_metrics) ls = Some ((metrics_after ls).1, (metrics_after ls).2).
Proof.
  intros [y Hy]%bool_decide_eq_true. unfold metrics_after. rewrite Hy. by destruct y.
Qed.

(** The gauge ends below zero. *)
Lemma session_gauge_witness :
  value (metrics_after (early ++ MInit :: late)).2 "session_count" ["tcp"%string] = -1.
Proof.
  rewrite (session_gauge empty_gateway early late (metrics_after early).1 (metrics_after early).2
    (metrics_after (early ++ MInit :: late)).1 (metrics_after (early ++ MInit :: late)).2 "tcp").
  - vm_compute. reflexivity.
  - vm_compute. intuition discriminate.
  - apply metrics_run. vm_compute. reflexivity.
  - apply metrics_run. vm_compute. reflexivity.
Defined.
