(* ===== verification/Proxy.v ===== *)
(** * Proxy: [Start], [Stop] and the goroutines between them
      ([component/gateway/proxy.go], [component/gateway/tcp.go])

    The goroutine of the transport accepts connections, that of [Start] hands each to the
    pool, every connection runs the loop of [handleSession], another goroutine scans for
    idle sessions, and [Stop] ends it all. The steps of [Lifecycle] are part of it. *)

From S2P Require Import Prelude External Entry PathLib Samples Balancer Resolver StateTable Messages Registry Gateway Lifecycle.

Local Open Scope Z_scope.

(** The goroutine of [Serve]: about to accept, sending a session on its channel, or
    ended, with the channel closed. *)
Inductive transport_phase := TAccepting | TOffering (s : sess_ptr) | TEnded.

(** How far [Stop] is. *)
Inductive stop_stage := Running | DoneClosed | HubClosed | Stopped.

#[export] Instance stop_stage_eq_dec : EqDecision stop_stage.
Proof. solve_decision. Defined.
#[export] Instance transport_phase_eq_dec : EqDecision transport_phase.
Proof. solve_decision. Defined.

Section Proxy.
Context `{U : ULID} `{R : MapRange} `{N : Net} `{X : XXHash} `{G : GRPCDial} `{SI : SessionIface}.

(** [receiving] are the connections whose loop is in [Recv]. *)
Record PState := {
  life : LState;
  stage : stop_stage;
  listening : bool;
  transport : transport_phase;
  acceptor : bool;
  scanner : bool;
  receiving : gset sess_ptr;
}.

Definition set_life (st : PState) x := {|
  life := x; stage := stage st; listening := listening st; transport := transport st;
  acceptor := acceptor st; scanner := scanner st; receiving := receiving st |}.
Definition set_stage (st : PState) x := {|
  life := life st; stage := x; listening := listening st; transport := transport st;
  acceptor := acceptor st; scanner := scanner st; receiving := receiving st |}.
Definition set_listening (st : PState) x := {|
  life := life st; stage := stage st; listening := x; transport := transport st;
  acceptor := acceptor st; scanner := scanner st; receiving := receiving st |}.
Definition set_transport (st : PState) x := {|
  life := life st; stage := stage st; listening := listening st; transport := x;
  acceptor := acceptor st; scanner := scanner st; receiving := receiving st |}.
Definition set_acceptor (st : PState) x := {|
  life := life st; stage := stage st; listening := listening st; transport := transport st;
  acceptor := x; scanner := scanner st; receiving := receiving st |}.
Definition set_scanner (st : PState) x := {|
  life := life st; stage := stage st; listening := listening st; transport := transport st;
  acceptor := acceptor st; scanner := x; receiving := receiving st |}.
Definition set_receiving (st : PState) x := {|
  life := life st; stage := stage st; listening := listening st; transport := transport st;
  acceptor := acceptor st; scanner := scanner st; receiving := x |}.

(** [p.done] is closed. *)
Definition done (st : PState) : bool := negb (bool_decide (stage st = Running)).

(** [Start], whose transport fails to listen with [err] or serves. *)
Definition Start (gw : Gateway) (err : option gerror) : result PState :=
  match err with
  | Some err => Err err
  | None => Ok {| life := lstart gw; stage := Running; listening := true; transport := TAccepting;
                  acceptor := true; scanner := true; receiving := ∅ |}
  end.

Inductive proxy_label :=
  | PAccept (s : sess_ptr)          (** [Accept] returns a connection *)
  | PAcceptErr                      (** [Accept] fails *)
  | PContext                        (** the context of [Start] is done *)
  | POffer (err : option gerror)    (** a session is received; what the pool answers *)
  | PAcceptorDone                   (** the loop of [Start] ends *)
  | PCloseDone | PCloseHub | PCloseListener   (** [Stop] *)
  | PTop (s : sess_ptr)             (** the top of the loop of [handleSession] *)
  | PRecv (s : sess_ptr) (handed : bool)  (** [Recv] returns a request *)
  | PRecvErr (s : sess_ptr)         (** [Recv] fails *)
  | PScan (interval : Z)            (** a tick of [removeZombie] *)
  | PScanDone                       (** [removeZombie] ends *)
  | PLife (l : label).

(** ** The transport *)

Definition transport_accept (st : PState) (s : sess_ptr) : option PState :=
  match transport st with
  | TAccepting => if listening st then Some (set_transport st (TOffering s)) else None
  | _ => None
  end.

(** [net.ErrClosed] ends the loop; after other errors it goes on. *)
Definition transport_err (st : PState) : option PState :=
  match transport st with
  | TAccepting => Some (if listening st then st else set_transport st TEnded)
  | _ => None
  end.

Definition transport_context (st : PState) : option PState :=
  match transport st with TAccepting => Some (set_transport st TEnded) | _ => None end.

(** ** The loop of [Start] *)

Definition proxy_offer (st : PState) (err : option gerror) : option PState :=
  match transport st with
  | TOffering s =>
      if acceptor st then
        match err with
        | None =>
            match lstep (life st) (LAccept s) with
            | Some x => Some (set_transport (set_life st x) TAccepting)
            | None => None
            end
        | Some _ =>
            Some (set_transport
                    (set_life st (set_gw (life st) (sess_Close (gw (life st)) s).2)) TAccepting)
        end
      else None
  | _ => None
  end.

Definition acceptor_done (st : PState) : option PState :=
  if acceptor st && (done st || bool_decide (transport st = TEnded))
  then Some (set_acceptor st false) else None.

(** ** [Stop] *)

Definition stop_done (st : PState) : option PState :=
  match stage st with Running => Some (set_stage st DoneClosed) | _ => None end.
Definition stop_hub (st : PState) : option PState :=
  match stage st with
  | DoneClosed => Some (set_stage (set_life st (set_gw (life st) (hub_Close (gw (life st))))) HubClosed)
  | _ => None
  end.
Definition stop_listener (st : PState) : option PState :=
  match stage st with HubClosed => Some (set_listening (set_stage st Stopped) false) | _ => None end.

(** ** The loop of [handleSession] *)

(** The loop ends. *)
Definition leave (st : PState) (s : sess_ptr) : option PState :=
  match lstep (life st) (LLoopEnds s) with
  | Some x => Some (set_receiving (set_life st x) (receiving st ∖ {[s]}))
  | None => None
  end.

Definition loop_top (st : PState) (s : sess_ptr) : option PState :=
  if decide (phases (life st) !! s = Some PConnected /\ s ∉ receiving st) then
    if done st then leave st s else Some (set_receiving st ({[s]} ∪ receiving st))
  else None.

(** A request is handed to the pool, or to [reqC] unless the gateway stops first. *)
Definition loop_recv (st : PState) (s : sess_ptr) (handed : bool) : option PState :=
  if decide (s ∈ receiving st) then
    if handed then Some (set_receiving st (receiving st ∖ {[s]}))
    else if done st then leave st s else None
  else None.

Definition loop_err (st : PState) (s : sess_ptr) : option PState :=
  if decide (s ∈ receiving st) then leave st s else None.

(** The steps of [Lifecycle] that the others are not made of. *)
Definition own_step (l : label) : bool :=
  match l with LAccept _ | LLoopEnds _ | LZombies _ => true | _ => false end.

Definition pstep (st : PState) (l : proxy_label) : option PState :=
  match l with
  | PAccept s => transport_accept st s
  | PAcceptErr => transport_err st
  | PContext => transport_context st
  | POffer err => proxy_offer st err
  | PAcceptorDone => acceptor_done st
  | PCloseDone => stop_done st
  | PCloseHub => stop_hub st
  | PCloseListener => stop_listener st
  | PTop s => loop_top st s
  | PRecv s handed => loop_recv st s handed
  | PRecvErr s => loop_err st s
  | PScan interval =>
      if scanner st then
        match lstep (life st) (LZombies interval) with
        | Some x => Some (set_life st x)
        | None => None
        end
      else None
  | PScanDone => if scanner st && done st then Some (set_scanner st false) else None
  | PLife l =>
      if own_step l then None
      else match lstep (life st) l with Some x => Some (set_life st x) | None => None end
  end.

Fixpoint prun (st : PState) (ls : list proxy_label) : option PState :=
  match ls with
  | [] => Some st
  | l :: ls => match pstep st l with Some st => prun st ls | None => None end
  end.
End Proxy.

(** ** Lemmas *)
Section ProxyLemmas.
Context `{U : ULID} `{R : MapRange} `{N : Net} `{X : XXHash} `{G : GRPCDial} `{SI : SessionIface}.

(** How many steps the goroutine of a connection has left at most. *)
Definition rank (p : phase) : nat :=
  match p with
  | PAccepted => 12 | PInitialized => 11 | PPrevClosed => 10 | PJobLoaded _ => 9
  | PJobStopped => 8 | PJobDropped => 7 | PPublished => 6 | PStored => 5 | PConnected => 4
  | PUncounted => 3 | PDeleted => 2 | PScheduled => 1 | PStuck | PDone => 0
  end.
Definition weight (m : gmap sess_ptr phase) : nat := map_fold (fun _ p n => rank p + n)%nat 0%nat m.

Lemma weight_new m s q : m !! s = None -> weight (<[s := q]> m) = (rank q + weight m)%nat.
Proof.
  intros Hs. apply (map_fold_insert_L (fun (_ : sess_ptr) p n => rank p + n)%nat 0%nat s q m); [|done].
  intros. lia.
Qed.

Lemma weight_insert m s p q :
  m !! s = Some p -> (weight (<[s := q]> m) + rank p = weight m + rank q)%nat.
Proof.
  intros Hs. rewrite <- (insert_delete_id m s p Hs) at 2. rewrite <- insert_delete_eq.
  rewrite !weight_new by apply lookup_delete_eq. lia.
Qed.

Lemma weight_bound m : (weight m <= 12 * size m)%nat.
Proof.
  induction m as [|s p m Hs IH] using map_ind; [done|].
  rewrite weight_new, map_size_insert_None by done.
  assert (rank p <= 12)%nat by (destruct p; simpl; lia). lia.
Qed.

(** The connection whose goroutine makes a step. *)
Definition session_of (l : label) : option sess_ptr :=
  match l with
  | LInit s _ _ | LInitFailed s | LClosePrev s | LLoadJob s | LStopJob s | LDropJob s | LPublish s
  | LPublishFailed s | LStore s | LCount s | LLoopEnds s | LDelete s | LSchedule s | LClose s => Some s
  | _ => None
  end.
Definition conn_of (l : proxy_label) : option sess_ptr :=
  match l with
  | PTop s | PRecv s _ | PRecvErr s => Some s
  | PLife l => session_of l
  | _ => None
  end.

Definition forward (st st' : LState) (s : sess_ptr) : Prop :=
  exists p q, phases st !! s = Some p /\ phases st' = <[s := q]> (phases st) /\ (rank q < rank p)%nat.

Lemma at_phase_forward st s p next st' q :
  at_phase st s p next = Some st' -> phases next = <[s := q]> (phases st) -> (rank q < rank p)%nat ->
  forward st st' s.
Proof. intros [Hp ->]%at_phase_Some Hq Hr. by exists p, q. Qed.

Lemma lstep_forward st l st' s :
  lstep st l = Some st' -> session_of l = Some s -> forward st st' s.
Proof.
  intros H Hl. destruct l; try done; injection Hl as ->; simpl in H.
  - unfold init in H. case_decide; [done|]. by apply (at_phase_forward _ _ _ _ _ PInitialized) in H; [| |simpl; lia].
  - by apply (at_phase_forward _ _ _ _ _ PDone) in H; [| |simpl; lia].
  - apply (at_phase_forward _ _ _ _ _ PPrevClosed) in H; [done| |simpl; lia]. by destruct (hub_Load _ _).
  - unfold load_job in H. destruct (cleanJobs st !! id_of st s) as [t|].
    + by apply (at_phase_forward _ _ _ _ _ (PJobLoaded t)) in H; [| |simpl; lia].
    + by apply (at_phase_forward _ _ _ _ _ PJobDropped) in H; [| |simpl; lia].
  - unfold stop_job in H. destruct (phases st !! s) as [[]|] eqn:Hp; try done.
    destruct (timers st !! t); [|done]. case_decide; injection H as <-;
      (eexists _, _; split_and!; [done|done|simpl; lia]).
  - by apply (at_phase_forward _ _ _ _ _ PJobDropped) in H; [| |simpl; lia].
  - by apply (at_phase_forward _ _ _ _ _ PPublished) in H; [| |simpl; lia].
  - by apply (at_phase_forward _ _ _ _ _ PDone) in H; [| |simpl; lia].
  - by apply (at_phase_forward _ _ _ _ _ PStored) in H; [| |simpl; lia].
  - by apply (at_phase_forward _ _ _ _ _ PConnected) in H; [| |simpl; lia].
  - by apply (at_phase_forward _ _ _ _ _ PUncounted) in H; [| |simpl; lia].
  - by apply (at_phase_forward _ _ _ _ _ PDeleted) in H; [| |simpl; lia].
  - by apply (at_phase_forward _ _ _ _ _ PScheduled) in H; [| |simpl; lia].
  - by apply (at_phase_forward _ _ _ _ _ PDone) in H; [| |simpl; lia].
Qed.

(** The other steps, but the acceptance of a connection, leave the phases alone. *)
Lemma lstep_phases st l st' :
  lstep st l = Some st' -> session_of l = None -> (forall s, l <> LAccept s) ->
  phases st' = phases st.
Proof.
  intros H Hl Ha. destruct l; try done; simpl in H.
  - by destruct (Ha s).
  - case_decide; [|done]. by injection H as <-.
  - unfold fire in H. destruct (timers st !! t); [|done]. case_decide; [|done]. by injection H as <-.
  - by apply at_timer_Some in H as (tm & _ & ->).
  - by apply at_timer_Some in H as (tm & _ & ->).
  - by apply at_timer_Some in H as (tm & _ & ->).
  - by injection H as <-.
  - by injection H as <-.
  - by apply store_route_Some in H as ->.
Qed.

Lemma accept_phases st s st' :
  lstep st (LAccept s) = Some st' ->
  phases st !! s = None /\ st' = set_phase st s PAccepted.
Proof. simpl. unfold accept. destruct (phases st !! s); [done|]. by intros [= <-]. Qed.

(** ** Invariants *)

(** The timers that connections and [cleanJobs] refer to exist. *)
Definition jobs_ok (st : LState) : Prop :=
  (forall id t, cleanJobs st !! id = Some t -> (t < length (timers st))%nat) /\
  (forall s t, phases st !! s = Some (PJobLoaded t) -> (t < length (timers st))%nat).

Lemma jobs_ok_step st st' :
  jobs_ok st -> (length (timers st) <= length (timers st'))%nat ->
  (forall id t, cleanJobs st' !! id = Some t ->
     cleanJobs st !! id = Some t \/ (t < length (timers st'))%nat) ->
  (forall s t, phases st' !! s = Some (PJobLoaded t) ->
     phases st !! s = Some (PJobLoaded t) \/ (t < length (timers st'))%nat) ->
  jobs_ok st'.
Proof.
  intros [Hj Hp] Hle Hj' Hp'. split.
  - intros id t [H|H]%Hj'; [apply Hj in H; lia|done].
  - intros s t [H|H]%Hp'; [apply Hp in H; lia|done].
Qed.

(** A step that does not change the timers and [cleanJobs], and moves at most one
    connection. *)
Lemma jobs_ok_move st st' s q :
  jobs_ok st -> length (timers st') = length (timers st) ->
  (forall id t, cleanJobs st' !! id = Some t -> cleanJobs st !! id = Some t) ->
  phases st' = <[s := q]> (phases st) -> (forall t, q <> PJobLoaded t) -> jobs_ok st'.
Proof.
  intros Hok Ht Hj Hp Hq. apply (jobs_ok_step st); [done|lia|by left; apply Hj|].
  intros s' t. rewrite Hp, lookup_insert_Some. intros [[_ E]|[_ ?]]; [by destruct (Hq t)|by left].
Qed.

Lemma jobs_ok_stay st st' :
  jobs_ok st -> length (timers st') = length (timers st) ->
  (forall id t, cleanJobs st' !! id = Some t -> cleanJobs st !! id = Some t) ->
  phases st' = phases st -> jobs_ok st'.
Proof. intros Hok Ht Hj Hp. apply (jobs_ok_step st); [done|lia|by left; apply Hj|]. rewrite Hp. by left. Qed.

Lemma lstep_jobs_ok st l st' : jobs_ok st -> lstep st l = Some st' -> jobs_ok st'.
Proof.
  intros Hok H. destruct l; simpl in H.
  - apply accept_phases in H as [_ ->]. by eapply jobs_ok_move.
  - unfold init in H. case_decide; [done|]. apply at_phase_Some in H as [_ ->]. by eapply jobs_ok_move.
  - apply at_phase_Some in H as [_ ->]. by eapply jobs_ok_move.
  - apply at_phase_Some in H as [_ ->]. by destruct (hub_Load _ _); eapply jobs_ok_move.
  - apply at_phase_Some in H as [_ ->]. destruct (cleanJobs st !! id_of st s) as [t|] eqn:E;
      [|by eapply jobs_ok_move].
    apply (jobs_ok_step st); [done|done|by left|]. intros s' t'. simpl.
    rewrite lookup_insert_Some. intros [[_ [= <-]]|[_ ?]]; [right; exact (proj1 Hok _ _ E)|by left].
  - unfold stop_job in H. destruct (phases st !! s) as [[]|]; try done.
    destruct (timers st !! t); [|done].
    case_decide; injection H as <-; eapply jobs_ok_move; try done. apply length_alter.
  - apply at_phase_Some in H as [_ ->]. eapply jobs_ok_move; try done. simpl.
    by intros id t [_ ?]%lookup_delete_Some.
  - apply at_phase_Some in H as [_ ->]. by eapply jobs_ok_move.
  - apply at_phase_Some in H as [_ ->]. by eapply jobs_ok_move.
  - apply at_phase_Some in H as [_ ->]. by eapply jobs_ok_move.
  - apply at_phase_Some in H as [_ ->]. by eapply jobs_ok_move.
  - apply at_phase_Some in H as [_ ->]. by eapply jobs_ok_move.
  - apply at_phase_Some in H as [_ ->]. by eapply jobs_ok_move.
  - unfold schedule in H. apply at_phase_Some in H as [_ ->].
    apply (jobs_ok_step st); [done|simpl; rewrite length_app; lia| |]; simpl; rewrite length_app; simpl.
    + intros id t. rewrite lookup_insert_Some. intros [[_ <-]|[_ ?]]; [right; lia|by left].
    + intros s' t. rewrite lookup_insert_Some. intros [[_ ?]|[_ ?]]; [done|by left].
  - apply at_phase_Some in H as [_ ->]. by eapply jobs_ok_move.
  - case_decide; [|done]. injection H as <-. by eapply jobs_ok_stay.
  - unfold fire in H. destruct (timers st !! t); [|done]. case_decide; [|done]. injection H as <-.
    eapply jobs_ok_stay; try done. apply length_alter.
  - apply at_timer_Some in H as (tm & _ & ->). eapply jobs_ok_stay; try done. apply length_alter.
  - apply at_timer_Some in H as (tm & _ & ->). eapply jobs_ok_stay; try done. apply length_alter.
  - apply at_timer_Some in H as (tm & _ & ->). eapply jobs_ok_stay; try done; [apply length_alter|].
    simpl. by intros id t' [_ ?]%lookup_delete_Some.
  - injection H as <-. by eapply jobs_ok_stay.
  - injection H as <-. by eapply jobs_ok_stay.
  - apply store_route_Some in H as ->. by eapply jobs_ok_stay.
Qed.

Lemma zombies_hub_closed g now interval : hub_closed (remove_zombies g now interval) = hub_closed g.
Proof.
  unfold remove_zombies. generalize (range_values (sessions g)). intros ss. revert g.
  induction ss as [|x ss IH]; intros g; [done|]. cbn [foldl]. rewrite IH. by destruct (interval <? _).
Qed.

Lemma lstep_hub_closed st l st' :
  lstep st l = Some st' -> hub_closed (gw st') = hub_closed (gw st).
Proof.
  intros H. destruct l; simpl in H.
  - by apply accept_phases in H as [_ ->].
  - unfold init in H. case_decide; [done|]. by apply at_phase_Some in H as [_ ->].
  - by apply at_phase_Some in H as [_ ->].
  - apply at_phase_Some in H as [_ ->]. by destruct (hub_Load _ _).
  - apply at_phase_Some in H as [_ ->]. by destruct (cleanJobs st !! id_of st s).
  - unfold stop_job in H. destruct (phases st !! s) as [[]|]; try done.
    destruct (timers st !! t); [|done]. case_decide; by injection H as <-.
  - by apply at_phase_Some in H as [_ ->].
  - by apply at_phase_Some in H as [_ ->].
  - by apply at_phase_Some in H as [_ ->].
  - by apply at_phase_Some in H as [_ ->].
  - by apply at_phase_Some in H as [_ ->].
  - by apply at_phase_Some in H as [_ ->].
  - apply at_phase_Some in H as [_ ->]. simpl. unfold hub_Delete. by case_bool_decide.
  - by apply at_phase_Some in H as [_ ->].
  - by apply at_phase_Some in H as [_ ->].
  - case_decide; [|done]. by injection H as <-.
  - unfold fire in H. destruct (timers st !! t); [|done]. case_decide; [|done]. by injection H as <-.
  - by apply at_timer_Some in H as (tm & _ & ->).
  - by apply at_timer_Some in H as (tm & _ & ->).
  - by apply at_timer_Some in H as (tm & _ & ->).
  - injection H as <-. simpl. unfold on_UserConnected. case_bool_decide; [done|].
    by destruct (hub_Load _ _).
  - injection H as <-. apply zombies_hub_closed.
  - by apply store_route_Some in H as ->.
Qed.

(** Only the end of its loop takes a connection out of [PConnected]. *)
Lemma lstep_connected st l st' s :
  lstep st l = Some st' -> phases st !! s = Some PConnected -> l <> LLoopEnds s ->
  phases st' !! s = Some PConnected.
Proof.
  intros H Hp Hl. destruct (session_of l) as [s'|] eqn:El.
  - destruct (lstep_forward _ _ _ _ H El) as (p & q & Hp' & Eq & _). rewrite Eq.
    destruct (decide (s' = s)) as [->|Hne]; [|by rewrite lookup_insert_ne].
    destruct l; try done; injection El as ->; simpl in H;
      try (apply at_phase_Some in H as [H _]; congruence).
    + unfold init in H. case_decide; [done|]. apply at_phase_Some in H as [H _]. congruence.
    + unfold stop_job in H. by rewrite Hp in H.
  - destruct l; try done; try by rewrite (lstep_phases _ _ _ H).
    apply accept_phases in H as [Hn ->]. simpl. destruct (decide (s0 = s)) as [->|]; [congruence|].
    by rewrite lookup_insert_ne.
Qed.

Lemma leave_Some st s st' :
  leave st s = Some st' ->
  exists x, lstep (life st) (LLoopEnds s) = Some x /\
    st' = set_receiving (set_life st x) (receiving st ∖ {[s]}).
Proof. unfold leave. destruct (lstep _ _) as [x|]; [|done]. intros [= <-]. eauto. Qed.

(** What a step does to the state of the connections. *)
Inductive life_step (st st' : PState) : proxy_label -> Prop :=
  | ls_same l : life st' = life st -> life_step st st' l
  | ls_step l l' : lstep (life st) l' = Some (life st') ->
      (forall s, l' = LLoopEnds s -> receiving st' = receiving st ∖ {[s]}) ->
      (receiving st' = receiving st \/ exists s, l' = LLoopEnds s) -> life_step st st' l
  | ls_refused l s : life st' = set_gw (life st) (sess_Close (gw (life st)) s).2 ->
      receiving st' = receiving st -> life_step st st' l
  | ls_hub : stage st = DoneClosed -> stage st' = HubClosed -> receiving st' = receiving st ->
      life st' = set_gw (life st) (hub_Close (gw (life st))) -> life_step st st' PCloseHub.

Lemma leave_life st s st' l : leave st s = Some st' -> life_step st st' l.
Proof.
  intros (x & Hx & ->)%leave_Some. apply (ls_step _ _ _ (LLoopEnds s)); [done| |].
  - by intros s' [= ->].
  - right. eauto.
Qed.

Lemma pstep_life st l st' : pstep st l = Some st' -> life_step st st' l.
Proof.
  intros H. destruct l as [s| | |err| | | | |s|s handed|s|interval| |l]; simpl in H.
  - unfold transport_accept in H. destruct (transport st); try done.
    destruct (listening st); [|done]. injection H as <-. by constructor.
  - unfold transport_err in H. destruct (transport st); try done. injection H as <-.
    constructor. by destruct (listening st).
  - unfold transport_context in H. destruct (transport st); try done. injection H as <-. by constructor.
  - unfold proxy_offer in H. destruct (transport st) as [|s|]; try done.
    destruct (acceptor st); [|done]. destruct err.
    + injection H as <-. by apply (ls_refused _ _ _ s).
    + destruct (lstep (life st) (LAccept s)) eqn:E; [|done]. injection H as <-.
      apply (ls_step _ _ _ (LAccept s)); [done|done|by left].
  - unfold acceptor_done in H. destruct (_ && _); [|done]. injection H as <-. by constructor.
  - unfold stop_done in H. destruct (stage st); try done. injection H as <-. by constructor.
  - unfold stop_hub in H. destruct (stage st) eqn:E; try done. injection H as <-. by constructor.
  - unfold stop_listener in H. destruct (stage st); try done. injection H as <-. by constructor.
  - unfold loop_top in H. case_decide; [|done]. destruct (done st); [by eapply leave_life|].
    injection H as <-. by constructor.
  - unfold loop_recv in H. case_decide; [|done]. destruct handed; [injection H as <-; by constructor|].
    destruct (done st); [|done]. by eapply leave_life.
  - unfold loop_err in H. case_decide; [|done]. by eapply leave_life.
  - destruct (scanner st); [|done]. injection H as <-.
    apply (ls_step _ _ _ (LZombies interval)); [done|done|by left].
  - destruct (_ && _); [|done]. injection H as <-. by constructor.
  - destruct (own_step l) eqn:Eo; [done|]. destruct (lstep (life st) l) eqn:E; [|done].
    injection H as <-. apply (ls_step _ _ _ l); [done| |by left]. by intros s ->.
Qed.

Record proxy_inv (st : PState) : Prop := {
  pi_recv : forall s, s ∈ receiving st -> phases (life st) !! s = Some PConnected;
  pi_jobs : jobs_ok (life st);
  pi_hub : stage st = Running \/ stage st = DoneClosed -> hub_closed (gw (life st)) = false;
}.

Definition started (g : Gateway) : PState := {|
  life := lstart g; stage := Running; listening := true; transport := TAccepting;
  acceptor := true; scanner := true; receiving := ∅ |}.

Lemma proxy_inv_start g : hub_closed g = false -> proxy_inv (started g).
Proof.
  intros Hg. split; simpl; [by intros s ?%elem_of_empty| |done].
  split; simpl; intros *; by rewrite lookup_empty.
Qed.

Lemma leave_stage st s st' : leave st s = Some st' -> stage st' = stage st.
Proof. by intros (x & _ & ->)%leave_Some. Qed.

(** [Stop] goes from stage to stage. *)
Lemma pstep_stage st l st' :
  pstep st l = Some st' ->
  stage st' = stage st \/ (l = PCloseDone /\ stage st = Running /\ stage st' = DoneClosed) \/
  (l = PCloseHub /\ stage st = DoneClosed /\ stage st' = HubClosed) \/
  (l = PCloseListener /\ stage st = HubClosed /\ stage st' = Stopped).
Proof.
  intros H. destruct l as [s| | |err| | | | |s|s handed|s|interval| |l]; simpl in H.
  - unfold transport_accept in H. destruct (transport st); try done.
    destruct (listening st); [|done]. injection H as <-. by left.
  - unfold transport_err in H. destruct (transport st); try done. injection H as <-.
    left. by destruct (listening st).
  - unfold transport_context in H. destruct (transport st); try done. injection H as <-. by left.
  - unfold proxy_offer in H. destruct (transport st) as [|s|]; try done.
    destruct (acceptor st); [|done]. destruct err; [injection H as <-; by left|].
    destruct (lstep (life st) (LAccept s)); [|done]. injection H as <-. by left.
  - unfold acceptor_done in H. destruct (_ && _); [|done]. injection H as <-. by left.
  - unfold stop_done in H. destruct (stage st); try done. injection H as <-. by right; left.
  - unfold stop_hub in H. destruct (stage st); try done. injection H as <-. by right; right; left.
  - unfold stop_listener in H. destruct (stage st); try done. injection H as <-. by right; right; right.
  - unfold loop_top in H. case_decide; [|done]. left.
    destruct (done st); [by eapply leave_stage|]. by injection H as <-.
  - unfold loop_recv in H. case_decide; [|done]. left. destruct handed; [by injection H as <-|].
    destruct (done st); [|done]. by eapply leave_stage.
  - unfold loop_err in H. case_decide; [|done]. left. by eapply leave_stage.
  - destruct (scanner st); [|done]. injection H as <-. by left.
  - destruct (_ && _); [|done]. injection H as <-. by left.
  - destruct (own_step l); [done|]. destruct (lstep (life st) l); [|done]. injection H as <-. by left.
Qed.

Lemma pstep_done st l st' : pstep st l = Some st' -> done st = true -> done st' = true.
Proof.
  unfold done. rewrite !negb_true_iff, !bool_decide_eq_false.
  intros [->|[(_ & _ & ->)|[(_ & _ & ->)|(_ & _ & ->)]]]%pstep_stage; done.
Qed.

Lemma leave_receiving st s st' : leave st s = Some st' -> receiving st' = receiving st ∖ {[s]}.
Proof. by intros (x & _ & ->)%leave_Some. Qed.

(** What a step does to the connections in [Recv]. *)
Lemma pstep_receiving st l st' :
  pstep st l = Some st' ->
  match l with
  | PTop s => phases (life st) !! s = Some PConnected /\
      (done st = false /\ life st' = life st /\ receiving st' = {[s]} ∪ receiving st \/
       done st = true /\ receiving st' = receiving st ∖ {[s]})
  | PRecv s _ | PRecvErr s => s ∈ receiving st /\ receiving st' = receiving st ∖ {[s]}
  | _ => receiving st' = receiving st
  end.
Proof.
  intros H. destruct l as [s| | |err| | | | |s|s handed|s|interval| |l]; simpl in H.
  - unfold transport_accept in H. destruct (transport st); try done.
    destruct (listening st); [|done]. by injection H as <-.
  - unfold transport_err in H. destruct (transport st); try done. injection H as <-.
    by destruct (listening st).
  - unfold transport_context in H. destruct (transport st); try done. by injection H as <-.
  - unfold proxy_offer in H. destruct (transport st) as [|s|]; try done.
    destruct (acceptor st); [|done]. destruct err; [by injection H as <-|].
    destruct (lstep (life st) (LAccept s)); [|done]. by injection H as <-.
  - unfold acceptor_done in H. destruct (_ && _); [|done]. by injection H as <-.
  - unfold stop_done in H. destruct (stage st); try done. by injection H as <-.
  - unfold stop_hub in H. destruct (stage st); try done. by injection H as <-.
  - unfold stop_listener in H. destruct (stage st); try done. by injection H as <-.
  - unfold loop_top in H. case_decide as Hd; [|done]. destruct Hd as [Hp _]. split; [done|].
    destruct (done st); [right; split; [done|by apply leave_receiving]|].
    injection H as <-. by left.
  - unfold loop_recv in H. case_decide; [|done]. split; [done|]. destruct handed; [by injection H as <-|].
    destruct (done st); [|done]. by apply leave_receiving.
  - unfold loop_err in H. case_decide; [|done]. split; [done|]. by apply leave_receiving.
  - destruct (scanner st); [|done]. by injection H as <-.
  - destruct (_ && _); [|done]. by injection H as <-.
  - destruct (own_step l); [done|]. destruct (lstep (life st) l); [|done]. by injection H as <-.
Qed.

Lemma pstep_receiving_back st l st' s :
  pstep st l = Some st' -> s ∈ receiving st' ->
  s ∈ receiving st \/ (l = PTop s /\ done st = false /\ life st' = life st /\
                     phases (life st) !! s = Some PConnected).
Proof.
  intros H Hs. apply pstep_receiving in H. destruct l; try (left; congruence).
  - destruct H as [Hp [(Hd & Hl & E)|(Hd & E)]]; rewrite E in Hs; [|left; set_solver].
    apply elem_of_union in Hs as [->%elem_of_singleton|Hs]; [right|left]; done.
  - destruct H as [_ E]. rewrite E in Hs. left; set_solver.
  - destruct H as [_ E]. rewrite E in Hs. left; set_solver.
Qed.

Lemma pstep_inv st l st' : proxy_inv st -> pstep st l = Some st' -> proxy_inv st'.
Proof.
  intros [Hr Hj Hh] H. pose proof (pstep_life _ _ _ H) as Hl. split.
  - intros s Hs. destruct (pstep_receiving_back _ _ _ _ H Hs) as [Hs'|(_ & _ & -> & Hp)]; [|done].
    specialize (Hr _ Hs').
    destruct Hl as [l ->|l l' Hl' Hr' _|l s' -> _|_ _ _ ->]; [done| |done|].
    + apply (lstep_connected _ _ _ _ Hl' Hr). intros ->. rewrite (Hr' s eq_refl) in Hs. set_solver.
    + simpl. done.
  - destruct Hl as [l ->|l l' Hl' _ _|l s' -> _|_ _ _ ->]; [done| | |].
    + by eapply lstep_jobs_ok.
    + by eapply jobs_ok_stay.
    + by eapply jobs_ok_stay.
  - intros Hs. destruct (pstep_stage _ _ _ H) as [E|[(_ & E & E')|[(_ & E & E')|(_ & E & E')]]].
    + rewrite E in Hs. specialize (Hh Hs). destruct Hl as [l ->|l l' Hl' _ _|l s' -> _|E1 E2 _ _];
        [done| |done|congruence]. by rewrite (lstep_hub_closed _ _ _ Hl').
    + specialize (Hh (or_introl E)). destruct Hl as [l ->|l l' Hl' _ _|l s' -> _|E1 E2 _ _];
        [done| |done|congruence]. by rewrite (lstep_hub_closed _ _ _ Hl').
    + rewrite E' in Hs. by destruct Hs.
    + rewrite E' in Hs. by destruct Hs.
Qed.

Lemma prun_inv ls st st' : proxy_inv st -> prun st ls = Some st' -> proxy_inv st'.
Proof.
  revert st. induction ls as [|l ls IH]; intros st Hi; simpl; [by intros [= <-]|].
  destruct (pstep st l) as [st1|] eqn:E; [|done]. apply IH. by eapply pstep_inv.
Qed.

(** ** What [SessionHub.Close] does *)

Lemma close_all_heap (l : list (string * sess_ptr)) g s :
  Sess_Closed (heap g s) = true \/ s ∈ l.*2 ->
  Sess_Closed (heap (foldl (fun gw '(id, s) =>
     let gw := (sess_Close gw s).2 in set_sessions gw (delete id (sessions gw))) g l) s) = true.
Proof.
  revert g. induction l as [|[id s'] l IH]; intros g; [by intros [?|?%elem_of_nil]|].
  intros H. cbn [foldl]. apply IH. unfold sess_Close. cbn [snd set_sessions heap].
  rewrite set_sess_heap. case_decide as E; [by left|].
  destruct H as [H|[->|H]%elem_of_cons]; [by left|done|by right].
Qed.

Lemma hub_Close_closes g id s :
  hub_closed g = false -> hub_Load g id = Some s -> Sess_Closed (heap (hub_Close g) s) = true.
Proof.
  unfold hub_Close, hub_Load. intros -> Hs. apply close_all_heap. right.
  apply list_elem_of_fmap. exists (id, s). split; [done|]. by apply elem_of_range_entries.
Qed.

Lemma hub_Close_open g s :
  Sess_Closed (heap (hub_Close g) s) = false -> Sess_Closed (heap g s) = false.
Proof.
  unfold hub_Close. destruct (hub_closed g); [done|]. intros H. apply not_true_iff_false. intros E.
  assert (Sess_Closed (heap (set_hub_closed g true) s) = true \/ s ∈ (range_entries (sessions g)).*2)
    as Hor by (by left).
  enough (true = false) by done. rewrite <- H. symmetry. exact (close_all_heap _ _ _ Hor).
Qed.

(** A session that is received from was open before if it is open. *)
Lemma pstep_open_back st l st' s :
  proxy_inv st -> pstep st l = Some st' -> s ∈ receiving st ->
  open (life st') s -> open (life st) s.
Proof.
  intros [Hr _ _] H Hs. specialize (Hr _ Hs).
  destruct (pstep_life _ _ _ H) as [l ->|l l' Hl' _ _|l s' -> _|_ _ _ ->]; [done| | |].
  - apply lstep_shape in Hl' as [(_ & _ & _ & Hk)|(s' & p & q & Hm)]; [by apply Hk|].
    destruct (decide (s = s')) as [->|Hne]; [|by apply (mv_others _ _ _ _ _ _ Hm)].
    apply (mv_self _ _ _ _ _ _ Hm). rewrite <- (mv_from _ _ _ _ _ _ Hm). congruence.
  - by apply (close_keeps (life st) _ s').
  - apply hub_Close_open.
Qed.

Lemma prun_receiving_back ls st st' s :
  proxy_inv st -> done st = true -> prun st ls = Some st' -> s ∈ receiving st' ->
  s ∈ receiving st /\ (open (life st') s -> open (life st) s).
Proof.
  revert st. induction ls as [|l ls IH]; intros st Hi Hd; simpl; [by intros [= <-]|].
  destruct (pstep st l) as [st1|] eqn:E; [|done]. intros Hrun Hs.
  destruct (IH st1) as [Hs1 Ho]; [by eapply pstep_inv|by eapply pstep_done|done|done|].
  destruct (pstep_receiving_back _ _ _ _ E Hs1) as [Hs0|(_ & Hd' & _)]; [|congruence].
  split; [done|]. intros H. eapply pstep_open_back; eauto.
Qed.

(** ** Every connection goes on until it ends *)

(** A step that needs nothing from the client: [Recv] fails once the session is closed, and
    an initializer that reads from the session returns when the client pleases. *)
Definition unaided (st : PState) (l : proxy_label) : bool :=
  match l with
  | PRecv _ _ => false
  | PRecvErr s => Sess_Closed (heap (gw (life st)) s)
  | PLife (LInit _ _ _) | PLife (LInitFailed _) => false
  | _ => true
  end.
Definition goes_on (st : PState) (s : sess_ptr) : Prop :=
  exists l st', conn_of l = Some s /\ unaided st l = true /\ pstep st l = Some st'.

Lemma goes_on_life st s l x :
  session_of l = Some s -> own_step l = false -> unaided st (PLife l) = true -> lstep (life st) l = Some x ->
  goes_on st s.
Proof.
  intros Hl Ho Hu Hx. exists (PLife l), (set_life st x). simpl. by rewrite Ho, Hx.
Qed.

Lemma at_phase_ok st s p next : phases st !! s = Some p -> at_phase st s p next = Some next.
Proof. intros Hp. unfold at_phase. by rewrite decide_True. Qed.

Lemma connection_goes_on st s p :
  proxy_inv st -> done st = true -> phases (life st) !! s = Some p ->
  p = PDone \/ p = PStuck \/ p = PAccepted \/ (s ∈ receiving st /\ open (life st) s) \/ goes_on st s.
Proof.
  intros [_ [_ Hj] _] Hd Hp.
  destruct p as [| | |t| | | | | | | | | |]; try (by left); try (by right; left); try (by right; right; left);
    right; right; right.
  - right. eapply (goes_on_life st s (LClosePrev s)); [done..|by apply at_phase_ok].
  - right. eapply (goes_on_life st s (LLoadJob s)); [done..|by apply at_phase_ok].
  - right. destruct (lookup_lt_is_Some_2 (timers (life st)) t) as [tm Ht]; [by eapply Hj|].
    assert (exists x, lstep (life st) (LStopJob s) = Some x) as [x Hx].
    { simpl. unfold stop_job. rewrite Hp, Ht. case_decide; eauto. }
    by eapply (goes_on_life st s (LStopJob s)).
  - right. eapply (goes_on_life st s (LDropJob s)); [done..|by apply at_phase_ok].
  - right. eapply (goes_on_life st s (LPublish s)); [done..|by apply at_phase_ok].
  - right. eapply (goes_on_life st s (LStore s)); [done..|by apply at_phase_ok].
  - right. eapply (goes_on_life st s (LCount s)); [done..|by apply at_phase_ok].
  - assert (exists st', leave st s = Some st') as [st' Hl].
    { unfold leave. simpl. unfold loop_ends. rewrite at_phase_ok by done. eauto. }
    destruct (decide (s ∈ receiving st)) as [Hs|Hs].
    + destruct (Sess_Closed (heap (gw (life st)) s)) eqn:Hc; [right|by left].
      exists (PRecvErr s), st'. simpl. unfold loop_err. by rewrite decide_True.
    + right. exists (PTop s), st'. simpl. unfold loop_top. rewrite Hd.
      by rewrite decide_True.
  - right. eapply (goes_on_life st s (LDelete s)); [done..|by apply at_phase_ok].
  - right. eapply (goes_on_life st s (LSchedule s)); [done..|by apply at_phase_ok].
  - right. eapply (goes_on_life st s (LClose s)); [done..|by apply at_phase_ok].
Qed.

(** ** How many steps are left *)

Definition measure (st : PState) : nat := (weight (phases (life st)) + size (receiving st))%nat.
Definition is_offer (l : proxy_label) : bool := match l with POffer None => true | _ => false end.

Lemma pstep_phases st l st' :
  pstep st l = Some st' -> conn_of l = None ->
  phases (life st') = phases (life st) \/
  (is_offer l = true /\ exists s, phases (life st) !! s = None /\
     phases (life st') = <[s := PAccepted]> (phases (life st))).
Proof.
  intros H Hc. destruct l as [s| | |err| | | | |s|s handed|s|interval| |l]; simpl in H; try done.
  - unfold transport_accept in H. destruct (transport st); try done.
    destruct (listening st); [|done]. injection H as <-. by left.
  - unfold transport_err in H. destruct (transport st); try done. injection H as <-.
    left. by destruct (listening st).
  - unfold transport_context in H. destruct (transport st); try done. injection H as <-. by left.
  - unfold proxy_offer in H. destruct (transport st) as [|s|]; try done.
    destruct (acceptor st); [|done]. destruct err; [injection H as <-; by left|].
    destruct (lstep (life st) (LAccept s)) as [x|] eqn:E; [|done]. injection H as <-.
    apply accept_phases in E as [Hn ->]. right. split; [done|]. by exists s.
  - unfold acceptor_done in H. destruct (_ && _); [|done]. injection H as <-. by left.
  - unfold stop_done in H. destruct (stage st); try done. injection H as <-. by left.
  - unfold stop_hub in H. destruct (stage st); try done. injection H as <-. by left.
  - unfold stop_listener in H. destruct (stage st); try done. injection H as <-. by left.
  - destruct (scanner st); [|done]. injection H as <-. by left.
  - destruct (_ && _); [|done]. injection H as <-. by left.
  - destruct (own_step l) eqn:Eo; [done|].
    destruct (lstep (life st) l) as [x|] eqn:E; [|done]. injection H as <-. left. simpl.
    apply (lstep_phases _ _ _ E); [done|]. by intros s ->.
Qed.

Lemma forward_weight st st' s : forward st st' s -> (weight (phases st') < weight (phases st))%nat.
Proof. intros (p & q & Hp & -> & Hr). pose proof (weight_insert _ _ _ q Hp). lia. Qed.

Lemma leave_measure st s st' : leave st s = Some st' -> (measure st' < measure st)%nat.
Proof.
  intros (x & Hx & ->)%leave_Some. apply (lstep_forward _ _ _ s) in Hx; [|done].
  apply forward_weight in Hx. unfold measure. simpl.
  assert (size (receiving st ∖ {[s]}) <= size (receiving st))%nat by (apply subseteq_size; set_solver).
  lia.
Qed.

Lemma pstep_measure_conn st l st' s :
  done st = true -> pstep st l = Some st' -> conn_of l = Some s -> (measure st' < measure st)%nat.
Proof.
  intros Hd H Hc. destruct l as [s'| | |err| | | | |s'|s' handed|s'|interval| |l]; try done; simpl in H.
  - unfold loop_top in H. case_decide; [|done]. rewrite Hd in H. by apply leave_measure in H.
  - unfold loop_recv in H. case_decide as Hs; [|done]. destruct handed.
    + injection H as <-. unfold measure. simpl.
      assert (size (receiving st ∖ {[s']}) < size (receiving st))%nat by (apply subset_size; set_solver).
      lia.
    + rewrite Hd in H. by apply leave_measure in H.
  - unfold loop_err in H. case_decide; [|done]. by apply leave_measure in H.
  - destruct (own_step l); [done|]. destruct (lstep (life st) l) as [x|] eqn:E; [|done].
    injection H as <-. apply (lstep_forward _ _ _ s) in E; [|done]. apply forward_weight in E.
    unfold measure. simpl. lia.
Qed.

Lemma pstep_measure_other st l st' :
  pstep st l = Some st' -> conn_of l = None ->
  (measure st' <= measure st + if is_offer l then 12 else 0)%nat.
Proof.
  intros H Hc. assert (receiving st' = receiving st) as Hr
    by (apply pstep_receiving in H; by destruct l).
  unfold measure. rewrite Hr. destruct (pstep_phases _ _ _ H Hc) as [->|(-> & s & Hs & ->)]; [lia|].
  rewrite weight_new by done. simpl. lia.
Qed.

(** The steps of connections, and the connections accepted, in a run. *)
Definition conn_steps (ls : list proxy_label) : list proxy_label := filter (fun l => is_Some (conn_of l)) ls.
Definition offers (ls : list proxy_label) : list proxy_label := filter (fun l => is_offer l = true) ls.

Lemma conn_steps_bound ls st st' :
  done st = true -> prun st ls = Some st' ->
  (length (conn_steps ls) + measure st' <= measure st + 12 * length (offers ls))%nat.
Proof.
  revert st. induction ls as [|l ls IH]; intros st Hd; simpl; [intros [= <-]; simpl; lia|].
  destruct (pstep st l) as [st1|] eqn:E; [|done]. intros Hrun.
  specialize (IH st1 (pstep_done _ _ _ E Hd) Hrun). unfold conn_steps, offers in *.
  rewrite !filter_cons. destruct (conn_of l) as [s|] eqn:Hc.
  - rewrite decide_True by eauto. pose proof (pstep_measure_conn _ _ _ _ Hd E Hc).
    rewrite decide_False by (by destruct l). simpl. lia.
  - rewrite decide_False by (intros [? ?]; done). pose proof (pstep_measure_other _ _ _ E Hc).
    destruct (is_offer l); [rewrite decide_True by done|rewrite decide_False by done]; simpl; lia.
Qed.

Lemma receiving_bound st : proxy_inv st -> (measure st <= 13 * size (phases (life st)))%nat.
Proof.
  intros [Hr _ _]. unfold measure. pose proof (weight_bound (phases (life st))).
  assert (size (receiving st) <= size (dom (phases (life st))))%nat as Hs.
  { apply subseteq_size. intros s Hs. apply elem_of_dom. rewrite (Hr s Hs). eauto. }
  rewrite size_dom in Hs. lia.
Qed.

(** A session that the transport offers when the loop of [Start] has ended stays with it:
    nothing takes it, and nothing closes its connection. *)
Lemma offered_session_waits st s l st' :
  acceptor st = false -> transport st = TOffering s -> pstep st l = Some st' ->
  acceptor st' = false /\ transport st' = TOffering s.
Proof.
  intros Ha Ht H. destruct l as [s'| | |err| | | | |s'|s' handed|s'|interval| |l]; simpl in H.
  - unfold transport_accept in H. by rewrite Ht in H.
  - unfold transport_err in H. by rewrite Ht in H.
  - unfold transport_context in H. by rewrite Ht in H.
  - unfold proxy_offer in H. by rewrite Ht, Ha in H.
  - unfold acceptor_done in H. by rewrite Ha in H.
  - unfold stop_done in H. destruct (stage st); try done. by injection H as <-.
  - unfold stop_hub in H. destruct (stage st); try done. by injection H as <-.
  - unfold stop_listener in H. destruct (stage st); try done. by injection H as <-.
  - unfold loop_top in H. case_decide; [|done].
    destruct (done st); [by apply leave_Some in H as (x & _ & ->)|]. by injection H as <-.
  - unfold loop_recv in H. case_decide; [|done]. destruct handed; [by injection H as <-|].
    destruct (done st); [|done]. by apply leave_Some in H as (x & _ & ->).
  - unfold loop_err in H. case_decide; [|done]. by apply leave_Some in H as (x & _ & ->).
  - destruct (scanner st); [|done]. by injection H as <-.
  - destruct (_ && _); [|done]. by injection H as <-.
  - destruct (own_step l); [done|]. destruct (lstep (life st) l); [|done]. by injection H as <-.
Qed.
End ProxyLemmas.

(** ** The claims *)
Section ProxyClaims.
Context `{U : ULID} `{R : MapRange} `{N : Net} `{X : XXHash} `{G : GRPCDial} `{SI : SessionIface}.

Lemma prun_done ls st st' : prun st ls = Some st' -> done st = true -> done st' = true.
Proof.
  revert st. induction ls as [|l ls IH]; intros st; simpl; [by intros [= <-]|].
  destruct (pstep st l) as [st1|] eqn:E; [|done]. intros Hrun Hd. apply (IH st1); [done|].
  by eapply pstep_done.
Qed.

(** C24. [Stop] ends the connections of a gateway. Once it has closed the session hub, the
    goroutines of the connections together make at most thirteen steps for each
    connection there is or is still accepted, and each of them can go on until it has ended
    without waiting for its client, but for those whose initializer has not returned, which
    nothing cancels, those that wait for a clean-up timer that fired, and those in [Recv]
    whose session was not found in the hub under the ID of its user, because another session
    of the user had taken its place. *)
Theorem Stop_drains g st0 ls1 st1 st2 ls2 st :
  Start g None = Ok st0 -> hub_closed g = false ->
  prun st0 ls1 = Some st1 -> pstep st1 PCloseHub = Some st2 -> prun st2 ls2 = Some st ->
  (length (conn_steps ls2) <= 13 * (size (phases (life st1)) + length (offers ls2)))%nat /\
  (forall s p, phases (life st) !! s = Some p ->
     p = PDone \/ p = PStuck \/ p = PAccepted \/ goes_on st s \/
     (s ∈ receiving st /\ hub_Load (gw (life st1)) (id_of (life st1) s) <> Some s)).
Proof.
  intros [= <-] Hg H1 H2 H3. change (prun (started g) ls1 = Some st1) in H1.
  pose proof (prun_inv _ _ _ (proxy_inv_start g Hg) H1) as Hi1.
  pose proof (pstep_inv _ _ _ Hi1 H2) as Hi2. pose proof (prun_inv _ _ _ Hi2 H3) as Hi.
  assert (stage st1 = DoneClosed /\
    st2 = set_stage (set_life st1 (set_gw (life st1) (hub_Close (gw (life st1))))) HubClosed) as [E1 Est].
  { clear -H2. simpl in H2. unfold stop_hub in H2. destruct (stage st1); try done. by injection H2 as <-. }
  assert (done st2 = true) as Hd2 by (by rewrite Est).
  split.
  - pose proof (conn_steps_bound _ _ _ Hd2 H3). pose proof (receiving_bound _ Hi2) as Hb.
    rewrite Est in Hb at 2. simpl in Hb. lia.
  - intros s p Hp. destruct (connection_goes_on st s p Hi) as [?|[?|[?|[[Hs Ho]|?]]]]; eauto 6;
      [by eapply prun_done|]. do 4 right. split; [done|]. intros Hl.
    destruct (prun_receiving_back _ _ _ _ Hi2 Hd2 H3 Hs) as [_ Ho2]. specialize (Ho2 Ho).
    rewrite Est in Ho2. unfold open in Ho2. simpl in Ho2.
    rewrite (hub_Close_closes _ _ _ (pi_hub _ Hi1 (or_intror E1)) Hl) in Ho2. done.
Qed.

(** The requests of a connection that are handed on in a run. *)
Definition hands_on (s : sess_ptr) (l : proxy_label) : bool :=
  match l with PRecv s' true => bool_decide (s' = s) | _ => false end.
Definition handed_on (s : sess_ptr) (ls : list proxy_label) : list proxy_label :=
  filter (fun l => hands_on s l = true) ls.

(** A gateway that stops handles at most one more request of each connection: from
    the moment [Stop] has closed [done], only what a [Recv] that had begun before returns
    is handed on. *)
Theorem Stop_last_request ls st st' s :
  done st = true -> prun st ls = Some st' ->
  (length (handed_on s ls) <= if decide (s ∈ receiving st) then 1 else 0)%nat.
Proof.
  revert st. induction ls as [|l ls IH]; intros st Hd; simpl; [lia|].
  destruct (pstep st l) as [st1|] eqn:E; [|done]. intros Hrun.
  specialize (IH st1 (pstep_done _ _ _ E Hd) Hrun). unfold handed_on in *. rewrite filter_cons.
  assert (s ∈ receiving st1 -> s ∈ receiving st) as Hback.
  { intros H. destruct (pstep_receiving_back _ _ _ _ E H) as [?|(_ & ? & _)]; congruence. }
  destruct (decide (hands_on s l = true)) as [Hh|Hh].
  - destruct l as [| | | | | | | | |s' []| | | |]; try (by simpl in Hh). apply bool_decide_eq_true in Hh as ->.
    apply pstep_receiving in E as [Hs E]. rewrite decide_True by done.
    rewrite decide_False in IH by (rewrite E; set_solver). simpl. lia.
  - repeat case_decide; try lia. naive_solver.
Qed.
End ProxyClaims.

(** ** Witnesses *)

(** A user connects, the gateway stops. *)
Definition before_hub : list proxy_label :=
  [PAccept 0%nat; POffer None; PLife (LInit 0%nat "alice" ∅); PLife (LClosePrev 0%nat);
   PLife (LLoadJob 0%nat); PLife (LPublish 0%nat); PLife (LStore 0%nat); PLife (LCount 0%nat);
   PTop 0%nat; PCloseDone].
Definition p_after (ls : list proxy_label) : PState := default (started empty_gateway) (prun (started empty_gateway) ls).

(** It ends. *)
Definition after_hub : list proxy_label :=
  [PCloseListener; PAcceptErr; PAcceptorDone; PScanDone; PRecvErr 0%nat; PLife (LDelete 0%nat);
   PLife (LSchedule 0%nat); PLife (LClose 0%nat)].

Lemma before_hub_run : prun (started empty_gateway) before_hub = Some (p_after before_hub).
Proof.
  assert (is_Some (prun (started empty_gateway) before_hub)) as [st E] by (vm_compute; eauto).
  unfold p_after. by rewrite E.
Qed.

(** Stopping closes the sessions of the hub only: one whose initializer waits for its client
    stays open, and its goroutine waits, when everything else of the gateway has ended. *)
Theorem initializer_outlives_Stop :
  exists ls st, prun (started empty_gateway) ls = Some st /\ done st = true /\ stage st = Stopped /\
    scanner st = false /\ phases (life st) !! 0%nat = Some PAccepted /\ open (life st) 0%nat.
Proof.
  set (ls := [PAccept 0%nat; POffer None; PCloseDone; PCloseHub; PCloseListener; PAcceptErr; PAcceptorDone; PScanDone]).
  exists ls, (p_after ls). split_and!; vm_compute; reflexivity.
Qed.

Lemma Stop_drains_witness :
  goes_on (p_after (before_hub ++ [PCloseHub])) 0%nat /\
  exists st, prun (p_after (before_hub ++ [PCloseHub])) after_hub = Some st /\
    (length (conn_steps after_hub) <= 13)%nat.
Proof.
  assert (pstep (p_after before_hub) PCloseHub = Some (p_after (before_hub ++ [PCloseHub]))) as Hhub
    by (vm_compute; reflexivity).
  split.
  - destruct (Stop_drains empty_gateway (started empty_gateway) before_hub (p_after before_hub)
      (p_after (before_hub ++ [PCloseHub])) [] (p_after (before_hub ++ [PCloseHub]))
      eq_refl eq_refl before_hub_run Hhub eq_refl) as [_ H].
    destruct (H 0%nat PConnected) as [E|[E|[E|[E|[_ E]]]]];
      [vm_compute; reflexivity|discriminate E|discriminate E|discriminate E|exact E|].
    destruct E. vm_compute. reflexivity.
  - destruct (prun (p_after (before_hub ++ [PCloseHub])) after_hub) as [st|] eqn:E;
      [|vm_compute in E; discriminate E].
    exists st. split; [reflexivity|].
    apply (Stop_drains empty_gateway (started empty_gateway) before_hub (p_after before_hub)
      (p_after (before_hub ++ [PCloseHub])) after_hub st eq_refl eq_refl before_hub_run Hhub E).
Defined.

Lemma Stop_last_request_witness :
  exists st, prun (p_after before_hub) [PRecv 0%nat true; PTop 0%nat] = Some st /\
    (length (handed_on 0%nat [PRecv 0%nat true; PTop 0%nat]) <= 1)%nat.
Proof.
  destruct (prun (p_after before_hub) [PRecv 0%nat true; PTop 0%nat]) as [st|] eqn:E;
    [|vm_compute in E; discriminate E].
  exists st. split; [reflexivity|].
  etransitivity; [apply (Stop_last_request [PRecv 0%nat true; PTop 0%nat] (p_after before_hub) st 0%nat eq_refl E)|].
  by case_decide; lia.
Defined.
