(* ===== verification/Queue.v ===== *)
(** * Queue: the message queues ([internal/mq])

    The adapters that turn a subscription of NATS or Redis into a channel of messages, on
    which the multicast bus and the event bus rest. The servers and the libraries of their
    clients deliver what is published on a topic in order and at most once: any message on
    its way can be lost, when a connection breaks or when the program does not take its
    messages fast enough (NATS drops those of a slow consumer, go-redis those that its full
    channel does not take in time). What the program does with the others is below. *)

From S2P Require Import Prelude External Messages.

Local Open Scope list_scope.

(** [m_pending]: on their way to the program. [m_lost]: some of them were lost. [m_held]: in the
    callback or in the loop's last [select]. [m_chan], [m_read]: in [msgC], and read from
    it. [m_ctx]: the context is done. [m_done]: [Close] was called. [m_sub]: subscribed.
    [m_closed]: [msgC] is closed. *)
Record MQState := {
  m_published : list bytes;
  m_pending : list bytes;
  m_lost : bool;
  m_held : option bytes;
  m_chan : list bytes;
  m_read : list bytes;
  m_ctx : bool;
  m_done : bool;
  m_sub : bool;
  m_closed : bool;
}.

Definition held (st : MQState) : list bytes := match m_held st with Some m => [m] | None => [] end.

Definition m_flow (st : MQState) published pending hold chan read : MQState := {|
  m_published := published; m_pending := pending; m_lost := m_lost st; m_held := hold; m_chan := chan; m_read := read;
  m_ctx := m_ctx st; m_done := m_done st; m_sub := m_sub st; m_closed := m_closed st |}.
Definition m_flags (st : MQState) ctx done sub closed : MQState := {|
  m_published := m_published st; m_pending := m_pending st; m_lost := m_lost st; m_held := m_held st;
  m_chan := m_chan st; m_read := m_read st;
  m_ctx := ctx; m_done := done; m_sub := sub; m_closed := closed |}.

(** A message on its way is lost. *)
Definition m_lose (st : MQState) (i : nat) : option MQState :=
  match m_pending st !! i with
  | None => None
  | Some _ =>
      Some {|
        m_published := m_published st; m_pending := delete i (m_pending st); m_lost := true;
        m_held := m_held st; m_chan := m_chan st; m_read := m_read st;
        m_ctx := m_ctx st; m_done := m_done st; m_sub := m_sub st; m_closed := m_closed st |}
  end.

Inductive mq_label :=
  | MPublish (m : bytes)   (** someone publishes on the topic *)
  | MLose (i : nat)        (** a message on its way is lost *)
  | MSubscribe             (** Redis: the goroutine subscribes *)
  | MDeliver               (** the next message reaches the program *)
  | MPush                  (** [msgC <- m] *)
  | MSkip                  (** the other case of that [select] *)
  | MRead                  (** the consumer reads [msgC] *)
  | MCancel                (** the context of the subscriber is done *)
  | MClose                 (** [Close] *)
  | MUnsubscribe           (** the goroutine that waits for the end unsubscribes *)
  | MClosed.               (** [msgC] is closed *)

(** ** NATS *)

Definition nats_cap : nat := 100.

(** [natsMQ.Subscribe] when it has returned a channel. *)
Definition nats_subscribed : MQState := {|
  m_published := []; m_pending := []; m_lost := false; m_held := None; m_chan := []; m_read := []; m_ctx := false;
  m_done := false; m_sub := true; m_closed := false |}.

(** [Close]: the second call panics. *)
Definition mq_Close (st : MQState) : option MQState :=
  if m_done st then None else Some (m_flags st (m_ctx st) true (m_sub st) (m_closed st)).

Definition nats_step (st : MQState) (l : mq_label) : option MQState :=
  match l with
  | MPublish m =>
      Some (m_flow st (m_published st ++ [m]) (if m_sub st then m_pending st ++ [m] else m_pending st)
              (m_held st) (m_chan st) (m_read st))
  | MLose i => m_lose st i
  | MSubscribe => None
  | MDeliver =>
      match m_sub st, m_held st, m_pending st with
      | true, None, m :: pending =>
          Some (m_flow st (m_published st) pending (Some m) (m_chan st) (m_read st))
      | _, _, _ => None
      end
  | MPush =>
      match m_held st with
      | Some m =>
          if (length (m_chan st) <? nats_cap)%nat
          then Some (m_flow st (m_published st) (m_pending st) None (m_chan st ++ [m]) (m_read st))
          else None
      | None => None
      end
  | MSkip =>
      match m_held st with
      | Some m => if m_ctx st
                  then Some (m_flow st (m_published st) (m_pending st) None (m_chan st) (m_read st))
                  else None
      | None => None
      end
  | MRead =>
      match m_chan st with
      | m :: chan => Some (m_flow st (m_published st) (m_pending st) (m_held st) chan (m_read st ++ [m]))
      | [] => None
      end
  | MCancel => Some (m_flags st true (m_done st) (m_sub st) (m_closed st))
  | MClose => mq_Close st
  | MUnsubscribe =>
      if (m_done st || m_ctx st) && m_sub st
      then Some (m_flags st true (m_done st) false (m_closed st)) else None
  | MClosed =>
      match m_sub st, m_held st, m_closed st with
      | false, None, false => Some (m_flags st (m_ctx st) (m_done st) false true)
      | _, _, _ => None
      end
  end.

(** ** Redis *)

(** [redisMQ.Subscribe] when it has returned: its goroutine has not subscribed yet. *)
Definition redis_subscribed : MQState := {|
  m_published := []; m_pending := []; m_lost := false; m_held := None; m_chan := []; m_read := []; m_ctx := false;
  m_done := false; m_sub := false; m_closed := false |}.

(** The channel has no buffer: pushing is reading. What is published before the
    goroutine subscribes is not delivered; [m_published] counts from there. *)
Definition redis_step (st : MQState) (l : mq_label) : option MQState :=
  match l with
  | MPublish m =>
      Some (if m_sub st
            then m_flow st (m_published st ++ [m]) (m_pending st ++ [m]) (m_held st) (m_chan st) (m_read st)
            else st)
  | MLose i => m_lose st i
  | MSubscribe =>
      if m_sub st || m_closed st then None
      else Some (m_flags st (m_ctx st) (m_done st) true (m_closed st))
  | MDeliver =>
      match m_sub st, m_held st, m_pending st with
      | true, None, m :: pending =>
          Some (m_flow st (m_published st) pending (Some m) (m_chan st) (m_read st))
      | _, _, _ => None
      end
  | MPush | MRead =>
      match m_held st with
      | Some m => Some (m_flow st (m_published st) (m_pending st) None (m_chan st) (m_read st ++ [m]))
      | None => None
      end
  | MSkip =>
      match m_held st with
      | Some m =>
          if m_done st
          then Some (m_flags (m_flow st (m_published st) (m_pending st) None (m_chan st) (m_read st))
                       (m_ctx st) (m_done st) false true)
          else None
      | None => None
      end
  | MCancel => Some (m_flags st true (m_done st) (m_sub st) (m_closed st))
  | MClose => mq_Close st
  | MUnsubscribe | MClosed =>
      match m_sub st, m_held st with
      | true, None => if m_done st || m_ctx st
                      then Some (m_flags st (m_ctx st) (m_done st) false true) else None
      | _, _ => None
      end
  end.

Section Run.
Variable step : MQState -> mq_label -> option MQState.
Fixpoint mq_run (st : MQState) (ls : list mq_label) : option MQState :=
  match ls with
  | [] => Some st
  | l :: ls => match step st l with Some st => mq_run st ls | None => None end
  end.

Lemma mq_run_invariant (I : MQState -> Prop) ls st st' :
  (forall st l st', I st -> step st l = Some st' -> I st') -> I st -> mq_run st ls = Some st' -> I st'.
Proof.
  intros Hstep. revert st. induction ls as [|l ls IH]; intros st Hi; simpl; [by intros [= <-]|].
  destruct (step st l) as [st1|] eqn:E; [|done]. apply IH. by eapply Hstep.
Qed.
End Run.

(** ** Lemmas *)

(** What has not been dropped. *)
Definition kept (st : MQState) : list bytes := m_read st ++ m_chan st ++ held st ++ m_pending st.

Record nats_inv (st : MQState) : Prop := {
  ni_all : m_ctx st = false -> m_lost st = false -> m_published st = kept st;
  ni_some : kept st `sublist_of` m_published st;
  ni_cap : (length (m_chan st) <= nats_cap)%nat;
  ni_sub : m_sub st = false -> m_ctx st = true;
  ni_closed : m_closed st = true -> m_sub st = false /\ m_held st = None;
}.

(** A step that only moves messages along. *)
Lemma nats_inv_move st st' :
  nats_inv st -> m_published st' = m_published st -> kept st' = kept st ->
  (length (m_chan st') <= nats_cap)%nat -> m_ctx st' = m_ctx st ->
  m_lost st' = m_lost st -> m_sub st' = m_sub st -> m_closed st' = m_closed st ->
  (m_sub st = false -> m_held st = None -> m_held st' = None) -> nats_inv st'.
Proof.
  intros [H1 H2 H3 H4 H5] Ep Ek Hc Ex El Es Ecl Hh. split; rewrite ?Ep, ?Ek, ?Ex, ?El, ?Es, ?Ecl; try done.
  intros [? ?]%H5. auto.
Qed.

Lemma nats_step_inv st l st' : nats_inv st -> nats_step st l = Some st' -> nats_inv st'.
Proof.
  intros Hi. pose proof Hi as [Hall Hsome Hcap Hsub Hcl]. unfold kept in *.
  destruct l as [m|i| | | | | | | | |]; simpl.
  - intros [= <-]. split; simpl; try done.
    + intros Hx Hl. destruct (m_sub st) eqn:E; [|by rewrite Hsub in Hx].
      rewrite (Hall Hx Hl). unfold kept. simpl. by rewrite <- !app_assoc.
    + unfold kept. simpl. destruct (m_sub st); [|by apply sublist_inserts_r].
      change (held (m_flow st _ _ _ _ _)) with (held st). rewrite !app_assoc. apply sublist_app; [|done].
      by rewrite <- !app_assoc.
  - unfold m_lose. destruct (m_pending st !! i); [|done]. intros [= <-]. split; simpl; try done.
    etransitivity; [|exact Hsome]. unfold kept. simpl. change (held {| m_held := m_held st |}) with (held st).
    repeat (apply sublist_app; [done|]). apply sublist_delete.
  - done.
  - destruct (m_sub st) eqn:Es; [|done]. destruct (m_held st) eqn:Eh; [done|].
    destruct (m_pending st) as [|m pending] eqn:Ep; [done|]. intros [= <-].
    apply (nats_inv_move st); try done; simpl; [|by rewrite Es].
    unfold kept, held. simpl. by rewrite Eh, Ep.
  - destruct (m_held st) as [m|] eqn:Eh; [|done]. destruct (Nat.ltb_spec (length (m_chan st)) nats_cap); [|done].
    intros [= <-]. apply (nats_inv_move st); try done; simpl.
    + unfold kept, held. simpl. rewrite Eh. by rewrite <- !app_assoc.
    + rewrite length_app. simpl. lia.
  - destruct (m_held st) as [m|] eqn:Eh; [|done]. destruct (m_ctx st) eqn:Ex; [|done]. intros [= <-].
    split; simpl; try done; try congruence.
    + etransitivity; [|exact Hsome]. unfold kept, held. simpl. rewrite Eh.
      apply sublist_app; [done|]. apply sublist_app; [done|]. apply (sublist_inserts_l [m]). done.
    + intros [? ?]%Hcl. done.
  - destruct (m_chan st) as [|m chan] eqn:Ec; [done|]. intros [= <-]. apply (nats_inv_move st); try done; simpl.
    + unfold kept, held. simpl. rewrite Ec. by rewrite <- !app_assoc.
    + simpl in Hcap. lia.
  - intros [= <-]. by split.
  - unfold mq_Close. destruct (m_done st); [done|]. intros [= <-]. by split.
  - destruct ((m_done st || m_ctx st) && m_sub st) eqn:E; [|done]. intros [= <-]. split; try done.
    simpl. intros [? ?]%Hcl. done.
  - destruct (m_sub st) eqn:Es; [done|]. destruct (m_held st) eqn:Eh; [done|].
    destruct (m_closed st) eqn:Ec; [done|]. intros [= <-]. by split.
Qed.

(** What a subscriber of a NATS queue reads from its channel are messages published on
    the topic, each at most once and in the order of publication; as long as none was lost
    on its way and its context is not done (and the queue has not ended it), those read,
    those in the channel, the one in the callback and those to come are exactly those
    published; the channel never holds more than a hundred; and nothing is sent on it once
    it is closed. *)
Theorem nats_in_order ls st :
  mq_run nats_step nats_subscribed ls = Some st ->
  m_read st ++ m_chan st `sublist_of` m_published st /\
  (m_ctx st = false -> m_lost st = false -> m_published st = kept st) /\
  (length (m_chan st) <= nats_cap)%nat /\
  (m_closed st = true -> nats_step st MPush = None /\ nats_step st MDeliver = None).
Proof.
  intros Hrun. assert (nats_inv nats_subscribed) as Hs by (split; simpl; try done; unfold nats_cap; lia).
  destruct (mq_run_invariant nats_step nats_inv ls _ _ nats_step_inv Hs Hrun) as [Hall Hsome Hcap _ Hcl].
  split_and!; try done.
  - etransitivity; [|exact Hsome]. unfold kept. rewrite app_assoc. by apply sublist_inserts_r.
  - intros [Es Eh]%Hcl. simpl. by rewrite Es, Eh.
Qed.

Record redis_inv (st : MQState) : Prop := {
  ri_all : m_closed st = false -> m_lost st = false -> m_published st = m_read st ++ held st ++ m_pending st;
  ri_some : m_read st ++ held st ++ m_pending st `sublist_of` m_published st;
  ri_prefix : m_lost st = false -> m_read st `prefix_of` m_published st;
  ri_held : m_closed st = true -> m_held st = None /\ m_sub st = false;
}.

Lemma redis_step_inv st l st' : redis_inv st -> redis_step st l = Some st' -> redis_inv st'.
Proof.
  intros Hi. pose proof Hi as [Hall Hsome Hpre Hh].
  assert (forall m, m_held st = Some m -> m_lost st = false ->
    m_published st = (m_read st ++ [m]) ++ m_pending st) as Hopen.
  { intros m Em El. destruct (m_closed st) eqn:Ec; [by destruct Hh as [? _]; congruence|].
    rewrite Hall by done. unfold held. rewrite Em. by rewrite <- app_assoc. }
  assert (forall m, m_held st = Some m ->
    redis_inv (m_flow st (m_published st) (m_pending st) None (m_chan st) (m_read st ++ [m]))) as Hpush.
  { intros m Em. split; simpl.
    - intros _. by apply Hopen.
    - unfold held in Hsome. rewrite Em in Hsome. by rewrite <- app_assoc.
    - intros El. rewrite (Hopen m Em El). by apply prefix_app_r.
    - intros [? ?]%Hh. done. }
  destruct l as [m|i| | | | | | | | |]; simpl.
  - intros [= <-]. destruct (m_sub st) eqn:Es; [|done]. split; simpl.
    + intros Hc Hl. rewrite (Hall Hc Hl). unfold held. simpl. by rewrite <- !app_assoc.
    + change (held (m_flow st _ _ _ _ _)) with (held st). rewrite !app_assoc. apply sublist_app; [|done].
      by rewrite <- !app_assoc.
    + intros Hl. by apply prefix_app_r, Hpre.
    + intros [_ ?]%Hh. congruence.
  - unfold m_lose. destruct (m_pending st !! i); [|done]. intros [= <-]. split; simpl; try done.
    etransitivity; [|exact Hsome]. change (held {| m_held := m_held st |}) with (held st).
    repeat (apply sublist_app; [done|]). apply sublist_delete.
  - destruct (m_sub st || m_closed st) eqn:E; [done|]. intros [= <-]. apply orb_false_iff in E as [_ Ec].
    split; simpl; [done|done|done|congruence].
  - destruct (m_sub st) eqn:Es; [|done]. destruct (m_held st) eqn:Em; [done|].
    destruct (m_pending st) as [|m pending] eqn:Ep; [done|]. intros [= <-].
    unfold held in Hall, Hsome. rewrite Em in Hall, Hsome. split; simpl; try done.
    intros [_ ?]%Hh. congruence.
  - destruct (m_held st) eqn:Em; [|done]. intros [= <-]. by apply Hpush.
  - destruct (m_held st) eqn:Em; [|done]. destruct (m_done st); [|done]. intros [= <-]. split; simpl; try done.
    etransitivity; [|exact Hsome]. apply sublist_app; [done|]. by apply sublist_inserts_l.
  - destruct (m_held st) eqn:Em; [|done]. intros [= <-]. by apply Hpush.
  - intros [= <-]. by split.
  - unfold mq_Close. destruct (m_done st); [done|]. intros [= <-]. by split.
  - destruct (m_sub st); [|done]. destruct (m_held st) eqn:Em; [done|].
    destruct (m_done st || m_ctx st); [|done]. intros [= <-]. by split.
  - destruct (m_sub st); [|done]. destruct (m_held st) eqn:Em; [done|].
    destruct (m_done st || m_ctx st); [|done]. intros [= <-]. by split.
Qed.

(** What a subscriber of a Redis queue reads are messages published since its goroutine
    subscribed, each at most once and in order; if none was lost on its way they are the
    first of them, without a gap, and until the channel is closed the others are to come. *)
Theorem redis_in_order ls st :
  mq_run redis_step redis_subscribed ls = Some st ->
  m_read st `sublist_of` m_published st /\
  (m_lost st = false -> m_read st `prefix_of` m_published st) /\
  (m_closed st = false -> m_lost st = false -> m_published st = m_read st ++ held st ++ m_pending st).
Proof.
  intros Hrun. assert (redis_inv redis_subscribed) as Hs by (by split).
  destruct (mq_run_invariant redis_step redis_inv ls _ _ redis_step_inv Hs Hrun) as [Hall Hsome Hpre _].
  split_and!; [|done|done]. etransitivity; [|exact Hsome]. by apply sublist_inserts_r.
Qed.

(** A subscriber of Redis that has left with its context done leaves the goroutine waiting
    if it held a message: only [Close] of the queue ends it. *)
Theorem redis_holds_on m st :
  m_held st = Some m -> m_done st = false -> m_ctx st = true ->
  redis_step st MSkip = None /\ redis_step st MUnsubscribe = None /\ redis_step st MClosed = None.
Proof. intros Hm Hd Hx. simpl. rewrite Hm, Hd. by destruct (m_sub st). Qed.

(** A subscription in some state, of a NATS queue or of a Redis queue. *)
Definition subscription_run (ls : list mq_label) (q : MQState) : Prop :=
  mq_run nats_step nats_subscribed ls = Some q \/ mq_run redis_step redis_subscribed ls = Some q.

(** What is read was published, in that order and each message once, and if none was lost
    on its way and the subscriber has not left, nothing is missing in between. *)
Lemma subscription_reads ls q :
  subscription_run ls q ->
  m_read q `sublist_of` m_published q /\
  (m_lost q = false -> m_ctx q = false -> m_read q `prefix_of` m_published q).
Proof.
  intros [Hrun|Hrun].
  - destruct (nats_in_order _ _ Hrun) as (Hsome & Hall & _). split.
    + etransitivity; [|exact Hsome]. by apply sublist_inserts_r.
    + intros Hl Hx. rewrite Hall by done. unfold kept. by apply prefix_app_r.
  - destruct (redis_in_order _ _ Hrun) as (Hsome & Hpre & _). auto.
Qed.
