(* ===== verification/Workers.v ===== *)
(** * Workers: ordered handling by a worker per stream

    Two parts of the program hand items over to goroutines in the same way: requests of a
    session ([handleRequestStream], component/gateway/proxy.go) and multicasts
    ([Bus.Subscribe], multicast/bus.go). One goroutine dispatches: an item goes to the
    worker of its stream over a channel of bounded capacity, and a ticker dismisses
    workers that were not handed anything for some time. The definitions follow
    [handleRequestStream]; the capacity, the time and the kind of item are parameters,
    which [Streams] and [Bus] set. *)

From S2P Require Import Prelude.

Local Open Scope Z_scope.

Abbreviation worker_ptr := nat (only parsing).

Section Workers.
Context {item : Type}.
Variable item_stream : item -> string.
Variable queue_cap : nat.
Variable idle_time : Z.

(** A worker: its channel [C], with what is in it, and the request it is handling. *)
Record worker := {
  w_stream : string;
  w_queue : list item;
  w_closed : bool;
  Active : Z;
  w_current : option item;
}.

(** The dispatching goroutine: in its [select], sending on a worker's channel, or gone. *)
Inductive dispatch :=
  | Selecting
  | Sending (w : worker_ptr) (req : item)
  | Ended.

(** The start and the end of a call of [handleRequest]. *)
Inductive handling := Started (req : item) | Finished (req : item).

Record WState := {
  s_now : Z;
  disp : dispatch;
  workers : gmap string worker_ptr;
  pool : list worker;
  received : list item;
  log : list handling;
}.

Definition w_set_queue (q : list item) (w : worker) : worker := {|
  w_stream := w_stream w; w_queue := q; w_closed := w_closed w; Active := Active w;
  w_current := w_current w |}.
Definition w_send (now : Z) (req : item) (w : worker) : worker := {|
  w_stream := w_stream w; w_queue := w_queue w ++ [req]; w_closed := w_closed w; Active := now;
  w_current := w_current w |}.
Definition w_close (w : worker) : worker := {|
  w_stream := w_stream w; w_queue := w_queue w; w_closed := true; Active := Active w;
  w_current := w_current w |}.
Definition w_handle (q : list item) (cur : option item) (w : worker) : worker := {|
  w_stream := w_stream w; w_queue := q; w_closed := w_closed w; Active := Active w;
  w_current := cur |}.

Definition s_set (st : WState) d ws p r l : WState := {|
  s_now := s_now st; disp := d; workers := ws; pool := p; received := r; log := l |}.

Inductive worker_label :=
  | DRecv (req : item)
  | DSend
  | DTicker
  | DStop
  | DTime (later : Z)
  | WTake (w : worker_ptr)
  | WDone (w : worker_ptr).

(** The case [req := <-reqC], up to the inner [select]. *)
Definition recv (st : WState) (req : item) : option WState :=
  match disp st with
  | Selecting =>
      match workers st !! item_stream req with
      | Some w =>
          Some (s_set st (Sending w req) (workers st) (pool st) (received st ++ [req]) (log st))
      | None =>
          let w := {| w_stream := item_stream req; w_queue := []; w_closed := false; Active := 0;
                      w_current := None |} in
          Some (s_set st (Sending (length (pool st)) req)
                  (<[item_stream req := length (pool st)]> (workers st)) (pool st ++ [w])
                  (received st ++ [req]) (log st))
      end
  | _ => None
  end.

(** [w.C <- req], when there is room. *)
Definition send (st : WState) : option WState :=
  match disp st with
  | Sending w req =>
      match pool st !! w with
      | Some wk =>
          if (length (w_queue wk) <? queue_cap)%nat
          then Some (s_set st Selecting (workers st) (alter (w_send (s_now st) req) w (pool st))
                       (received st) (log st))
          else None
      | None => None
      end
  | _ => None
  end.

(** Whether the ticker dismisses a worker. *)
Definition expired (st : WState) (w : worker_ptr) : bool :=
  match pool st !! w with
  | Some wk => idle_time <? s_now st - Active wk
  | None => false
  end.

(** The case [<-ticker.C]. *)
Definition ticker (st : WState) : option WState :=
  match disp st with
  | Selecting =>
      Some (s_set st Selecting
              (filter (fun sw => expired st sw.2 = false) (workers st))
              (imap (fun w wk => if bool_decide (workers st !! w_stream wk = Some w) && expired st w
                                 then w_close wk else wk) (pool st))
              (received st) (log st))
  | _ => None
  end.

(** The end: [reqC] is closed, or the context is done while a request is being sent,
    which is dropped; the deferred function closes the channels. *)
Definition stop (st : WState) : option WState :=
  match disp st with
  | Ended => None
  | _ =>
      Some (s_set st Ended (workers st)
              (imap (fun w wk => if bool_decide (workers st !! w_stream wk = Some w)
                                 then w_close wk else wk) (pool st))
              (received st) (log st))
  end.

(** A worker takes the next request, and is done with it. *)
Definition take_next (st : WState) (w : worker_ptr) : option WState :=
  match pool st !! w with
  | Some wk =>
      match w_current wk, w_queue wk with
      | None, req :: q =>
          Some (s_set st (disp st) (workers st) (alter (w_handle q (Some req)) w (pool st))
                  (received st) (log st ++ [Started req]))
      | _, _ => None
      end
  | None => None
  end.
Definition finish_current (st : WState) (w : worker_ptr) : option WState :=
  match pool st !! w with
  | Some wk =>
      match w_current wk with
      | Some req =>
          Some (s_set st (disp st) (workers st) (alter (w_handle (w_queue wk) None) w (pool st))
                  (received st) (log st ++ [Finished req]))
      | None => None
      end
  | None => None
  end.

Definition wstep (st : WState) (l : worker_label) : option WState :=
  match l with
  | DRecv req => recv st req
  | DSend => send st
  | DTicker => ticker st
  | DStop => stop st
  | DTime later =>
      if decide (0 <= later)
      then Some {| s_now := s_now st + later; disp := disp st; workers := workers st;
                   pool := pool st; received := received st; log := log st |}
      else None
  | WTake w => take_next st w
  | WDone w => finish_current st w
  end.

Fixpoint wrun (st : WState) (ls : list worker_label) : option WState :=
  match ls with
  | [] => Some st
  | l :: ls => match wstep st l with Some st => wrun st ls | None => None end
  end.

Definition wstart : WState := {|
  s_now := 0; disp := Selecting; workers := ∅; pool := []; received := []; log := [] |}.

(** ** What happens to one stream *)

Definition of_stream (s : string) (rs : list item) : list item :=
  filter (fun r => item_stream r = s) rs.
Definition handled_request (h : handling) : item :=
  match h with Started r | Finished r => r end.
Definition log_of (s : string) (l : list handling) : list handling :=
  filter (fun h => item_stream (handled_request h) = s) l.

(** One request after the other. *)
Definition one_by_one (rs : list item) : list handling :=
  mjoin ((fun r => [Started r; Finished r]) <$> rs).

Definition worker_of (st : WState) (s : string) : option worker :=
  w ← workers st !! s; pool st !! w.
Definition current_of (st : WState) (s : string) : list item :=
  match worker_of st s with
  | Some wk => match w_current wk with Some r => [r] | None => [] end
  | None => []
  end.
Definition queue_of (st : WState) (s : string) : list item :=
  match worker_of st s with Some wk => w_queue wk | None => [] end.

(** An item, seen from a stream. *)
Definition only (s : string) (r : item) : list item := if decide (item_stream r = s) then [r] else [].

(** A request not yet in a channel: the one being sent, or what was dropped at the end. *)
Definition rest_ok (d : dispatch) (s : string) (rest : list item) : Prop :=
  match d with
  | Selecting => rest = []
  | Sending _ req => rest = only s req
  | Ended => True
  end.

Definition idle (wk : worker) : Prop := w_queue wk = [] /\ w_current wk = None.

Record stream_inv (st : WState) : Prop := {
  si_worker : forall s w, workers st !! s = Some w -> exists wk, pool st !! w = Some wk /\ w_stream wk = s;
  si_idle : forall w wk, pool st !! w = Some wk -> workers st !! w_stream wk = Some w \/ idle wk;
  si_queue : forall w wk r, pool st !! w = Some wk -> r ∈ w_queue wk -> item_stream r = w_stream wk;
  si_current : forall w wk r, pool st !! w = Some wk -> w_current wk = Some r ->
    item_stream r = w_stream wk;
  si_sending : forall w req, disp st = Sending w req -> workers st !! item_stream req = Some w;
  si_order : forall s, exists fin rest, rest_ok (disp st) s rest /\
    of_stream s (received st) = fin ++ current_of st s ++ queue_of st s ++ rest /\
    log_of s (log st) = one_by_one fin ++ (Started <$> current_of st s);
}.

(** A tick dismisses idle workers only. *)
Definition tick_idle (st : WState) (l : worker_label) : Prop :=
  match l with
  | DTicker => map_Forall (fun _ w => expired st w = true ->
                 match pool st !! w with
                 | Some wk => w_queue wk = [] /\ w_current wk = None
                 | None => True
                 end) (workers st)
  | _ => True
  end.

Lemma stream_inv_start : stream_inv wstart.
Proof.
  split; simpl; try done. intros s. exists [], []. done.
Qed.

Lemma of_stream_snoc s rs r :
  of_stream s (rs ++ [r]) = of_stream s rs ++ only s r.
Proof. unfold of_stream, only. by rewrite filter_app, filter_cons, filter_nil. Qed.

Lemma log_of_snoc s l h :
  log_of s (l ++ [h]) = log_of s l ++ (if decide (item_stream (handled_request h) = s) then [h] else []).
Proof. unfold log_of. by rewrite filter_app, filter_cons, filter_nil. Qed.

(** Changing one worker: the workers of the other streams are as they were. *)
Lemma worker_of_alter st st' w f s :
  stream_inv st -> workers st' = workers st -> pool st' = alter f w (pool st) ->
  worker_of st' s = if decide (workers st !! s = Some w) then f <$> worker_of st s
                    else worker_of st s.
Proof.
  intros Hi Ew Ep. unfold worker_of. rewrite Ew, Ep. destruct (workers st !! s) as [w'|]; simpl.
  - destruct (decide (Some w' = Some w)) as [[= ->]|Hne].
    + by rewrite list_lookup_alter_eq.
    + rewrite list_lookup_alter_ne; [done|]. congruence.
  - done.
Qed.

(** The parts of the invariant that an alteration of one worker keeps. *)
Lemma alter_inv st st' w wk f :
  stream_inv st -> workers st' = workers st -> pool st' = alter f w (pool st) ->
  pool st !! w = Some wk -> w_stream (f wk) = w_stream wk ->
  workers st !! w_stream wk = Some w \/ idle (f wk) ->
  (forall r, r ∈ w_queue (f wk) -> item_stream r = w_stream wk) ->
  (forall r, w_current (f wk) = Some r -> item_stream r = w_stream wk) ->
  (forall w' req, disp st' = Sending w' req -> workers st' !! item_stream req = Some w') ->
  (forall s, exists fin rest, rest_ok (disp st') s rest /\
    of_stream s (received st') = fin ++ current_of st' s ++ queue_of st' s ++ rest /\
    log_of s (log st') = one_by_one fin ++ (Started <$> current_of st' s)) ->
  stream_inv st'.
Proof.
  intros Hi Ew Ep Hw Hstr Hidle Hq Hc Hs Hord. pose proof Hi as [H1 H2 H3 H4 _ _].
  assert (forall w' wk', pool st' !! w' = Some wk' ->
    (w' = w /\ wk' = f wk) \/ (w' <> w /\ pool st !! w' = Some wk')) as Hcase.
  { intros w' wk'. rewrite Ep. destruct (decide (w' = w)) as [->|Hne].
    - rewrite list_lookup_alter_eq, Hw. intros [= <-]. by left.
    - rewrite list_lookup_alter_ne by done. by right. }
  split; try done.
  - intros s w'. rewrite Ew, Ep. intros (wk' & Hw' & Hs')%H1.
    destruct (decide (w' = w)) as [->|Hne].
    + rewrite list_lookup_alter_eq, Hw'. eexists. split; [done|].
      assert (wk' = wk) as -> by congruence. by rewrite Hstr.
    + rewrite list_lookup_alter_ne by done. eauto.
  - intros w' wk' [[-> ->]|[_ Hw']]%Hcase; rewrite Ew; [by rewrite Hstr|by apply H2].
  - intros w' wk' r [[-> ->]|[_ Hw']]%Hcase; [rewrite Hstr; apply Hq|by eapply H3].
  - intros w' wk' r [[-> ->]|[_ Hw']]%Hcase; [rewrite Hstr; apply Hc|by eapply H4].
Qed.

(** What the streams have in the channel and in the hands of their workers after each
    operation. *)
Lemma take_holds st w st' :
  stream_inv st -> take_next st w = Some st' ->
  exists req, disp st' = disp st /\ received st' = received st /\ log st' = log st ++ [Started req] /\
    current_of st (item_stream req) = [] /\
    forall s, queue_of st s = only s req ++ queue_of st' s /\ current_of st' s = current_of st s ++ only s req.
Proof.
  intros Hi. unfold take_next. destruct (pool st !! w) as [wk|] eqn:Hw; [|done].
  destruct (w_current wk) eqn:Hc; [done|]. destruct (w_queue wk) as [|req q] eqn:Hq; [done|].
  intros [= <-]. pose proof Hi as [H1 H2 H3 H4 H5 H6].
  destruct (H2 _ _ Hw) as [Hmap|[Hidle _]]; [|congruence].
  assert (item_stream req = w_stream wk) as Hreq by (eapply H3; [done|rewrite Hq; by left]).
  exists req. do 3 (split; [done|]). split.
  { unfold current_of, worker_of. rewrite Hreq, Hmap. simpl. by rewrite Hw, Hc. }
  intros s. set (st' := s_set st _ _ _ _ _). unfold current_of, queue_of, only.
  rewrite (worker_of_alter st st' w (w_handle q (Some req)) s Hi) by done. rewrite Hreq.
  case_decide as Hs'; case_decide as Hs.
  - unfold worker_of. rewrite Hs. simpl. rewrite Hw. simpl. by rewrite Hc, Hq.
  - subst s. congruence.
  - destruct (H1 _ _ Hs) as (wk' & Hw' & <-). congruence.
  - by rewrite app_nil_r.
Qed.

Lemma finish_holds st w st' :
  stream_inv st -> finish_current st w = Some st' ->
  exists req, disp st' = disp st /\ received st' = received st /\ log st' = log st ++ [Finished req] /\
    forall s, queue_of st' s = queue_of st s /\ current_of st s = only s req ++ current_of st' s.
Proof.
  intros Hi. unfold finish_current. destruct (pool st !! w) as [wk|] eqn:Hw; [|done].
  destruct (w_current wk) as [req|] eqn:Hc; [|done].
  intros [= <-]. pose proof Hi as [H1 H2 H3 H4 H5 H6].
  destruct (H2 _ _ Hw) as [Hmap|[_ Hidle]]; [|congruence].
  assert (item_stream req = w_stream wk) as Hreq by (by eapply H4).
  exists req. do 3 (split; [done|]). intros s. set (st' := s_set st _ _ _ _ _). unfold current_of, queue_of, only.
  rewrite (worker_of_alter st st' w (w_handle (w_queue wk) None) s Hi) by done. rewrite Hreq.
  case_decide as Hs; case_decide as Hs'.
  - unfold worker_of. rewrite Hs. simpl. rewrite Hw. simpl. by rewrite Hc.
  - destruct (H1 _ _ Hs) as (wk' & Hw' & <-). congruence.
  - subst s. congruence.
  - done.
Qed.

Lemma send_holds st st' :
  stream_inv st -> send st = Some st' ->
  exists w req, disp st = Sending w req /\ disp st' = Selecting /\ received st' = received st /\
    log st' = log st /\
    forall s, queue_of st' s = queue_of st s ++ only s req /\ current_of st' s = current_of st s.
Proof.
  intros Hi. unfold send. destruct (disp st) as [|w req|] eqn:Hd; [done| |done].
  destruct (pool st !! w) as [wk|] eqn:Hw; [|done]. destruct (_ <? _)%nat; [|done].
  intros [= <-]. pose proof Hi as [H1 H2 H3 H4 H5 H6].
  pose proof (H5 _ _ Hd) as Hmap. exists w, req. do 4 (split; [done|]). intros s.
  set (st' := s_set st _ _ _ _ _). unfold current_of, queue_of, only. rewrite (worker_of_alter st st' w (w_send (s_now st) req) s Hi) by done.
  destruct (decide (workers st !! s = Some w)) as [Hs|Hs].
  - destruct (H1 _ _ Hs) as (wk' & Hwk' & Es). destruct (H1 _ _ Hmap) as (wk2 & Hwk2 & Er).
    unfold worker_of. rewrite Hs. simpl. rewrite Hw. simpl. rewrite decide_True by congruence. done.
  - rewrite decide_False; [by rewrite app_nil_r|]. intros <-. by rewrite Hmap in Hs.
Qed.

Lemma recv_holds st req st' :
  stream_inv st -> recv st req = Some st' ->
  disp st = Selecting /\ (exists w, disp st' = Sending w req) /\ received st' = received st ++ [req] /\
  log st' = log st /\ forall s, queue_of st' s = queue_of st s /\ current_of st' s = current_of st s.
Proof.
  intros [H1 H2 H3 H4 H5 H6]. unfold recv. destruct (disp st) eqn:Hd; [|done|done].
  destruct (workers st !! item_stream req) as [w|] eqn:Hw; intros [= <-].
  { split_and!; try done. by eexists. }
  do 2 (split; [by eexists|]). do 2 (split; [done|]). intros s.
  set (w0 := {| w_stream := _ |}). set (st' := s_set st _ _ _ _ _).
  assert (worker_of st' s = if decide (item_stream req = s) then Some w0 else worker_of st s) as Hwo.
  { unfold worker_of. simpl. case_decide as E.
    - subst s. rewrite lookup_insert_eq. simpl. by rewrite lookup_app_r, Nat.sub_diag.
    - rewrite lookup_insert_ne by done. destruct (workers st !! s) as [w|] eqn:Hs; [|done].
      simpl. destruct (H1 _ _ Hs) as (wk & Hwk & _). rewrite Hwk. by apply lookup_app_l_Some. }
  unfold queue_of, current_of. rewrite Hwo. case_decide as E; [|done].
  assert (worker_of st s = None) as -> by (subst s; unfold worker_of; by rewrite Hw). done.
Qed.

Lemma take_next_inv st w st' : stream_inv st -> take_next st w = Some st' -> stream_inv st'.
Proof.
  intros Hi. unfold take_next. destruct (pool st !! w) as [wk|] eqn:Hw; [|done].
  destruct (w_current wk) eqn:Hc; [done|]. destruct (w_queue wk) as [|req q] eqn:Hq; [done|].
  intros [= <-]. pose proof Hi as [H1 H2 H3 H4 H5 H6].
  destruct (H2 _ _ Hw) as [Hmap|[Hidle _]]; [|congruence].
  assert (item_stream req = w_stream wk) as Hreq by (eapply H3; [done|rewrite Hq; by left]).
  eapply (alter_inv st _ w wk (w_handle q (Some req)) Hi); [reflexivity|reflexivity|exact Hw|..]; simpl; try done; [by left| | |].
  - intros r Hr. eapply H3; [done|rewrite Hq; by right].
  - by intros r [= <-].
  - intros s. destruct (H6 s) as (fin & rest & Hrest & Hrec & Hlog). exists fin, rest.
    split; [done|]. set (st' := s_set st _ _ _ _ _).
    destruct (take_holds st w st' Hi) as (req' & _ & _ & El & _ & Hs); [by unfold take_next; rewrite Hw, Hc, Hq|].
    apply app_inj_tail in El as [_ [= <-]]. destruct (Hs s) as [Eq Ec]. rewrite Eq in Hrec.
    split; [simpl; by rewrite Hrec, Ec, <- !app_assoc|]. simpl. rewrite log_of_snoc, Hlog, Ec, fmap_app.
    unfold only. simpl. by case_decide; rewrite <- ?app_assoc.
Qed.

Lemma finish_inv st w st' : stream_inv st -> finish_current st w = Some st' -> stream_inv st'.
Proof.
  intros Hi. unfold finish_current. destruct (pool st !! w) as [wk|] eqn:Hw; [|done].
  destruct (w_current wk) as [req|] eqn:Hc; [|done].
  intros [= <-]. pose proof Hi as [H1 H2 H3 H4 H5 H6].
  destruct (H2 _ _ Hw) as [Hmap|[_ Hidle]]; [|congruence].
  assert (item_stream req = w_stream wk) as Hreq by (by eapply H4).
  eapply (alter_inv st _ w wk (w_handle (w_queue wk) None) Hi); [reflexivity|reflexivity|exact Hw|..]; simpl; try done; [by left| |].
  - intros r Hr. by eapply H3.
  - intros s. destruct (H6 s) as (fin & rest & Hrest & Hrec & Hlog). set (st' := s_set st _ _ _ _ _).
    destruct (finish_holds st w st' Hi) as (req' & _ & _ & El & Hs); [by unfold finish_current; rewrite Hw, Hc|].
    apply app_inj_tail in El as [_ [= <-]]. destruct (Hs s) as [Eq Ec]. rewrite Ec in Hrec, Hlog.
    exists (fin ++ only s req), rest. split; [done|].
    split; [simpl; by rewrite Hrec, Eq, <- !app_assoc|]. simpl. rewrite log_of_snoc, Hlog, fmap_app.
    assert (current_of st' s = [] \/ item_stream req <> s) as Hcur.
    { destruct (decide (item_stream req = s)) as [E|]; [left|by right]. unfold only in Ec. rewrite decide_True in Ec by done.
      unfold current_of in Ec at 1. destruct (worker_of st s) as [wk0|]; [|done]. destruct (w_current wk0); [|done].
      by injection Ec. }
    unfold only, one_by_one. rewrite fmap_app, join_app. simpl.
    case_decide as E; [|by rewrite !app_nil_r]. destruct Hcur as [->|]; [|done]. simpl. by rewrite <- !app_assoc.
Qed.

Lemma send_inv st st' : stream_inv st -> send st = Some st' -> stream_inv st'.
Proof.
  intros Hi. unfold send. destruct (disp st) as [|w req|] eqn:Hd; [done| |done].
  destruct (pool st !! w) as [wk|] eqn:Hw; [|done]. destruct (_ <? _)%nat eqn:Hroom; [|done].
  intros [= <-]. pose proof Hi as [H1 H2 H3 H4 H5 H6].
  pose proof (H5 _ _ Hd) as Hmap. destruct (H1 _ _ Hmap) as (wk' & Hw' & Hreq).
  assert (wk' = wk) as -> by congruence.
  eapply (alter_inv st _ w wk (w_send (s_now st) req) Hi); [reflexivity|reflexivity|exact Hw|..]; simpl; try done.
  - left. by rewrite Hreq.
  - intros r [Hr|Hr%list_elem_of_singleton]%elem_of_app; [by eapply H3|by subst].
  - intros r Hr. by eapply H4.
  - intros s. destruct (H6 s) as (fin & rest & Hrest & Hrec & Hlog). exists fin, [].
    split; [done|]. rewrite Hd in Hrest. simpl in Hrest. subst rest. set (st' := s_set st _ _ _ _ _).
    destruct (send_holds st st' Hi) as (w' & req' & Hd' & _ & _ & _ & Hs);
      [unfold send; rewrite Hd, Hw; by rewrite Hroom|].
    rewrite Hd in Hd'. injection Hd' as <- <-. destruct (Hs s) as [Eq Ec]. simpl.
    by rewrite Eq, Ec, app_nil_r.
Qed.

(** A step that leaves what the workers hold alone. *)
Lemma same_stream st st' s :
  current_of st' s = current_of st s -> queue_of st' s = queue_of st s -> log st' = log st ->
  forall fin rest, log_of s (log st) = one_by_one fin ++ (Started <$> current_of st s) ->
  of_stream s (received st') = fin ++ current_of st s ++ queue_of st s ++ rest ->
  rest_ok (disp st') s rest ->
  exists fin rest, rest_ok (disp st') s rest /\
    of_stream s (received st') = fin ++ current_of st' s ++ queue_of st' s ++ rest /\
    log_of s (log st') = one_by_one fin ++ (Started <$> current_of st' s).
Proof. intros -> -> -> fin rest **. by exists fin, rest. Qed.

(** A worker for the stream of an item, which has none. *)
Lemma recv_new_inv st req :
  stream_inv st -> disp st = Selecting -> workers st !! item_stream req = None ->
  stream_inv (s_set st (Sending (length (pool st)) req)
    (<[item_stream req := length (pool st)]> (workers st))
    (pool st ++ [{| w_stream := item_stream req; w_queue := []; w_closed := false; Active := 0;
                    w_current := None |}]) (received st ++ [req]) (log st)).
Proof.
  intros Hi Hd Hw. pose proof Hi as [H1 H2 H3 H4 H5 H6].
  set (w0 := {| w_stream := item_stream req; w_queue := []; w_closed := false; Active := 0;
                w_current := None |}).
  assert (forall w wk, (pool st ++ [w0]) !! w = Some wk ->
    (pool st !! w = Some wk /\ w <> length (pool st)) \/ (w = length (pool st) /\ wk = w0)) as Hcase.
  { intros w wk Hl. apply lookup_app_Some in Hl as [Hl|[Hge Hl]].
    - left. split; [done|]. apply lookup_lt_Some in Hl. lia.
    - apply list_lookup_singleton_Some in Hl as [E <-]. right. split; [lia|done]. }
  split; simpl.
  - intros s w. rewrite lookup_insert_Some. intros [[<- <-]|[_ (wk & Hwk & Hs)%H1]].
    + exists w0. by rewrite lookup_app_r, Nat.sub_diag.
    + exists wk. split; [|done]. by apply lookup_app_l_Some.
  - intros w wk [[Hl Hne]|[-> ->]]%Hcase.
    + destruct (H2 _ _ Hl) as [Hm|]; [left|by right].
      rewrite lookup_insert_ne; [done|]. intros E. by rewrite <- E, Hw in Hm.
    + left. by rewrite lookup_insert_eq.
  - intros w wk r [[Hl Hne]|[-> ->]]%Hcase; [by eapply H3|]. by intros ?%not_elem_of_nil.
  - intros w wk r [[Hl Hne]|[-> ->]]%Hcase; [by eapply H4|done].
  - intros w' req' [= <- <-]. by rewrite lookup_insert_eq.
  - intros s. destruct (H6 s) as (fin & rest & Hrest & Hrec & Hlog). rewrite Hd in Hrest.
    simpl in Hrest. subst rest. rewrite app_nil_r in Hrec.
    set (st' := s_set st _ _ _ _ _).
    destruct (recv_holds st req st' Hi) as (_ & _ & _ & _ & Hs); [unfold recv; by rewrite Hd, Hw|].
    destruct (Hs s) as [Eq Ec]. apply (same_stream st st' s Ec Eq eq_refl fin (only s req)); [done| |done].
    simpl. by rewrite of_stream_snoc, Hrec, <- !app_assoc.
Qed.

Lemma recv_inv st req st' : stream_inv st -> recv st req = Some st' -> stream_inv st'.
Proof.
  intros Hi. unfold recv. destruct (disp st) eqn:Hd; [|done|done].
  pose proof Hi as [H1 H2 H3 H4 H5 H6].
  destruct (workers st !! item_stream req) as [w|] eqn:Hw; intros [= <-].
  - split; simpl; try done; [by intros w' req' [= <- <-]|].
    intros s. destruct (H6 s) as (fin & rest & Hrest & Hrec & Hlog). rewrite Hd in Hrest.
    simpl in Hrest. subst rest. rewrite app_nil_r in Hrec.
    set (st' := s_set st _ _ _ _ _).
    apply (same_stream st st' s eq_refl eq_refl eq_refl fin (only s req));
      simpl; [done| |done].
    by rewrite of_stream_snoc, Hrec, <- !app_assoc.
  - by apply recv_new_inv.
Qed.

(** Closing channels and dismissing idle workers. *)
Definition close_some (b : worker_ptr -> worker -> bool) (p : list worker) : list worker :=
  imap (fun w wk => if b w wk then w_close wk else wk) p.

Lemma close_some_lookup b p w :
  close_some b p !! w = (fun wk => if b w wk then w_close wk else wk) <$> p !! w.
Proof. apply list_lookup_imap. Qed.

Lemma close_holds st d ws b s :
  (forall s w, ws !! s = Some w -> workers st !! s = Some w) ->
  (forall s w wk, workers st !! s = Some w -> ws !! s = None -> pool st !! w = Some wk -> idle wk) ->
  let st' := s_set st d ws (close_some b (pool st)) (received st) (log st) in
  current_of st' s = current_of st s /\ queue_of st' s = queue_of st s.
Proof.
  intros Hsub Hgone. unfold current_of, queue_of, worker_of. simpl. destruct (ws !! s) as [w|] eqn:Ew; simpl.
  - rewrite (Hsub _ _ Ew). simpl. rewrite close_some_lookup.
    destruct (pool st !! w) as [wk|]; [|done]. simpl. by destruct (b w wk).
  - destruct (workers st !! s) as [w|] eqn:Ew'; [|done]. simpl.
    destruct (pool st !! w) as [wk|] eqn:Hwk; [|done].
    by destruct (Hgone _ _ _ Ew' Ew Hwk) as [-> ->].
Qed.

Lemma close_inv st d ws b :
  stream_inv st ->
  (forall s w, ws !! s = Some w -> workers st !! s = Some w) ->
  (forall s w wk, workers st !! s = Some w -> ws !! s = None -> pool st !! w = Some wk -> idle wk) ->
  (forall w req, d <> Sending w req) ->
  (forall s rest, rest_ok (disp st) s rest -> rest_ok d s rest) ->
  stream_inv (s_set st d ws (close_some b (pool st)) (received st) (log st)).
Proof.
  intros Hi Hsub Hgone Hd Hrest. pose proof Hi as [H1 H2 H3 H4 H5 H6].
  assert (forall w wk, close_some b (pool st) !! w = Some wk -> exists wk0, pool st !! w = Some wk0 /\
    w_stream wk = w_stream wk0 /\ w_queue wk = w_queue wk0 /\ w_current wk = w_current wk0) as Hback.
  { intros w wk. rewrite close_some_lookup. destruct (pool st !! w) as [wk0|]; [|done].
    intros [= <-]. exists wk0. by destruct (b w wk0). }
  split; simpl.
  - intros s w Hw. destruct (H1 _ _ (Hsub _ _ Hw)) as (wk & Hwk & Hs).
    rewrite close_some_lookup, Hwk. eexists. split; [done|]. by destruct (b w wk).
  - intros w wk (wk0 & H0 & -> & Eq & Ec)%Hback. unfold idle. rewrite Eq, Ec.
    destruct (H2 _ _ H0) as [Hm|]; [|by right].
    destruct (ws !! w_stream wk0) as [w'|] eqn:E.
    + left. apply Hsub in E. congruence.
    + right. by eapply Hgone.
  - intros w wk r (wk0 & H0 & -> & -> & _)%Hback. by eapply H3.
  - intros w wk r (wk0 & H0 & -> & _ & ->)%Hback. by eapply H4.
  - intros w req E. by apply Hd in E.
  - intros s. destruct (H6 s) as (fin & rest & Hr & Hrec & Hlog).
    set (st' := s_set st _ _ _ _ _). destruct (close_holds st d ws b s Hsub Hgone) as [Ec Eq].
    apply (same_stream st st' s) with (fin := fin) (rest := rest); auto.
Qed.

Lemma wstep_inv st l st' :
  stream_inv st -> tick_idle st l -> wstep st l = Some st' -> stream_inv st'.
Proof.
  intros Hi Htick. destruct l as [req| | | |later|w|w]; simpl.
  - by apply recv_inv.
  - by apply send_inv.
  - unfold ticker. destruct (disp st) eqn:Hd; [|done|done]. intros [= <-].
    apply close_inv; try done.
    + intros s w [H _]%map_lookup_filter_Some. done.
    + intros s w wk Hw Hn Hwk. apply map_lookup_filter_None in Hn as [Hn|Hn]; [congruence|].
      assert (expired st w = true) as He.
      { apply not_false_iff_true. intros He. by apply (Hn w Hw). }
      specialize (Htick s w Hw He). simpl in Htick. by rewrite Hwk in Htick.
    + by rewrite Hd.
  - unfold stop. destruct (disp st) eqn:Hd; [| |done]; intros [= <-];
      (apply close_inv; [done|done|congruence|done|done]).
  - case_decide; [|done]. intros [= <-]. destruct Hi. by split.
  - by apply take_next_inv.
  - by apply finish_inv.
Qed.

(** ** Runs *)

(** A run in which a tick of the ticker finds no worker that expired with work left. *)
Fixpoint tick_idle_run (st : WState) (ls : list worker_label) : Prop :=
  match ls with
  | [] => True
  | l :: ls => tick_idle st l /\
      match wstep st l with Some st => tick_idle_run st ls | None => True end
  end.

(** What a worker handles was received. *)
Lemma current_received st w wk req :
  stream_inv st -> pool st !! w = Some wk -> w_current wk = Some req -> req ∈ received st.
Proof.
  intros [_ H2 _ H4 _ H6] Hw Hc. pose proof (H4 _ _ _ Hw Hc) as Hs.
  destruct (H2 _ _ Hw) as [Hm|[_ Hi]]; [|congruence].
  destruct (H6 (w_stream wk)) as (fin & rest & _ & E & _).
  assert (req ∈ of_stream (w_stream wk) (received st)) as Hin.
  { rewrite E. unfold current_of, worker_of. rewrite Hm. simpl. rewrite Hw. simpl. rewrite Hc.
    rewrite elem_of_app. right. by left. }
  by apply list_elem_of_filter in Hin as [_ ?].
Qed.

Lemma wrun_inv ls st st' :
  stream_inv st -> tick_idle_run st ls -> wrun st ls = Some st' -> stream_inv st'.
Proof.
  revert st. induction ls as [|l ls IH]; intros st Hi; simpl; [by intros _ [= <-]|].
  intros [Hx Hxs]. destruct (wstep st l) as [st1|] eqn:E; [|done].
  apply IH; [|done]. by eapply wstep_inv.
Qed.

(** The items a run receives. *)
Definition received_by (ls : list (worker_label)) : list item :=
  omap (fun l => match l with DRecv req => Some req | _ => None end) ls.

Lemma wstep_received st l st' :
  wstep st l = Some st' -> received st' = received st ++ received_by [l].
Proof.
  destruct l as [req| | | |later|w|w]; simpl; rewrite ?app_nil_r; unfold recv, send, ticker, stop,
    take_next, finish_current; intros H;
    repeat match goal with
    | H : context [match ?x with _ => _ end] |- _ => destruct x; try done
    end; by injection H as <-.
Qed.

Lemma wrun_received ls st st' :
  wrun st ls = Some st' -> received st' = received st ++ received_by ls.
Proof.
  revert st. induction ls as [|l ls IH]; intros st; simpl; [intros [= <-]; by rewrite app_nil_r|].
  destruct (wstep st l) as [st1|] eqn:E; [|done]. intros H. rewrite (IH _ H), (wstep_received _ _ _ E).
  rewrite <- app_assoc. f_equal. unfold received_by. simpl. by destruct l.
Qed.

Lemma wrun_app ls1 ls2 st :
  wrun st (ls1 ++ ls2) = match wrun st ls1 with Some st => wrun st ls2 | None => None end.
Proof. revert st. induction ls1 as [|l ls IH]; intros st; simpl; [done|]. by destruct (wstep st l). Qed.

(** The items of a stream are handled one after another in the order in which they were
    received, as long as no worker is dismissed while it has work. *)
Lemma workers_fifo ls st s :
  tick_idle_run wstart ls -> wrun wstart ls = Some st ->
  exists fin cur later, of_stream s (received st) = fin ++ cur ++ later /\ (length cur <= 1)%nat /\
    log_of s (log st) = one_by_one fin ++ (Started <$> cur).
Proof.
  intros Hx Hrun. destruct (wrun_inv ls _ _ stream_inv_start Hx Hrun) as [_ _ _ _ _ Hord].
  destruct (Hord s) as (fin & rest & _ & Hrec & Hlog).
  exists fin, (current_of st s), (queue_of st s ++ rest). split_and!; [done| |done].
  unfold current_of. destruct (worker_of st s) as [wk|]; [destruct (w_current wk)|]; simpl; lia.
Qed.

(** Nothing is left to do: the dispatcher waits for the next item and no worker can go on. *)
Definition quiet (st : WState) : Prop :=
  disp st = Selecting /\ forall w, take_next st w = None /\ finish_current st w = None.

Lemma quiet_idle st w wk : quiet st -> pool st !! w = Some wk -> idle wk.
Proof.
  intros [_ Hq] Hw. destruct (Hq w) as [Ht Hf]. unfold take_next, finish_current in *.
  rewrite Hw in *. unfold idle. destruct (w_current wk); [done|]. by destruct (w_queue wk).
Qed.

(** Then all items received have been handled. *)
Lemma workers_complete ls st s :
  tick_idle_run wstart ls -> wrun wstart ls = Some st -> quiet st ->
  log_of s (log st) = one_by_one (of_stream s (received st)).
Proof.
  intros Hx Hrun Hq. destruct (wrun_inv ls _ _ stream_inv_start Hx Hrun) as [Hworker _ _ _ _ Hord].
  destruct (Hord s) as (fin & rest & Hrest & Hrec & Hlog).
  assert (current_of st s = [] /\ queue_of st s = []) as [Ec Eq].
  { unfold current_of, queue_of, worker_of. destruct (workers st !! s) as [w|] eqn:Ew; [|done].
    destruct (Hworker _ _ Ew) as (wk & Hwk & _). simpl. rewrite Hwk.
    by destruct (quiet_idle _ _ _ Hq Hwk) as [-> ->]. }
  destruct Hq as [Hd _]. rewrite Hd in Hrest. simpl in Hrest. subst rest.
  rewrite Hlog, Hrec, Ec, Eq. by rewrite !app_nil_r.
Qed.
End Workers.

Arguments worker : clear implicits.
Arguments dispatch : clear implicits.
Arguments handling : clear implicits.
Arguments WState : clear implicits.
Arguments worker_label : clear implicits.
Arguments DRecv {item} req.
Arguments DSend {item}.
Arguments DTicker {item}.
Arguments DStop {item}.
Arguments DTime {item} later.
Arguments WTake {item} w.
Arguments WDone {item} w.
Arguments Started {item} req.
Arguments Finished {item} req.
