(* ===== verification/Fifo.v ===== *)
(** * Fifo: what the workers of streams promise

    The contract that [client.proto] states for requests of a stream, and that the bus
    keeps for multicasts: each stream is a queue of its own, handled one item at a time.
    The specification knows no workers, channels or tickers; the goroutines of [Workers]
    implement it. *)

From S2P Require Import Prelude Workers.

Local Open Scope Z_scope.

Section Fifo.
Context {item : Type}.
Variable item_stream : item -> string.

(** ** The specification *)

(** For each stream, the items that wait and the one that is being handled. *)
Record Fifo := { f_wait : string -> list item; f_busy : string -> list item }.

Inductive event := Arrive (x : item) | Start (x : item) | Finish (x : item) | Discard (x : item).

(** An item arrives at the end of its stream; the first is started if no other of the
    stream is being handled; the one being handled is finished; the last is discarded, when
    the connection ends. *)
Definition fifo_step (f : Fifo) (e : event) (f' : Fifo) : Prop :=
  match e with
  | Arrive x => forall s, f_wait f' s = f_wait f s ++ only item_stream s x /\ f_busy f' s = f_busy f s
  | Start x => f_busy f (item_stream x) = [] /\
      forall s, f_wait f s = only item_stream s x ++ f_wait f' s /\
                f_busy f' s = f_busy f s ++ only item_stream s x
  | Finish x => forall s, f_busy f s = only item_stream s x ++ f_busy f' s /\ f_wait f' s = f_wait f s
  | Discard x => forall s, f_wait f s = f_wait f' s ++ only item_stream s x /\ f_busy f' s = f_busy f s
  end.

Definition fifo_start : Fifo := {| f_wait _ := []; f_busy _ := [] |}.
Definition fifo_same (f f' : Fifo) : Prop :=
  forall s, f_wait f' s = f_wait f s /\ f_busy f' s = f_busy f s.

#[export] Instance fifo_same_equiv : Equivalence fifo_same.
Proof.
  split; [by intros f s|by intros f g H s; destruct (H s)|].
  intros f g h H1 H2 s. destruct (H1 s), (H2 s). split; by etrans.
Qed.

#[export] Instance fifo_step_proper e : Proper (fifo_same ==> fifo_same ==> iff) (fun f f' => fifo_step f e f').
Proof.
  assert (forall f g f' g', fifo_same f g -> fifo_same f' g' -> fifo_step f e f' -> fifo_step g e g') as H.
  { intros f g f' g' Hf Hf'. destruct e as [x|x|x|x]; simpl;
      [| intros [Hb Hs]; split; [by destruct (Hf (item_stream x)) as [_ ->]|revert Hs] | |];
      intros Hs s; destruct (Hf s) as [Ew Eb], (Hf' s) as [Ew' Eb'], (Hs s) as [? ?]; split; congruence. }
  intros f g Hf f' g' Hf'. split; [by apply H|]. apply H; by symmetry.
Qed.

Inductive fifo_run : Fifo -> list event -> Fifo -> Prop :=
  | fifo_nil f f' : fifo_same f f' -> fifo_run f [] f'
  | fifo_cons f e f1 es f' : fifo_step f e f1 -> fifo_run f1 es f' -> fifo_run f (e :: es) f'.

Lemma fifo_run_proper f g es f' : fifo_same f g -> fifo_run g es f' -> fifo_run f es f'.
Proof.
  intros Hf Hr. destruct Hr as [g f' Hg|g e f1 es f' Hs Hr].
  - apply fifo_nil. by etrans.
  - apply (fifo_cons _ _ f1); [|done]. by apply (fifo_step_proper e f g Hf f1 f1).
Qed.

(** What the specification promises: the items of a stream are started in the order of
    their arrival, and none before the one before it is finished. *)
Definition arrivals (s : string) (es : list event) : list item :=
  omap (fun e => match e with Arrive x => if decide (item_stream x = s) then Some x else None | _ => None end) es.
Definition handlings (s : string) (es : list event) : list (handling item) :=
  omap (fun e => match e with
                 | Start x => if decide (item_stream x = s) then Some (Started x) else None
                 | Finish x => if decide (item_stream x = s) then Some (Finished x) else None
                 | _ => None end) es.

(** ** The abstraction *)
Variable queue_cap : nat.
Variable idle_time : Z.

Definition sending (st : WState item) (s : string) : list item :=
  match disp st with Sending _ req => only item_stream s req | _ => [] end.

(** A stream waits in the channel of its worker, and in the hands of the dispatcher. *)
Definition abs (st : WState item) : Fifo := {|
  f_wait s := queue_of st s ++ sending st s;
  f_busy s := current_of st s |}.

(** What a step is to the specification. *)
Definition visible (st : WState item) (l : worker_label item) : list event :=
  match l with
  | DRecv req => [Arrive req]
  | DStop => match disp st with Sending _ req => [Discard req] | _ => [] end
  | WTake w => match pool st !! w with
               | Some wk => Start <$> take 1 (w_queue wk)
               | None => []
               end
  | WDone w => match pool st !! w with
               | Some wk => Finish <$> option_list (w_current wk)
               | None => []
               end
  | DSend | DTicker | DTime _ => []
  end.

Fixpoint events (st : WState item) (ls : list (worker_label item)) : list event :=
  match ls with
  | [] => []
  | l :: ls => visible st l ++
      match wstep item_stream queue_cap idle_time st l with Some st => events st ls | None => [] end
  end.

(** ** Simulation *)

Abbreviation inv := (stream_inv item_stream).
Abbreviation step := (wstep item_stream queue_cap idle_time).

Lemma one_event f e f' : fifo_step f e f' -> fifo_run f [e] f'.
Proof. intros Hs. eapply fifo_cons; [done|]. by apply fifo_nil. Qed.

(** A step that closes channels and dismisses idle workers changes no stream, but for the
    item that is given up. *)
Lemma close_same st d ws b :
  inv st ->
  (forall s w, ws !! s = Some w -> workers st !! s = Some w) ->
  (forall s w wk, workers st !! s = Some w -> ws !! s = None -> pool st !! w = Some wk -> idle wk) ->
  (forall w req, d <> Sending w req) ->
  fifo_run (abs st) (match disp st with Sending _ req => [Discard req] | _ => [] end)
    (abs (s_set st d ws (close_some b (pool st)) (received st) (log st))).
Proof.
  intros Hi Hsub Hgone Hd. set (st' := s_set st _ _ _ _ _).
  assert (forall s, queue_of st' s = queue_of st s /\ current_of st' s = current_of st s) as Hs.
  { intros s. by destruct (close_holds st d ws b s Hsub Hgone). }
  assert (forall s, sending st' s = []) as Hend.
  { intros s. unfold sending. simpl. destruct d as [|w req|]; try done. by destruct (Hd w req). }
  destruct (disp st) as [|w req|] eqn:E.
  - apply fifo_nil. intros s. simpl. destruct (Hs s) as [-> ->]. rewrite Hend. unfold sending. by rewrite E.
  - apply one_event. intros s. simpl. destruct (Hs s) as [-> ->]. rewrite Hend, app_nil_r.
    unfold sending. by rewrite E.
  - apply fifo_nil. intros s. simpl. destruct (Hs s) as [-> ->]. rewrite Hend. unfold sending. by rewrite E.
Qed.

Lemma simulation st l st' :
  inv st -> tick_idle idle_time st l -> step st l = Some st' -> fifo_run (abs st) (visible st l) (abs st').
Proof.
  intros Hi Ht. destruct l as [req| | | |later|w|w]; simpl; intros Hs.
  - destruct (recv_holds _ _ _ _ Hi Hs) as (Hd & [w Hd'] & _ & _ & H). apply one_event. intros s.
    simpl. unfold sending. rewrite Hd, Hd'. destruct (H s) as [-> ->]. by rewrite app_nil_r.
  - destruct (send_holds _ _ _ _ Hi Hs) as (w & req & Hd & Hd' & _ & _ & H). apply fifo_nil. intros s.
    simpl. unfold sending. rewrite Hd, Hd'. destruct (H s) as [-> ->]. by rewrite app_nil_r.
  - unfold ticker in Hs. destruct (disp st) eqn:Hd; try done. injection Hs as <-.
    replace (@nil event) with (match disp st with Sending _ req => [Discard req] | _ => [] end) by (by rewrite Hd).
    apply close_same; try done.
    + by intros s w [H _]%map_lookup_filter_Some.
    + intros s w wk Hw Hn Hwk. apply map_lookup_filter_None in Hn as [Hn|Hn]; [congruence|].
      assert (expired idle_time st w = true) as He.
      { apply not_false_iff_true. intros He. by apply (Hn w Hw). }
      specialize (Ht s w Hw He). simpl in Ht. by rewrite Hwk in Ht.
  - pose proof (close_same st Ended (workers st) (fun w wk => bool_decide (workers st !! w_stream wk = Some w))
      Hi ltac:(done) ltac:(congruence) ltac:(done)) as Hc.
    unfold stop in Hs. revert Hc Hs. destruct (disp st); intros Hc; try done; (intros [= <-]; exact Hc).
  - case_decide; [|done]. injection Hs as <-. by apply fifo_nil.
  - destruct (take_holds _ _ _ _ Hi Hs) as (req & Hd & _ & El & Hc & H).
    unfold take_next in Hs. destruct (pool st !! w) as [wk|]; [|done]. destruct (w_current wk); [done|].
    destruct (w_queue wk) as [|req' q]; [done|]. injection Hs as Hs. subst st'. simpl in El.
    apply app_inj_tail in El as [_ [= ->]].
    apply one_event. split; [done|]. intros s. simpl. unfold sending. rewrite Hd.
    destruct (H s) as [-> ->]. by rewrite app_assoc.
  - destruct (finish_holds _ _ _ _ Hi Hs) as (req & Hd & _ & El & H).
    unfold finish_current in Hs. destruct (pool st !! w) as [wk|]; [|done].
    destruct (w_current wk) as [req'|]; [|done]. injection Hs as Hs. subst st'. simpl in El.
    apply app_inj_tail in El as [_ [= ->]].
    apply one_event. intros s. simpl. unfold sending. rewrite Hd. destruct (H s) as [-> ->]. done.
Qed.

(** ** Runs *)

(** What the handlers see of an event. *)
Definition seen (e : event) : option (handling item) :=
  match e with Start x => Some (Started x) | Finish x => Some (Finished x) | _ => None end.
Definition arrived (e : event) : option item := match e with Arrive x => Some x | _ => None end.

Lemma visible_logged st l st' :
  step st l = Some st' ->
  log st' = log st ++ omap seen (visible st l) /\ received st' = received st ++ omap arrived (visible st l).
Proof.
  destruct l as [req| | | |later|w|w]; simpl; unfold recv, send, ticker, stop, take_next, finish_current; intros H;
    repeat match goal with
    | H : context [match ?x with _ => _ end] |- _ => destruct x; try done
    end; injection H as <-; by rewrite ?app_nil_r.
Qed.

Lemma fifo_run_app f es f1 es' f' : fifo_run f es f1 -> fifo_run f1 es' f' -> fifo_run f (es ++ es') f'.
Proof.
  induction 1 as [f f1 Hf|f e f2 es f1 Hs _ IH]; intros Hr; [by apply (fifo_run_proper _ f1)|].
  eapply fifo_cons; [done|]. by apply IH.
Qed.

Lemma simulation_run ls st st' :
  inv st -> tick_idle_run item_stream queue_cap idle_time st ls ->
  wrun item_stream queue_cap idle_time st ls = Some st' ->
  fifo_run (abs st) (events st ls) (abs st') /\
  log st' = log st ++ omap seen (events st ls) /\ received st' = received st ++ omap arrived (events st ls).
Proof.
  revert st. induction ls as [|l ls IH]; intros st Hi; simpl.
  { intros _ [= <-]. split; [by apply fifo_nil|]. by rewrite !app_nil_r. }
  intros [Ht Hts]. destruct (step st l) as [st1|] eqn:E; [|done]. intros Hr.
  destruct (IH st1) as (Hf & El & Er); [by eapply wstep_inv|done|done|].
  destruct (visible_logged _ _ _ E) as [El1 Er1].
  split; [eapply fifo_run_app; [by apply simulation|done]|].
  rewrite El, Er, El1, Er1, !omap_app, <- !app_assoc. done.
Qed.

(** What an event is to its own stream. *)
Lemma fifo_promise f es f' s :
  fifo_run f es f' -> (forall x, Discard x ∉ es) -> (length (f_busy f s) <= 1)%nat ->
  exists fin, f_busy f s ++ f_wait f s ++ arrivals s es = fin ++ f_busy f' s ++ f_wait f' s /\
    (Started <$> f_busy f s) ++ handlings s es = one_by_one fin ++ (Started <$> f_busy f' s).
Proof.
  induction 1 as [f f' Hf|f e f1 es f' Hs _ IH]; intros Hno Hb.
  { destruct (Hf s) as [-> ->]. exists []. simpl. by rewrite !app_nil_r. }
  assert (forall x, Discard x ∉ es) as Hno' by (intros x Hx; apply (Hno x); by right).
  destruct e as [x|x|x|x]; cbn [fifo_step] in Hs; [| destruct Hs as [Hbx Hs] | |by destruct (Hno x); left];
    destruct (Hs s) as [E1 E2]; unfold arrivals, handlings, only in *; cbn [omap list_omap].
  - rewrite E2 in IH. destruct (IH Hno' Hb) as (fin & Ha & Hh). exists fin. rewrite <- Ha, <- Hh, E1.
    case_decide; by rewrite <- ?app_assoc.
  - case_decide as Hx.
    + rewrite Hx in Hbx. rewrite Hbx in *. rewrite E2 in IH. destruct (IH Hno' ltac:(done)) as (fin & Ha & Hh).
      exists fin. by rewrite <- Ha, <- Hh, E1.
    + rewrite app_nil_r in E2. rewrite E2 in IH. destruct (IH Hno' Hb) as (fin & Ha & Hh). exists fin.
      by rewrite <- Ha, <- Hh, E1.
  - case_decide as Hx.
    + rewrite E1 in Hb |- *. destruct (f_busy f1 s); [|simpl in Hb; lia].
      destruct (IH Hno' ltac:(simpl; lia)) as (fin & Ha & Hh). exists (x :: fin). simpl in *.
      rewrite <- Ha, E2. split; [done|]. by rewrite Hh.
    + simpl in E1. rewrite E1, <- E2 in *. by apply IH.
Qed.

(** The specification keeps every stream in order: of the items that arrived, those first
    are finished, one after the other, then comes the one that is being handled, and then
    those that wait. *)
Theorem fifo_in_order es f s :
  fifo_run fifo_start es f -> (forall x, Discard x ∉ es) ->
  exists fin, arrivals s es = fin ++ f_busy f s ++ f_wait f s /\
    handlings s es = one_by_one fin ++ (Started <$> f_busy f s).
Proof. intros Hr Hno. exact (fifo_promise _ _ _ s Hr Hno (Nat.le_0_l _)). Qed.

(** C12. The goroutines implement a queue for each stream: whatever they do, in whatever
    order, as long as no worker is dismissed while it has work, is something the
    specification can do. The items received arrive, calls of the handler start and finish
    items exactly as the specification does, and the steps between, creating, feeding and
    dismissing workers, change nothing the specification sees. *)
Theorem workers_refine_fifo ls st :
  tick_idle_run item_stream queue_cap idle_time wstart ls ->
  wrun item_stream queue_cap idle_time wstart ls = Some st ->
  fifo_run fifo_start (events wstart ls) (abs st) /\
  log st = omap seen (events wstart ls) /\ received st = omap arrived (events wstart ls).
Proof. intros Ht Hr. apply (simulation_run ls wstart st); [apply stream_inv_start|done|done]. Qed.
End Fifo.

(** ** Witness *)

(** Two streams, of which one has two items: the other overtakes the second. *)
Definition sample_fifo_run : list (worker_label (string * nat)) :=
  [DRecv ("a", 1%nat); DSend; DRecv ("a", 2%nat); DSend; DRecv ("b", 3%nat); WTake 0; DSend; WTake 1; WDone 1; WDone 0;
   WTake 0]%string.
Definition sample_fifo : WState (string * nat) :=
  default wstart (wrun fst 10 60 wstart sample_fifo_run).

Lemma workers_refine_fifo_witness :
  fifo_run fst (fifo_start) (events fst 10 60 wstart sample_fifo_run) (abs fst sample_fifo) /\
  log sample_fifo = [Started ("a", 1%nat); Started ("b", 3%nat); Finished ("b", 3%nat); Finished ("a", 1%nat);
                     Started ("a", 2%nat)]%string.
Proof.
  destruct (workers_refine_fifo fst 10 60 sample_fifo_run sample_fifo) as (H & _).
  - vm_compute. repeat split.
  - vm_compute. reflexivity.
  - split; [exact H|]. vm_compute. reflexivity.
Defined.
