(* ===== verification/Streams.v ===== *)
(** * Streams: [handleRequestStream] ([component/gateway/proxy.go])

    The requests of a session that name a stream: [Workers] with a capacity of ten
    requests and a minute of idleness. *)

From S2P Require Import Prelude External Messages Lifecycle Workers.

Local Open Scope Z_scope.

Definition queue_cap : nat := 10.
Definition idle_time : Z := 1 * Minute.

Definition sstep : WState Request -> worker_label Request -> option (WState Request) :=
  wstep Req_Stream queue_cap idle_time.
Definition srun : WState Request -> list (worker_label Request) -> option (WState Request) :=
  wrun Req_Stream queue_cap idle_time.

(** A tick of the ticker finds no worker that expired with work left. *)
Definition no_busy_dismissal (ls : list (worker_label Request)) : Prop :=
  tick_idle_run Req_Stream queue_cap idle_time wstart ls.

(** ** The claims *)

(** The requests of a stream are handled one after another in the order in which
    the session sent them, however the streams interleave and workers come and go, as
    long as no worker is dismissed while it has work: the calls of [handleRequest] for
    the stream are, in this order, those of the first requests received for it, each
    finished before the next is started. *)
Theorem stream_fifo ls st s :
  no_busy_dismissal ls -> srun wstart ls = Some st ->
  exists fin cur later, of_stream Req_Stream s (received st) = fin ++ cur ++ later /\ (length cur <= 1)%nat /\
    log_of Req_Stream s (log st) = one_by_one fin ++ (Started <$> cur).
Proof. apply workers_fifo. Qed.

Definition sample_stream_request (id : Z) : Request := {|
  Req_Id := id; Req_ServiceCode := 7; Req_Method := "m"; Req_Data := []; Req_NodeId := "";
  Req_NoReply := false; Req_Stream := "a" |}.

(** The condition matters: a worker is dismissed one minute after the last request
    was handed to it even if it still handles one, and the next request of the stream
    gets a worker of its own, so that it can start and finish before the one that was
    sent first. *)
Theorem stream_overtaken :
  exists ls st, srun wstart ls = Some st /\
    of_stream Req_Stream "a" (received st) = [sample_stream_request 1; sample_stream_request 2] /\
    log_of Req_Stream "a" (log st) = [Started (sample_stream_request 1); Started (sample_stream_request 2);
                           Finished (sample_stream_request 2)].
Proof.
  set (ls := [DRecv (sample_stream_request 1); DSend; WTake 0%nat; DTime (61 * 10 ^ 9); DTicker;
              DRecv (sample_stream_request 2); DSend; WTake 1%nat; WDone 1%nat]).
  exists ls. eexists. split; [vm_compute; reflexivity|]. split; vm_compute; reflexivity.
Qed.

Lemma stream_fifo_witness :
  exists st fin cur later,
    srun wstart [DRecv (sample_stream_request 1); DSend; DRecv (sample_stream_request 2); WTake 0%nat]
      = Some st /\
    of_stream Req_Stream "a" (received st) = fin ++ cur ++ later /\ (length cur <= 1)%nat /\
    log_of Req_Stream "a" (log st) = one_by_one fin ++ (Started <$> cur).
Proof.
  eexists. destruct (stream_fifo
    [DRecv (sample_stream_request 1); DSend; DRecv (sample_stream_request 2); WTake 0%nat]
    _ "a" ltac:(vm_compute; auto) ltac:(vm_compute; reflexivity)) as (fin & cur & later & H).
  exists fin, cur, later. split; [vm_compute; reflexivity|exact H].
Defined.
