(* ===== verification/Bus.v ===== *)
(** * Bus: [multicast/bus.go]

    Multicasts on their way through a message queue: what is published, and how a
    subscriber hands what arrives to its handler, the messages of a stream one after
    another ([Workers]) and the others to a pool of goroutines. What the queue answers to a
    publication is an argument; what it delivers is that of [Queue]. *)

From S2P Require Import Prelude External Messages Lifecycle Queue Workers.

Local Open Scope Z_scope.
Local Open Scope list_scope.

Section Bus.
Context `{PM : !ProtoMessage Multicast}.

(** ** Options *)

(** [bo_GoPool] tells whether a pool was configured; otherwise the default one is used. *)
Record BusOptions := { ChannelName : string; bo_GoPool : bool }.

Definition WithChannelName (name : string) (o : BusOptions) : BusOptions :=
  {| ChannelName := name; bo_GoPool := bo_GoPool o |}.
Definition WithGoPool (pool : bool) (o : BusOptions) : BusOptions :=
  {| ChannelName := ChannelName o; bo_GoPool := pool |}.
Definition newOptions (apply : list (BusOptions -> BusOptions)) : BusOptions :=
  foldl (fun opt fn => fn opt) {| ChannelName := "nodehub:multicast"; bo_GoPool := false |} apply.

(** ** Publishing *)

Definition SetTime (message : Multicast) (now : Z) : Multicast := {|
  Mc_Receiver := Mc_Receiver message; Mc_Time := Some now; Mc_Content := Mc_Content message;
  Mc_Stream := Mc_Stream message; Mc_ToEveryone := Mc_ToEveryone message |}.

(** [Publish]: the error, the message, in which the time may have been set, and what was
    given to the queue, whose answer is [queue]. *)
Definition Publish (now : Z) (message : Multicast) (queue : option gerror)
  : option gerror * Multicast * option bytes :=
  let reply := Mc_Content message in
  if (Rep_ServiceCode reply =? 0) || (Rep_Code reply =? 0)
  then (Some (ErrorsNew "service code or message code is empty"), message, None)
  else if bool_decide (Mc_Receiver message = []) && negb (Mc_ToEveryone message)
  then (Some (ErrorsNew "receiver is empty"), message, None)
  else
    let message := match Mc_Time message with None => SetTime message now | Some _ => message end in
    match proto_Marshal message with
    | Err err => (Some err, message, None)
    | Ok payload => (queue, message, Some payload)
    end.

(** ** Subscribing *)

Definition bus_cap : nat := 100.
Definition bus_idle_time : Z := 5 * Minute.

(** The goroutine of [Subscribe] with its workers, and the messages given to the pool. *)
Record BusState := { b_workers : WState Multicast; b_submitted : list Multicast }.

Definition bus_start : BusState := {| b_workers := wstart; b_submitted := [] |}.

(** The steps: a payload arrives, [err] being the answer of the pool if it is asked, or
    the goroutine or a worker does something else. *)
Inductive bus_label :=
  | BData (data : bytes) (err : option gerror)
  | BSend | BTicker | BStop | BTime (later : Z) | BTake (w : worker_ptr) | BDone (w : worker_ptr).

Definition lift (st : BusState) (o : option (WState Multicast)) : option BusState :=
  match o with
  | Some ws => Some {| b_workers := ws; b_submitted := b_submitted st |}
  | None => None
  end.

(** The case [data, ok := <-msgC], up to the inner [select]. *)
Definition bus_recv (st : BusState) (data : bytes) (err : option gerror) : option BusState :=
  match disp (b_workers st) with
  | Selecting =>
      match proto_Unmarshal data with
      | Err _ => Some st
      | Ok msg =>
          if bool_decide (Mc_Stream msg = ""%string) then
            match err with
            | None => Some {| b_workers := b_workers st; b_submitted := b_submitted st ++ [msg] |}
            | Some _ => Some st
            end
          else lift st (recv Mc_Stream (b_workers st) msg)
      end
  | _ => None
  end.

Definition bus_step (st : BusState) (l : bus_label) : option BusState :=
  let other l := lift st (wstep Mc_Stream bus_cap bus_idle_time (b_workers st) l) in
  match l with
  | BData data err => bus_recv st data err
  | BSend => other DSend
  | BTicker => other DTicker
  | BStop => other DStop
  | BTime later => other (DTime later)
  | BTake w => other (WTake w)
  | BDone w => other (WDone w)
  end.

Fixpoint bus_run (st : BusState) (ls : list bus_label) : option BusState :=
  match ls with
  | [] => Some st
  | l :: ls => match bus_step st l with Some st => bus_run st ls | None => None end
  end.

(** ** Lemmas *)

(** What the workers see of a step. *)
Definition worker_view (l : bus_label) : list (worker_label Multicast) :=
  match l with
  | BData data _ =>
      match proto_Unmarshal data with
      | Ok msg => if bool_decide (Mc_Stream msg = ""%string) then [] else [DRecv msg]
      | Err _ => []
      end
  | BSend => [DSend] | BTicker => [DTicker] | BStop => [DStop] | BTime later => [DTime later]
  | BTake w => [WTake w] | BDone w => [WDone w]
  end.

Definition workers_view (ls : list bus_label) : list (worker_label Multicast) :=
  mjoin (worker_view <$> ls).

(** The payloads that arrive, as messages. *)
Definition arrived (ls : list bus_label) : list Multicast :=
  omap (fun l => match l with
                 | BData data _ => match proto_Unmarshal data with Ok m => Some m | Err _ => None end
                 | _ => None
                 end) ls.

Lemma lift_Some st o st' :
  lift st o = Some st' <-> exists ws, o = Some ws /\
    st' = {| b_workers := ws; b_submitted := b_submitted st |}.
Proof. destruct o; simpl; naive_solver. Qed.

Lemma bus_step_view st l st' :
  bus_step st l = Some st' ->
  wrun Mc_Stream bus_cap bus_idle_time (b_workers st) (worker_view l) = Some (b_workers st').
Proof.
  destruct l; simpl; try (intros (ws & E & ->)%lift_Some; simpl; by rewrite ?E).
  unfold bus_recv. destruct (disp _); [|done|done].
  destruct (proto_Unmarshal data) as [m|]; [|by intros [= <-]]. case_bool_decide.
  - by destruct err; intros [= <-].
  - intros (ws & E & ->)%lift_Some. simpl. by rewrite E.
Qed.

Lemma bus_run_view ls st st' :
  bus_run st ls = Some st' ->
  wrun Mc_Stream bus_cap bus_idle_time (b_workers st) (workers_view ls) = Some (b_workers st').
Proof.
  revert st. induction ls as [|l ls IH]; intros st; simpl; [by intros [= <-]|].
  destruct (bus_step st l) as [st1|] eqn:E; [|done]. intros H.
  unfold workers_view. simpl. rewrite wrun_app, (bus_step_view _ _ _ E). by apply IH.
Qed.

Lemma workers_view_cons l ls : workers_view (l :: ls) = worker_view l ++ workers_view ls.
Proof. done. Qed.

Lemma arrived_cons l ls : arrived (l :: ls) = arrived [l] ++ arrived ls.
Proof. apply (omap_app _ [l] ls). Qed.

Lemma received_by_view ls :
  received_by (workers_view ls) = filter (fun m => Mc_Stream m <> ""%string) (arrived ls).
Proof.
  induction ls as [|l ls IH]; [done|]. rewrite workers_view_cons, arrived_cons, filter_app, <- IH.
  unfold received_by at 1. rewrite omap_app. f_equal. destruct l; try done.
  unfold arrived. simpl. destruct (proto_Unmarshal data) as [m|]; [|done].
  case_bool_decide; rewrite filter_cons; by case_decide.
Qed.

(** What [Publish] gives to the queue is the message, with a time. *)
Lemma Publish_payload now m q err m' data :
  Publish now m q = (err, m', Some data) ->
  proto_Marshal m' = Ok data /\ err = q /\
  m' = match Mc_Time m with None => SetTime m now | Some _ => m end /\
  Rep_ServiceCode (Mc_Content m) <> 0 /\ Rep_Code (Mc_Content m) <> 0 /\
  (Mc_Receiver m <> [] \/ Mc_ToEveryone m = true).
Proof.
  unfold Publish. destruct (Z.eqb_spec (Rep_ServiceCode (Mc_Content m)) 0); [done|].
  destruct (Z.eqb_spec (Rep_Code (Mc_Content m)) 0); [done|]. simpl.
  destruct (bool_decide _ && _) eqn:E; [done|].
  assert (Mc_Receiver m <> [] \/ Mc_ToEveryone m = true).
  { case_bool_decide; [right|by left]. by destruct (Mc_ToEveryone m). }
  destruct (proto_Marshal _) eqn:Hm; [|done]. intros [= <- <- ->]. done.
Qed.

(** A message that is complete is published as it is. *)
Lemma Publish_complete now m q t data :
  Rep_ServiceCode (Mc_Content m) <> 0 -> Rep_Code (Mc_Content m) <> 0 -> Mc_Receiver m <> [] ->
  Mc_Time m = Some t -> proto_Marshal m = Ok data -> Publish now m q = (q, m, Some data).
Proof.
  intros Hs Hc Hr Ht Hd. unfold Publish. rewrite (proj2 (Z.eqb_neq _ _) Hs), (proj2 (Z.eqb_neq _ _) Hc).
  rewrite bool_decide_false by done. simpl. by rewrite Ht, Hd.
Qed.
End Bus.

(** ** The claims *)
Section Claims.
Context `{PL : ProtoLaws Multicast}.

(** A publication: the time, the message and the payload. *)
Record publication := { pub_time : Z; pub_message : Multicast; pub_payload : bytes }.

(** The message as it goes out: with the time of the publication if it had none. *)
Definition stamped (p : publication) : Multicast :=
  match Mc_Time (pub_message p) with
  | None => SetTime (pub_message p) (pub_time p)
  | Some _ => pub_message p
  end.

Definition published (p : publication) : Prop :=
  (Publish (pub_time p) (pub_message p) None).2 = Some (pub_payload p).

(** The payloads that arrive in a run. *)
Definition payloads (ls : list bus_label) : list bytes :=
  omap (fun l => match l with BData data _ => Some data | _ => None end) ls.

Definition decode (data : bytes) : option Multicast :=
  match proto_Unmarshal data with Ok m => Some m | Err _ => None end.

Lemma arrived_payloads ls : arrived ls = omap decode (payloads ls).
Proof.
  induction ls as [|l ls IH]; [done|]. rewrite arrived_cons, IH.
  change (payloads (l :: ls)) with (payloads ([l] ++ ls)). unfold payloads at 2. rewrite omap_app, omap_app.
  by destruct l.
Qed.

(** The payload of a publication is the stamped message. *)
Lemma published_decode p : published p -> decode (pub_payload p) = Some (stamped p).
Proof.
  unfold published. destruct (Publish _ _ _) as [[e m'] o] eqn:HP. simpl. intros ->.
  apply Publish_payload in HP as (Hm & _ & Hs & _). apply proto_roundtrip in Hm.
  unfold decode. rewrite Hm. by subst m'.
Qed.

Lemma published_decodes pubs :
  Forall published pubs -> omap decode (pub_payload <$> pubs) = stamped <$> pubs.
Proof.
  induction 1 as [|p pubs Hp _ IH]; [done|]. cbn [fmap list_fmap omap list_omap].
  by rewrite (published_decode p Hp), IH.
Qed.

Lemma of_stream_nonempty s (l : list Multicast) :
  s <> ""%string ->
  of_stream Mc_Stream s (filter (fun m => Mc_Stream m <> ""%string) l) = of_stream Mc_Stream s l.
Proof.
  intros Hs. unfold of_stream. induction l as [|m l IH]; [done|].
  rewrite (filter_cons _ m). rewrite (filter_cons (fun r => Mc_Stream r = s) m).
  destruct (decide (Mc_Stream m <> ""%string)) as [|n].
  - rewrite filter_cons, IH. done.
  - rewrite decide_False, IH; [done|]. intros <-. by apply n.
Qed.

(** C13. The multicasts of a stream are handled in the order in which they were published,
    one after the other and none twice, from [Publish] through a NATS or Redis queue, which
    can lose messages, and the workers of the subscriber to its handler: if no worker is
    dismissed while it has work, the calls of the handler for the stream are those of
    messages published on it since the subscription, stamped with the time of their
    publication, in the order of publication, each finished before the next one starts; if
    the queue lost none and the subscriber has not left it, they are the first of those
    messages, none left out; and when the subscriber has read all that was published and its
    workers have nothing left to do, all of them were handled. *)
Theorem multicast_fifo pubs qls q ls st s :
  Forall published pubs ->
  subscription_run qls q -> m_published q = pub_payload <$> pubs -> payloads ls `prefix_of` m_read q ->
  s <> ""%string -> tick_idle_run Mc_Stream bus_cap bus_idle_time wstart (workers_view ls) ->
  bus_run bus_start ls = Some st ->
  (exists fin cur, log_of Mc_Stream s (log (b_workers st)) = one_by_one fin ++ (Started <$> cur) /\
     (length cur <= 1)%nat /\
     fin ++ cur `sublist_of` of_stream Mc_Stream s (stamped <$> pubs) /\
     (m_lost q = false -> m_ctx q = false ->
      fin ++ cur `prefix_of` of_stream Mc_Stream s (stamped <$> pubs))) /\
  (payloads ls = m_published q -> quiet (b_workers st) ->
   log_of Mc_Stream s (log (b_workers st)) = one_by_one (of_stream Mc_Stream s (stamped <$> pubs))).
Proof.
  intros Hp Hq Hpub Hread Hs Hidle Hrun. apply bus_run_view in Hrun.
  destruct (subscription_reads _ _ Hq) as [Hsome Hpre]. rewrite Hpub in Hsome, Hpre |- *.
  pose proof (wrun_received _ _ _ _ _ _ Hrun) as Hrec. rewrite received_by_view, arrived_payloads in Hrec.
  cbn [received bus_start b_workers wstart app] in Hrec. split.
  - destruct (workers_fifo _ _ _ _ _ s Hidle Hrun) as (fin & cur & later & Hof & Hcur & Hlog).
    rewrite Hrec, of_stream_nonempty in Hof by done. exists fin, cur. split; [done|]. split; [done|].
    rewrite <- (published_decodes _ Hp). split; [|intros Hl Hx].
    + transitivity (fin ++ cur ++ later); [rewrite app_assoc; by apply sublist_inserts_r|]. rewrite <- Hof.
      apply filter_sublist_of, omap_sublist. etransitivity; [apply prefix_sublist_of, Hread|exact Hsome].
    + transitivity (fin ++ cur ++ later); [rewrite app_assoc; by eexists|]. rewrite <- Hof.
      apply filter_prefix, omap_prefix. etransitivity; [exact Hread|auto].
  - intros Hall Hquiet. rewrite (workers_complete _ _ _ _ _ s Hidle Hrun Hquiet), Hrec.
    rewrite of_stream_nonempty by done. by rewrite Hall, (published_decodes _ Hp).
Qed.

(** A message without a stream goes to the pool at once, and only such messages do. *)
Lemma unordered_submitted ls st st' :
  Forall (fun l => match l with BData _ err => err = None | _ => True end) ls ->
  bus_run st ls = Some st' ->
  b_submitted st' = b_submitted st ++ filter (fun m => Mc_Stream m = ""%string) (arrived ls).
Proof.
  intros Hok. revert st. induction Hok as [|l ls Hl _ IH]; intros st; cbn [bus_run].
  { intros [= <-]. by rewrite app_nil_r. }
  destruct (bus_step st l) as [st1|] eqn:E; [|done]. intros Hr. rewrite (IH _ Hr), (arrived_cons l ls), filter_app, app_assoc.
  clear IH Hr. f_equal.
  destruct l; simpl in E; try (apply lift_Some in E as (ws & _ & ->); simpl; by rewrite app_nil_r).
  unfold bus_recv in E. unfold arrived. simpl. destruct (disp _); [|done|done].
  destruct (proto_Unmarshal data) as [m|]; [|injection E as <-; by rewrite app_nil_r]. subst err.
  rewrite filter_cons. case_bool_decide as Em.
  - injection E as <-. simpl. by rewrite decide_True.
  - apply lift_Some in E as (ws & _ & ->). rewrite decide_False by done. by rewrite app_nil_r.
Qed.
End Claims.

(** ** Witnesses *)

Definition sample_multicast (code : Z) (time : option Z) : Multicast := {|
  Mc_Receiver := ["alice"%string]; Mc_Time := time; Mc_Stream := "room"; Mc_ToEveryone := false;
  Mc_Content := {| Rep_RequestId := 0; Rep_ServiceCode := 7; Rep_Code := code; Rep_Data := [] |} |}.

(** Two messages, published at times 10 and 11. *)
#[local] Instance sample_MulticastProto : ProtoMessage Multicast := {|
  proto_Marshal m :=
    if decide (m = sample_multicast 1 (Some 10)) then Ok [Byte.x61]
    else if decide (m = sample_multicast 2 (Some 11)) then Ok [Byte.x62]
    else Err (EForeign "proto");
  proto_Unmarshal b :=
    if decide (b = [Byte.x61]) then Ok (sample_multicast 1 (Some 10))
    else if decide (b = [Byte.x62]) then Ok (sample_multicast 2 (Some 11))
    else Err (EForeign "proto");
|}.

#[local] Instance sample_MulticastLaws : ProtoLaws Multicast.
Proof. split. intros m b. simpl. repeat case_decide; intros [= <-]; subst; done. Qed.

Definition sample_pubs : list publication :=
  [{| pub_time := 10; pub_message := sample_multicast 1 None; pub_payload := [Byte.x61] |};
   {| pub_time := 11; pub_message := sample_multicast 2 None; pub_payload := [Byte.x62] |}].
Definition sample_bus_run : list bus_label :=
  [BData [Byte.x61] None; BSend; BTake 0%nat; BData [Byte.x62] None; BSend].

(** Both messages reach the subscriber through a NATS queue. *)
Definition sample_queue_run : list mq_label :=
  [MPublish [Byte.x61]; MPublish [Byte.x62]; MDeliver; MPush; MRead; MDeliver; MPush; MRead].
Definition sample_queue : MQState :=
  default nats_subscribed (mq_run nats_step nats_subscribed sample_queue_run).

Lemma multicast_fifo_witness :
  exists st fin cur, bus_run bus_start sample_bus_run = Some st /\
    log_of Mc_Stream "room" (log (b_workers st)) = one_by_one fin ++ (Started <$> cur) /\
    fin ++ cur `prefix_of` of_stream Mc_Stream "room" (stamped <$> sample_pubs).
Proof.
  eexists. destruct (multicast_fifo sample_pubs sample_queue_run sample_queue sample_bus_run _ "room"
    ltac:(repeat constructor) ltac:(left; reflexivity) ltac:(reflexivity) ltac:(by eexists [])
    ltac:(discriminate) ltac:(vm_compute; tauto) ltac:(vm_compute; reflexivity))
    as [(fin & cur & H1 & _ & _ & H2) _].
  exists fin, cur. split; [vm_compute; reflexivity|]. split; [exact H1|]. apply H2; reflexivity.
Defined.
