(* ===== verification/Transport.v ===== *)
(** * Transport: [tcp.go], [websocket.go], [quic.go] of [component/gateway]

    The three transports: what they add to a node's entry, the sessions they make, and
    how a session receives requests and sends replies. Sockets are outside: what they
    deliver and answer are arguments. [Recv] of a TCP session loops over heartbeats; its
    fuel, one more than the bytes that are left, is enough since a frame has at least
    four ([recv_loop_total]). *)

From S2P Require Import Prelude External Entry PathLib Samples Balancer Resolver StateTable Messages Codec Registry Gateway.

Local Open Scope go_scope.
Local Open Scope Z_scope.

(** ** Entries *)

Definition set_Entrance `{U : ULID} (entry : NodeEntry) (entrance : string) : NodeEntry := {|
  ID := ID entry; Name := Name entry; State := State entry; Entrance := entrance;
  Metrics := Metrics entry; GRPC := GRPC entry; GitVersion := GitVersion entry |}.

Definition tcp_CompleteNodeEntry `{U : ULID} (listenAddr : string) (entry : NodeEntry) : NodeEntry :=
  set_Entrance entry ("tcp://" ++ listenAddr).
Definition quic_CompleteNodeEntry `{U : ULID} (listenAddr : string) (entry : NodeEntry) : NodeEntry :=
  set_Entrance entry ("quic://" ++ listenAddr).
(** [url_String] is [url.URL.String] of the scheme "ws", a host and a path. *)
Definition ws_CompleteNodeEntry `{U : ULID} (url_String : string -> string -> string) (host path : string)
  (entry : NodeEntry) : NodeEntry := set_Entrance entry (url_String host path).

(** ** Sessions *)

Definition newTCPSession `{U : ULID} (id : ulid) (now : Z) (local remote : string) : SessionObj := {|
  Sess_ID := ulid_String id; Sess_Type := "tcp"; Sess_Metadata := ∅; Sess_LocalAddr := local;
  Sess_RemoteAddr := remote; LastRWTime := now; Sess_Closed := false; Sent := [] |}.
Definition newQuicSession `{U : ULID} (id : ulid) (now : Z) (local remote : string) : SessionObj := {|
  Sess_ID := ulid_String id; Sess_Type := "quic"; Sess_Metadata := ∅; Sess_LocalAddr := local;
  Sess_RemoteAddr := remote; LastRWTime := now; Sess_Closed := false; Sent := [] |}.
(** A reverse proxy gives the client's address in the header [x-remote-addr]. *)
Definition newWsSession `{U : ULID} (id : ulid) (now : Z) (local connRemote requestRemote header : string)
  : SessionObj :=
  let remoteAddr := if bool_decide (header = ""%string) then requestRemote else header in
  {| Sess_ID := ulid_String id; Sess_Type := "websocket"; Sess_Metadata := ∅;
     Sess_LocalAddr := local;
     Sess_RemoteAddr := if bool_decide (remoteAddr = ""%string) then connRemote else remoteAddr;
     LastRWTime := now; Sess_Closed := false; Sent := [] |}.

(** [lastRWTime.Store(time.Now())] *)
Definition touch (now : Z) (o : SessionObj) : SessionObj := {|
  Sess_ID := Sess_ID o; Sess_Type := Sess_Type o; Sess_Metadata := Sess_Metadata o;
  Sess_LocalAddr := Sess_LocalAddr o; Sess_RemoteAddr := Sess_RemoteAddr o;
  LastRWTime := now; Sess_Closed := Sess_Closed o; Sent := Sent o |}.

(** The accept loop of the TCP server: whether the context is done, and what [Accept]
    returns; the connections handed out as sessions. *)
Fixpoint accept_loop {conn} (events : list (bool * result conn)) : list conn :=
  match events with
  | [] => []
  | (true, _) :: _ => []
  | (false, Err err) :: events => if errors_Is err net_ErrClosed then [] else accept_loop events
  | (false, Ok c) :: events => c :: accept_loop events
  end.

(** The loop of the QUIC server ends with the first error. *)
Fixpoint quic_accept_loop {conn} (events : list (result conn)) : list conn :=
  match events with
  | Ok c :: events => c :: quic_accept_loop events
  | _ => []
  end.

Section Transport.
Context `{PM : !ProtoMessage Request} `{PR : !ProtoMessage Reply}.
Variable MaxMessageSize : Z.
Variable grow_cap : nat -> nat -> nat.

Definition decode (b : bytes) : result Request :=
  match proto_Unmarshal b with
  | Err err => Err (Errorf "unmarshal request, %w" [] (Some err))
  | Ok req => Ok req
  end.

(** ** TCP *)

(** What a call of [Recv] yields, and how often [lastRWTime] was set. *)
Record received := {
  rv_result : result Request;
  rv_msg : Message;
  rv_reader : reader;
  rv_touched : nat;
}.

(** The loop of [Recv]; [None] is out of fuel. *)
Fixpoint recv_loop (fuel : nat) (r : reader) (msg : Message) (touched : nat)
  : option (outcome received) :=
  match fuel with
  | O => None
  | S fuel =>
      match ReadMessage MaxMessageSize grow_cap r msg with
      | Ret (Some err, msg, r) =>
          Some (Ret {| rv_result := Err (Errorf "read message, %w" [] (Some err)); rv_msg := msg;
                       rv_reader := r; rv_touched := touched |})
      | Ret (None, msg, r) =>
          if 0 <? Len msg then
            Some (let! b := Bytes msg in
                  Ret {| rv_result := decode b; rv_msg := msg; rv_reader := r;
                         rv_touched := S touched |})
          else recv_loop fuel r msg (S touched)
      | Panic => Some Panic
      | Blocked => Some Blocked
      end
  end.

Definition closed_is_EOF (r : result Request) : result Request :=
  match r with
  | Err err => if errors_Is err net_ErrClosed then Err io_EOF else Err err
  | Ok req => Ok req
  end.

(** [Recv] with the pool of messages. *)
Definition tcp_Recv (r : reader) (pool : list Message)
  : option (outcome (result Request * reader * list Message * nat)) :=
  let '(msg, pool) := pool_Get pool in
  match recv_loop (S (length (pending r))) r msg 0 with
  | Some (Ret rv) =>
      Some (Ret (closed_is_EOF (rv_result rv), rv_reader rv, pool_Put pool (rv_msg rv), rv_touched rv))
  | Some Panic => Some Panic
  | Some Blocked => Some Blocked
  | None => None
  end.

(** [Send]: the error, and the session. *)
Definition tcp_Send (o : SessionObj) (now : Z) (reply : Reply) (write : bytes -> option gerror)
  : option gerror * SessionObj :=
  match Codec.SendReply reply (fun data => match write data with None => Ok tt | Some e => Err e end) with
  | Ok _ => (None, touch now o)
  | Err err => (Some err, o)
  end.

(** ** WebSocket *)

Definition BinaryMessage : Z := 2.

(** [Recv]: whether the session is closed, what the connection's [ReadMessage] returns,
    and whether an error of it is a close frame of one of the three kinds. *)
Definition ws_Recv (is_close : gerror -> bool) (done : bool) (read : result (Z * bytes))
  : result Request * nat :=
  if done then (Err io_EOF, 0%nat)
  else
    match read with
    | Err err => (Err (if is_close err || errors_Is err net_ErrClosed then ESentinel io_EOF else err), 0%nat)
    | Ok (messageType, message) =>
        if bool_decide (messageType = BinaryMessage) then (decode message, 1%nat)
        else (Err (Errorf "unexpected message type: %d" [AInt messageType] None), 0%nat)
    end.

Definition ws_Send (o : SessionObj) (now : Z) (reply : Reply) (write : bytes -> option gerror)
  : option gerror * SessionObj :=
  match proto_Marshal reply with
  | Err err => (Some (Errorf "marshal response, %w" [] (Some err)), o)
  | Ok data => match write data with
               | None => (None, touch now o)
               | Some err => (Some err, o)
               end
  end.

(** ** QUIC *)

(** The streams of a session, by their IDs. *)
Definition streams_Append (ss : list Z) (s : Z) : list Z := (ss ++ [s])%list.
Definition streams_Remove (ss : list Z) (s : Z) : list Z := filter (fun v => v <> s) ss.

(** [Pick]: the remainder takes the sign of the code. *)
Definition Pick (ss : list Z) (serviceCode : Z) : outcome (option Z) :=
  match ss with
  | [] => Ret None
  | [s] => Ret (Some s)
  | _ => let! s := slice_index ss (serviceCode %ᵍ Z.of_nat (length ss)) in Ret (Some s)
  end.

(** [Recv]: the messages that come through [msgC] before the session is closed. *)
Fixpoint quic_Recv (msgs : list Message) : outcome (result Request * list Message) :=
  match msgs with
  | [] => Ret (Err io_EOF, [])
  | msg :: msgs =>
      if Len msg =? 0 then quic_Recv msgs
      else let! b := Bytes msg in Ret (decode b, msgs)
  end.

Definition quic_Send (o : SessionObj) (now : Z) (ss : list Z) (reply : Reply)
  (write : Z -> bytes -> option gerror) : outcome (option gerror * SessionObj) :=
  let! s := Pick ss (Rep_ServiceCode reply) in
  match s with
  | None => Ret (Some (ErrorsNew "no available stream"), o)
  | Some s => Ret (tcp_Send o now reply (write s))
  end.

(** What [isUnexpectedQUICError] tells apart. *)
Inductive quic_error := ApplicationError (code : Z) | IdleTimeoutError | OtherError.
Definition isUnexpectedQUICError (err : option quic_error) : bool :=
  match err with
  | None => false
  | Some (ApplicationError code) => 0 <? code
  | Some IdleTimeoutError => false
  | Some OtherError => true
  end.

(** The goroutine of a stream in [handleRequest]: the messages it puts into [msgC], each
    in a buffer of its own, until the stream ends. [None] is out of fuel. *)
Fixpoint stream_messages (fuel : nat) (r : reader) (pool : list Message)
  : option (outcome (list Message)) :=
  match fuel with
  | O => None
  | S fuel =>
      let '(msg, pool) := pool_Get pool in
      match ReadMessage MaxMessageSize grow_cap r msg with
      | Ret (Some _, _, _) => Some (Ret [])
      | Ret (None, msg, r) =>
          match stream_messages fuel r pool with
          | Some o => Some (let! msgs := o in Ret (msg :: msgs))
          | None => None
          end
      | Panic => Some Panic
      | Blocked => Some Blocked
      end
  end.
End Transport.

(** ** Lemmas *)
Section Lemmas.
Context `{PM : !ProtoMessage Request} `{PR : !ProtoMessage Reply}.
Variable MaxMessageSize : Z.
Variable grow_cap : nat -> nat -> nat.
Hypothesis Hlim : MaxMessageSize < 2 ^ 32.

(** Buffers that hold a length. *)
Definition buffer_ok (msg : Message) : Prop := (SizeLen <= length (data msg))%nat.
Definition pool_ok (pool : list Message) : Prop := Forall buffer_ok pool.

Lemma pool_Get_ok pool : pool_ok pool -> buffer_ok (pool_Get pool).1 /\ pool_ok (pool_Get pool).2.
Proof.
  destruct pool as [|m pool]; intros H.
  - split; [|constructor]. unfold buffer_ok, pool_Get, SizeLen. cbn [fst data]. rewrite length_replicate. lia.
  - by apply Forall_cons in H as [].
Qed.

Lemma pool_Put_ok pool msg : pool_ok pool -> buffer_ok msg -> pool_ok (pool_Put pool msg).
Proof.
  intros Hp Hm. unfold pool_Put. destruct (_ <? _)%nat; [|done].
  apply Forall_app. split; [done|]. by apply Forall_singleton.
Qed.

(** A frame at the front of the stream. *)
Lemma ReadMessage_frame r msg m rest :
  buffer_ok msg -> Z.of_nat (length m) <= MaxMessageSize -> pending r = (frame m ++ rest)%list ->
  exists msg' r', ReadMessage MaxMessageSize grow_cap r msg = Ret (None, msg', r') /\
    buffer_ok msg' /\ Len msg' = Z.of_nat (length m) /\ Bytes msg' = Ret m /\
    pending r' = rest /\ read_err r' = read_err r.
Proof.
  intros Hb Hm Hp.
  destruct (ReadMessage_run MaxMessageSize grow_cap r msg Hb) as
    (e & msg' & r' & sz & payload & n & Hrun & Hspec & Hp1 & He1 & Hsz & Hpl & Hc & _).
  rewrite Hp in Hspec, Hp1.
  assert (Z.of_nat (length m) < 2 ^ 32) as H32 by lia.
  destruct (read_spec_frame _ _ _ _ _ _ _ _ Hm H32 Hspec) as (-> & -> & Hdrop & ->).
  exists msg', r'. split; [done|]. split; [unfold buffer_ok in *; lia|].
  split; [done|]. split; [by apply Hpl|]. split; [congruence|done].
Qed.

(** The end of the stream. *)
Lemma ReadMessage_end r msg :
  buffer_ok msg -> pending r = [] ->
  exists msg' r', ReadMessage MaxMessageSize grow_cap r msg =
    Ret (Some (Errorf "read size frame, %w" [] (Some (read_err r))), msg', r') /\ buffer_ok msg'.
Proof.
  intros Hb Hp.
  destruct (ReadMessage_run MaxMessageSize grow_cap r msg Hb) as
    (e & msg' & r' & sz & payload & n & Hrun & Hspec & _ & _ & _ & _ & Hc & _).
  rewrite Hp in Hspec. exists msg', r'. rewrite Hrun. split; [|unfold buffer_ok in *; lia].
  inversion Hspec; subst; unfold SizeLen in *; simpl in *; try done; lia.
Qed.

Lemma length_frame m : (SizeLen <= length (frame m))%nat.
Proof. rewrite frame_eq, length_app. unfold SizeLen. simpl. lia. Qed.

(** Enough fuel: every turn of the loop consumes a frame. *)
Lemma recv_loop_total fuel r msg t :
  buffer_ok msg -> (length (pending r) < fuel)%nat ->
  exists rv, recv_loop MaxMessageSize grow_cap fuel r msg t = Some (Ret rv) /\
    buffer_ok (rv_msg rv) /\ (t <= rv_touched rv)%nat.
Proof.
  revert r msg t. induction fuel as [|fuel IH]; intros r msg t Hb Hf; [lia|].
  destruct (ReadMessage_run MaxMessageSize grow_cap r msg Hb) as
    (e & msg' & r' & sz & payload & n & Hrun & Hspec & Hp & He & Hsz & Hpl & Hc & _).
  assert (buffer_ok msg') as Hb' by (unfold buffer_ok in *; lia).
  cbn [recv_loop]. rewrite Hrun. destruct e as [err|].
  { eexists. split; [done|]. by split. }
  destruct (Z.ltb_spec 0 (Len msg')) as [Hl|Hl].
  - assert (exists b, payload = Some b) as [b Eb].
    { inversion Hspec; subst; eauto. }
    rewrite (Hpl _ Eb). simpl. eexists. split; [done|]. split; [done|]. simpl. lia.
  - assert (n = SizeLen /\ (SizeLen <= length (pending r))%nat) as [-> Hle].
    { unfold Len in Hl. inversion Hspec; subst; simpl in *; [done|lia]. }
    destruct (IH r' msg' (S t)) as (rv & H1 & H2 & H3); [done| |].
    { rewrite Hp, length_drop. unfold SizeLen in *. lia. }
    exists rv. split; [done|]. split; [done|]. lia.
Qed.

(** Heartbeats are skipped. *)
Definition pings (k : nat) : bytes := mjoin (replicate k (frame [])).

Lemma recv_loop_ping fuel r msg t k rest :
  buffer_ok msg -> pending r = (pings k ++ rest)%list -> 0 <= MaxMessageSize ->
  exists msg' r', recv_loop MaxMessageSize grow_cap (k + fuel) r msg t
      = recv_loop MaxMessageSize grow_cap fuel r' msg' (t + k) /\
    buffer_ok msg' /\ pending r' = rest /\ read_err r' = read_err r.
Proof.
  revert r msg t. induction k as [|k IH]; intros r msg t Hb Hp Hmax.
  { exists msg, r. by rewrite Nat.add_0_r. }
  unfold pings in Hp. cbn [replicate] in Hp.
  change (mjoin (frame [] :: replicate k (frame []))) with (frame [] ++ pings k)%list in Hp.
  rewrite <- app_assoc in Hp.
  destruct (ReadMessage_frame r msg [] _ Hb Hmax Hp) as (msg1 & r1 & Hrun & Hb1 & Hl & _ & Hp1 & He1).
  destruct (IH r1 msg1 (S t) Hb1 Hp1 Hmax) as (msg2 & r2 & Hrun2 & Hb2 & Hp2 & He2).
  exists msg2, r2. simpl. rewrite Hrun, Hl. simpl. rewrite Hrun2. split; [|split_and!; congruence].
  f_equal. lia.
Qed.

Lemma recv_loop_request fuel r msg t k m rest :
  buffer_ok msg -> pending r = (pings k ++ frame m ++ rest)%list -> m <> [] ->
  Z.of_nat (length m) <= MaxMessageSize -> (k < fuel)%nat ->
  exists rv, recv_loop MaxMessageSize grow_cap fuel r msg t = Some (Ret rv) /\
    rv_result rv = decode m /\ buffer_ok (rv_msg rv) /\ pending (rv_reader rv) = rest /\
    read_err (rv_reader rv) = read_err r /\ rv_touched rv = (t + k + 1)%nat.
Proof.
  intros Hb Hp Hm Hmax Hf. replace fuel with (k + S (fuel - k - 1))%nat by lia.
  destruct (recv_loop_ping (S (fuel - k - 1)) r msg t k _ Hb Hp) as (msg1 & r1 & -> & Hb1 & Hp1 & He1); [lia|].
  destruct (ReadMessage_frame r1 msg1 m rest Hb1 Hmax Hp1) as (msg2 & r2 & Hrun & Hb2 & Hl & HB & Hp2 & He2).
  simpl. rewrite Hrun, Hl. destruct m as [|b m]; [done|].
  destruct (Z.ltb_spec 0 (Z.of_nat (length (b :: m)))); [|simpl in *; lia].
  rewrite HB. simpl. eexists. split; [done|]. simpl. split_and!; try done; [congruence|lia].
Qed.

Lemma length_pings k rest : (k <= length (pings k ++ rest))%nat.
Proof.
  rewrite length_app. enough (k <= length (pings k))%nat by lia. unfold pings.
  induction k as [|k IH]; [done|]. cbn [replicate].
  change (mjoin (frame [] :: replicate k (frame []))) with (frame [] ++ mjoin (replicate k (frame [])))%list.
  rewrite length_app. pose proof (length_frame []). unfold SizeLen in *. lia.
Qed.

Lemma tcp_Recv_request r pool k m rest :
  pool_ok pool -> pending r = (pings k ++ frame m ++ rest)%list -> m <> [] ->
  Z.of_nat (length m) <= MaxMessageSize ->
  exists r' pool', tcp_Recv MaxMessageSize grow_cap r pool
      = Some (Ret (closed_is_EOF (decode m), r', pool', (k + 1)%nat)) /\
    pool_ok pool' /\ pending r' = rest /\ read_err r' = read_err r.
Proof.
  intros Hok Hp Hm Hmax. unfold tcp_Recv. destruct (pool_Get_ok _ Hok) as [Hb Hok'].
  destruct (pool_Get pool) as [msg pool1]. simpl in *.
  destruct (recv_loop_request (S (length (pending r))) r msg 0 k m rest) as
    (rv & Hr & Hres & Hb' & Hp' & He & Ht); try done.
  { rewrite Hp. pose proof (length_pings k (frame m ++ rest)). lia. }
  cbn [recv_loop] in Hr. cbn [recv_loop]. rewrite Hr.
  do 2 eexists. rewrite Hres, Ht. split; [done|]. split; [|done]. by apply pool_Put_ok.
Qed.

Lemma tcp_Recv_end r pool k :
  pool_ok pool -> pending r = pings k -> 0 <= MaxMessageSize ->
  read_err r = io_EOF \/ read_err r = net_ErrClosed ->
  exists err r' pool', tcp_Recv MaxMessageSize grow_cap r pool = Some (Ret (Err err, r', pool', k)) /\
    errors_Is err io_EOF = true.
Proof.
  intros Hok Hp Hmax He. unfold tcp_Recv. destruct (pool_Get_ok _ Hok) as [Hb Hok'].
  destruct (pool_Get pool) as [msg pool1]. simpl fst in *. simpl snd in *.
  pose proof (length_pings k []) as Hk. rewrite app_nil_r, <- Hp in Hk.
  replace (S (length (pending r))) with (k + S (length (pending r) - k))%nat by lia.
  rewrite <- (app_nil_r (pings k)) in Hp.
  destruct (recv_loop_ping (S (length (pending r) - k)) r msg 0 k [] Hb Hp Hmax)
    as (msg1 & r1 & -> & Hb1 & Hp1 & He1).
  destruct (ReadMessage_end r1 msg1 Hb1 Hp1) as (msg2 & r2 & Hrun & _).
  cbn [recv_loop]. rewrite Hrun, He1. simpl.
  destruct He as [-> | ->]; simpl; eauto 6.
Qed.
End Lemmas.

(** ** The claims: TCP *)
Section TcpClaims.
Context `{PM : !ProtoMessage Request} `{PL : !ProtoLaws Request}.
Variable MaxMessageSize : Z.
Variable grow_cap : nat -> nat -> nat.

(** Successive calls of [Recv]. *)
Fixpoint tcp_receive (k : nat) (r : reader) (pool : list Message)
  : option (outcome (list (result Request) * reader * list Message)) :=
  match k with
  | O => Some (Ret ([], r, pool))
  | S k =>
      match tcp_Recv MaxMessageSize grow_cap r pool with
      | Some (Ret (res, r, pool, _)) =>
          match tcp_receive k r pool with
          | Some (Ret (rs, r, pool)) => Some (Ret (res :: rs, r, pool))
          | o => o
          end
      | Some Panic => Some Panic
      | Some Blocked => Some Blocked
      | None => None
      end
  end.

(** A request sent after some heartbeats, with its encoding. *)
Record sending := { sd_pings : nat; sd_request : Request; sd_bytes : bytes }.

Definition sendable (x : sending) : Prop :=
  proto_Marshal (sd_request x) = Ok (sd_bytes x) /\ sd_bytes x <> [] /\
  Z.of_nat (length (sd_bytes x)) <= MaxMessageSize.

Definition on_wire (xs : list sending) : bytes :=
  mjoin ((fun x => pings (sd_pings x) ++ frame (sd_bytes x))%list <$> xs).

(** C15. Requests survive a TCP connection: what a client writes, requests with any
    number of heartbeats between and after them, is received by successive calls of
    [Recv] as it was sent and in order, whatever pieces it arrives in and whatever
    buffers the pool holds, and when the connection has ended, by the client or by
    [Close], the next call reports the end; [Recv] always returns. *)
Theorem tcp_roundtrip xs tail r pool :
  0 <= MaxMessageSize < 2 ^ 32 -> Forall sendable xs -> pool_ok pool ->
  pending r = (on_wire xs ++ pings tail)%list ->
  exists r' pool', tcp_receive (length xs) r pool
      = Some (Ret ((fun x => Ok (sd_request x)) <$> xs, r', pool')) /\
    (read_err r = io_EOF \/ read_err r = net_ErrClosed ->
     exists err r'' pool'' t, tcp_Recv MaxMessageSize grow_cap r' pool'
         = Some (Ret (Err err, r'', pool'', t)) /\ errors_Is err io_EOF = true).
Proof.
  intros [Hm0 Hm1] Hxs. revert r pool. induction Hxs as [|x xs (Hmar & Hne & Hlen) _ IH]; intros r pool Hok Hp.
  - exists r, pool. split; [done|]. intros He.
    destruct (tcp_Recv_end MaxMessageSize grow_cap Hm1 r pool tail Hok Hp Hm0 He) as (err & r' & p' & H).
    eauto 6.
  - unfold on_wire in Hp. rewrite fmap_cons in Hp.
    change (mjoin (?a :: ?l)) with (a ++ mjoin l)%list in Hp. rewrite <- !app_assoc in Hp.
    destruct (tcp_Recv_request MaxMessageSize grow_cap Hm1 r pool _ _ _ Hok Hp Hne Hlen)
      as (r1 & pool1 & Hr & Hok1 & Hp1 & He1).
    destruct (IH r1 pool1 Hok1 Hp1) as (r2 & pool2 & Hr2 & Hend).
    exists r2, pool2. simpl. rewrite Hr, Hr2. unfold decode.
    rewrite (proto_roundtrip _ _ Hmar). split; [done|]. by rewrite <- He1.
Qed.
End TcpClaims.

(** ** The claims: QUIC *)
Section QuicClaims.
Context `{PM : !ProtoMessage Request}.
Variable MaxMessageSize : Z.
Variable grow_cap : nat -> nat -> nat.
Hypothesis Hlim : MaxMessageSize < 2 ^ 32.

(** The messages a stream yields for the frames on it. *)
Definition holds (msg : Message) (m : bytes) : Prop :=
  Bytes msg = Ret m /\ Len msg = Z.of_nat (length m).

Lemma stream_messages_frames fuel r pool ms :
  pool_ok pool -> pending r = mjoin (frame <$> ms) -> (length ms < fuel)%nat ->
  Forall (fun m => Z.of_nat (length m) <= MaxMessageSize) ms ->
  exists msgs, stream_messages MaxMessageSize grow_cap fuel r pool = Some (Ret msgs) /\
    Forall2 holds msgs ms.
Proof.
  revert r pool ms. induction fuel as [|fuel IH]; intros r pool ms Hok Hp Hf Hms; [lia|].
  destruct (pool_Get_ok _ Hok) as [Hb Hok']. cbn [stream_messages].
  destruct (pool_Get pool) as [msg pool']. simpl in Hb, Hok'. destruct Hms as [|m ms Hm Hms].
  - destruct (ReadMessage_end MaxMessageSize grow_cap r msg Hb Hp) as (msg' & r' & -> & _). by exists [].
  - destruct (ReadMessage_frame MaxMessageSize grow_cap Hlim r msg m _ Hb Hm Hp)
      as (msg' & r' & -> & _ & Hl & HB & Hp' & _).
    destruct (IH r' pool' ms Hok' Hp') as (msgs & -> & HF); [simpl in Hf; lia|done|].
    simpl. eexists. split; [done|]. by constructor.
Qed.

(** Successive calls of [Recv]. *)
Fixpoint quic_receive (k : nat) (msgs : list Message) : outcome (list (result Request)) :=
  match k with
  | O => Ret []
  | S k =>
      let! (r, msgs) := quic_Recv msgs in
      let! rs := quic_receive k msgs in
      Ret (r :: rs)
  end.

(** The requests to a service among some results, and among some payloads. *)
Definition requests_to (c : Z) (rs : list (result Request)) : list Request :=
  omap (fun r => match r with
                 | Ok req => if bool_decide (Req_ServiceCode req = c) then Some req else None
                 | Err _ => None
                 end) rs.
Definition payload_to (c : Z) (m : bytes) : option Request :=
  if bool_decide (m = []) then None
  else match decode m with
       | Ok req => if bool_decide (Req_ServiceCode req = c) then Some req else None
       | Err _ => None
       end.

Lemma quic_receive_prefix k c msgs ms rs :
  Forall2 holds msgs ms -> quic_receive k msgs = Ret rs ->
  requests_to c rs `prefix_of` omap (payload_to c) ms.
Proof.
  revert msgs ms rs. induction k as [|k IH]; intros msgs ms rs HF; simpl.
  { intros [= <-]. apply prefix_nil. }
  revert rs. induction HF as [|msg m msgs ms [HB HL] HF IHF]; intros rs; simpl.
  - intros (rs' & Hr & [= <-])%outcome_bind_Ret. simpl. by apply (IH [] [] rs').
  - rewrite HL. destruct m as [|b m]; [exact (IHF rs)|].
    destruct (Z.eqb_spec (Z.of_nat (length (b :: m))) 0); [simpl in *; lia|].
    rewrite HB. cbn [outcome_bind].
    intros (rs' & Hr & [= <-])%outcome_bind_Ret. apply (IH _ _ _ HF) in Hr.
    unfold payload_to at 1. rewrite bool_decide_false by done. simpl.
    destruct (decode (b :: m)) as [req|]; [|done]. case_bool_decide; [|done]. by apply prefix_cons.
Qed.

(** [send] of the client: the stream of a service among [n] streams. *)
Definition stream_of (n service : Z) : Z := service %ᵍ n.
Definition on_stream (n i : Z) (sends : list (Z * bytes)) : list bytes :=
  (filter (fun s => stream_of n s.1 = i) sends).*2.

(** What is sent for a service: heartbeats and requests to it. *)
Definition sent_for (s : Z * bytes) : Prop :=
  0 <= s.1 /\ Z.of_nat (length s.2) <= MaxMessageSize /\
  forall req, s.2 <> [] -> decode s.2 = Ok req -> Req_ServiceCode req = s.1.

Lemma payload_to_stream (f : Z -> Z) i c (l : list (Z * bytes)) :
  (forall g, g ∈ l -> is_Some (payload_to c g.2) -> f g.1 = i) ->
  omap (payload_to c) (filter (fun g => f g.1 = i) l).*2 = omap (payload_to c) l.*2.
Proof.
  induction l as [|g l IH]; intros H; [done|]. rewrite filter_cons.
  assert (forall g', g' ∈ l -> is_Some (payload_to c g'.2) -> f g'.1 = i) as H'.
  { intros g' Hg. apply H. by right. }
  case_decide as E; csimpl; rewrite IH by done; [done|].
  destruct (payload_to c g.2) eqn:Hp; [|done]. destruct E. apply H; [left|]. rewrite Hp. by eexists.
Qed.

Lemma sent_payload_to s c : sent_for s -> is_Some (payload_to c s.2) -> s.1 = c.
Proof.
  intros (_ & _ & Hreq). unfold payload_to. case_bool_decide as Hne; [by intros []|].
  destruct (decode s.2) as [req|] eqn:Hd; [|by intros []].
  case_bool_decide as Hc; [|by intros []]. intros _. rewrite <- Hc. by rewrite (Hreq req).
Qed.

(** The payloads of what came through the channel, of one stream and of all. *)
Definition of_one (i : Z) (arrivals : list (Z * Message)) : list Message :=
  (filter (fun a => a.1 = i) arrivals).*2.

Lemma Forall2_prefix {A B} (P : A -> B -> Prop) l k k2 :
  l `prefix_of` k -> Forall2 P k k2 -> exists l2, l2 `prefix_of` k2 /\ Forall2 P l l2.
Proof.
  intros [r ->] HF. apply Forall2_app_inv_l in HF as (l2 & r2 & H1 & _ & ->).
  exists l2. split; [by eexists|done].
Qed.

Definition payload_of (msg : Message) : bytes := outcome_get [] (Bytes msg).

Lemma holds_payload msgs ms : Forall2 holds msgs ms -> payload_of <$> msgs = ms.
Proof. induction 1 as [|msg m msgs ms [HB _] _ IH]; [done|]. rewrite fmap_cons, IH. unfold payload_of. by rewrite HB. Qed.

(** C29. Requests to a service stay in order on a QUIC connection: a client sends for a
    service on the stream its code selects among [n]; the gateway reads each stream in a
    goroutine of its own, and what the streams yield reaches [Recv] in any interleaving,
    not all of it yet. Then the requests to each service that the calls of [Recv] return
    are the first of those the client sent to it, in the order in which it sent them.
    (Requests to different services can overtake each other.) *)
Theorem quic_service_order n sends (readers : Z -> reader) (pools : Z -> list Message)
  (fuels : Z -> nat) (produced : Z -> list Message) (arrivals : list (Z * Message)) k rs c :
  Forall sent_for sends -> (forall i, pool_ok (pools i)) ->
  (forall i, pending (readers i) = mjoin (frame <$> on_stream n i sends)) ->
  (forall i, (length sends < fuels i)%nat) ->
  (forall i, stream_messages MaxMessageSize grow_cap (fuels i) (readers i) (pools i)
             = Some (Ret (produced i))) ->
  (forall i, of_one i arrivals `prefix_of` produced i) ->
  quic_receive k arrivals.*2 = Ret rs ->
  requests_to c rs `prefix_of` omap (payload_to c) sends.*2.
Proof.
  intros Hsent Hpool Hread Hfuel Hprod Harr Hrs.
  assert (forall i, Forall2 holds (produced i) (on_stream n i sends)) as Hheld.
  { intros i. destruct (stream_messages_frames (fuels i) (readers i) (pools i) (on_stream n i sends))
      as (msgs & Hm & HF); try done.
    - unfold on_stream. rewrite length_fmap. pose proof (length_filter (fun s => stream_of n s.1 = i) sends).
      specialize (Hfuel i). lia.
    - apply Forall_forall. intros m (s & -> & [_ Hs]%list_elem_of_filter)%list_elem_of_fmap.
      rewrite Forall_forall in Hsent. by apply Hsent.
    - rewrite Hprod in Hm. by injection Hm as ->. }
  set (got := (fun a => (a.1, payload_of a.2)) <$> arrivals).
  assert (forall i, (filter (fun g => g.1 = i) got).*2 `prefix_of` on_stream n i sends) as Hgot.
  { intros i. rewrite <- (holds_payload _ _ (Hheld i)).
    replace (filter (fun g => g.1 = i) got).*2 with (payload_of <$> of_one i arrivals).
    - destruct (Harr i) as [r ->]. rewrite fmap_app. by eexists.
    - unfold of_one, got. clear. induction arrivals as [|a l IH]; [done|].
      rewrite fmap_cons, !filter_cons. cbn [fst]. case_decide; rewrite ?fmap_cons, ?IH; done. }
  assert (Forall2 holds arrivals.*2 got.*2) as HF.
  { unfold got. rewrite <- list_fmap_compose. apply Forall2_fmap_2, Forall_Forall2_diag.
    apply Forall_forall. intros [i msg] Hin. simpl.
    destruct (Forall2_prefix _ _ _ _ (Harr i) (Hheld i)) as (l2 & _ & HF).
    assert (msg ∈ of_one i arrivals) as Hm.
    { unfold of_one. apply list_elem_of_fmap. exists (i, msg). split; [done|].
      by apply list_elem_of_filter. }
    apply list_elem_of_lookup in Hm as [j Hj].
    destruct (Forall2_lookup_l _ _ _ _ _ HF Hj) as (m & _ & Hh). pose proof Hh as [HB _].
    unfold payload_of. by rewrite HB. }
  assert (forall g, g ∈ got -> is_Some (payload_to c g.2) -> g.1 = stream_of n c) as Hon.
  { intros [i m] Hin Hp. simpl in *.
    assert (m ∈ on_stream n i sends) as Hm.
    { destruct (Hgot i) as [r ->]. apply elem_of_app. left. apply list_elem_of_fmap.
      exists (i, m). split; [done|]. by apply list_elem_of_filter. }
    unfold on_stream in Hm. apply list_elem_of_fmap in Hm as (s & -> & [Hi Hs]%list_elem_of_filter).
    rewrite Forall_forall in Hsent. rewrite <- Hi. f_equal. by apply sent_payload_to; [apply Hsent|]. }
  etrans; [by eapply quic_receive_prefix|].
  rewrite <- (payload_to_stream (fun i => i) _ c got Hon).
  rewrite <- (payload_to_stream (stream_of n) (stream_of n c) c sends).
  - apply omap_prefix, Hgot.
  - intros s Hs Hp. f_equal. rewrite Forall_forall in Hsent. by apply sent_payload_to; [apply Hsent|].
Qed.
End QuicClaims.

(** The stream a reply is sent on: there is none without streams, and otherwise it
    is one of the session's and depends on the reply's service only, as long as the
    streams stay the same; the one exception is a negative service code that is not a
    multiple of the number of streams, two or more, for which [Pick] panics. *)
Theorem quic_Pick_spec ss serviceCode :
  match Pick ss serviceCode with
  | Ret None => ss = []
  | Ret (Some s) => s ∈ ss
  | Panic => (2 <= length ss)%nat /\ serviceCode < 0 /\ serviceCode `mod` Z.of_nat (length ss) <> 0
  | Blocked => False
  end /\
  (Pick ss serviceCode = Panic <->
   (2 <= length ss)%nat /\ serviceCode < 0 /\ serviceCode `mod` Z.of_nat (length ss) <> 0).
Proof.
  destruct ss as [|s1 [|s2 ss]]; unfold Pick.
  { split; [done|]. split; [done|simpl; lia]. }
  { split; [left|]. split; [done|simpl; lia]. }
  set (l := s1 :: s2 :: ss). assert ((2 <= length l)%nat) as Hl by (simpl; lia).
  clearbody l. remember (Z.of_nat (length l)) as n eqn:En. assert (2 <= n) as Hn by lia.
  pose proof (Z.quot_rem' serviceCode n) as Hqr.
  assert (serviceCode %ᵍ n < 0 <-> serviceCode < 0 /\ serviceCode `mod` n <> 0) as Hiff.
  { destruct (Z.lt_ge_cases serviceCode 0) as [Hneg|Hpos].
    - pose proof (Z.rem_bound_pos_neg serviceCode n ltac:(lia) ltac:(lia)).
      assert (serviceCode %ᵍ n = 0 <-> serviceCode `mod` n = 0) as Hz.
      { rewrite Z.rem_divide, Z.mod_divide by lia. done. }
      split; [intros; split; [done|]; rewrite <- Hz; lia|]. rewrite <- Hz. lia.
    - pose proof (Z.rem_bound_pos_pos serviceCode n ltac:(lia) ltac:(lia)). lia. }
  unfold slice_index. destruct (Z.ltb_spec (serviceCode %ᵍ n) 0) as [Hlt|Hge].
  - apply Hiff in Hlt as [H1 H2]. cbn [outcome_bind]. by split_and!.
  - assert (serviceCode %ᵍ n < n) as Hub.
    { destruct (Z.lt_ge_cases serviceCode 0);
        [pose proof (Z.rem_bound_pos_neg serviceCode n ltac:(lia) ltac:(lia)); lia
        |pose proof (Z.rem_bound_pos_pos serviceCode n ltac:(lia) ltac:(lia)); lia]. }
    destruct (l !! Z.to_nat (serviceCode %ᵍ n)) as [s|] eqn:Hs; cycle 1.
    { apply lookup_ge_None in Hs. lia. }
    cbn [outcome_bind]. split; [by eapply list_elem_of_lookup_2|]. split; [done|]. intros (_ & H). apply Hiff in H. lia.
Qed.

(** ** Witnesses *)

Definition sample_req (service : Z) (m : string) : Request := {|
  Req_Id := 1; Req_ServiceCode := service; Req_Method := m; Req_Data := []; Req_NodeId := "";
  Req_NoReply := false; Req_Stream := "" |}.

(** Three requests, to the services 7, 8 and 7. *)
#[local] Instance sample_RequestProto : ProtoMessage Request := {|
  proto_Marshal r :=
    if decide (r = sample_req 7 "a") then Ok [Byte.x61]
    else if decide (r = sample_req 8 "b") then Ok [Byte.x62; Byte.x62]
    else if decide (r = sample_req 7 "c") then Ok [Byte.x63]
    else Err (EForeign "proto");
  proto_Unmarshal b :=
    if decide (b = [Byte.x61]) then Ok (sample_req 7 "a")
    else if decide (b = [Byte.x62; Byte.x62]) then Ok (sample_req 8 "b")
    else if decide (b = [Byte.x63]) then Ok (sample_req 7 "c")
    else Err (EForeign "proto");
|}.

#[local] Instance sample_RequestLaws : ProtoLaws Request.
Proof. split. intros m b. simpl. repeat case_decide; intros [= <-]; subst; done. Qed.

Definition sample_sendings : list sending :=
  [{| sd_pings := 1; sd_request := sample_req 7 "a"; sd_bytes := [Byte.x61] |};
   {| sd_pings := 0; sd_request := sample_req 8 "b"; sd_bytes := [Byte.x62; Byte.x62] |}].

Lemma tcp_roundtrip_witness :
  exists r' pool', tcp_receive 65536 (fun _ n => n) 2
      {| chunks := [on_wire sample_sendings; frame []]; read_err := net_ErrClosed |} []
    = Some (Ret ([Ok (sample_req 7 "a"); Ok (sample_req 8 "b")], r', pool')).
Proof.
  destruct (tcp_roundtrip 65536 (fun _ n => n) sample_sendings 1
    {| chunks := [on_wire sample_sendings; frame []]; read_err := net_ErrClosed |} [])
    as (r' & pool' & H & _).
  - lia.
  - repeat constructor; simpl; try done; lia.
  - constructor.
  - reflexivity.
  - exists r', pool'. exact H.
Defined.

Definition sample_sends : list (Z * bytes) :=
  [(7, [Byte.x61]); (8, [Byte.x62; Byte.x62]); (7, [Byte.x63])].
Definition sample_readers (i : Z) : reader :=
  {| chunks := [mjoin (frame <$> on_stream 3 i sample_sends)]; read_err := io_EOF |}.
Definition sample_produced (i : Z) : list Message :=
  match stream_messages 65536 (fun _ n => n) 4 (sample_readers i) [] with
  | Some (Ret msgs) => msgs
  | _ => []
  end.
(** The stream of service 8 comes first. *)
Definition sample_arrivals : list (Z * Message) :=
  ((fun m => (2, m)) <$> sample_produced 2) ++ ((fun m => (1, m)) <$> sample_produced 1).

Lemma sample_on_stream i : i <> 1 -> i <> 2 -> on_stream 3 i sample_sends = [].
Proof.
  intros H1 H2. unfold on_stream, sample_sends, stream_of.
  by rewrite !filter_cons, !decide_False by (intros E; (apply H1 + apply H2); by rewrite <- E).
Qed.

Lemma sample_produced_ok i :
  stream_messages 65536 (fun _ n => n) 4 (sample_readers i) [] = Some (Ret (sample_produced i)).
Proof.
  destruct (decide (i = 1)) as [->|H1]; [vm_compute; reflexivity|].
  destruct (decide (i = 2)) as [->|H2]; [vm_compute; reflexivity|].
  unfold sample_produced, sample_readers. rewrite sample_on_stream by done. vm_compute. reflexivity.
Qed.

Lemma sample_arrivals_ok i : of_one i sample_arrivals `prefix_of` sample_produced i.
Proof.
  destruct (decide (i = 1)) as [->|H1]; [exists []; vm_compute; reflexivity|].
  destruct (decide (i = 2)) as [->|H2]; [exists []; vm_compute; reflexivity|].
  unfold of_one, sample_arrivals.
  assert (forall j (l : list Message), i <> j -> filter (fun a : Z * Message => a.1 = i) ((fun m => (j, m)) <$> l) = []) as H.
  { intros j l Hj. induction l as [|m l IH]; [done|]. rewrite fmap_cons, filter_cons. by rewrite decide_False. }
  rewrite filter_app, !H by done. apply prefix_nil.
Qed.

Lemma quic_service_order_witness :
  exists rs, quic_receive 3 sample_arrivals.*2 = Ret rs /\
    requests_to 7 rs `prefix_of` [sample_req 7 "a"; sample_req 7 "c"].
Proof.
  eexists. split; [vm_compute; reflexivity|].
  replace [sample_req 7 "a"; sample_req 7 "c"] with (omap (payload_to 7) sample_sends.*2)
    by (vm_compute; reflexivity).
  apply (quic_service_order 65536 (fun _ n => n) ltac:(lia) 3 sample_sends sample_readers (fun _ => [])
    (fun _ => 4%nat) sample_produced sample_arrivals 3 _ 7).
  - repeat constructor; simpl; try done; try lia; intros req _; vm_compute; by intros [= <-].
  - intros i. constructor.
  - intros i. exact (app_nil_r _).
  - intros i. simpl. lia.
  - exact sample_produced_ok.
  - exact sample_arrivals_ok.
  - vm_compute. reflexivity.
Defined.
