(* ===== verification/Listeners.v ===== *)
(** * Listeners: the servers of the transports and the life of a QUIC session
      ([component/gateway/tcp.go], [websocket.go], [quic.go])

    How the three servers are made, start and shut down, what becomes of a connection
    that a WebSocket server has upgraded, and the goroutines of a QUIC session, which
    closes itself when its last stream has ended. *)

From S2P Require Import Prelude External Messages Codec Gateway Transport.

Local Open Scope go_scope.
Local Open Scope Z_scope.

(** ** Servers

    [L] is a listener; what the network answers is an argument. *)
Section Servers.
Context {L : Type}.

Record tcpServer := { tcp_listenAddr : string; tcp_listener : option L }.
Definition NewTCPServer (listenAddr : string) : tcpServer :=
  {| tcp_listenAddr := listenAddr; tcp_listener := None |}.
Definition BindTCPServer (listener : L) (addr : string) : tcpServer :=
  {| tcp_listenAddr := addr; tcp_listener := Some listener |}.

(** [Serve], up to its goroutine. *)
Definition tcp_Serve (ts : tcpServer) (listen : result L) : result tcpServer :=
  match tcp_listener ts with
  | Some _ => Ok ts
  | None =>
      match listen with
      | Err err => Err (Errorf "listen, %w" [] (Some err))
      | Ok l => Ok {| tcp_listenAddr := tcp_listenAddr ts; tcp_listener := Some l |}
      end
  end.
(** [Shutdown]: a nil listener panics. *)
Definition tcp_Shutdown (ts : tcpServer) (close : L -> option gerror) : outcome (option gerror) :=
  match tcp_listener ts with Some l => Ret (close l) | None => Panic end.

Record quicServer := {
  quic_listenAddr : string; quic_packetConn : option L; quic_listener : option L
}.
Definition NewQUICServer (listenAddr : string) : quicServer :=
  {| quic_listenAddr := listenAddr; quic_packetConn := None; quic_listener := None |}.
Definition BindQUICServer (conn : L) (addr : string) : quicServer :=
  {| quic_listenAddr := addr; quic_packetConn := Some conn; quic_listener := None |}.

(** [listen] listens on a given connection, [listenAddr] on an address. *)
Definition quic_Serve (qs : quicServer) (listen : L -> result L) (listenAddr : string -> result L)
  : result quicServer :=
  match (match quic_packetConn qs with Some c => listen c | None => listenAddr (quic_listenAddr qs) end) with
  | Err err => Err (Errorf "listen, %w" [] (Some err))
  | Ok l => Ok {| quic_listenAddr := quic_listenAddr qs; quic_packetConn := quic_packetConn qs;
                  quic_listener := Some l |}
  end.
Definition quic_Shutdown (qs : quicServer) (close : L -> option gerror) : outcome (option gerror) :=
  match quic_listener qs with Some l => Ret (close l) | None => Panic end.

(** A WebSocket server: where it listens, and whether [Serve] has made its HTTP server. *)
Record wsServer := {
  ws_host : string; ws_path : string; ws_listener : option L; ws_server : bool
}.
Definition NewWSServer (listenAddr urlPath : string) : wsServer :=
  {| ws_host := listenAddr; ws_path := urlPath; ws_listener := None; ws_server := false |}.
Definition BindWSServer (listener : L) (addr urlPath : string) : wsServer :=
  {| ws_host := addr; ws_path := urlPath; ws_listener := Some listener; ws_server := false |}.
Definition ws_Serve (ws : wsServer) : wsServer := {|
  ws_host := ws_host ws; ws_path := ws_path ws; ws_listener := ws_listener ws; ws_server := true |}.

(** The goroutine of [Serve]: [served] is what the HTTP server returns when it ends, and
    whether that is [http.ErrServerClosed]; any other error ends the process. *)
Definition ws_served (served : option (gerror * bool)) : outcome () :=
  match served with Some (_, false) => Panic | _ => Ret () end.
Definition ws_Shutdown (ws : wsServer) (shutdown : option gerror) : outcome (option gerror) :=
  if ws_server ws then Ret shutdown else Panic.

(** What the handler of a WebSocket request does with the session that [newSession] makes:
    hands it on, unless the channel is closed; the panic of that is recovered. *)
Inductive ws_outcome (S : Type) := NotUpgraded (err : gerror) | HandedOn (sess : S) | Dropped (sess : S).
Arguments NotUpgraded {S} err.
Arguments HandedOn {S} sess.
Arguments Dropped {S} sess.
Definition ws_handler {S} (sess : result S) (chan_closed : bool) : ws_outcome S :=
  match sess with
  | Err err => NotUpgraded err
  | Ok sess => if chan_closed then Dropped sess else HandedOn sess
  end.
End Servers.

(** ** WebSocket sessions *)

(** [newSession]: [upgraded] is the remote address of the upgraded connection; with the
    limit set for the size of messages. *)
Definition ws_newSession `{U : ULID} (MaxMessageSize : Z) (id : ulid) (now : Z) (local requestRemote header : string)
    (upgraded : result string) : result (SessionObj * Z) :=
  match upgraded with
  | Err err => Err (Errorf "upgrade websocket, %w" [] (Some err))
  | Ok connRemote => Ok (newWsSession id now local connRemote requestRemote header, MaxMessageSize)
  end.

(** [setPingPongHandler]: the handler of pings, or of pongs, of a session. *)
Definition ws_control (handler : string -> option gerror) (now : Z) (appData : string) (o : SessionObj)
  : option gerror * SessionObj := (handler appData, touch now o).

(** ** Closing a session

    [closeOnce], the channel [done] of a WebSocket session, and how often the connection
    was closed. *)
Record socket := { so_once : bool; so_done : bool; so_closes : nat }.
Definition new_socket : socket := {| so_once := false; so_done := false; so_closes := 0 |}.

(** [err] is what closing the connection yields. *)
Definition tcp_Close (err : option gerror) (so : socket) : option gerror * socket :=
  if so_once so then (None, so)
  else (err, {| so_once := true; so_done := so_done so; so_closes := S (so_closes so) |}).

Definition ws_Close (so : socket) : outcome (option gerror * socket) :=
  if so_once so then Ret (None, so)
  else
    let! d := close_chan (so_done so) in
    Ret (None, {| so_once := true; so_done := d; so_closes := S (so_closes so) |}).

(** Several calls: the results. *)
Fixpoint tcp_closes (errs : list (option gerror)) (so : socket) : list (option gerror) * socket :=
  match errs with
  | [] => ([], so)
  | err :: errs => let '(r, so) := tcp_Close err so in
                   let '(rs, so) := tcp_closes errs so in (r :: rs, so)
  end.
Fixpoint ws_closes (n : nat) (so : socket) : outcome (list (option gerror) * socket) :=
  match n with
  | O => Ret ([], so)
  | S n => let! (r, so) := ws_Close so in let! (rs, so) := ws_closes n so in Ret ((r :: rs)%list, so)
  end.

(** A session can be closed by any number of goroutines, as it is by the hub, by the
    connection that takes over, by the scan and by its own handler: the connection is closed
    once, closing [done] twice does not panic, and only the first caller over TCP is told
    of an error. *)
Theorem Close_idempotent err errs n :
  tcp_closes (err :: errs) new_socket =
    ((err :: replicate (length errs) None)%list, {| so_once := true; so_done := false; so_closes := 1 |}) /\
  ws_closes (S n) new_socket =
    Ret (replicate (S n) None, {| so_once := true; so_done := true; so_closes := 1 |}).
Proof.
  split.
  - cbn. assert (forall so, so_once so = true -> tcp_closes errs so = (replicate (length errs) None, so)) as H.
    { intros so Hso. induction errs as [|e errs IH]; [done|]. cbn. unfold tcp_Close. by rewrite Hso, IH. }
    by rewrite H.
  - cbn. assert (forall so, so_once so = true -> ws_closes n so = Ret (replicate n None, so)) as H.
    { intros so Hso. induction n as [|n IH]; [done|]. cbn. unfold ws_Close. by rewrite Hso; cbn; rewrite IH. }
    by rewrite H.
Qed.

(** ** A QUIC session *)

(** The goroutine of a stream: reading; out of the streams; having found none left;
    returned. *)
Inductive stream_phase := SReading | SRemoved | SLast | SReturned.

#[export] Instance stream_phase_eq_dec : EqDecision stream_phase.
Proof. solve_decision. Defined.

(** [q_msgs] is what was passed through [msgC]. *)
Record QState := {
  q_streams : list Z;
  q_phases : gmap Z stream_phase;
  q_done : bool;
  q_accepting : bool;
  q_msgs : list (Z * Message);
}.

Definition qstart : QState := {|
  q_streams := []; q_phases := ∅; q_done := false; q_accepting := true; q_msgs := [] |}.

Definition q_set (st : QState) ss ps : QState := {|
  q_streams := ss; q_phases := ps; q_done := q_done st; q_accepting := q_accepting st;
  q_msgs := q_msgs st |}.

(** [Close]: the second call does nothing. *)
Definition quic_Close (st : QState) : QState := {|
  q_streams := q_streams st; q_phases := q_phases st; q_done := true;
  q_accepting := q_accepting st; q_msgs := q_msgs st |}.

Inductive quic_label :=
  | QAccept (s : Z) | QAcceptErr | QMessage (s : Z) (msg : Message) | QStop (s : Z)
  | QLen (s : Z) | QCloseLast (s : Z) | QClose.

Definition in_stream (st : QState) (s : Z) (p : stream_phase) (next : QState) : option QState :=
  if decide (q_phases st !! s = Some p) then Some next else None.

(** The steps of [handleRequest] and its goroutines, and calls of [Close]. *)
Definition qstep (st : QState) (l : quic_label) : option QState :=
  match l with
  | QAccept s =>
      match q_phases st !! s with
      | None => if q_accepting st
                then Some (q_set st (streams_Append (q_streams st) s) (<[s := SReading]> (q_phases st)))
                else None
      | Some _ => None
      end
  | QAcceptErr =>
      if q_accepting st then
        Some {| q_streams := q_streams st; q_phases := q_phases st; q_done := true;
                q_accepting := false; q_msgs := q_msgs st |}
      else None
  | QMessage s msg =>
      in_stream st s SReading {|
        q_streams := q_streams st; q_phases := q_phases st; q_done := q_done st;
        q_accepting := q_accepting st; q_msgs := (q_msgs st ++ [(s, msg)])%list |}
  | QStop s =>
      in_stream st s SReading
        (q_set st (streams_Remove (q_streams st) s) (<[s := SRemoved]> (q_phases st)))
  | QLen s =>
      in_stream st s SRemoved
        (q_set st (q_streams st)
           (<[s := if bool_decide (q_streams st = []) then SLast else SReturned]> (q_phases st)))
  | QCloseLast s =>
      in_stream st s SLast
        (quic_Close (q_set st (q_streams st) (<[s := SReturned]> (q_phases st))))
  | QClose => Some (quic_Close st)
  end.

Fixpoint qrun (st : QState) (ls : list quic_label) : option QState :=
  match ls with
  | [] => Some st
  | l :: ls => match qstep st l with Some st => qrun st ls | None => None end
  end.

(** ** Lemmas *)

Record quic_inv (st : QState) : Prop := {
  qi_streams : forall s, s ∈ q_streams st <-> q_phases st !! s = Some SReading;
  qi_last : q_streams st = [] -> q_phases st <> ∅ ->
    q_done st = true \/ exists s p, q_phases st !! s = Some p /\ (p = SRemoved \/ p = SLast);
}.

Lemma in_stream_Some st s p next st' :
  in_stream st s p next = Some st' -> q_phases st !! s = Some p /\ st' = next.
Proof. unfold in_stream. case_decide; [|done]. by intros [= <-]. Qed.

Lemma not_reading st s p q :
  p <> SReading -> q <> SReading -> q_phases st !! s = Some p ->
  (forall s', s' ∈ q_streams st <-> q_phases st !! s' = Some SReading) ->
  forall s', s' ∈ q_streams st <-> <[s := q]> (q_phases st) !! s' = Some SReading.
Proof.
  intros Hp Hq Hs H s'. rewrite H. destruct (decide (s' = s)) as [->|Hne].
  - rewrite lookup_insert_eq, Hs. split; congruence.
  - by rewrite lookup_insert_ne.
Qed.

Lemma qstep_inv st l st' : quic_inv st -> qstep st l = Some st' -> quic_inv st'.
Proof.
  intros [Hs Hl]. destruct l as [s| |s msg|s|s|s|]; simpl.
  - destruct (q_phases st !! s) eqn:Hn; [done|]. destruct (q_accepting st); [|done].
    intros [= <-]. split; simpl.
    + intros s'. unfold streams_Append. rewrite elem_of_app, list_elem_of_singleton, Hs, lookup_insert_Some.
      destruct (decide (s' = s)) as [->|]; naive_solver congruence.
    + intros []%app_nil. done.
  - destruct (q_accepting st); [|done]. intros [= <-]. split; [done|]. by left.
  - intros [_ ->]%in_stream_Some. by split.
  - intros [Hp ->]%in_stream_Some. split; simpl.
    + intros s'. unfold streams_Remove. rewrite list_elem_of_filter, Hs, lookup_insert_Some. naive_solver.
    + intros _ _. right. exists s, SRemoved. rewrite lookup_insert_eq. auto.
  - intros [Hp ->]%in_stream_Some. case_bool_decide as He.
    + split; simpl; [by apply (not_reading _ _ SRemoved)|]. intros _ _. right. exists s, SLast.
      rewrite lookup_insert_eq. auto.
    + split; simpl; [by apply (not_reading _ _ SRemoved)|]. done.
  - intros [Hp ->]%in_stream_Some. split; simpl; [by apply (not_reading _ _ SLast)|]. by left.
  - intros [= <-]. split; [done|]. by left.
Qed.

Lemma qrun_inv ls st st' : quic_inv st -> qrun st ls = Some st' -> quic_inv st'.
Proof.
  revert st. induction ls as [|l ls IH]; intros st Hi; simpl; [by intros [= <-]|].
  destruct (qstep st l) as [st1|] eqn:E; [|done]. apply IH. by eapply qstep_inv.
Qed.

Lemma quic_inv_start : quic_inv qstart.
Proof. split; simpl; [|done]. intros s. rewrite lookup_empty. split; [by intros ?%not_elem_of_nil|done]. Qed.

(** A QUIC session is closed when the goroutines of all its streams have returned,
    however they and the acceptance of streams interleave, and the streams it picks from
    for replies are those being read. *)
Theorem quic_session_closes ls st :
  qrun qstart ls = Some st ->
  (forall s, s ∈ q_streams st <-> q_phases st !! s = Some SReading) /\
  (q_phases st <> ∅ -> map_Forall (fun _ p => p = SReturned) (q_phases st) -> q_done st = true).
Proof.
  intros Hrun. destruct (qrun_inv _ _ _ quic_inv_start Hrun) as [Hs Hl]. split; [done|].
  intros Hne Hall. destruct Hl as [?|(s & p & Hp & Hor)]; [|done|done|].
  - destruct (q_streams st) as [|s ss] eqn:E; [done|]. assert (q_phases st !! s = Some SReading) as Hr
      by (apply Hs; by left). by apply Hall in Hr.
  - apply Hall in Hp. destruct Hor; congruence.
Qed.

(** The stream of a service changes when streams come and go: a reply can overtake an
    earlier one of the same service that went through another stream. *)
Theorem quic_Pick_moves :
  Pick [0] 1 = Ret (Some 0) /\ Pick (streams_Append [0] 4) 1 = Ret (Some 4).
Proof. split; vm_compute; reflexivity. Qed.

(** [Shutdown] panics exactly if [Serve] has not made what it closes. *)
Theorem tcp_Shutdown_panics {L} (ts : tcpServer (L := L)) close :
  tcp_Shutdown ts close = Panic <-> tcp_listener ts = None.
Proof. unfold tcp_Shutdown. by destruct (tcp_listener ts). Qed.
