(* ===== verification/Session.v ===== *)
(** * Session: the loop of [handleSession] ([component/gateway/proxy.go])

    What becomes of the requests of one connection: [Recv] yields them one after the
    other; one that names no stream is handed to the pool, the others go through a
    channel to the goroutine of [Streams]. The loop, that goroutine and its workers
    interleave. *)

From S2P Require Import Prelude External Messages Codec Lifecycle Workers Streams Transport.

Local Open Scope Z_scope.
Local Open Scope list_scope.

(** The loop: at its top, sending to [reqC], or over. *)
Inductive loop_phase := LTop | LHanding (req : Request) | LOver.

(** [ss_pool] lists the requests the pool accepted. *)
Record SessState := {
  ss_loop : loop_phase;
  ss_streams : WState Request;
  ss_pool : list Request;
}.

Definition session_start : SessState := {| ss_loop := LTop; ss_streams := wstart; ss_pool := [] |}.

(** [TRecv r err]: [Recv] returns [r]; [err] is the answer of the pool if it is asked.
    [TDone]: the gateway stops. [THand]: [reqC <- req]. [TStream l]: a step of the
    goroutine behind [reqC] or of a worker. *)
Inductive session_label :=
  | TRecv (r : result Request) (err : option gerror)
  | TDone
  | THand
  | TStream (l : worker_label Request).

Definition at_top (st : SessState) (r : result Request) (err : option gerror) : SessState :=
  match r with
  | Err _ => {| ss_loop := LOver; ss_streams := ss_streams st; ss_pool := ss_pool st |}
  | Ok req =>
      if bool_decide (Req_Stream req = ""%string) then
        {| ss_loop := LTop; ss_streams := ss_streams st;
           ss_pool := match err with None => ss_pool st ++ [req] | Some _ => ss_pool st end |}
      else {| ss_loop := LHanding req; ss_streams := ss_streams st; ss_pool := ss_pool st |}
  end.

(** The goroutine behind [reqC] ends when the channel is closed, or with the context
    while it waits for room; otherwise it goes on as it likes, but requests come from
    the loop only. *)
Definition stream_may (st : SessState) (l : worker_label Request) : bool :=
  match l with
  | DRecv _ => false
  | DStop => match ss_loop st, disp (ss_streams st) with LOver, _ | _, Sending _ _ => true | _, _ => false end
  | _ => true
  end.

Definition session_step (st : SessState) (l : session_label) : option SessState :=
  match l with
  | TRecv r err => match ss_loop st with LTop => Some (at_top st r err) | _ => None end
  | TDone =>
      match ss_loop st with
      | LOver => None
      | _ => Some {| ss_loop := LOver; ss_streams := ss_streams st; ss_pool := ss_pool st |}
      end
  | THand =>
      match ss_loop st with
      | LHanding req =>
          match sstep (ss_streams st) (DRecv req) with
          | Some ws => Some {| ss_loop := LTop; ss_streams := ws; ss_pool := ss_pool st |}
          | None => None
          end
      | _ => None
      end
  | TStream l =>
      if stream_may st l then
        match sstep (ss_streams st) l with
        | Some ws => Some {| ss_loop := ss_loop st; ss_streams := ws; ss_pool := ss_pool st |}
        | None => None
        end
      else None
  end.

Fixpoint session_run (st : SessState) (ls : list session_label) : option SessState :=
  match ls with
  | [] => Some st
  | l :: ls => match session_step st l with Some st => session_run st ls | None => None end
  end.

(** ** Lemmas *)

(** What [Recv] returned in a run, and the requests before the first error. *)
Definition recv_results (ls : list session_label) : list (result Request) :=
  omap (fun l => match l with TRecv r _ => Some r | _ => None end) ls.
Fixpoint requests (rs : list (result Request)) : list Request :=
  match rs with Ok req :: rs => req :: requests rs | _ => [] end.

(** The steps of the workers in a run. *)
Fixpoint streams_view (st : SessState) (ls : list session_label) : list (worker_label Request) :=
  match ls with
  | [] => []
  | l :: ls =>
      let rest := match session_step st l with Some st => streams_view st ls | None => [] end in
      match l, ss_loop st with
      | THand, LHanding req => DRecv req :: rest
      | TStream l, _ => l :: rest
      | _, _ => rest
      end
  end.

Definition with_stream (rs : list Request) : list Request :=
  filter (fun r => Req_Stream r <> ""%string) rs.

(** The requests for streams that are still with the loop. *)
Definition in_hand (st : SessState) : list Request :=
  match ss_loop st with LHanding req => [req] | _ => [] end.

Lemma srun_cons l ls st :
  srun st (l :: ls) = match sstep st l with Some st => srun st ls | None => None end.
Proof. done. Qed.

(** The steps of a session, by what they do to the streams. *)
Lemma session_step_view st l st' :
  session_step st l = Some st' ->
  match l with
  | TRecv r err => ss_loop st = LTop /\ st' = at_top st r err
  | TDone => ss_loop st <> LOver /\ ss_loop st' = LOver /\ ss_streams st' = ss_streams st
  | THand => exists req, ss_loop st = LHanding req /\ ss_loop st' = LTop /\
      sstep (ss_streams st) (DRecv req) = Some (ss_streams st')
  | TStream l => stream_may st l = true /\ ss_loop st' = ss_loop st /\
      sstep (ss_streams st) l = Some (ss_streams st')
  end.
Proof.
  destruct l as [r err| | |wl]; cbn [session_step].
  - destruct (ss_loop st) eqn:Hl; [|done|done]. by intros [= <-].
  - destruct (ss_loop st) eqn:Hl; [| |done]; by intros [= <-].
  - destruct (ss_loop st) as [|req|]; try done. destruct (sstep _ _) as [ws|] eqn:Hs; [|done].
    intros [= <-]. exists req. by split_and!.
  - destruct (stream_may st wl); [|done]. destruct (sstep _ _) as [ws|] eqn:Hs; [|done].
    intros [= <-]. by split_and!.
Qed.

Lemma at_top_streams st r err : ss_streams (at_top st r err) = ss_streams st.
Proof. unfold at_top. destruct r; [|done]. by case_bool_decide. Qed.

Lemma session_run_view ls st st' :
  session_run st ls = Some st' -> srun (ss_streams st) (streams_view st ls) = Some (ss_streams st').
Proof.
  revert st. induction ls as [|l ls IH]; intros st; cbn [session_run streams_view]; [by intros [= <-]|].
  destruct (session_step st l) as [st1|] eqn:E; [|done]. intros Hr. apply IH in Hr.
  apply session_step_view in E. destruct l as [r err| | |wl].
  - destruct E as [_ ->]. by rewrite at_top_streams in Hr.
  - destruct E as (_ & _ & E). by rewrite E in Hr.
  - destruct E as (req & -> & _ & E). by rewrite srun_cons, E.
  - destruct E as (_ & _ & E). by rewrite srun_cons, E.
Qed.

Lemma received_by_cons l (ls : list (worker_label Request)) :
  received_by (l :: ls) = match l with DRecv req => req :: received_by ls | _ => received_by ls end.
Proof. unfold received_by. by destruct l. Qed.

Lemma over_stays ls st st' : ss_loop st = LOver -> session_run st ls = Some st' -> ss_loop st' = LOver.
Proof.
  revert st. induction ls as [|l ls IH]; intros st Hl; cbn [session_run]; [by intros [= <-]|].
  destruct (session_step st l) as [st1|] eqn:E; [|done]. apply session_step_view in E.
  apply IH. destruct l as [r err| | |wl]; naive_solver congruence.
Qed.

(** Nothing is handed over when the loop has ended. *)
Lemma over_received ls st st' :
  ss_loop st = LOver -> session_run st ls = Some st' -> received_by (streams_view st ls) = [].
Proof.
  revert st. induction ls as [|l ls IH]; intros st Hl; cbn [session_run streams_view]; [done|].
  destruct (session_step st l) as [st1|] eqn:E; [|done]. intros Hr.
  apply session_step_view in E. destruct l as [r err| | |wl].
  - destruct E as [E _]. congruence.
  - destruct E as [E _]. congruence.
  - destruct E as (req & E & _). congruence.
  - destruct E as (Hm & E & _). rewrite Hl in E. rewrite received_by_cons.
    destruct wl; [done|..]; by apply IH.
Qed.

Lemma recv_results_cons l ls :
  recv_results (l :: ls) = match l with TRecv r _ => r :: recv_results ls | _ => recv_results ls end.
Proof. unfold recv_results. by destruct l. Qed.

(** What the goroutine behind [reqC] receives is the beginning of what comes with a
    stream. *)
Lemma received_view ls st st' :
  session_run st ls = Some st' ->
  received_by (streams_view st ls) `prefix_of` in_hand st ++ with_stream (requests (recv_results ls)).
Proof.
  revert st. induction ls as [|l ls IH]; intros st; cbn [session_run streams_view]; [by intros [= <-]; apply prefix_nil|].
  destruct (session_step st l) as [st1|] eqn:E; [|done]. intros Hr. rewrite recv_results_cons.
  pose proof (IH _ Hr) as Hp. apply session_step_view in E. destruct l as [r err| | |wl].
  - destruct E as [Hl ->]. destruct r as [req|e].
    + unfold in_hand in *. rewrite Hl. unfold at_top in *. cbn [requests]. unfold with_stream in *.
      rewrite filter_cons. case_bool_decide as Es; [by rewrite decide_False by naive_solver|].
      by rewrite decide_True by done.
    + rewrite (over_received ls _ st'); [apply prefix_nil|done|done].
  - destruct E as (_ & Hl & _). rewrite (over_received ls _ st') by done. apply prefix_nil.
  - destruct E as (req & Hl & Hl1 & _). unfold in_hand in *. rewrite Hl, received_by_cons.
    rewrite Hl1 in Hp. by apply prefix_cons.
  - destruct E as (Hm & Hl & _). unfold in_hand in *. rewrite Hl in Hp. rewrite received_by_cons.
    by destruct wl.
Qed.

(** As long as the loop has not ended, all of it is received or in its hands. *)
Lemma received_all ls st st' :
  session_run st ls = Some st' -> ss_loop st' <> LOver ->
  received_by (streams_view st ls) ++ in_hand st'
    = in_hand st ++ with_stream (requests (recv_results ls)).
Proof.
  revert st. induction ls as [|l ls IH]; intros st; cbn [session_run streams_view].
  { intros [= <-] _. simpl. by rewrite app_nil_r. }
  destruct (session_step st l) as [st1|] eqn:E; [|done]. intros Hr Ho. rewrite recv_results_cons.
  pose proof (IH _ Hr Ho) as Hp. apply session_step_view in E. destruct l as [r err| | |wl].
  - destruct E as [Hl ->]. destruct r as [req|e]; [|destruct Ho; exact (over_stays ls (at_top st (Err e) err) _ eq_refl Hr)].
    unfold in_hand in *. rewrite Hl. unfold at_top in *. cbn [requests]. unfold with_stream in *.
    rewrite filter_cons. case_bool_decide as Es; [by rewrite decide_False by naive_solver|].
    by rewrite decide_True by done.
  - destruct E as (_ & Hl & _). destruct Ho. exact (over_stays ls _ _ Hl Hr).
  - destruct E as (req & Hl & Hl1 & _). unfold in_hand in *. rewrite Hl, received_by_cons.
    rewrite Hl1 in Hp. simpl. by rewrite Hp.
  - destruct E as (Hm & Hl & _). unfold in_hand in *. rewrite Hl in Hp. rewrite received_by_cons.
    by destruct wl.
Qed.

Lemma of_stream_prefix s (rs rs' : list Request) :
  rs `prefix_of` rs' -> of_stream Req_Stream s rs `prefix_of` of_stream Req_Stream s rs'.
Proof. intros [k ->]. unfold of_stream. rewrite filter_app. by apply prefix_app_r. Qed.

Lemma of_stream_with_stream s rs :
  s <> ""%string -> of_stream Req_Stream s (with_stream rs) = of_stream Req_Stream s rs.
Proof.
  intros Hs. unfold of_stream, with_stream. rewrite list_filter_filter.
  apply list_filter_iff. intros r. naive_solver.
Qed.

(** The requests that calls of [Recv] return before an error are the first of those sent. *)
Lemma tcp_receive_requests `{PM : !ProtoMessage Request} `{PL : !ProtoLaws Request}
    lim grow xs tail r pool k rs r' pool' :
  0 <= lim < 2 ^ 32 -> Forall (sendable lim) xs -> pool_ok pool ->
  pending r = (on_wire xs ++ pings tail)%list ->
  read_err r = io_EOF \/ read_err r = net_ErrClosed ->
  tcp_receive lim grow k r pool = Some (Ret (rs, r', pool')) ->
  requests rs = take k (sd_request <$> xs).
Proof.
  intros [Hm0 Hm1] Hxs. revert k r pool rs. induction Hxs as [|x xs (Hmar & Hne & Hlen) _ IH];
    intros [|k] r pool rs Hok Hp He; cbn [tcp_receive]; try (by intros [= <- _ _]).
  - destruct (tcp_Recv_end lim grow Hm1 r pool tail Hok Hp Hm0 He) as (err & r1 & p1 & -> & _).
    destruct (tcp_receive lim grow k r1 p1) as [[[[? ?] ?]| |]|]; [|done..].
    by intros [= <- _ _].
  - unfold on_wire in Hp. rewrite fmap_cons in Hp.
    change (mjoin (?a :: ?l)) with (a ++ mjoin l)%list in Hp. rewrite <- !app_assoc in Hp.
    destruct (tcp_Recv_request lim grow Hm1 r pool _ _ _ Hok Hp Hne Hlen)
      as (r1 & pool1 & -> & Hok1 & Hp1 & He1).
    destruct (tcp_receive lim grow k r1 pool1) as [[[[rs1 ?] ?]| |]|] eqn:E; [|done..].
    intros [= <- -> ->]. unfold decode. rewrite (proto_roundtrip _ _ Hmar).
    cbn [closed_is_EOF requests]. rewrite fmap_cons. cbn [take]. f_equal.
    eapply IH; [exact Hok1|exact Hp1|by rewrite He1|exact E].
Qed.

(** ** The claims *)
Section SessionClaims.
Context `{PM : !ProtoMessage Request} `{PL : !ProtoLaws Request}.
Variable MaxMessageSize : Z.
Variable grow_cap : nat -> nat -> nat.

(** C7. The requests a client sends with a stream name are handled one after another in
    the order in which it sent them, from its writes on the connection to the calls of
    [handleRequest]: whatever pieces the bytes arrive in, whatever heartbeats and
    requests of other streams are between them, and however the loop of the session, the
    workers and their dismissal interleave, as long as no worker is dismissed while it
    has work. The calls for the stream are those of the first requests sent with it,
    each finished before the next is started; and when all requests are received, the
    loop waits for the next and the workers have nothing left to do, all were handled. *)
Theorem requests_in_order xs tail r pool ls st s r' pool' :
  0 <= MaxMessageSize < 2 ^ 32 -> Forall (sendable MaxMessageSize) xs -> pool_ok pool ->
  pending r = (on_wire xs ++ pings tail)%list ->
  read_err r = io_EOF \/ read_err r = net_ErrClosed ->
  tcp_receive MaxMessageSize grow_cap (length (recv_results ls)) r pool
    = Some (Ret (recv_results ls, r', pool')) ->
  session_run session_start ls = Some st -> s <> ""%string ->
  no_busy_dismissal (streams_view session_start ls) ->
  (exists fin cur later,
    of_stream Req_Stream s (sd_request <$> xs) = fin ++ cur ++ later /\ (length cur <= 1)%nat /\
    log_of Req_Stream s (log (ss_streams st)) = one_by_one fin ++ (Started <$> cur)) /\
  (length (recv_results ls) = length xs -> ss_loop st = LTop -> quiet (ss_streams st) ->
   log_of Req_Stream s (log (ss_streams st)) = one_by_one (of_stream Req_Stream s (sd_request <$> xs))).
Proof.
  intros Hm Hxs Hok Hp He Hrecv Hrun Hs Hbusy.
  pose proof (session_run_view _ _ _ Hrun) as Hw. split.
  - destruct (workers_fifo _ _ _ _ _ s Hbusy Hw) as (fin & cur & later & Hof & Hlen & Hlog).
    apply wrun_received in Hw. cbn in Hw. rewrite Hw in Hof.
    pose proof (received_view _ _ _ Hrun) as Hv. cbn [in_hand session_start ss_loop app] in Hv.
    rewrite (tcp_receive_requests _ _ _ _ _ _ _ _ _ _ Hm Hxs Hok Hp He Hrecv) in Hv.
    apply (of_stream_prefix s) in Hv. rewrite of_stream_with_stream in Hv by done.
    assert (take (length (recv_results ls)) (sd_request <$> xs) `prefix_of` sd_request <$> xs) as Hx
      by apply prefix_take.
    apply (of_stream_prefix s) in Hx. destruct (transitivity Hv Hx) as [more E].
    exists fin, cur, (later ++ more). split; [|done]. rewrite E, Hof. by rewrite <- !app_assoc.
  - intros Hn Htop Hq. rewrite (workers_complete _ _ _ _ _ s Hbusy Hw Hq).
    apply wrun_received in Hw. cbn in Hw. rewrite Hw.
    pose proof (received_all _ _ _ Hrun) as Hall. unfold in_hand in Hall. rewrite Htop, app_nil_r in Hall.
    rewrite Hall by done. cbn [session_start ss_loop app].
    rewrite of_stream_with_stream by done.
    rewrite (tcp_receive_requests _ _ _ _ _ _ _ _ _ _ Hm Hxs Hok Hp He Hrecv), Hn.
    by rewrite take_ge by (by rewrite length_fmap).
Qed.
End SessionClaims.

(** ** The witness *)

#[local] Instance sample_SessionProto : ProtoMessage Request := {|
  proto_Marshal r :=
    if decide (r = sample_stream_request 1) then Ok [Byte.x01]
    else if decide (r = sample_stream_request 2) then Ok [Byte.x02]
    else Err (EForeign "proto");
  proto_Unmarshal b :=
    if decide (b = [Byte.x01]) then Ok (sample_stream_request 1)
    else if decide (b = [Byte.x02]) then Ok (sample_stream_request 2)
    else Err (EForeign "proto");
|}.

#[local] Instance sample_SessionLaws : ProtoLaws Request.
Proof. split. intros m b. simpl. repeat case_decide; intros [= <-]; subst; done. Qed.

Definition sample_stream_sendings : list sending :=
  [{| sd_pings := 0; sd_request := sample_stream_request 1; sd_bytes := [Byte.x01] |};
   {| sd_pings := 1; sd_request := sample_stream_request 2; sd_bytes := [Byte.x02] |}].

(** The bytes arrive in one piece. *)
Definition sample_stream_reader : reader :=
  {| chunks := [on_wire sample_stream_sendings]; read_err := io_EOF |}.

(** The second request is received while the first is handled. *)
Definition sample_session : list session_label :=
  [TRecv (Ok (sample_stream_request 1)) None; THand; TStream DSend; TStream (WTake 0%nat);
   TRecv (Ok (sample_stream_request 2)) None; THand; TStream DSend; TStream (WDone 0%nat);
   TStream (WTake 0%nat); TStream (WDone 0%nat)].

Definition sample_session_end : SessState :=
  match session_run session_start sample_session with Some st => st | None => session_start end.

Lemma requests_in_order_witness :
  log_of Req_Stream "a" (log (ss_streams sample_session_end))
    = one_by_one [sample_stream_request 1; sample_stream_request 2].
Proof.
  destruct (tcp_receive 65536 (fun _ n => n) 2 sample_stream_reader []) as [[[[rs r'] pool']| |]|] eqn:E;
    [|vm_compute in E; discriminate..].
  assert (rs = recv_results sample_session) as -> by (vm_compute in E; injection E as <- _ _; reflexivity).
  destruct (requests_in_order 65536 (fun _ n => n) sample_stream_sendings 0 sample_stream_reader []
    sample_session sample_session_end "a" r' pool') as [_ H].
  - lia.
  - repeat constructor; simpl; try done; lia.
  - constructor.
  - reflexivity.
  - by left.
  - exact E.
  - vm_compute. reflexivity.
  - done.
  - vm_compute. auto 20.
  - apply H; [reflexivity..|]. split; [reflexivity|]. intros [|w]; split; reflexivity.
Defined.
