(* ===== verification/Answers.v ===== *)
(** * Answers: a session next to the rest of its gateway ([component/gateway/proxy.go])

    The goroutines of one session, composed: its loop and workers ([Session]), what they
    and the pool do with each request ([Request]), the life cycle of all connections
    ([Lifecycle]), and what others do to the gateway meanwhile ([Gateway]). The state they
    share is the gateway's. *)

From S2P Require Import Prelude External Entry PathLib Samples Balancer Resolver StateTable Messages Registry Gateway Request Lifecycle Workers Streams Transport Session.

Local Open Scope go_scope.
Local Open Scope Z_scope.
Local Open Scope list_scope.

Section Answers.
Context `{U : ULID} `{R : MapRange} `{N : Net} `{X : XXHash} `{G : GRPCDial} `{SI : SessionIface}.
Context `{PE : !ProtoMessage Empty} `{PR : !ProtoMessage RPCError} `{UP : Upstream}.

(** [handleRequest] from the call of [conn.Invoke] on, and its deferred function. *)
Definition conclude (gw : Gateway) (s : sess_ptr) (req : Request) (r : result call) : outcome Gateway :=
  match r with
  | Err err => fail_request gw s req err
  | Ok c =>
      match conn_Invoke c with
      | Err err => fail_request gw s req err
      | Ok output =>
          if Req_NoReply req then Ret gw
          else
            let output := SetRequestId output (Req_Id req) in
            let output := SetServiceCode output (Req_ServiceCode req) in
            Ret (sendReply gw s output)
      end
  end.

Lemma handleRequest_conclude gw s req env :
  handleRequest gw s req env = (let! (r, gw) := prepare gw s req env in conclude gw s req r).
Proof. done. Qed.

(** The session. *)
Variable me : sess_ptr.

(** [a_work] and [a_tasks]: what the workers and the tasks of the pool, by their numbers,
    wait for; [None] marks a task that is done. *)
Record AState := {
  a_life : LState;
  a_sess : SessState;
  a_work : gmap worker_ptr (result call);
  a_tasks : gmap nat (option (result call));
}.

Definition a_gw (a : AState) : Gateway := gw (a_life a).
Definition set_a_gw (a : AState) (g : Gateway) : AState := {|
  a_life := set_gw (a_life a) g; a_sess := a_sess a; a_work := a_work a; a_tasks := a_tasks a |}.
Definition set_a_sess (a : AState) (ss : SessState) : AState := {|
  a_life := a_life a; a_sess := ss; a_work := a_work a; a_tasks := a_tasks a |}.
Definition set_a_work (a : AState) x : AState := {|
  a_life := a_life a; a_sess := a_sess a; a_work := x; a_tasks := a_tasks a |}.
Definition set_a_tasks (a : AState) x : AState := {|
  a_life := a_life a; a_sess := a_sess a; a_work := a_work a; a_tasks := x |}.

(** The request a worker takes next, and the one it handles. *)
Definition next_of (ws : WState Request) (w : worker_ptr) : option Request :=
  wk ← pool ws !! w; head (w_queue wk).
Definition running (ws : WState Request) (w : worker_ptr) : option Request :=
  pool ws !! w ≫= w_current.

(** The steps: of the life of any connection; of the loop of the session and its
    dispatcher; of a worker, which takes a request and prepares the call, and later
    answers; of a task of the pool, likewise; a request of another session; a multicast;
    the management service; and changes of the routes and the cluster. *)
Inductive alabel :=
  | ALife (l : label)
  | ASession (l : session_label)
  | ATake (w : worker_ptr) (env : request_env)
  | ADone (w : worker_ptr)
  | APoolStart (i : nat) (env : request_env)
  | APoolEnd (i : nat)
  | AOther (s : sess_ptr) (req : Request) (env : request_env)
  | AMulticast (msg : Multicast) (submit : nat -> option gerror)
  | ASendReply (id : string) (reply : Reply)
  | ACloseSession (id : string)
  | AChange (t : stateTable) (r : Registry).

(** A panic ends the process: the run has no such step. *)
Definition a_returns (a : AState) (r : outcome Gateway) : option AState :=
  match r with Ret g => Some (set_a_gw a g) | _ => None end.
Definition a_prepares (a : AState) (req : Request) (env : request_env) (next : result call -> AState -> AState)
  : option AState :=
  match prepare (a_gw a) me req env with
  | Ret (r, g) => Some (next r (set_a_gw a g))
  | _ => None
  end.

Definition astep (a : AState) (l : alabel) : option AState :=
  match l with
  | ALife l =>
      (fun st => {| a_life := st; a_sess := a_sess a; a_work := a_work a; a_tasks := a_tasks a |})
        <$> lstep (a_life a) l
  | ASession (TStream (WTake _ | WDone _)) => None
  | ASession l => set_a_sess a <$> session_step (a_sess a) l
  | ATake w env =>
      match session_step (a_sess a) (TStream (WTake w)), next_of (ss_streams (a_sess a)) w with
      | Some ss, Some req =>
          a_prepares (set_a_sess a ss) req env (fun r a => set_a_work a (<[w := r]> (a_work a)))
      | _, _ => None
      end
  | ADone w =>
      match session_step (a_sess a) (TStream (WDone w)), running (ss_streams (a_sess a)) w, a_work a !! w with
      | Some ss, Some req, Some r => a_returns (set_a_sess a ss) (conclude (a_gw a) me req r)
      | _, _, _ => None
      end
  | APoolStart i env =>
      match ss_pool (a_sess a) !! i, a_tasks a !! i with
      | Some req, None => a_prepares a req env (fun r a => set_a_tasks a (<[i := Some r]> (a_tasks a)))
      | _, _ => None
      end
  | APoolEnd i =>
      match ss_pool (a_sess a) !! i, a_tasks a !! i with
      | Some req, Some (Some r) =>
          a_returns (set_a_tasks a (<[i := None]> (a_tasks a))) (conclude (a_gw a) me req r)
      | _, _ => None
      end
  | AOther s req env => if decide (s = me) then None else a_returns a (handleRequest (a_gw a) s req env)
  | AMulticast msg submit => Some (set_a_gw a (on_multicast (a_gw a) msg submit))
  | ASendReply id reply => Some (set_a_gw a (SendReply (a_gw a) id reply).2)
  | ACloseSession id => Some (set_a_gw a (CloseSession (a_gw a) id).2)
  | AChange t r => Some (set_a_gw a (set_registry (set_table (a_gw a) t) r))
  end.

Fixpoint arun (a : AState) (ls : list alabel) : option AState :=
  match ls with
  | [] => Some a
  | l :: ls => match astep a l with Some a => arun a ls | None => None end
  end.

Definition astart (st : LState) : AState := {|
  a_life := st; a_sess := session_start; a_work := ∅; a_tasks := ∅ |}.

(** ** What a run is to the session *)

Definition session_view (l : alabel) : list session_label :=
  match l with
  | ASession l => [l]
  | ATake w _ => [TStream (WTake w)]
  | ADone w => [TStream (WDone w)]
  | _ => []
  end.
Definition session_labels (ls : list alabel) : list session_label := ls ≫= session_view.

(** The requests that [Recv] returned, and the IDs of the replies the client was sent. *)
Definition received_requests (ls : list alabel) : list Request :=
  omap (fun l => match l with ASession (TRecv (Ok req) _) => Some req | _ => None end) ls.
Definition answered_ids (a : AState) : list Z := Rep_RequestId <$> Sent (heap (a_gw a) me).

(** What is pushed carries no ID of a request, as [NewReply] and [NewMulticast] make it. *)
Definition unnumbered (l : alabel) : Prop :=
  match l with
  | AMulticast msg _ => Rep_RequestId (Mc_Content msg) = 0
  | ASendReply _ reply => Rep_RequestId reply = 0
  | _ => True
  end.

(** An error that is answered has a status. *)
Definition answerable (a : AState) (l : alabel) : Prop :=
  match l with
  | ADone w =>
      match a_work a !! w with
      | Some r => match request_result r with Ok _ => True | Err err => status_FromError err <> None end
      | None => True
      end
  | _ => True
  end.
Fixpoint answerable_run (a : AState) (ls : list alabel) : Prop :=
  match ls with
  | [] => True
  | l :: ls => answerable a l /\ match astep a l with Some a => answerable_run a ls | None => True end
  end.

(** The requests of a stream that are done, by the log of the workers. *)
Definition finished (s : string) (l : list (handling Request)) : list Request :=
  omap (fun h => match h with
                 | Finished req => if decide (Req_Stream req = s) then Some req else None
                 | Started _ => None
                 end) l.
End Answers.

(** ** Lemmas *)
Section Lemmas.
Context `{L : ULIDLaws} `{R : MapRange} `{N : Net} `{X : XXHash} `{G : GRPCDial} `{SI : SessionIface}.
Context `{PE : !ProtoMessage Empty} `{PR : !ProtoMessage RPCError} `{UP : Upstream}.
Variable me : sess_ptr.

Definition ids_of (o : SessionObj) : list Z := Rep_RequestId <$> Sent o.

Lemma try_send_ids rep o : ids_of (try_send rep o) = ids_of o \/ ids_of (try_send rep o) = ids_of o ++ [Rep_RequestId rep].
Proof. unfold try_send, ids_of. destruct (session_Send _ _); [by left|right]. simpl. by rewrite fmap_app. Qed.

Lemma iter_send_ids rep n o :
  exists ids, ids_of (Nat.iter n (try_send rep) o) = ids_of o ++ ids /\ Forall (fun id => id = Rep_RequestId rep) ids.
Proof.
  induction n as [|n (ids & E & Hf)]; simpl; [exists []; by rewrite app_nil_r|].
  destruct (try_send_ids rep (Nat.iter n (try_send rep) o)) as [-> | ->]; rewrite E; [by exists ids|].
  exists (ids ++ [Rep_RequestId rep]). rewrite app_assoc. split; [done|]. apply Forall_app. auto.
Qed.

Lemma sess_step_ids o o' : sess_step o o' -> ids_of o' = ids_of o.
Proof. by destruct 1. Qed.

(** What the end of a request writes: at most one reply, to its session. *)
Lemma conclude_heap gw s req r g :
  conclude gw s req r = Ret g ->
  exists o : option Reply, (forall rep, o = Some rep -> Rep_RequestId rep = Req_Id req) /\
    (Req_NoReply req = false ->
     match request_result r with Ok _ => True | Err err => status_FromError err <> None end -> o <> None) /\
    forall s', heap g s' = match o with
                           | Some rep => if decide (s' = s) then try_send rep (heap gw s) else heap gw s'
                           | None => heap gw s'
                           end.
Proof.
  assert (forall err, fail_request gw s req err = Ret g ->
    exists o : option Reply, (forall rep, o = Some rep -> Rep_RequestId rep = Req_Id req) /\
    (status_FromError err <> None -> o <> None) /\
    forall s', heap g s' = match o with
                           | Some rep => if decide (s' = s) then try_send rep (heap gw s) else heap gw s'
                           | None => heap gw s'
                           end) as Hfail.
  { intros err. unfold fail_request. destruct (status_FromError err) as [st|]; [|intros [= <-]; by exists None].
    destruct (NewReply _ _) as [rep|]; [|done]. intros [= <-]. exists (Some (SetRequestId rep (Req_Id req))).
    split; [by intros ? [= <-]|]. split; [done|]. intros s'. apply sendReply_heap. }
  unfold conclude. destruct r as [c|err]; simpl.
  - destruct (conn_Invoke c) as [output|err].
    + destruct (Req_NoReply req); intros [= <-]; [by exists None|].
      exists (Some (SetServiceCode (SetRequestId output (Req_Id req)) (Req_ServiceCode req))).
      split; [by intros ? [= <-]|]. split; [done|]. intros s'. apply sendReply_heap.
    + intros (o & H1 & H2 & H3)%Hfail. exists o. auto.
  - intros (o & H1 & H2 & H3)%Hfail. exists o. auto.
Qed.

Lemma conclude_ids gw s req r g :
  conclude gw s req r = Ret g ->
  exists ids, ids_of (heap g s) = ids_of (heap gw s) ++ ids /\ (ids = [] \/ ids = [Req_Id req]) /\
    ((forall o reply, session_Send o reply = None) -> Req_NoReply req = false ->
     match request_result r with Ok _ => True | Err err => status_FromError err <> None end ->
     ids = [Req_Id req]).
Proof.
  intros (o & Hid & Hans & Hh)%conclude_heap. rewrite Hh. destruct o as [rep|].
  - rewrite decide_True, <- (Hid _ eq_refl) by done. unfold try_send, ids_of.
    destruct (session_Send (heap gw s) rep) eqn:E.
    + exists []. rewrite app_nil_r. split; [done|]. split; [by left|]. intros Ho. by rewrite Ho in E.
    + eexists. simpl. rewrite fmap_app. split; [done|]. split; [by right|done].
  - exists []. rewrite app_nil_r. split; [done|]. split; [by left|]. intros _ H1 H2. by destruct (Hans H1 H2).
Qed.

(** The replies a step writes to the session. *)
Lemma astep_ids a l a' :
  unnumbered l -> astep me a l = Some a' ->
  exists ids, answered_ids me a' = answered_ids me a ++ ids /\
  match l with
  | ADone w => exists req, running (ss_streams (a_sess a)) w = Some req /\ (ids = [] \/ ids = [Req_Id req]) /\
      ((forall o reply, session_Send o reply = None) -> Req_NoReply req = false -> answerable a l ->
       ids = [Req_Id req])
  | APoolEnd i => exists req, ss_pool (a_sess a) !! i = Some req /\ (ids = [] \/ ids = [Req_Id req])
  | _ => Forall (fun id => id = 0) ids
  end.
Proof.
  change (answered_ids me) with (fun a => ids_of (heap (a_gw a) me)). cbn beta.
  assert (forall g, ids_of (heap g me) = ids_of (heap (a_gw a) me) ->
    exists ids, ids_of (heap g me) = ids_of (heap (a_gw a) me) ++ ids /\ Forall (fun id => id = 0) ids) as Hsame
    by (intros g E; exists []; by rewrite app_nil_r).
  assert (forall a1 req env next a', a_prepares me a1 req env next = Some a' ->
    (forall r a, a_gw (next r a) = a_gw a) -> ids_of (heap (a_gw a') me) = ids_of (heap (a_gw a1) me)) as Hprep.
  { intros a1 req env next a2. unfold a_prepares. destruct (prepare _ _ _ _) as [[r g]| |] eqn:E; try done.
    intros [= <-] Hn. rewrite Hn. cbn. by rewrite (prepare_heap _ _ _ _ _ _ E). }
  intros Hu. destruct l as [l|l|w env|w|i env|i|s req env|msg submit|id reply|id|t r]; cbn [astep].
  - intros (st & Hst & ->)%fmap_Some. apply Hsame. apply sess_step_ids. by apply lstep_heap with (l := l).
  - intros Hs. apply Hsame. assert (session_step (a_sess a) l = Some (a_sess a') /\ a_gw a' = a_gw a) as [_ ->]; [|done].
    destruct l as [r err| | |[]]; try done; apply fmap_Some in Hs as (ss & Hss & ->); done.
  - destruct (session_step _ _) as [ss|]; [|done]. destruct (next_of _ _) as [req|]; [|done].
    intros Hp. apply Hsame. by apply (Hprep (set_a_sess a ss) req env _ _ Hp).
  - destruct (session_step _ _) as [ss|]; [|done]. destruct (running _ _) as [req|]; [|done].
    destruct (a_work a !! w) as [r|] eqn:Er; [|done]. unfold a_returns.
    destruct (conclude _ _ _ _) as [g| |] eqn:Ec; try done. intros [= <-].
    destruct (conclude_ids _ _ _ _ _ Ec) as (ids & E & Hor & Hall). exists ids. split; [done|].
    exists req. split; [done|]. split; [done|]. unfold answerable. by rewrite Er.
  - destruct (ss_pool _ !! i) as [req|]; [|done]. destruct (a_tasks a !! i); [done|].
    intros Hp. apply Hsame. by eapply Hprep.
  - destruct (ss_pool _ !! i) as [req|]; [|done]. destruct (a_tasks a !! i) as [[r|]|]; try done.
    unfold a_returns. destruct (conclude _ _ _ _) as [g| |] eqn:Ec; try done. intros [= <-].
    destruct (conclude_ids _ _ _ _ _ Ec) as (ids & E & Hor & _). exists ids. split; [done|]. by exists req.
  - case_decide as Hne; [done|]. rewrite handleRequest_conclude. unfold a_returns.
    destruct (prepare _ _ _ _) as [[r g]| |] eqn:Ep; try done. cbn [outcome_bind].
    destruct (conclude _ _ _ _) as [g'| |] eqn:Ec; try done. intros [= <-]. apply Hsame. cbn.
    destruct (conclude_heap _ _ _ _ _ Ec) as (o & _ & _ & ->).
    rewrite (prepare_heap _ _ _ _ _ _ Ep). destruct o; [|done]. by rewrite decide_False.
  - intros [= <-]. cbn. unfold on_multicast. rewrite deliver_heap.
    destruct (iter_send_ids (Mc_Content msg) (mentions me (accepted submit (receivers (a_gw a) msg)))
      (heap (a_gw a) me)) as (ids & -> & Hf). exists ids. split; [done|]. simpl in Hu. by rewrite Hu in Hf.
  - intros [= <-]. cbn. unfold SendReply. destruct (hub_Load _ _) as [s|]; [|by apply Hsame].
    destruct (_ =? 0); [by apply Hsame|]. destruct (_ =? 0); [by apply Hsame|].
    destruct (sess_Send (a_gw a) s reply) as [err g] eqn:E.
    assert (g = sendReply (a_gw a) s reply) as -> by (unfold sendReply; by rewrite E).
    replace (match err with Some e => _ | None => _ end).2 with (sendReply (a_gw a) s reply) by (by destruct err).
    rewrite sendReply_heap. case_decide as Hs; [subst s|by apply Hsame].
    destruct (try_send_ids reply (heap (a_gw a) me)) as [-> | ->]; [by apply Hsame|].
    eexists. split; [done|]. by constructor.
  - intros [= <-]. cbn. unfold CloseSession. destruct (hub_Load _ _) as [s|]; [|by apply Hsame].
    apply Hsame. rewrite <- (sess_step_ids _ _ (close_step (a_gw a) s me)).
    by destruct (sess_Close (a_gw a) s) as [[]].
  - intros [= <-]. by apply Hsame.
Qed.

(** Its part in the session. *)
Lemma astep_session a l a' :
  astep me a l = Some a' -> session_run (a_sess a) (session_view l) = Some (a_sess a').
Proof.
  assert (forall a1 req env next a', a_prepares me a1 req env next = Some a' ->
    (forall r a, a_sess (next r a) = a_sess a) -> a_sess a' = a_sess a1) as Hprep.
  { intros a1 req env next a2. unfold a_prepares. destruct (prepare _ _ _ _) as [[r g]| |]; try done.
    intros [= <-] Hn. by rewrite Hn. }
  destruct l as [l|l|w env|w|i env|i|s req env|msg submit|id reply|id|t r]; cbn [astep session_view session_run].
  - by intros (st & _ & ->)%fmap_Some.
  - intros Hs. destruct l as [r err| | |[]]; first [done|by apply fmap_Some in Hs as (ss & -> & ->)].
  - destruct (session_step _ _) as [ss|]; [|done]. destruct (next_of _ _) as [req|]; [|done].
    intros Hp. f_equal. by rewrite (Hprep _ _ _ _ _ Hp).
  - destruct (session_step _ _) as [ss|]; [|done]. destruct (running _ _) as [req|]; [|done].
    destruct (a_work a !! w) as [r|]; [|done]. unfold a_returns. destruct (conclude _ _ _ _); try done. by intros [= <-].
  - destruct (ss_pool _ !! i) as [req|]; [|done]. destruct (a_tasks a !! i); [done|].
    intros Hp. f_equal. by rewrite (Hprep _ _ _ _ _ Hp).
  - destruct (ss_pool _ !! i) as [req|]; [|done]. destruct (a_tasks a !! i) as [[r|]|]; try done.
    unfold a_returns. destruct (conclude _ _ _ _); try done. by intros [= <-].
  - case_decide; [done|]. unfold a_returns. destruct (handleRequest _ _ _ _); try done. by intros [= <-].
  - by intros [= <-].
  - by intros [= <-].
  - by intros [= <-].
  - by intros [= <-].
Qed.
End Lemmas.

(** ** The invariant *)
Section Invariant.
Context `{L : ULIDLaws} `{R : MapRange} `{N : Net} `{X : XXHash} `{G : GRPCDial} `{SI : SessionIface}.
Context `{PE : !ProtoMessage Empty} `{PR : !ProtoMessage RPCError} `{UP : Upstream}.
Variable me : sess_ptr.
(** All requests of a run. *)
Variable Rs : list Request.

(** What the session holds comes from the client, and is where it belongs. *)
Record known (ss : SessState) : Prop := {
  kn_received : forall r, r ∈ Workers.received (ss_streams ss) -> r ∈ Rs /\ Req_Stream r <> ""%string;
  kn_hand : forall r, r ∈ in_hand ss -> r ∈ Rs /\ Req_Stream r <> ""%string;
  kn_pool : forall r, r ∈ ss_pool ss -> r ∈ Rs /\ Req_Stream r = ""%string;
}.

Lemma known_start : known session_start.
Proof. split; intros r; by intros ?%not_elem_of_nil. Qed.

Lemma session_step_known st l st' :
  session_step st l = Some st' -> (forall req err, l = TRecv (Ok req) err -> req ∈ Rs) -> known st -> known st'.
Proof.
  intros Hs Hr [K1 K2 K3]. destruct l as [r err| | |wl]; cbn [session_step] in Hs.
  - destruct (ss_loop st) eqn:El; try done. injection Hs as <-. unfold at_top.
    destruct r as [req|]; [|split; [done|by intros r ?%not_elem_of_nil|done]].
    specialize (Hr _ _ eq_refl). case_bool_decide as Hst.
    + split; [done|by intros r ?%not_elem_of_nil|]. intros r. destruct err; [apply K3|]. simpl.
      rewrite elem_of_app, list_elem_of_singleton. intros [?| ->]; auto.
    + split; [done| |done]. intros r. unfold in_hand. simpl. by intros ->%list_elem_of_singleton.
  - destruct (ss_loop st); try done; injection Hs as <-; (split; [done|by intros r ?%not_elem_of_nil|done]).
  - destruct (ss_loop st) as [|req|] eqn:El; try done. destruct (sstep _ _) as [ws|] eqn:Ew; [|done].
    injection Hs as <-. apply wstep_received in Ew. split; [|by intros r ?%not_elem_of_nil|done]. simpl.
    intros r. rewrite Ew, elem_of_app. cbn. intros [?|Hin]; [by apply K1|]. apply K2. unfold in_hand. by rewrite El.
  - destruct (stream_may st wl) eqn:Em; [|done]. destruct (sstep _ _) as [ws|] eqn:Ew; [|done].
    injection Hs as <-. apply wstep_received in Ew.
    assert (Workers.received ws = Workers.received (ss_streams st)) as E by (rewrite Ew; destruct wl; [done|by rewrite app_nil_r..]).
    split; [simpl; by rewrite E|done|done].
Qed.

(** Of the steps of a session, the end of a request at a worker is what finishes it. *)
Lemma session_step_finished st l st' s :
  session_step st l = Some st' ->
  finished s (log (ss_streams st')) = finished s (log (ss_streams st)) ++
    match l with
    | TStream (WDone w) => match running (ss_streams st) w with Some req => only Req_Stream s req | None => [] end
    | _ => []
    end.
Proof.
  assert (forall ws wl ws', sstep ws wl = Some ws' -> finished s (log ws') = finished s (log ws) ++
    match wl with
    | WDone w => match running ws w with Some req => only Req_Stream s req | None => [] end
    | _ => []
    end) as Hw.
  { intros ws wl ws'. destruct wl as [req| | | |later|w|w]; simpl; unfold sstep, wstep, Workers.recv, Workers.send, ticker,
      Workers.stop, take_next, finish_current, running; intros H; rewrite ?app_nil_r;
      repeat match goal with
      | H : context [match ?x with _ => _ end] |- _ => destruct x eqn:?; try done
      end; injection H as <-; simpl; try done.
    - unfold finished. rewrite omap_app. simpl. by rewrite app_nil_r.
    - unfold finished. rewrite omap_app. simpl. f_equal. unfold mbind, option_bind. rewrite Heqo0. unfold only. by case_decide. }
  intros Hs. destruct l as [r err| | |wl]; cbn [session_step] in Hs.
  - destruct (ss_loop st); try done. injection Hs as <-. by rewrite at_top_streams, app_nil_r.
  - destruct (ss_loop st); try done; injection Hs as <-; by rewrite app_nil_r.
  - destruct (ss_loop st); try done. destruct (sstep _ _) eqn:E; [|done]. injection Hs as <-. exact (Hw _ _ _ E).
  - destruct (stream_may st wl); [|done]. destruct (sstep _ _) eqn:E; [|done]. injection Hs as <-. exact (Hw _ _ _ E).
Qed.

(** The invariant of the streams along a session. *)
Lemma session_step_streams st l st' ls :
  session_step st l = Some st' -> stream_inv Req_Stream (ss_streams st) ->
  tick_idle_run Req_Stream queue_cap idle_time (ss_streams st) (streams_view st (l :: ls)) ->
  stream_inv Req_Stream (ss_streams st') /\
  tick_idle_run Req_Stream queue_cap idle_time (ss_streams st') (streams_view st' ls).
Proof.
  intros Hs Hi. cbn [streams_view]. rewrite Hs. apply session_step_view in Hs. destruct l as [r err| | |wl].
  - destruct Hs as [_ ->]. by rewrite at_top_streams.
  - destruct Hs as (_ & _ & ->). done.
  - destruct Hs as (req & -> & _ & E). intros [Ht Hts]. unfold sstep in E. rewrite E in Hts. split; [|done].
    by eapply wstep_inv.
  - destruct Hs as (_ & _ & E). intros [Ht Hts]. unfold sstep in E. rewrite E in Hts. split; [|done].
    by eapply wstep_inv.
Qed.

(** The same for the steps of the gateway. *)
Lemma astep_streams a l a' ls :
  astep me a l = Some a' -> stream_inv Req_Stream (ss_streams (a_sess a)) ->
  tick_idle_run Req_Stream queue_cap idle_time (ss_streams (a_sess a)) (streams_view (a_sess a) (session_labels (l :: ls))) ->
  stream_inv Req_Stream (ss_streams (a_sess a')) /\
  tick_idle_run Req_Stream queue_cap idle_time (ss_streams (a_sess a')) (streams_view (a_sess a') (session_labels ls)).
Proof.
  intros Hs%astep_session Hi. unfold session_labels. rewrite bind_cons.
  assert (length (session_view l) <= 1)%nat as Hl by (destruct l; simpl; lia).
  destruct (session_view l) as [|sl [|]]; [|cbn [app session_run] in *|simpl in Hl; lia].
  - injection Hs as <-. done.
  - destruct (session_step _ sl) eqn:E; [|done]. injection Hs as <-. by apply session_step_streams.
Qed.

Lemma astep_known a l a' :
  astep me a l = Some a' -> (forall r, r ∈ received_requests [l] -> r ∈ Rs) -> known (a_sess a) -> known (a_sess a').
Proof.
  intros Hs%astep_session Hr Hk.
  assert (forall sl st', session_view l = [sl] -> session_step (a_sess a) sl = Some st' -> known st') as Hone.
  { intros sl st' Hv E. apply (session_step_known _ _ _ E); [|done]. intros req err ->.
    apply Hr. destruct l; try done. injection Hv as ->. by left. }
  destruct (session_view l) as [|sl [|]] eqn:Hv; [by injection Hs as <-| |by destruct l].
  simpl in Hs. destruct (session_step _ sl) eqn:E; [|done]. injection Hs as <-. by eapply Hone.
Qed.

Lemma astep_finished a l a' s :
  astep me a l = Some a' ->
  finished s (log (ss_streams (a_sess a'))) = finished s (log (ss_streams (a_sess a))) ++
    match l with
    | ADone w => match running (ss_streams (a_sess a)) w with Some req => only Req_Stream s req | None => [] end
    | _ => []
    end.
Proof.
  intros Hs. pose proof (astep_session _ _ _ _ Hs) as Hv.
  destruct l as [l|l|w env|w|i env|i|s' req env|msg submit|id reply|id|t r]; cbn [session_view session_run] in Hv;
    try (injection Hv as <-; by rewrite app_nil_r).
  - destruct (session_step _ _) eqn:E; [|done]. injection Hv as <-. rewrite (session_step_finished _ _ _ s E).
    by destruct l as [| | |[]].
  - destruct (session_step _ _) eqn:E; [|done]. injection Hv as <-. exact (session_step_finished _ _ _ s E).
  - destruct (session_step _ _) eqn:E; [|done]. injection Hv as <-. exact (session_step_finished _ _ _ s E).
Qed.

(** The IDs tell the requests apart. *)
Hypothesis ids_distinct : forall r r', r ∈ Rs -> r' ∈ Rs -> Req_Id r = Req_Id r' -> r = r'.
Hypothesis ids_nonzero : forall r, r ∈ Rs -> Req_Id r <> 0.
Variable s : string.
Hypothesis s_named : s <> ""%string.

Definition stream_ids : list Z := Req_Id <$> of_stream Req_Stream s Rs.

Lemma in_stream_ids r : r ∈ Rs -> Req_Id r ∈ stream_ids <-> Req_Stream r = s.
Proof.
  intros Hr. unfold stream_ids, of_stream. rewrite list_elem_of_fmap. split.
  - intros (r' & E & [Hs Hr']%list_elem_of_filter). by rewrite (ids_distinct _ _ Hr Hr' E).
  - intros Hs. exists r. split; [done|]. by apply list_elem_of_filter.
Qed.

Lemma filter_zeros ids : Forall (fun id => id = 0) ids -> filter (.∈ stream_ids) ids = [].
Proof.
  induction 1 as [|id ids -> _ IH]; [done|]. rewrite filter_cons, decide_False; [done|].
  unfold stream_ids, of_stream. rewrite list_elem_of_fmap. intros (r & E & [_ Hr]%list_elem_of_filter).
  by destruct (ids_nonzero _ Hr).
Qed.

(** Every session sends, and the requests of the stream ask for replies. *)
Definition replying : Prop :=
  (forall o reply, session_Send o reply = None) /\ Forall (fun r => Req_NoReply r = false) (of_stream Req_Stream s Rs).

(** A step answers the requests of the stream as it finishes them. *)
Lemma astep_answers a l a' :
  stream_inv Req_Stream (ss_streams (a_sess a)) -> known (a_sess a) -> unnumbered l -> astep me a l = Some a' ->
  exists ids fins, answered_ids me a' = answered_ids me a ++ ids /\
    finished s (log (ss_streams (a_sess a'))) = finished s (log (ss_streams (a_sess a))) ++ fins /\
    filter (.∈ stream_ids) ids `sublist_of` Req_Id <$> fins /\
    (replying -> answerable a l -> filter (.∈ stream_ids) ids = Req_Id <$> fins).
Proof.
  intros Hi Hk Hu Hs. destruct (astep_ids _ _ _ _ Hu Hs) as (ids & Eids & Hids).
  pose proof (astep_finished _ _ _ s Hs) as Ef. eexists ids, _. split; [done|]. split; [exact Ef|].
  assert (Forall (fun id => id = 0) ids -> filter (.∈ stream_ids) ids `sublist_of` Req_Id <$> [] /\
    (replying -> answerable a l -> filter (.∈ stream_ids) ids = Req_Id <$> [])) as Hzero
    by (intros Hz; by rewrite filter_zeros).
  destruct l as [l|l|w env|w|i env|i|s' req env|msg submit|id reply|id|t r]; try by apply Hzero.
  - destruct Hids as (req & Hrun & Hor & Hall). rewrite Hrun. unfold running in Hrun.
    apply bind_Some in Hrun as (wk & Hw & Hc).
    pose proof (kn_received _ Hk req (current_received Req_Stream _ _ _ _ Hi Hw Hc)) as [Hr _].
    pose proof (in_stream_ids _ Hr) as Hin. unfold only. case_decide as Hst.
    + split.
      * destruct Hor as [-> | ->]; [apply sublist_nil_l|]. by rewrite filter_cons, decide_True by (by apply Hin).
      * intros [Hopen Hno] Hans. rewrite Hall; [|done| |done].
        -- by rewrite filter_cons, decide_True by (by apply Hin).
        -- rewrite Forall_forall in Hno. apply Hno. by apply list_elem_of_filter.
    + assert (filter (.∈ stream_ids) ids = []) as ->; [|done].
      destruct Hor as [-> | ->]; [done|]. rewrite filter_cons, decide_False; [done|]. by rewrite Hin.
  - destruct Hids as (req & Hp & Hor). pose proof (kn_pool _ Hk req (list_elem_of_lookup_2 _ _ _ Hp)) as [Hr Hst].
    assert (filter (.∈ stream_ids) ids = []) as ->; [|done].
    destruct Hor as [-> | ->]; [done|]. rewrite filter_cons, decide_False; [done|].
    rewrite (in_stream_ids _ Hr). congruence.
Qed.

Lemma received_requests_cons l (ls : list alabel) :
  received_requests (l :: ls) = received_requests [l] ++ received_requests ls.
Proof. unfold received_requests. by rewrite <- omap_app. Qed.

Lemma arun_answers ls a a' :
  stream_inv Req_Stream (ss_streams (a_sess a)) -> known (a_sess a) ->
  tick_idle_run Req_Stream queue_cap idle_time (ss_streams (a_sess a)) (streams_view (a_sess a) (session_labels ls)) ->
  (forall r, r ∈ received_requests ls -> r ∈ Rs) -> Forall unnumbered ls -> arun me a ls = Some a' ->
  exists ids fins, answered_ids me a' = answered_ids me a ++ ids /\
    finished s (log (ss_streams (a_sess a'))) = finished s (log (ss_streams (a_sess a))) ++ fins /\
    filter (.∈ stream_ids) ids `sublist_of` Req_Id <$> fins /\
    (replying -> answerable_run me a ls -> filter (.∈ stream_ids) ids = Req_Id <$> fins).
Proof.
  revert a. induction ls as [|l ls IH]; intros a Hi Hk Ht Hr Hu; simpl.
  { intros [= <-]. exists [], []. by rewrite !app_nil_r. }
  apply Forall_cons in Hu as [Hu Hus]. destruct (astep me a l) as [a1|] eqn:E; [|done]. intros Hrun.
  destruct (astep_streams _ _ _ _ E Hi Ht) as [Hi1 Ht1].
  assert (known (a_sess a1)) as Hk1.
  { apply (astep_known _ _ _ E); [|done]. intros r Hin. apply Hr. rewrite received_requests_cons, elem_of_app. by left. }
  destruct (IH a1) as (ids & fins & E1 & E2 & Hsub & Hall); try done.
  { intros r Hin. apply Hr. rewrite received_requests_cons, elem_of_app. by right. }
  destruct (astep_answers _ _ _ Hi Hk Hu E) as (ids1 & fins1 & F1 & F2 & Hsub1 & Hall1).
  exists (ids1 ++ ids), (fins1 ++ fins). rewrite E1, E2, F1, F2, filter_app, fmap_app, <- !app_assoc.
  split; [done|]. split; [done|]. split; [by apply sublist_app|].
  intros Hrep [Ha Has]. by rewrite Hall1, Hall.
Qed.
End Invariant.

(** ** From requests to the log *)

Lemma arun_session `{U : ULID} `{R : MapRange} `{N : Net} `{X : XXHash} `{G : GRPCDial} `{SI : SessionIface}
    `{PE : !ProtoMessage Empty} `{PR : !ProtoMessage RPCError} `{UP : Upstream} me ls a a' :
  arun me a ls = Some a' -> session_run (a_sess a) (session_labels ls) = Some (a_sess a').
Proof.
  assert (forall ls1 ls2 st, session_run st (ls1 ++ ls2) =
    match session_run st ls1 with Some st => session_run st ls2 | None => None end) as Happ.
  { intros ls1 ls2. induction ls1 as [|l ls1 IH]; intros st; simpl; [done|]. by destruct (session_step st l). }
  revert a. induction ls as [|l ls IH]; intros a; cbn [arun]; [by intros [= <-]|].
  destruct (astep me a l) as [a1|] eqn:E; [|done]. intros Hr%IH. apply astep_session in E.
  unfold session_labels. by rewrite bind_cons, Happ, E.
Qed.

Lemma received_requests_view `{U : ULID} `{R : MapRange} (ls : list alabel) :
  received_requests ls = omap (fun r => match r with Ok req => Some req | Err _ => None end)
    (recv_results (session_labels ls)).
Proof.
  induction ls as [|l ls IH]; [done|]. unfold session_labels, recv_results, received_requests in *.
  rewrite bind_cons, omap_app, omap_app, <- IH.
  by destruct l as [|[[] ?| | |]| | | | | | | | |].
Qed.

(** [Recv] is not called again after an error. *)
Lemma over_recv_results ls st st' :
  ss_loop st = LOver -> session_run st ls = Some st' -> recv_results ls = [].
Proof.
  revert st. induction ls as [|l ls IH]; intros st Hl; cbn [session_run]; [done|].
  destruct (session_step st l) as [st1|] eqn:E; [|done]. intros Hr. rewrite recv_results_cons.
  apply session_step_view in E. destruct l as [r err| | |wl].
  - destruct E as [E _]. congruence.
  - destruct E as [E _]. congruence.
  - destruct E as (req & E & _). congruence.
  - destruct E as (_ & E & _). eapply IH; [|done]. congruence.
Qed.

Lemma requests_all ls st st' :
  session_run st ls = Some st' ->
  requests (recv_results ls) = omap (fun r => match r with Ok req => Some req | Err _ => None end) (recv_results ls).
Proof.
  revert st. induction ls as [|l ls IH]; intros st; cbn [session_run]; [done|].
  destruct (session_step st l) as [st1|] eqn:E; [|done]. intros Hr. pose proof (IH _ Hr) as IHr.
  rewrite recv_results_cons. destruct l as [[req|e] err| | |]; cbn [requests]; [|clear IHr|done..].
  - cbn. by rewrite IHr.
  - apply session_step_view in E as [_ ->].
    by rewrite (over_recv_results ls (at_top st (Err e) err) st' eq_refl Hr).
Qed.

Lemma finished_cons s h l :
  finished s (h :: l) = match h with Finished req => only Req_Stream s req | Started _ => [] end ++ finished s l.
Proof. unfold finished, only. destruct h; simpl; [done|]. by case_decide. Qed.

Lemma finished_one_by_one s fin cur :
  Forall (fun r => Req_Stream r = s) fin -> finished s (one_by_one fin ++ (Started <$> cur)) = fin.
Proof.
  intros Hf. induction Hf as [|r fin Hr _ IH]; [by induction cur|].
  change (one_by_one (r :: fin)) with (Started r :: Finished r :: one_by_one fin).
  rewrite <- !app_comm_cons, !finished_cons, IH. unfold only. by rewrite decide_True.
Qed.

Lemma finished_log_of s l : finished s l = finished s (log_of Req_Stream s l).
Proof.
  induction l as [|h l IH]; [done|]. rewrite finished_cons, IH. unfold log_of. rewrite filter_cons.
  case_decide as E; [by rewrite finished_cons|]. destruct h as [r|r]; [done|]. unfold only. by rewrite decide_False.
Qed.

(** ** The claims *)
Section Claims.
Context `{L : ULIDLaws} `{R : MapRange} `{N : Net} `{X : XXHash} `{G : GRPCDial} `{SI : SessionIface}.
Context `{PE : !ProtoMessage Empty} `{PR : !ProtoMessage RPCError} `{UP : Upstream}.

(** C8. A client is answered in order: of the replies a session is sent, those to the
    requests of a stream come in the order in which the requests were received, none
    twice, whatever other requests, the pool, other sessions, multicasts, the management
    service, the cluster and the life cycle of connections do in between, as long as the
    client gives its requests distinct IDs, nothing pushed carries one, and no worker is
    dismissed at work. If the client asks for replies, sending works and every error has
    a status, then no request is left out before one that is answered; and when the loop
    waits for the next request and the workers have nothing left, all are answered. The
    order is that of the calls of [Send] of the session; on the streams of a QUIC session
    replies can still overtake each other on the wire. *)
Theorem answers_in_order me st ls a s :
  Sent (heap (gw st) me) = [] -> arun me (astart st) ls = Some a -> s <> ""%string ->
  no_busy_dismissal (streams_view session_start (session_labels ls)) ->
  NoDup (Req_Id <$> received_requests ls) -> 0 ∉ Req_Id <$> received_requests ls ->
  Forall unnumbered ls ->
  let ids := Req_Id <$> of_stream Req_Stream s (received_requests ls) in
  let answered := filter (.∈ ids) (answered_ids me a) in
  answered `sublist_of` ids /\
  ((forall o reply, session_Send o reply = None) ->
   Forall (fun r => Req_NoReply r = false) (of_stream Req_Stream s (received_requests ls)) ->
   answerable_run me (astart st) ls ->
   answered `prefix_of` ids /\
   (ss_loop (a_sess a) = LTop -> quiet (ss_streams (a_sess a)) -> answered = ids)).
Proof.
  intros Hsent Hrun Hs Hbusy Hnd H0 Hu.
  set (Rs := received_requests ls) in *.
  destruct (arun_answers me Rs) with (s := s) (ls := ls) (a := astart st) (a' := a)
    as (ids & fins & E1 & E2 & Hsub & Hall); try done.
  { intros r r' Hr Hr' E. apply list_elem_of_lookup in Hr as [i Hi], Hr' as [j Hj].
    assert (i = j) as -> by (apply (NoDup_lookup _ _ _ (Req_Id r) Hnd); rewrite list_lookup_fmap; [by rewrite Hi|by rewrite Hj, E]).
    congruence. }
  { intros r Hr E. apply H0. rewrite <- E. by apply list_elem_of_fmap_2. }
  { apply stream_inv_start. }
  { apply known_start. }
  assert (answered_ids me a = ids) as -> by (rewrite E1; unfold answered_ids, a_gw; simpl; by rewrite Hsent).
  simpl in E2. pose proof (arun_session _ _ _ _ Hrun) as Hsess. pose proof (session_run_view _ _ _ Hsess) as Hw.
  assert (Rs = requests (recv_results (session_labels ls))) as ERs.
  { unfold Rs. rewrite received_requests_view. symmetry. by eapply requests_all. }
  assert (fins `prefix_of` of_stream Req_Stream s Rs) as Hfins.
  { destruct (workers_fifo _ _ _ _ _ s Hbusy Hw) as (fin & cur & later & Hof & _ & Hlog).
    apply wrun_received in Hw. cbn in Hw. rewrite Hw in Hof.
    rewrite <- E2, finished_log_of, Hlog, finished_one_by_one.
    - pose proof (received_view _ _ _ Hsess) as Hv. cbn [in_hand session_start ss_loop app a_sess astart] in Hv.
      rewrite <- ERs in Hv. apply (of_stream_prefix s) in Hv. rewrite of_stream_with_stream in Hv by done.
      etrans; [|exact Hv]. rewrite Hof. by exists (cur ++ later).
    - apply Forall_forall. intros r Hr. assert (r ∈ of_stream Req_Stream s (received_by (streams_view session_start (session_labels ls)))) as Hin.
      { rewrite Hof, elem_of_app. by left. }
      by apply list_elem_of_filter in Hin as [? _]. }
  assert (Req_Id <$> fins `prefix_of` Req_Id <$> of_stream Req_Stream s Rs) as Hids
    by (destruct Hfins as [more ->]; rewrite fmap_app; by exists (Req_Id <$> more)).
  split; [etrans; [exact Hsub|]; destruct Hids as [more ->]; by apply sublist_inserts_r|].
  intros Hopen Hno Hans. unfold stream_ids in Hall. cbv zeta. rewrite (Hall (conj Hopen Hno) Hans). split; [exact Hids|].
  intros Htop Hq. f_equal. rewrite <- E2, finished_log_of, (workers_complete _ _ _ _ _ s Hbusy Hw Hq).
  apply wrun_received in Hw. cbn in Hw. rewrite Hw.
  pose proof (received_all _ _ _ Hsess) as Hrec. change (a_sess (astart st)) with session_start in Hrec. unfold in_hand in Hrec. rewrite Htop, app_nil_r in Hrec.
  rewrite Hrec by done. cbn [session_start ss_loop app a_sess astart]. rewrite <- ERs, of_stream_with_stream by done.
  rewrite <- (app_nil_r (one_by_one _)). apply (finished_one_by_one s _ []).
  apply Forall_forall. by intros r [? _]%list_elem_of_filter.
Qed.
End Claims.

(** ** Witness *)

(** Alice sends two requests for a stream and one without; a multicast comes in between,
    and the one without a stream is answered before the second of the stream. *)
Definition pool_request : Request := {|
  Req_Id := 3; Req_ServiceCode := 7; Req_Method := "m"; Req_Data := []; Req_NodeId := "";
  Req_NoReply := false; Req_Stream := "" |}.
Definition news : Multicast := {|
  Mc_Receiver := ["alice"%string]; Mc_Content := sample_reply; Mc_Time := None; Mc_Stream := ""; Mc_ToEveryone := false |}.
Definition alice_run : list alabel :=
  [ASession (TRecv (Ok (sample_stream_request 1)) None); ASession THand; ASession (TStream DSend);
   ATake 0 sample_env; ASession (TRecv (Ok (sample_stream_request 2)) None); ASession THand;
   ASession (TRecv (Ok pool_request) None); APoolStart 0 sample_env; ASession (TStream DSend);
   ADone 0; AMulticast news (fun _ => None); ATake 0 sample_env; APoolEnd 0; ADone 0].

#[local] Existing Instance open_SessionIface.
Definition alice_start : AState := astart (lstart room_gateway).
Definition alice_end : AState := default alice_start (arun 0 alice_start alice_run).

Lemma answers_in_order_witness :
  filter (.∈ [1; 2]) (answered_ids 0 alice_end) = [1; 2] /\ answered_ids 0 alice_end = [1; 0; 3; 2].
Proof.
  assert (arun 0 alice_start alice_run = Some alice_end) as Hrun.
  { assert (match arun 0 alice_start alice_run with Some _ => true | None => false end = true) as E
      by (vm_compute; reflexivity).
    unfold alice_end. by destruct (arun 0 alice_start alice_run). }
  destruct (answers_in_order 0 (lstart room_gateway) alice_run alice_end "a" eq_refl Hrun) as [_ H].
  - discriminate.
  - vm_compute. auto 20.
  - apply (bool_decide_unpack _). vm_compute. exact I.
  - apply (bool_decide_unpack _). vm_compute. exact I.
  - repeat constructor.
  - split; [|vm_compute; reflexivity]. apply H.
    + reflexivity.
    + repeat constructor.
    + vm_compute. auto 20.
    + vm_compute. reflexivity.
    + split; [vm_compute; reflexivity|]. intros [|w]; split; vm_compute; reflexivity.
Defined.
