(* ===== verification/Client.v ===== *)
(** * Client: [component/gateway/client/client.go]

    The client of a gateway. Any number of goroutines call it at the same time while one
    receives replies; a step is one operation on the state they share. A channel made by
    [Call] belongs to that call, so that it is kept with the call and named by the
    call's number. *)

From S2P Require Import Prelude External Entry PathLib Samples Balancer Resolver StateTable Messages Codec Registry Gateway Request.

Local Open Scope go_scope.
Local Open Scope Z_scope.

(** ** Connections: [send] and [ping] *)

Definition tcp_send (write : bytes -> option gerror) (service : Z) (data : bytes) : option gerror :=
  SendBytes data write.
Definition tcp_ping (write : bytes -> option gerror) : option gerror := tcp_send write 0 [].

(** Of the streams opened, the one of the service writes; a negative index panics. *)
Definition quic_send (streams : list (bytes -> option gerror)) (service : Z) (data : bytes)
  : outcome (option gerror) :=
  let! s := slice_index streams (service %ᵍ Z.of_nat (length streams)) in
  Ret (SendBytes data s).
Definition quic_ping (streams : list (bytes -> option gerror)) : outcome (option gerror) :=
  quic_send streams 0 [].

(** A message is one WebSocket message, without a frame. *)
Definition ws_send (write : bytes -> option gerror) (service : Z) (data : bytes) : option gerror :=
  write data.

(** [New]: [dial] makes the connection of a scheme. *)
Definition New {C} (parsed : result (string * string)) (dial : string -> result C) : result C :=
  match parsed with
  | Err err => Err (Errorf "parse dial url, %w" [] (Some err))
  | Ok (scheme, host) =>
      if bool_decide (scheme = "tcp"%string) then
        match dial "tcp" with
        | Err err => Err (Errorf "dial tcp, %w" [] (Some err))
        | Ok c => Ok c
        end
      else if bool_decide (scheme = "ws"%string) then
        match dial "ws" with
        | Err err => Err (Errorf "dial websocket, %w" [] (Some err))
        | Ok c => Ok c
        end
      else Err (Errorf "unsupported scheme: %s" [AStr scheme] None)
  end.

(** ** Calls *)

Inductive CallOption := WithNode (nodeID : string) | WithNoReply | WithStream (stream : string).

Definition apply_call_option (req : Request) (opt : CallOption) : Request :=
  match opt with
  | WithNode nodeID => {| Req_Id := Req_Id req; Req_ServiceCode := Req_ServiceCode req;
      Req_Method := Req_Method req; Req_Data := Req_Data req; Req_NodeId := nodeID;
      Req_NoReply := Req_NoReply req; Req_Stream := Req_Stream req |}
  | WithNoReply => {| Req_Id := Req_Id req; Req_ServiceCode := Req_ServiceCode req;
      Req_Method := Req_Method req; Req_Data := Req_Data req; Req_NodeId := Req_NodeId req;
      Req_NoReply := true; Req_Stream := Req_Stream req |}
  | WithStream stream => {| Req_Id := Req_Id req; Req_ServiceCode := Req_ServiceCode req;
      Req_Method := Req_Method req; Req_Data := Req_Data req; Req_NodeId := Req_NodeId req;
      Req_NoReply := Req_NoReply req; Req_Stream := stream |}
  end.

Section Client.
Context `{PQ : !ProtoMessage Request}.

(** [send], which holds the lock: the new [seq], the request built if any, and the
    error. [input] is the encoding of the argument, [write] the connection's [send]. *)
Definition send (seq : Z) (serviceCode : Z) (method : string) (input : result bytes)
  (options : list CallOption) (write : Z -> bytes -> option gerror)
  : Z * option Request * option gerror :=
  match input with
  | Err err => (seq, None, Some (Errorf "marshal request message, %w" [] (Some err)))
  | Ok data =>
      let seq := wrap_u 32 (seq + 1) in
      let req := foldl apply_call_option {|
        Req_Id := seq; Req_ServiceCode := serviceCode; Req_Method := method; Req_Data := data;
        Req_NodeId := ""; Req_NoReply := false; Req_Stream := "" |} options in
      match proto_Marshal req with
      | Err err => (seq, None, Some (Errorf "marshal request payload, %w" [] (Some err)))
      | Ok data => (seq, Some req, write serviceCode data)
      end
  end.

(** What ends the [select] of [Call]: a reply, or the context's error. *)
Inductive ending := Got (reply : Reply) | GaveUp (err : gerror).

(** Where a call is: sent, not yet in [await]; in its [select]; past it, still in
    [await]; returned. *)
Inductive call_phase :=
  | Sent | Waiting | Leaving (e : ending) | Returned (e : ending).

(** A call that waits for a reply; [c_chan] is the content of its channel. *)
Record call := { c_req : Request; c_phase : call_phase; c_chan : list Reply }.

(** The goroutine of [receiveLoop]: at the stream of replies, sending to the channel of
    a call, in its [select] with a reply nobody waits for, or gone. *)
Inductive receiving :=
  | AtStream | Pushing (i : nat) (reply : Reply) | Offering (reply : Reply) | RGone.

Record CState := {
  seq : Z;
  await : gmap Z nat;
  calls : list call;
  recv_loop : receiving;
  unsolicited : list Reply;
  received : list Reply;
  closed_ : bool;
  panicked : bool;
}.

Definition cstart : CState := {|
  seq := 0; await := ∅; calls := []; recv_loop := AtStream; unsolicited := []; received := [];
  closed_ := false; panicked := false |}.

Definition set_call (st : CState) (i : nat) (f : call -> call) : CState := {|
  seq := seq st; await := await st; calls := alter f i (calls st); recv_loop := recv_loop st;
  unsolicited := unsolicited st; received := received st; closed_ := closed_ st;
  panicked := panicked st |}.
Definition set_await (st : CState) (aw : gmap Z nat) : CState := {|
  seq := seq st; await := aw; calls := calls st; recv_loop := recv_loop st;
  unsolicited := unsolicited st; received := received st; closed_ := closed_ st;
  panicked := panicked st |}.
Definition set_recv (st : CState) (r : receiving) : CState := {|
  seq := seq st; await := await st; calls := calls st; recv_loop := r;
  unsolicited := unsolicited st; received := received st; closed_ := closed_ st;
  panicked := panicked st |}.

Definition in_phase (p : call_phase) (c : call) : call :=
  {| c_req := c_req c; c_phase := p; c_chan := c_chan c |}.
Definition with_chan (ch : list Reply) (c : call) : call :=
  {| c_req := c_req c; c_phase := c_phase c; c_chan := ch |}.

Inductive client_label :=
  | CCall (serviceCode : Z) (method : string) (input : result bytes) (options : list CallOption)
      (write : Z -> bytes -> option gerror)
  | CStore (i : nat) | CTake (i : nat) | CGiveUp (i : nat) (err : gerror) | CDelete (i : nat)
  | CReceive (reply : Reply) | CPush | COffer | CDone | CClose.

(** The first part of [Call]: a call that fails or wants no reply returns at once. *)
Definition begin_call (st : CState) serviceCode method input options write : CState :=
  let '(seq, req, err) := send (seq st) serviceCode method input options write in
  let st' := {|
    seq := seq; await := await st; calls := calls st; recv_loop := recv_loop st;
    unsolicited := unsolicited st; received := received st; closed_ := closed_ st;
    panicked := panicked st |} in
  match err, req with
  | None, Some req =>
      if Req_NoReply req then st'
      else {| seq := seq; await := await st;
              calls := (calls st ++ [{| c_req := req; c_phase := Sent; c_chan := [] |}])%list;
              recv_loop := recv_loop st; unsolicited := unsolicited st;
              received := received st; closed_ := closed_ st; panicked := panicked st |}
  | _, _ => st'
  end.

(** A reply from the stream. *)
Definition receive (st : CState) (reply : Reply) : option CState :=
  match recv_loop st with
  | AtStream =>
      Some {| seq := seq st; await := await st; calls := calls st;
              recv_loop := match await st !! Rep_RequestId reply with
                           | Some i => Pushing i reply
                           | None => Offering reply
                           end;
              unsolicited := unsolicited st; received := (received st ++ [reply])%list;
              closed_ := closed_ st; panicked := panicked st |}
  | _ => None
  end.

(** [ch <- reply], when there is room for it. *)
Definition push (st : CState) : option CState :=
  match recv_loop st with
  | Pushing i reply =>
      match calls st !! i with
      | Some c => match c_chan c with
                  | [] => Some (set_recv (set_call st i (with_chan [reply])) AtStream)
                  | _ => None
                  end
      | None => None
      end
  | _ => None
  end.

(** [cli.replyC <- rxgo.Of(reply)]: a closed channel panics. *)
Definition offer (st : CState) : option CState :=
  match recv_loop st with
  | Offering reply =>
      Some {| seq := seq st; await := await st; calls := calls st;
              recv_loop := if closed_ st then RGone else AtStream;
              unsolicited := if closed_ st then unsolicited st
                             else (unsolicited st ++ [reply])%list;
              received := received st; closed_ := closed_ st;
              panicked := panicked st || closed_ st |}
  | _ => None
  end.

Definition cstep (st : CState) (l : client_label) : option CState :=
  match l with
  | CCall serviceCode method input options write =>
      Some (begin_call st serviceCode method input options write)
  | CStore i =>
      match calls st !! i with
      | Some {| c_req := req; c_phase := Sent |} =>
          Some (set_await (set_call st i (in_phase Waiting)) (<[Req_Id req := i]> (await st)))
      | _ => None
      end
  | CTake i =>
      match calls st !! i with
      | Some {| c_phase := Waiting; c_chan := reply :: ch |} =>
          Some (set_call st i (fun c => with_chan ch (in_phase (Leaving (Got reply)) c)))
      | _ => None
      end
  | CGiveUp i err =>
      match calls st !! i with
      | Some {| c_phase := Waiting |} => Some (set_call st i (in_phase (Leaving (GaveUp err))))
      | _ => None
      end
  | CDelete i =>
      match calls st !! i with
      | Some {| c_req := req; c_phase := Leaving e |} =>
          Some (set_await (set_call st i (in_phase (Returned e))) (delete (Req_Id req) (await st)))
      | _ => None
      end
  | CReceive reply => receive st reply
  | CPush => push st
  | COffer => offer st
  | CDone =>
      match recv_loop st with
      | Offering _ => if closed_ st then Some (set_recv st RGone) else None
      | _ => None
      end
  | CClose =>
      if closed_ st then None
      else Some {| seq := seq st; await := await st; calls := calls st; recv_loop := recv_loop st;
                   unsolicited := unsolicited st; received := received st; closed_ := true;
                   panicked := panicked st |}
  end.

Fixpoint crun (st : CState) (ls : list client_label) : option CState :=
  match ls with
  | [] => Some st
  | l :: ls => match cstep st l with Some st => crun st ls | None => None end
  end.
End Client.

(** ** The result of a call *)

(** [nil], with the output set or not, an error, or the error of a status. *)
Inductive call_return (M : Type) := RNil (output : option M) | RErr (err : gerror) | RStatus (st : Status).
Arguments RNil {_} output.
Arguments RErr {_} err.
Arguments RStatus {_} st.

(** [status.FromProto(st).Err()] is nil for the code OK. *)
Definition reply_return {M} `{ProtoMessage M} `{ProtoMessage RPCError} (reply : Reply) : call_return M :=
  if (Rep_ServiceCode reply =? 0) && (Rep_Code reply =? ReplyCode_RPC_ERROR) then
    match proto_Unmarshal (A := RPCError) (Rep_Data reply) with
    | Err err => RErr (Errorf "unmarshal rpc error, %w" [] (Some err))
    | Ok e => if bool_decide (St_Code (Err_Status e) = codes_OK) then RNil None
              else RStatus (Err_Status e)
    end
  else
    match proto_Unmarshal (Rep_Data reply) with
    | Err err => RErr (Errorf "unmarshal reply, %w" [] (Some err))
    | Ok m => RNil (Some m)
    end.

Definition call_result {M} `{ProtoMessage M} `{ProtoMessage RPCError} (e : ending) : call_return M :=
  match e with Got reply => reply_return reply | GaveUp err => RErr err end.

(** ** The invariant *)
Section Invariant.
Context `{PQ : !ProtoMessage Request}.

Definition cid (c : call) : Z := Req_Id (c_req c).

(** The call is in [await]. *)
Definition awaiting (c : call) : bool :=
  match c_phase c with Waiting | Leaving _ => true | _ => false end.

(** The call has the reply, in its channel or taken out of it. *)
Definition has_reply (c : call) (r : Reply) : Prop :=
  r ∈ c_chan c \/ c_phase c = Leaving (Got r) \/ c_phase c = Returned (Got r).

Record client_inv (st : CState) : Prop := {
  ci_ids : NoDup (cid <$> calls st);
  ci_seq : forall i c, calls st !! i = Some c -> 1 <= cid c <= seq st;
  ci_pos : 0 <= seq st;
  ci_await : forall id i, await st !! id = Some i ->
    exists c, calls st !! i = Some c /\ cid c = id /\ awaiting c = true;
  ci_awaiting : forall i c, calls st !! i = Some c -> awaiting c = true ->
    await st !! cid c = Some i;
  ci_reply : forall i c r, calls st !! i = Some c ->
    has_reply c r \/ recv_loop st = Pushing i r ->
    Rep_RequestId r = cid c /\ r ∈ received st;
  ci_push : forall i r, recv_loop st = Pushing i r -> is_Some (calls st !! i);
}.

Lemma client_inv_start : client_inv cstart.
Proof. split; simpl; try done. apply NoDup_nil_2. Qed.

Lemma lookup_set_call st i f j c :
  calls (set_call st i f) !! j = Some c <->
  (j = i /\ exists c0, calls st !! i = Some c0 /\ c = f c0) \/ (j <> i /\ calls st !! j = Some c).
Proof.
  simpl. destruct (decide (j = i)) as [->|Hne].
  - rewrite list_lookup_alter_eq. destruct (calls st !! i); simpl; naive_solver.
  - rewrite list_lookup_alter_ne by done. naive_solver.
Qed.

Lemma cid_alter f i (l : list call) : (forall c, cid (f c) = cid c) -> cid <$> alter f i l = cid <$> l.
Proof.
  intros Hf. revert i. induction l as [|c l IH]; intros [|i]; csimpl; [done|done|by rewrite Hf|].
  by rewrite IH.
Qed.

(** A change of one call, with the entries of [await] for its ID set as needed. *)
Lemma update_inv st st' i c f :
  client_inv st -> calls st !! i = Some c -> (forall c, cid (f c) = cid c) ->
  calls st' = alter f i (calls st) -> seq st' = seq st -> received st' = received st ->
  await st' !! cid c = (if awaiting (f c) then Some i else None) ->
  (forall id, id <> cid c -> await st' !! id = await st !! id) ->
  (forall r, has_reply (f c) r -> has_reply c r \/ recv_loop st = Pushing i r) ->
  (forall j r, recv_loop st' = Pushing j r -> recv_loop st = Pushing j r) ->
  client_inv st'.
Proof.
  intros [H1 H2 H3 H4 H5 H6 H7] Hi Hf Ec Es Ev Haw Hother Hreply Hrl.
  assert (forall j c', calls st !! j = Some c' -> cid c' = cid c -> j = i) as Huniq.
  { intros j c' Hj E. eapply NoDup_lookup; [exact H1| |].
    - rewrite list_lookup_fmap, Hj. simpl. by rewrite E.
    - by rewrite list_lookup_fmap, Hi. }
  assert (forall j c', calls st' !! j = Some c' <->
    (j = i /\ exists c0, calls st !! i = Some c0 /\ c' = f c0) \/ (j <> i /\ calls st !! j = Some c')) as Hlook.
  { intros j c'. rewrite Ec. apply (lookup_set_call st i f). }
  split; rewrite ?Es, ?Ev; try done.
  - by rewrite Ec, cid_alter.
  - intros j c'. rewrite Hlook. intros [[-> (c0 & Hc0 & ->)]|[_ Hj]];
      [rewrite Hf|]; by eapply H2.
  - intros id j Hj. destruct (decide (id = cid c)) as [->|Hne].
    + rewrite Haw in Hj. destruct (awaiting (f c)) eqn:E; [|done]. injection Hj as <-.
      exists (f c). split; [|by rewrite Hf]. apply Hlook. left. eauto.
    + rewrite Hother in Hj by done. destruct (H4 _ _ Hj) as (c' & Hc' & Hid & Ha).
      exists c'. split; [|done]. apply Hlook. right. split; [|done].
      intros ->. congruence.
  - intros j c'. rewrite Hlook. intros [[-> (c0 & Hc0 & ->)]|[Hne Hj]] Ha.
    + assert (c0 = c) as -> by congruence. by rewrite Hf, Haw, Ha.
    + rewrite Hother; [by apply H5|]. intros E. apply Hne. by eapply Huniq.
  - intros j c' r. rewrite Hlook. intros [[-> (c0 & Hc0 & ->)]|[Hne Hj]] Hr.
    + assert (c0 = c) as -> by congruence. rewrite Hf. apply (H6 i c r Hi).
      destruct Hr as [Hr|Hr]; [by apply Hreply|right; by apply Hrl].
    + apply (H6 j c' r Hj). destruct Hr as [Hr|Hr]; [by left|right; by apply Hrl].
  - intros j r Hr. apply Hrl, H7 in Hr. apply lookup_lt_is_Some in Hr.
    rewrite Ec.
    apply lookup_lt_is_Some. by rewrite length_alter.
Qed.

Lemma foldl_option_id opts req : Req_Id (foldl apply_call_option req opts) = Req_Id req.
Proof.
  revert req. induction opts as [|o opts IH]; intros req; [done|]. simpl. rewrite IH. by destruct o.
Qed.

(** What [begin_call] does. *)
Lemma begin_call_spec st sc m inp opts w :
  0 <= seq st -> seq st + 1 < 2 ^ 32 ->
  let st' := begin_call st sc m inp opts w in
  await st' = await st /\ recv_loop st' = recv_loop st /\ received st' = received st /\
  seq st <= seq st' <= seq st + 1 /\
  (calls st' = calls st \/
   exists req, calls st' = (calls st ++ [{| c_req := req; c_phase := Sent; c_chan := [] |}])%list /\
     Req_Id req = seq st + 1 /\ seq st' = seq st + 1).
Proof.
  intros H0 H1. unfold begin_call, send. rewrite wrap_u_small by lia.
  destruct inp as [data|]; [|simpl; split_and!; auto; lia].
  destruct (proto_Marshal _) as [b|]; [|simpl; split_and!; auto; lia].
  destruct (w sc b); [simpl; split_and!; auto; lia|].
  destruct (Req_NoReply _); simpl; split_and!; auto; try lia.
  right. eexists. split; [done|]. split; [|done]. by rewrite foldl_option_id.
Qed.

(** A step that leaves calls and [await] alone. *)
Lemma same_calls_inv st st' :
  client_inv st -> calls st' = calls st -> await st' = await st -> seq st <= seq st' ->
  (forall r, r ∈ received st -> r ∈ received st') ->
  (forall i r, recv_loop st' = Pushing i r -> recv_loop st = Pushing i r \/
     exists c, calls st !! i = Some c /\ Rep_RequestId r = cid c /\ r ∈ received st') ->
  client_inv st'.
Proof.
  intros [H1 H2 H3 H4 H5 H6 H7] Ec Ea Hs Hr Hp. split; rewrite ?Ec, ?Ea; try done.
  - intros i c Hi. specialize (H2 _ _ Hi). lia.
  - lia.
  - intros i c r Hi [Hh|Hpush].
    + destruct (H6 i c r Hi (or_introl Hh)). auto.
    + destruct (Hp _ _ Hpush) as [H|(c' & Hc' & ? & ?)].
      * destruct (H6 i c r Hi (or_intror H)). auto.
      * assert (c' = c) as -> by congruence. done.
  - intros i r Hpush. destruct (Hp _ _ Hpush) as [H|(c & Hc & _)]; [by eapply H7|by eexists].
Qed.

Definition is_call (l : client_label) : bool := match l with CCall _ _ _ _ _ => true | _ => false end.

Lemma begin_call_inv st sc m inp opts w :
  client_inv st -> seq st + 1 < 2 ^ 32 -> client_inv (begin_call st sc m inp opts w).
Proof.
  intros [H1 H2 H3 H4 H5 H6 H7] Hlt.
  destruct (begin_call_spec st sc m inp opts w H3 Hlt) as (Ea & Er & Ev & Hs & [Ec|(req & Ec & Hid & Eq)]).
  { apply (same_calls_inv st); try done; [lia|by rewrite Ev|]. rewrite Er. by left. }
  set (st' := begin_call st sc m inp opts w) in *.
  assert (forall j c, calls st' !! j = Some c ->
    calls st !! j = Some c \/ (calls st !! j = None /\ c = {| c_req := req; c_phase := Sent; c_chan := [] |})) as Hcase.
  { intros j c. rewrite Ec. intros [Hj|[Hge Hj]]%lookup_app_Some; [by left|].
    apply list_lookup_singleton_Some in Hj as [_ <-]. right. split; [|done]. by apply lookup_ge_None. }
  split.
  - rewrite Ec, fmap_app. apply NoDup_app. split_and!; [done| |apply NoDup_singleton].
    intros x (c & -> & Hc)%list_elem_of_fmap Hx%list_elem_of_singleton.
    apply list_elem_of_lookup in Hc as [j Hj]. specialize (H2 _ _ Hj).
    unfold cid in *. simpl in Hx. lia.
  - intros j c [Hj|[_ ->]]%Hcase; [specialize (H2 _ _ Hj); lia|]. unfold cid. simpl. lia.
  - lia.
  - intros id j. rewrite Ea. intros (c & Hc & ? & ?)%H4. exists c. split; [|done].
    rewrite Ec. by apply lookup_app_l_Some.
  - intros j c [Hj|[_ ->]]%Hcase Ha; [|done]. rewrite Ea. by apply H5.
  - intros j c r [Hj|[Hj ->]]%Hcase Hr; rewrite Er, Ev in *; [by eapply H6|].
    destruct Hr as [[Hr|[Hr|Hr]]|Hr]; try done; [by apply not_elem_of_nil in Hr|].
    apply H7 in Hr. rewrite Hj in Hr. by destruct Hr.
  - intros j r. rewrite Er. intros Hp%H7. rewrite Ec. destruct Hp as [c Hc]. exists c.
    by apply lookup_app_l_Some.
Qed.

(** Two calls with one ID are one call. *)
Lemma cid_inj st i j c d :
  client_inv st -> calls st !! i = Some c -> calls st !! j = Some d -> cid c = cid d -> i = j.
Proof.
  intros Hi Hc Hd E. eapply NoDup_lookup; [exact (ci_ids _ Hi)| |]; rewrite list_lookup_fmap.
  - by rewrite Hc.
  - by rewrite Hd; simpl; rewrite E.
Qed.

Lemma push_inv st st' : client_inv st -> push st = Some st' -> client_inv st'.
Proof.
  intros Hi Hst. pose proof Hi as [H1 H2 H3 H4 H5 H6 H7]. unfold push in Hst.
  destruct (recv_loop st) as [|i reply| |] eqn:Hr; try done.
  destruct (calls st !! i) as [c|] eqn:Hc; [|done]. destruct (c_chan c) eqn:Hch; [|done].
  injection Hst as <-.
  apply (update_inv st _ i c (with_chan [reply]) Hi Hc); try done.
  - change (awaiting (with_chan [reply] c)) with (awaiting c). destruct (awaiting c) eqn:E; [by apply H5|].
    destruct (await st !! cid c) as [j|] eqn:Ha; [|done].
    destruct (H4 _ _ Ha) as (c' & Hc' & Hid & Ha').
    assert (j = i) as -> by by apply (cid_inj st j i c' c). congruence.
  - intros r [Hr'|Hr']; [right|left; by right]. simpl in Hr'.
    apply list_elem_of_singleton in Hr' as ->. done.
Qed.

Lemma cstep_inv st l st' :
  client_inv st -> (is_call l = true -> seq st + 1 < 2 ^ 32) -> cstep st l = Some st' ->
  client_inv st'.
Proof.
  intros Hi Hlt. pose proof Hi as [H1 H2 H3 H4 H5 H6 H7].
  destruct l as [sc m inp opts w|i|i|i err|i|reply| | | |]; simpl; intros Hst.
  - injection Hst as <-. by apply begin_call_inv; [|apply Hlt].
  - destruct (calls st !! i) as [[req [| | |] ch]|] eqn:Hc; try done. injection Hst as <-.
    apply (update_inv st _ i _ (in_phase Waiting) Hi Hc); try done.
    + unfold cid. simpl. apply lookup_insert_eq.
    + intros id Hne. simpl. by rewrite lookup_insert_ne.
    + intros r [Hr|[Hr|Hr]]; try done. left. by left.
  - destruct (calls st !! i) as [[req [| | |] [|reply ch]]|] eqn:Hc; try done. injection Hst as <-.
    apply (update_inv st _ i _ (fun c => with_chan ch (in_phase (Leaving (Got reply)) c)) Hi Hc);
      try done.
    + by apply H5 with (c := {| c_req := req; c_phase := Waiting; c_chan := reply :: ch |}).
    + intros r [Hr|[Hr|Hr]]; try done; left; left; simpl in *; [by right|].
      injection Hr as ->. left.
  - destruct (calls st !! i) as [[req [| | |] ch]|] eqn:Hc; try done. injection Hst as <-.
    apply (update_inv st _ i _ (in_phase (Leaving (GaveUp err))) Hi Hc); try done.
    + by apply H5 with (c := {| c_req := req; c_phase := Waiting; c_chan := ch |}).
    + intros r [Hr|[Hr|Hr]]; try done. left. by left.
  - destruct (calls st !! i) as [[req [| |e|] ch]|] eqn:Hc; try done. injection Hst as <-.
    apply (update_inv st _ i _ (in_phase (Returned e)) Hi Hc); try done.
    + unfold cid. simpl. apply lookup_delete_eq.
    + intros id Hne. simpl. by rewrite lookup_delete_ne.
    + intros r [Hr|[Hr|Hr]]; try done; left; [by left|right; left]. simpl in *. by injection Hr as ->.
  - unfold receive in Hst. destruct (recv_loop st) eqn:Hr; try done. injection Hst as <-.
    apply (same_calls_inv st); simpl; try done; [intros r Hin; apply elem_of_app; by left|].
    intros i r. destruct (await st !! Rep_RequestId reply) as [j|] eqn:Ha; [|done].
    intros [= -> ->]. right. destruct (H4 _ _ Ha) as (c & Hc & Hid & _). exists c.
    split; [done|]. split; [done|]. apply elem_of_app. right. by apply list_elem_of_singleton.
  - by apply (push_inv st).
  - unfold offer in Hst. destruct (recv_loop st) eqn:Hr; try done. injection Hst as <-.
    apply (same_calls_inv st); simpl; try done. intros i r. by destruct (closed_ st).
  - destruct (recv_loop st) eqn:Hr; try done. destruct (closed_ st); [|done]. injection Hst as <-.
    by apply (same_calls_inv st).
  - destruct (closed_ st); [done|]. injection Hst as <-. apply (same_calls_inv st); try done. by left.
Qed.
End Invariant.

(** ** Runs *)
Section Runs.
Context `{PQ : !ProtoMessage Request}.

(** The number of calls begun in a run. *)
Definition calls_in (ls : list client_label) : Z := Z.of_nat (length (filter (fun l => is_call l = true) ls)).

Lemma calls_in_cons l ls : calls_in (l :: ls) = (if is_call l then 1 else 0) + calls_in ls.
Proof. unfold calls_in. rewrite filter_cons. destruct (is_call l); simpl; lia. Qed.

Lemma calls_in_nonneg ls : 0 <= calls_in ls.
Proof. unfold calls_in. lia. Qed.

Lemma cstep_seq st l st' :
  0 <= seq st -> (is_call l = true -> seq st + 1 < 2 ^ 32) -> cstep st l = Some st' ->
  seq st <= seq st' <= seq st + (if is_call l then 1 else 0).
Proof.
  intros H0 Hlt Hst. destruct l; simpl in *.
  { injection Hst as <-. specialize (Hlt eq_refl).
    by destruct (begin_call_spec st serviceCode method input options write H0 Hlt) as (_ & _ & _ & ? & _). }
  all: unfold receive, push, offer in Hst;
    repeat match type of Hst with context [match ?x with _ => _ end] => destruct x; try done end;
    injection Hst as <-; simpl; lia.
Qed.

Lemma cstep_run_inv st l st' ls :
  client_inv st -> seq st + calls_in (l :: ls) < 2 ^ 32 -> cstep st l = Some st' ->
  client_inv st' /\ seq st' + calls_in ls < 2 ^ 32.
Proof.
  intros Hi Hlt Hst. rewrite calls_in_cons in Hlt. pose proof (calls_in_nonneg ls).
  assert (is_call l = true -> seq st + 1 < 2 ^ 32) as H1 by (intros E; rewrite E in Hlt; lia).
  split; [by eapply cstep_inv|].
  pose proof (cstep_seq st l st' (ci_pos _ Hi) H1 Hst). destruct (is_call l); lia.
Qed.

Lemma crun_inv ls st st' :
  client_inv st -> seq st + calls_in ls < 2 ^ 32 -> crun st ls = Some st' -> client_inv st'.
Proof.
  revert st. induction ls as [|l ls IH]; intros st Hi Hlt; simpl; [by intros [= <-]|].
  destruct (cstep st l) as [st1|] eqn:E; [|done].
  destruct (cstep_run_inv _ _ _ _ Hi Hlt E). by apply IH.
Qed.

Lemma crun_seq ls st st' :
  client_inv st -> seq st + calls_in ls < 2 ^ 32 -> crun st ls = Some st' ->
  seq st' <= seq st + calls_in ls.
Proof.
  revert st. induction ls as [|l ls IH]; intros st Hi Hlt; cbn [crun].
  { intros [= <-]. pose proof (calls_in_nonneg []). lia. }
  destruct (cstep st l) as [st1|] eqn:E; [|done]. intros Hr.
  destruct (cstep_run_inv _ _ _ _ Hi Hlt E) as [Hi1 Hlt1]. specialize (IH _ Hi1 Hlt1 Hr).
  rewrite calls_in_cons in *. pose proof (calls_in_nonneg ls).
  assert (is_call l = true -> seq st + 1 < 2 ^ 32) as H1 by (intros Ec; rewrite Ec in Hlt; lia).
  pose proof (cstep_seq st l st1 (ci_pos _ Hi) H1 E). lia.
Qed.

Lemma same_id_same_call st i j c d :
  client_inv st -> calls st !! i = Some c -> calls st !! j = Some d -> cid c = cid d -> i = j.
Proof.
  intros Hi Hc Hd E. eapply NoDup_lookup; [exact (ci_ids _ Hi)| |].
  - by rewrite list_lookup_fmap, Hc.
  - rewrite list_lookup_fmap, Hd. simpl. by rewrite E.
Qed.

(** A call that has no reply and is not about to get one. *)
Definition no_reply (i : nat) (id : Z) (st : CState) : Prop :=
  exists c, calls st !! i = Some c /\ cid c = id /\
    forall r, ~ (has_reply c r \/ recv_loop st = Pushing i r).

Lemma no_reply_other i id st st' :
  no_reply i id st -> calls st' !! i = calls st !! i ->
  (forall r, recv_loop st' = Pushing i r -> recv_loop st = Pushing i r) -> no_reply i id st'.
Proof.
  intros (c & Hc & Hid & Hn) E Hr. exists c. split; [by rewrite E|]. split; [done|].
  intros r [H|H]; apply (Hn r); [by left|right; by apply Hr].
Qed.

Lemma no_reply_call i id st st' j f :
  no_reply i id st -> calls st' = alter f j (calls st) -> (forall c, cid (f c) = cid c) ->
  (i = j -> forall c r, calls st !! i = Some c -> has_reply (f c) r -> has_reply c r) ->
  (forall r, recv_loop st' = Pushing i r -> recv_loop st = Pushing i r) -> no_reply i id st'.
Proof.
  intros Hno Ec Hf Hh Hr. destruct (decide (i = j)) as [<-|Hne].
  - destruct Hno as (c & Hc & Hid & Hn). exists (f c). rewrite Ec, list_lookup_alter_eq, Hc.
    split; [done|]. split; [by rewrite Hf|].
    intros r [H|H]; apply (Hn r); [left; by eapply Hh|right; by apply Hr].
  - apply (no_reply_other i id st st' Hno); [|done]. rewrite Ec. by apply list_lookup_alter_ne.
Qed.

Lemma no_reply_step i id st l st' :
  client_inv st -> no_reply i id st -> (is_call l = true -> seq st + 1 < 2 ^ 32) ->
  (forall reply, l = CReceive reply -> Rep_RequestId reply <> id) ->
  cstep st l = Some st' -> no_reply i id st'.
Proof.
  intros Hi Hno Hlt Hrep.
  destruct l as [sc m inp opts w|j|j|j err|j|reply| | | |]; simpl; intros Hst.
  - injection Hst as <-.
    destruct (begin_call_spec st sc m inp opts w (ci_pos _ Hi) (Hlt eq_refl))
      as (_ & Er & _ & _ & Ec).
    apply (no_reply_other i id st _ Hno); [|by rewrite Er].
    destruct Ec as [-> |(req & -> & _)]; [done|]. destruct Hno as (c & Hc & _).
    rewrite Hc. by apply lookup_app_l_Some.
  - destruct (calls st !! j) as [[req [| | |] ch]|] eqn:Hj; try done. injection Hst as <-.
    apply (no_reply_call i id st _ j (in_phase Waiting) Hno); try done.
    intros _ c r _ [H|[H|H]]; try done. by left.
  - destruct (calls st !! j) as [[req [| | |] [|reply ch]]|] eqn:Hj; try done. injection Hst as <-.
    eapply (no_reply_call i id st _ j _ Hno); try done.
    intros ->. destruct Hno as (c & Hc & _ & Hn). destruct (Hn reply). left. left.
    rewrite Hj in Hc. injection Hc as <-. left.
  - destruct (calls st !! j) as [[req [| | |] ch]|] eqn:Hj; try done. injection Hst as <-.
    apply (no_reply_call i id st _ j (in_phase (Leaving (GaveUp err))) Hno); try done.
    intros _ c r _ [H|[H|H]]; try done. by left.
  - destruct (calls st !! j) as [[req [| |e|] ch]|] eqn:Hj; try done. injection Hst as <-.
    apply (no_reply_call i id st _ j (in_phase (Returned e)) Hno); try done.
    intros -> c r Hc [H|[H|H]]; try done; [by left|]. rewrite Hj in Hc. injection Hc as <-.
    simpl in H. injection H as ->. right. by left.
  - unfold receive in Hst. destruct (recv_loop st) eqn:Hr; try done. injection Hst as <-.
    apply (no_reply_other i id st _ Hno); [done|]. simpl. intros r.
    destruct (await st !! Rep_RequestId reply) as [j|] eqn:Ha; [|done]. intros [= -> ->].
    destruct (ci_await _ Hi _ _ Ha) as (c & Hc & Hcid & _).
    destruct Hno as (c' & Hc' & Hid & _). assert (c' = c) as -> by congruence.
    destruct (Hrep r eq_refl). congruence.
  - unfold push in Hst. destruct (recv_loop st) as [|j reply| |] eqn:Hr; try done.
    destruct (calls st !! j) as [c|] eqn:Hj; [|done]. destruct (c_chan c); [|done].
    injection Hst as <-. apply (no_reply_call i id st _ j (with_chan [reply]) Hno); try done.
    intros ->. destruct Hno as (c' & _ & _ & Hn). destruct (Hn reply). by right.
  - unfold offer in Hst. destruct (recv_loop st); try done. injection Hst as <-.
    apply (no_reply_other i id st _ Hno); [done|]. simpl. by destruct (closed_ st).
  - destruct (recv_loop st); try done. destruct (closed_ st); [|done]. injection Hst as <-.
    by apply (no_reply_other i id st _ Hno).
  - destruct (closed_ st); [done|]. injection Hst as <-. by apply (no_reply_other i id st _ Hno).
Qed.

Lemma no_reply_run i id ls st st' :
  client_inv st -> no_reply i id st -> seq st + calls_in ls < 2 ^ 32 ->
  Forall (fun l => forall reply, l = CReceive reply -> Rep_RequestId reply <> id) ls ->
  crun st ls = Some st' -> no_reply i id st'.
Proof.
  intros Hi Hno Hlt Hls. revert st Hi Hno Hlt. induction Hls as [|l ls Hl _ IH]; intros st Hi Hno Hlt; simpl.
  { by intros [= <-]. }
  destruct (cstep st l) as [st1|] eqn:E; [|done].
  destruct (cstep_run_inv _ _ _ _ Hi Hlt E) as [Hi1 Hlt1]. apply IH; try done.
  eapply no_reply_step; [exact Hi|exact Hno| |done|done].
  intros Ecall. rewrite calls_in_cons, Ecall in Hlt. pose proof (calls_in_nonneg ls). lia.
Qed.
End Runs.

(** ** The claims *)
Section Claims.
Context `{PQ : !ProtoMessage Request}.

(** C11. However calls on one client, their time-outs and the arrival of replies
    interleave, a call that ends with a reply ends with one that was received and carries
    the ID of its request, and no two calls have requests of the same ID, as long as
    fewer than 2^32 calls were begun, so that the sequence number did not wrap. *)
Theorem call_gets_its_reply ls st :
  calls_in ls < 2 ^ 32 -> crun cstart ls = Some st ->
  NoDup (cid <$> calls st) /\
  forall i c reply, calls st !! i = Some c ->
    c_phase c = Leaving (Got reply) \/ c_phase c = Returned (Got reply) ->
    Rep_RequestId reply = Req_Id (c_req c) /\ reply ∈ received st.
Proof.
  intros Hlt Hrun. destruct (crun_inv ls cstart st client_inv_start Hlt Hrun) as [H1 _ _ _ _ H6 _].
  split; [done|]. intros i c reply Hc Hp. apply (H6 i c reply Hc). left. by right.
Qed.

(** A reply that arrives before its call has entered [await] is lost: [Call] sends
    the request first, and if the reply is received before the [Store], it goes to the
    subscribers, and the call does not get a reply however the run goes on, unless
    another one with the same ID arrives; it can only time out. *)
Theorem early_reply_lost ls st i req reply :
  calls_in ls < 2 ^ 32 -> crun cstart ls = Some st ->
  calls st !! i = Some {| c_req := req; c_phase := Sent; c_chan := [] |} ->
  recv_loop st = AtStream -> closed_ st = false -> Rep_RequestId reply = Req_Id req ->
  exists st1, crun st [CReceive reply; COffer] = Some st1 /\
    unsolicited st1 = (unsolicited st ++ [reply])%list /\
    forall ls2 st2, calls_in ls + calls_in ls2 < 2 ^ 32 ->
      Forall (fun l => forall r, l = CReceive r -> Rep_RequestId r <> Req_Id req) ls2 ->
      crun st1 ls2 = Some st2 ->
      exists c, calls st2 !! i = Some c /\ Req_Id (c_req c) = Req_Id req /\
        forall r, c_phase c <> Leaving (Got r) /\ c_phase c <> Returned (Got r).
Proof.
  intros Hlt Hrun Hi Hat Hopen Hid.
  pose proof (crun_inv ls cstart st client_inv_start Hlt Hrun) as Hinv.
  pose proof (crun_seq ls cstart st client_inv_start Hlt Hrun) as Hseq. simpl in Hseq.
  assert (await st !! Rep_RequestId reply = None) as Ha.
  { destruct (await st !! Rep_RequestId reply) as [j|] eqn:Ha; [|done].
    destruct (ci_await _ Hinv _ _ Ha) as (c & Hc & Hcid & Haw).
    assert (j = i) as -> by (eapply same_id_same_call; [done..|by rewrite Hcid, Hid]).
    rewrite Hi in Hc. by injection Hc as <-. }
  eexists. split; [simpl; unfold receive; rewrite Hat; simpl; rewrite Ha; reflexivity|].
  simpl. rewrite Hopen. split; [done|]. intros ls2 st2 Hlt2 Hls2 Hrun2.
  match type of Hrun2 with crun ?s _ = _ => set (st1 := s) in Hrun2 end.
  destruct (no_reply_run i (Req_Id req) ls2 st1 st2) as (c & Hc & Hcid & Hn); try done.
  - apply (same_calls_inv st); try done. intros r Hr. apply elem_of_app. by left.
  - eexists. split; [exact Hi|]. split; [done|]. intros r [[Hr|[Hr|Hr]]|Hr]; try done.
    by apply not_elem_of_nil in Hr.
  - simpl. lia.
  - exists c. split; [done|]. split; [done|].
    intros r. split; intros E; apply (Hn r); left; right; auto.
Qed.
End Claims.

Section EndToEnd.
Context `{PQ : !ProtoMessage Request} `{PR : !ProtoMessage RPCError} `{UP : Upstream}.

(** A call that waits takes the reply to its request when this is the next to be
    received. *)
Lemma waiting_takes ls st i req reply :
  calls_in ls < 2 ^ 32 -> crun cstart ls = Some st -> recv_loop st = AtStream ->
  calls st !! i = Some {| c_req := req; c_phase := Waiting; c_chan := [] |} ->
  Rep_RequestId reply = Req_Id req ->
  exists st' c, crun st [CReceive reply; CPush; CTake i] = Some st' /\
    calls st' !! i = Some c /\ c_phase c = Leaving (Got reply).
Proof.
  intros Hlt Hrun Hat Hi Hid. pose proof (crun_inv ls cstart st client_inv_start Hlt Hrun) as Hinv.
  assert (await st !! Rep_RequestId reply = Some i) as Ha.
  { rewrite Hid. by apply (ci_awaiting _ Hinv i _ Hi). }
  eexists. eexists. split; [|split].
  - simpl. unfold receive. rewrite Hat, Ha. simpl. unfold push. simpl. rewrite Hi. simpl.
    rewrite list_lookup_alter_eq, Hi. reflexivity.
  - simpl. by rewrite !list_lookup_alter_eq, Hi.
  - done.
Qed.

(** C9. A call returns what the upstream said: if the gateway answers the request of a
    call that waits with a reply ([answer] of [Request], what [handleRequest] sends),
    and this reply is the next to be received, then the call takes it, and returns the
    decoded message if the upstream succeeded, and the status of the error, its text
    withheld if the code is Unknown, if the request failed. *)
Theorem call_end_to_end {M} `{PM : !ProtoMessage M} ls st i req res reply :
  calls_in ls < 2 ^ 32 -> crun cstart ls = Some st -> recv_loop st = AtStream ->
  calls st !! i = Some {| c_req := req; c_phase := Waiting; c_chan := [] |} ->
  Req_ServiceCode req <> 0 -> answer req res (Some reply) ->
  exists st' c, crun st [CReceive reply; CPush; CTake i] = Some st' /\
    calls st' !! i = Some c /\ c_phase c = Leaving (Got reply) /\
    match res with
    | Ok output => reply_return (M := M) reply =
        match proto_Unmarshal (Rep_Data output) with
        | Ok m => RNil (Some m)
        | Err err => RErr (Errorf "unmarshal reply, %w" [] (Some err))
        end
    | Err err => exists stt, status_FromError err = Some stt /\
        (St_Code stt <> codes_OK -> reply_return (M := M) reply = RStatus (mask_unknown stt))
    end.
Proof.
  intros Hlt Hrun Hat Hi Hsc Hans. assert (Rep_RequestId reply = Req_Id req) as Hid by (by inversion Hans).
  destruct (waiting_takes ls st i req reply Hlt Hrun Hat Hi Hid) as (st' & c & Hr & Hc & Hp).
  exists st', c. split; [done|]. split; [done|].
  split; [done|]. inversion Hans; subst; unfold reply_return; simpl.
  - destruct (Z.eqb_spec (Req_ServiceCode req) 0); [done|]. done.
  - exists st0. split; [done|]. intros Hok.
    match goal with H : proto_Unmarshal _ = Ok _ |- _ => rewrite H end. simpl.
    rewrite bool_decide_false; [done|]. unfold mask_unknown. by case_bool_decide.
Qed.
End EndToEnd.

(** ** Witnesses *)

#[local] Instance plain_RequestProto : ProtoMessage Request := {|
  proto_Marshal _ := Ok []; proto_Unmarshal _ := Err (EForeign "proto") |}.

Definition begin (service : Z) : client_label :=
  CCall service "Say" (Ok []) [WithStream "room"] (fun _ _ => None).
Definition sample_reply (id : Z) : Reply := {|
  Rep_RequestId := id; Rep_ServiceCode := 7; Rep_Code := 2; Rep_Data := [] |}.
Definition client_after (ls : list client_label) : CState := default cstart (crun cstart ls).
(** The request the client makes first. *)
Definition first_request : Request := {|
  Req_Id := 1; Req_ServiceCode := 7; Req_Method := "Say"; Req_Data := []; Req_NodeId := "";
  Req_NoReply := false; Req_Stream := "room" |}.

(** Two calls; the reply to the second one comes first. *)
Definition sample_calls : list client_label :=
  [begin 7; begin 8; CStore 0; CStore 1; CReceive (sample_reply 2); CPush; CTake 1].

Lemma call_gets_its_reply_witness :
  NoDup (cid <$> calls (client_after sample_calls)) /\
  (exists c, calls (client_after sample_calls) !! 1%nat = Some c /\
    c_phase c = Leaving (Got (sample_reply 2)) /\ Rep_RequestId (sample_reply 2) = Req_Id (c_req c)).
Proof.
  destruct (call_gets_its_reply sample_calls (client_after sample_calls)) as [H1 H2].
  - vm_compute. reflexivity.
  - vm_compute. reflexivity.
  - split; [exact H1|]. eexists. split; [vm_compute; reflexivity|]. split; [reflexivity|].
    apply (H2 1%nat _ (sample_reply 2) ltac:(vm_compute; reflexivity) ltac:(left; reflexivity)).
Defined.

Lemma early_reply_lost_witness :
  exists st1, crun (client_after [begin 7]) [CReceive (sample_reply 1); COffer] = Some st1 /\
    unsolicited st1 = [sample_reply 1].
Proof.
  destruct (early_reply_lost [begin 7] (client_after [begin 7]) 0 first_request (sample_reply 1))
    as (st1 & H1 & H2 & _).
  - vm_compute. reflexivity.
  - vm_compute. reflexivity.
  - vm_compute. reflexivity.
  - vm_compute. reflexivity.
  - vm_compute. reflexivity.
  - reflexivity.
  - exists st1. split; [exact H1|exact H2].
Defined.

Lemma call_end_to_end_witness :
  exists st' c, crun (client_after [begin 7; CStore 0])
      [CReceive (sample_reply 1); CPush; CTake 0] = Some st' /\
    calls st' !! 0%nat = Some c /\ c_phase c = Leaving (Got (sample_reply 1)).
Proof.
  destruct (call_end_to_end (M := Empty) [begin 7; CStore 0] (client_after [begin 7; CStore 0]) 0
    first_request (Ok (sample_reply 9)) (sample_reply 1)) as (st' & c & H1 & H2 & H3 & _).
  - vm_compute. reflexivity.
  - vm_compute. reflexivity.
  - vm_compute. reflexivity.
  - vm_compute. reflexivity.
  - discriminate.
  - exact (answer_reply first_request (sample_reply 9) eq_refl).
  - exists st', c. split; [exact H1|]. split; [exact H2|exact H3].
Defined.
