(* ===== verification/Closing.v ===== *)
(** * Closing: the end of a client ([component/gateway/client/client.go])

    The goroutines of a client, those that read from its connection, [receiveLoop] and
    [pingLoop], next to a call of [Close], which closes three things one after another.
    Replies are followed only as far as they make goroutines wait; what becomes of them
    is the subject of [Client] and [Push]. *)

From S2P Require Import Prelude Messages.

(** ** The goroutines *)

(** A goroutine of [replyStream]: before the first [select] of its loop, reading from the
    connection, in the last [select] with a reply, returned. (What does not decode as a
    reply panics, as in [Push].) *)
Inductive reader_phase := RTop | RReading | RSending | REnded.
(** [receiveLoop]: waiting for a reply, with one, in [ch <- reply], where the channel may be
    full, in the last [select], returned, or panicked. *)
Inductive loop_phase := LWaiting | LGot | LPushing (full : bool) | LOffering | LEnded | LPanicked.
(** [pingLoop]: waiting for the ticker, pinging, returned. *)
Inductive ping_phase := PWaiting | PPinging | PEnded.
(** [Close]: not called; after the first, the second and the third line; panicked by a
    second call. *)
Inductive close_phase := NotCalled | ConnClosed | DoneClosed | CloseReturned | ClosePanicked.

#[export] Instance reader_phase_eq_dec : EqDecision reader_phase.
Proof. solve_decision. Defined.
#[export] Instance loop_phase_eq_dec : EqDecision loop_phase.
Proof. solve_decision. Defined.
#[export] Instance ping_phase_eq_dec : EqDecision ping_phase.
Proof. solve_decision. Defined.
#[export] Instance close_phase_eq_dec : EqDecision close_phase.
Proof. solve_decision. Defined.

(** The readers of TCP and WebSocket connections close the channel of replies when they
    return; those of QUIC, one for each stream, do not. *)
Inductive connection_kind := TCPConn | WSConn | QUICConn.
#[export] Instance connection_kind_eq_dec : EqDecision connection_kind.
Proof. solve_decision. Defined.

Record XState := {
  x_kind : connection_kind;
  x_close : close_phase;
  x_readers : list reader_phase;
  x_loop : loop_phase;
  x_ping : ping_phase;
}.

(** [newClient]: a QUIC connection has three streams. *)
Definition xstart (kind : connection_kind) : XState := {|
  x_kind := kind; x_close := NotCalled;
  x_readers := replicate (match kind with QUICConn => 3 | _ => 1 end) RTop;
  x_loop := LWaiting; x_ping := PWaiting |}.

(** The channels [done] of the connection, [done] of the client, and [replyC]. *)
Definition conn_done (st : XState) : bool := negb (bool_decide (x_close st = NotCalled)).
Definition cli_done (st : XState) : bool :=
  match x_close st with NotCalled | ConnClosed => false | _ => true end.
Definition replyC_closed (st : XState) : bool :=
  match x_close st with CloseReturned | ClosePanicked => true | _ => false end.
(** The channel of [replyStream]. *)
Definition stream_closed (st : XState) : bool :=
  match x_kind st with QUICConn => false | _ => forallb (fun p => bool_decide (p = REnded)) (x_readers st) end.

Definition set_reader (st : XState) (i : nat) (p : reader_phase) (l : loop_phase) : XState := {|
  x_kind := x_kind st; x_close := x_close st; x_readers := <[i := p]> (x_readers st);
  x_loop := l; x_ping := x_ping st |}.
Definition set_loop (st : XState) (l : loop_phase) : XState := {|
  x_kind := x_kind st; x_close := x_close st; x_readers := x_readers st; x_loop := l;
  x_ping := x_ping st |}.
Definition set_ping (st : XState) (p : ping_phase) : XState := {|
  x_kind := x_kind st; x_close := x_close st; x_readers := x_readers st; x_loop := x_loop st;
  x_ping := p |}.
Definition set_close (st : XState) (c : close_phase) : XState := {|
  x_kind := x_kind st; x_close := c; x_readers := x_readers st; x_loop := x_loop st;
  x_ping := x_ping st |}.

(** The steps of reader [i]: its first [select]; a reply or an error is read, or, over
    WebSocket, a message of another type; the reply is taken by the loop; or [done] is. Of the loop: the stream has ended; a reply is found to
    have a call waiting, whose channel may be full, or none; it goes into the channel; the
    call makes room; it goes to the observable; or [done] is taken. *)
Inductive xlabel :=
  | XTop (i : nat) | XRead (i : nat) | XReadErr (i : nat) | XReadOther (i : nat) | XSend (i : nat) | XSendDone (i : nat)
  | XStreamEnd | XFound (full : bool) | XNotFound | XPush | XRoom | XOffer | XOfferDone
  | XTick | XPinged | XClose.

Definition reader_at (st : XState) (i : nat) (p : reader_phase) (next : XState) : option XState :=
  if decide (x_readers st !! i = Some p) then Some next else None.
Definition loop_at (st : XState) (p : loop_phase) (next : option XState) : option XState :=
  if decide (x_loop st = p) then next else None.

Definition xstep (st : XState) (l : xlabel) : option XState :=
  match l with
  | XTop i => reader_at st i RTop (set_reader st i (if conn_done st then REnded else RReading) (x_loop st))
  | XRead i => reader_at st i RReading (set_reader st i RSending (x_loop st))
  | XReadErr i => reader_at st i RReading (set_reader st i REnded (x_loop st))
  | XReadOther i =>
      match x_kind st with
      | WSConn => reader_at st i RReading (set_reader st i RTop (x_loop st))
      | _ => None
      end
  | XSend i => loop_at st LWaiting (reader_at st i RSending (set_reader st i RTop LGot))
  | XSendDone i =>
      if conn_done st then reader_at st i RSending (set_reader st i REnded (x_loop st)) else None
  | XStreamEnd => loop_at st LWaiting (if stream_closed st then Some (set_loop st LEnded) else None)
  | XFound full => loop_at st LGot (Some (set_loop st (LPushing full)))
  | XNotFound => loop_at st LGot (Some (set_loop st LOffering))
  | XPush => loop_at st (LPushing false) (Some (set_loop st LWaiting))
  | XRoom => loop_at st (LPushing true) (Some (set_loop st (LPushing false)))
  | XOffer => loop_at st LOffering (Some (set_loop st (if replyC_closed st then LPanicked else LWaiting)))
  | XOfferDone => loop_at st LOffering (if cli_done st then Some (set_loop st LEnded) else None)
  | XTick =>
      match x_ping st with
      | PWaiting => Some (set_ping st (if cli_done st then PEnded else PPinging))
      | _ => None
      end
  | XPinged => match x_ping st with PPinging => Some (set_ping st PWaiting) | _ => None end
  | XClose =>
      match x_close st with
      | NotCalled => Some (set_close st ConnClosed)
      | ConnClosed => Some (set_close st DoneClosed)
      | DoneClosed => Some (set_close st CloseReturned)
      | CloseReturned => Some (set_close st ClosePanicked)
      | ClosePanicked => None
      end
  end.

Fixpoint xrun (st : XState) (ls : list xlabel) : option XState :=
  match ls with
  | [] => Some st
  | l :: ls => match xstep st l with Some st => xrun st ls | None => None end
  end.

(** ** Lemmas *)

(** How many steps a goroutine can still take after [Close]. A reply that is handed to the
    loop is worth four steps of it. *)
Definition reader_left (p : reader_phase) : nat :=
  match p with RReading => 12 | RSending => 8 | RTop => 4 | REnded => 0 end.
Definition loop_left (p : loop_phase) : nat :=
  match p with
  | LGot => 4 | LPushing true => 3 | LPushing false => 2 | LOffering => 2 | LWaiting => 1
  | LEnded | LPanicked => 0
  end.
Definition ping_left (p : ping_phase) : nat :=
  match p with PPinging => 2 | PWaiting => 1 | PEnded => 0 end.
Definition steps_left (st : XState) : nat :=
  sum_list_with reader_left (x_readers st) + loop_left (x_loop st) + ping_left (x_ping st).

Lemma sum_list_insert {A} (f : A -> nat) l i x y :
  l !! i = Some x -> (sum_list_with f (<[i := y]> l) + f x = sum_list_with f l + f y)%nat.
Proof.
  revert i. induction l as [|a l IH]; intros [|i] Hi; simpl in *; try done.
  - injection Hi as ->. lia.
  - specialize (IH _ Hi). lia.
Qed.

Lemma reader_at_Some st i p next st' :
  reader_at st i p next = Some st' -> x_readers st !! i = Some p /\ st' = next.
Proof. unfold reader_at. case_decide; [|done]. by intros [= <-]. Qed.
Lemma loop_at_Some st p next st' : loop_at st p next = Some st' -> x_loop st = p /\ next = Some st'.
Proof. unfold loop_at. by case_decide. Qed.

Lemma set_reader_left st i p q l :
  x_readers st !! i = Some p -> (reader_left q + loop_left l < reader_left p + loop_left (x_loop st))%nat ->
  (steps_left (set_reader st i q l) < steps_left st)%nat.
Proof.
  intros Hi Hlt. unfold steps_left. simpl.
  pose proof (sum_list_insert reader_left _ _ _ q Hi) as E. lia.
Qed.
Lemma set_loop_left st l :
  (loop_left l < loop_left (x_loop st))%nat -> (steps_left (set_loop st l) < steps_left st)%nat.
Proof. unfold steps_left. simpl. lia. Qed.

(** [Close] goes on; it does not go back. *)
Lemma xstep_closed st l st' :
  replyC_closed st = true -> xstep st l = Some st' ->
  replyC_closed st' = true /\ (l <> XClose -> (steps_left st' < steps_left st)%nat).
Proof.
  intros Hc Hs. assert (conn_done st = true /\ cli_done st = true) as [Hd Hcd].
  { unfold replyC_closed, conn_done, cli_done in *. by destruct (x_close st). }
  destruct l; simpl in Hs.
  - apply reader_at_Some in Hs as [Hi ->]. split; [done|intros _]. rewrite Hd.
    eapply set_reader_left; [exact Hi|simpl; lia].
  - apply reader_at_Some in Hs as [Hi ->]. split; [done|intros _]. eapply set_reader_left; [exact Hi|simpl; lia].
  - apply reader_at_Some in Hs as [Hi ->]. split; [done|intros _]. eapply set_reader_left; [exact Hi|simpl; lia].
  - destruct (x_kind st); try done. apply reader_at_Some in Hs as [Hi ->]. split; [done|intros _].
    eapply set_reader_left; [exact Hi|simpl; lia].
  - apply loop_at_Some in Hs as [Hl [Hi ->]%reader_at_Some]. split; [done|intros _].
    eapply set_reader_left; [exact Hi|rewrite Hl; simpl; lia].
  - rewrite Hd in Hs. apply reader_at_Some in Hs as [Hi ->]. split; [done|intros _].
    eapply set_reader_left; [exact Hi|simpl; lia].
  - apply loop_at_Some in Hs as [Hl Hs]. destruct (stream_closed st); [|done]. injection Hs as <-.
    split; [done|intros _]. apply set_loop_left. rewrite Hl. simpl. lia.
  - apply loop_at_Some in Hs as [Hl [= <-]]. split; [done|intros _]. apply set_loop_left. rewrite Hl.
    destruct full; simpl; lia.
  - apply loop_at_Some in Hs as [Hl [= <-]]. split; [done|intros _]. apply set_loop_left. rewrite Hl. simpl. lia.
  - apply loop_at_Some in Hs as [Hl [= <-]]. split; [done|intros _]. apply set_loop_left. rewrite Hl. simpl. lia.
  - apply loop_at_Some in Hs as [Hl [= <-]]. split; [done|intros _]. apply set_loop_left. rewrite Hl. simpl. lia.
  - apply loop_at_Some in Hs as [Hl [= <-]]. split; [done|intros _]. apply set_loop_left. rewrite Hl, Hc. simpl. lia.
  - apply loop_at_Some in Hs as [Hl Hs]. rewrite Hcd in Hs. injection Hs as <-. split; [done|intros _].
    apply set_loop_left. rewrite Hl. simpl. lia.
  - destruct (x_ping st) eqn:Hp; try done. injection Hs as <-. split; [done|intros _].
    unfold steps_left. simpl. rewrite Hp, Hcd. simpl. lia.
  - destruct (x_ping st) eqn:Hp; try done. injection Hs as <-. split; [done|intros _].
    unfold steps_left. simpl. rewrite Hp. simpl. lia.
  - destruct (x_close st) eqn:E; try done; injection Hs as <-; by (split; [unfold replyC_closed in *; rewrite E in Hc|]).
Qed.

Lemma xstep_shape st l st' :
  xstep st l = Some st' -> x_kind st' = x_kind st /\ length (x_readers st') = length (x_readers st).
Proof.
  intros Hs. destruct l; simpl in Hs;
    repeat first [apply loop_at_Some in Hs as [_ Hs] | apply reader_at_Some in Hs as [_ ->]
                 | case_match; try done | injection Hs as <-];
    simpl; by rewrite ?length_insert.
Qed.

Lemma xrun_shape ls st st' :
  xrun st ls = Some st' -> x_kind st' = x_kind st /\ length (x_readers st') = length (x_readers st).
Proof.
  revert st. induction ls as [|l ls IH]; intros st; simpl; [by intros [= <-]|].
  destruct (xstep st l) eqn:E; [|done]. intros Hr. apply xstep_shape in E as [<- <-]. by apply IH.
Qed.

Lemma steps_left_bound st : (steps_left st <= 12 * length (x_readers st) + 6)%nat.
Proof.
  assert (forall ps, sum_list_with reader_left ps <= 12 * length ps)%nat as H.
  { induction ps as [|p ps IH]; simpl; [done|]. destruct p; simpl; lia. }
  unfold steps_left. specialize (H (x_readers st)).
  assert (loop_left (x_loop st) <= 4)%nat by (destruct (x_loop st) as [| |[]| | |]; simpl; lia).
  assert (ping_left (x_ping st) <= 2)%nat by (destruct (x_ping st); simpl; lia). lia.
Qed.

Lemma xrun_closed ls st st' :
  replyC_closed st = true -> xrun st ls = Some st' -> XClose ∉ ls ->
  (length ls + steps_left st' <= steps_left st)%nat.
Proof.
  revert st. induction ls as [|l ls IH]; intros st Hc; simpl; [intros [= <-]; lia|].
  destruct (xstep st l) as [st1|] eqn:E; [|done]. intros Hr [Hne Hno]%not_elem_of_cons.
  destruct (xstep_closed _ _ _ Hc E) as [Hc1 Hlt]. specialize (IH _ Hc1 Hr Hno).
  assert (l <> XClose) as Hl by congruence. specialize (Hlt Hl). lia.
Qed.

(** Nothing goes on by itself: not even a call that could make room in its channel. *)
Definition stuck (st : XState) : Prop := forall l, l <> XClose -> l <> XRoom -> xstep st l = None.

Lemma stuck_ended st :
  replyC_closed st = true -> stuck st ->
  Forall (fun p => p = REnded) (x_readers st) /\ x_ping st = PEnded /\
  (x_loop st = LEnded \/ x_loop st = LPanicked \/ x_loop st = LPushing true \/
   (x_kind st = QUICConn /\ x_loop st = LWaiting)).
Proof.
  intros Hc Hst.
  assert (conn_done st = true) as Hd by (unfold replyC_closed, conn_done in *; by destruct (x_close st)).
  assert (Forall (fun p => p = REnded) (x_readers st)) as Hr.
  { apply Forall_lookup. intros i p Hi. destruct p; [| | |done].
    - specialize (Hst (XTop i) ltac:(done) ltac:(done)). simpl in Hst. unfold reader_at in Hst. by rewrite decide_True in Hst.
    - specialize (Hst (XRead i) ltac:(done) ltac:(done)). simpl in Hst. unfold reader_at in Hst. by rewrite decide_True in Hst.
    - specialize (Hst (XSendDone i) ltac:(done) ltac:(done)). simpl in Hst. rewrite Hd in Hst.
      unfold reader_at in Hst. by rewrite decide_True in Hst. }
  split; [done|]. split.
  { pose proof (Hst XTick ltac:(done) ltac:(done)) as H1. pose proof (Hst XPinged ltac:(done) ltac:(done)) as H2.
    simpl in *. by destruct (x_ping st). }
  destruct (x_loop st) as [| |[]| | |] eqn:El; auto.
  - destruct (decide (x_kind st = QUICConn)) as [Ek|Ek]; [by auto 6|].
    specialize (Hst XStreamEnd ltac:(done) ltac:(done)). simpl in Hst. unfold loop_at, stream_closed in Hst.
    rewrite decide_True in Hst by done.
    replace (forallb _ (x_readers st)) with true in Hst; [by destruct (x_kind st)|].
    symmetry. apply Is_true_true, forallb_True, (Forall_impl _ _ _ Hr). intros p ->. by rewrite bool_decide_true.
  - specialize (Hst XNotFound ltac:(done) ltac:(done)). simpl in Hst. unfold loop_at in Hst. by rewrite decide_True in Hst.
  - specialize (Hst XPush ltac:(done) ltac:(done)). simpl in Hst. unfold loop_at in Hst. by rewrite decide_True in Hst.
  - specialize (Hst XOffer ltac:(done) ltac:(done)). simpl in Hst. unfold loop_at in Hst. by rewrite decide_True in Hst.
Qed.

(** ** The claims *)

(** C26. A client that is closed comes to an end: once [Close] has returned, its goroutines
    take at most eighteen steps more over TCP and WebSocket and forty-two over QUIC, however
    they interleave and whatever is still read; and when none can go on, the readers and
    the loop of pings have returned, and the loop that receives has too, unless it panicked,
    waits to hand a call a second reply, or waits for replies over QUIC, whose channel
    nobody closes. *)
Theorem Close_ends_goroutines kind ls st :
  xrun (xstart kind) ls = Some st -> x_close st = CloseReturned ->
  (forall ls' st', xrun st ls' = Some st' -> XClose ∉ ls' ->
     (length ls' <= match kind with QUICConn => 42 | _ => 18 end)%nat /\
     (stuck st' ->
        Forall (fun p => p = REnded) (x_readers st') /\ x_ping st' = PEnded /\
        (x_loop st' = LEnded \/ x_loop st' = LPanicked \/ x_loop st' = LPushing true \/
         (kind = QUICConn /\ x_loop st' = LWaiting)))).
Proof.
  intros Hrun Hclose ls' st' Hrun' Hno.
  assert (replyC_closed st = true) as Hc by (unfold replyC_closed; by rewrite Hclose).
  pose proof (xrun_closed _ _ _ Hc Hrun' Hno) as Hlen. pose proof (steps_left_bound st) as Hb.
  destruct (xrun_shape _ _ _ Hrun) as [Ek El]. destruct (xrun_shape _ _ _ Hrun') as [Ek' _].
  split.
  { rewrite El in Hb. simpl in Hb. rewrite length_replicate in Hb. destruct kind; lia. }
  intros Hst. assert (replyC_closed st' = true) as Hc'.
  { clear -Hc Hrun'. revert st Hc Hrun'. induction ls' as [|l ls' IH]; intros st Hc; simpl; [by intros [= <-]|].
    destruct (xstep st l) as [st1|] eqn:E; [|done]. apply IH. by destruct (xstep_closed _ _ _ Hc E). }
  rewrite Ek in Ek'. simpl in Ek'. rewrite <- Ek'. by apply stuck_ended.
Qed.

(** [Close] can make the client panic: the loop has a reply for nobody in its last
    [select], where after [Close] both cases can be taken, and sending on a closed channel
    panics. *)
Theorem Close_can_panic kind :
  exists ls st, xrun (xstart kind) ls = Some st /\ x_close st = CloseReturned /\ x_loop st = LPanicked.
Proof.
  exists [XTop 0; XRead 0; XSend 0; XNotFound; XClose; XClose; XClose; XOffer].
  destruct kind; (eexists; split; [vm_compute; reflexivity|done]).
Qed.

(** The loop of a QUIC client that waits for replies when the client is closed waits
    forever. *)
Theorem quic_loop_leaks ls st :
  x_kind st = QUICConn -> Forall (fun p => p = REnded) (x_readers st) -> x_loop st = LWaiting ->
  forall st', xrun st ls = Some st' -> x_loop st' = LWaiting.
Proof.
  revert st. induction ls as [|l ls IH]; intros st Hk Hr Hl st'; simpl; [by intros [= <-]|].
  destruct (xstep st l) as [st1|] eqn:E; [|done]. pose proof (xstep_shape _ _ _ E) as [Ek _].
  assert (x_loop st1 = LWaiting /\ x_readers st1 = x_readers st) as [E1 E2].
  { destruct l; simpl in E;
      repeat first [apply loop_at_Some in E as [? E]; try congruence
                   | apply reader_at_Some in E as [Hi ->]; by apply (Forall_lookup_1 _ _ _ _ Hr) in Hi
                   | unfold stream_closed in E; rewrite Hk in E
                   | case_match; try done | injection E as <-]; done. }
  apply IH; [congruence|by rewrite E2|done..].
Qed.

(** ** Witness *)

(** A QUIC client that is closed with nothing in flight: the loop stays. *)
Definition quiet_close : list xlabel := [XClose; XClose; XClose].
Definition quiet_end : list xlabel := [XTop 0; XTop 1; XTop 2; XTick].
Definition x_after (st : XState) (ls : list xlabel) : XState := default st (xrun st ls).

Lemma Close_ends_goroutines_witness :
  Forall (fun p => p = REnded) (x_readers (x_after (x_after (xstart QUICConn) quiet_close) quiet_end)) /\
  x_loop (x_after (x_after (xstart QUICConn) quiet_close) quiet_end) = LWaiting.
Proof.
  destruct (Close_ends_goroutines QUICConn quiet_close (x_after (xstart QUICConn) quiet_close) eq_refl eq_refl
    quiet_end (x_after (x_after (xstart QUICConn) quiet_close) quiet_end)) as [_ H].
  - vm_compute. reflexivity.
  - unfold quiet_end. rewrite !not_elem_of_cons. split_and!; [discriminate..|apply not_elem_of_nil].
  - split; [|vm_compute; reflexivity]. apply H. intros l Hc Hr.
    destruct l as [i|i|i|i|i|i| | | | | | | | | |]; try done; simpl; try reflexivity;
      do 3 (destruct i as [|i]; [reflexivity|]); reflexivity.
Defined.
