(* ===== verification/Events.v ===== *)
(** * Events: [event/bus.go], [event/events.go]

    The cluster's event bus. An event travels as its registered type name and its JSON;
    a subscriber names the type by the first parameter of its handler. [reflect] and
    [encoding/json] are modelled as far as the program looks at them. *)

From S2P Require Import Prelude External Messages.

Local Open Scope Z_scope.
Local Open Scope go_scope.

(** [reflect.Type]: a named type behind a number of pointers. *)
Record rtype := { rt_stars : nat; rt_name : string }.

#[export] Instance rtype_eq_dec : EqDecision rtype.
Proof. solve_decision. Defined.
#[export] Program Instance rtype_countable : Countable rtype :=
  inj_countable' (fun t => (rt_stars t, rt_name t)) (fun p => {| rt_stars := p.1; rt_name := p.2 |}) _.
Next Obligation. by intros []. Qed.

Definition deref (t : rtype) : rtype := {| rt_stars := pred (rt_stars t); rt_name := rt_name t |}.

(** ** Registered events *)

(** The maps [events] and [types]. *)
Record registered := { events : gmap string rtype; types : gmap rtype string }.

Definition no_events : registered := {| events := ∅; types := ∅ |}.

Definition Register (r : registered) (eventType : string) (ev : rtype) : outcome registered :=
  match events r !! eventType with
  | Some _ => Panic
  | None =>
      let valueType := deref ev in
      Ret {| events := <[eventType := valueType]> (events r);
             types := <[valueType := eventType]> (types r) |}
  end.

(** The registrations of [init], before those of the program. *)
Definition init : outcome registered :=
  let! r := Register no_events "user:connected" {| rt_stars := 0; rt_name := "event.UserConnected" |} in
  Register r "user:disconnected" {| rt_stars := 0; rt_name := "event.UserDisconnected" |}.

(** ** Payloads *)

(** Times are nanoseconds, those of a payload microseconds. *)
Record payload := { p_Time : Z; p_Type : string; p_Detail : bytes }.

#[export] Instance payload_eq_dec : EqDecision payload.
Proof. solve_decision. Defined.

Definition UnixMicro (t : Z) : Z := t / 1000.
Definition GetTime (p : payload) : Z := p_Time p * 1000.

(** What the program uses of [encoding/json]: contents of events, each of a named type,
    and payloads. *)
Class EventJSON := {
  content : Type;
  content_type : content -> string;
  detail_Marshal : content -> result bytes;
  detail_Unmarshal : string -> bytes -> result content;
  payload_Marshal : payload -> result bytes;
  payload_Unmarshal : bytes -> result payload;
}.

Section Events.
Context `{EJ : EventJSON}.

(** An event, given by value or by pointer. *)
Record event := { ev_stars : nat; ev_content : content }.

Definition TypeOf (ev : event) : rtype :=
  {| rt_stars := ev_stars ev; rt_name := content_type (ev_content ev) |}.

Definition newPayload (r : registered) (now : Z) (ev : event) : result payload :=
  match types r !! deref (TypeOf ev) with
  | None => Err (Errorf "unknown event %q" [AStr ""] None)
  | Some eventType =>
      match detail_Marshal (ev_content ev) with
      | Err err => Err err
      | Ok detail => Ok {| p_Time := UnixMicro now; p_Type := eventType; p_Detail := detail |}
      end
  end.

(** ** The bus *)

Record EventOptions := { ev_ChannelName : string }.
Definition newEventOptions : EventOptions := {| ev_ChannelName := "nodehub:events" |}.
Definition WithEventChannelName (name : string) (_ : EventOptions) : EventOptions :=
  {| ev_ChannelName := name |}.

(** [Publish]: the error, and what was given to the queue, which answers [queue]. *)
Definition Publish (r : registered) (now : Z) (ev : event) (queue : option gerror)
  : outcome (option gerror * option bytes) :=
  match newPayload r now ev with
  | Err _ => Panic
  | Ok p =>
      match payload_Marshal p with
      | Err err => Ret (Some err, None)
      | Ok data => Ret (queue, Some data)
      end
  end.

(** What the handler given to [Subscribe] is: not a function, or one with parameters. *)
Inductive handler_type := NotFunc | Func (ins : list rtype).

Definition time_Time : rtype := {| rt_stars := 0; rt_name := "time.Time" |}.

(** A subscription: the name of its events and the type of the first parameter. *)
Record subscription := { sub_event : string; sub_arg : rtype }.

Definition Subscribe (r : registered) (handler : handler_type) : outcome subscription :=
  match handler with
  | Func [firstArg; secondArg] =>
      match types r !! deref firstArg with
      | None => Panic
      | Some eventType =>
          if bool_decide (secondArg = time_Time)
          then Ret {| sub_event := eventType; sub_arg := firstArg |}
          else Panic
      end
  | _ => Panic
  end.

(** The goroutine of [observe]: a message becomes an item of the observable. *)
Definition observe (msg : bytes) : result payload := payload_Unmarshal msg.

(** The function that [Subscribe] gives to [ForEach]: the event and the time the handler
    is called with, if it is. *)
Definition on_next (sub : subscription) (p : payload) : option (event * Z) :=
  if bool_decide (p_Type p = sub_event sub) then
    match detail_Unmarshal (rt_name (sub_arg sub)) (p_Detail p) with
    | Err _ => None
    | Ok c => Some ({| ev_stars := rt_stars (sub_arg sub); ev_content := c |}, GetTime p)
    end
  else None.

(** All the calls of a handler, as messages come from the queue; errors are logged. *)
Definition handler_calls (sub : subscription) (msgs : list bytes) : list (event * Z) :=
  omap (fun msg => match observe msg with Ok p => on_next sub p | Err _ => None end) msgs.

(** The function of [Observable]: an event by pointer. *)
Definition observed (r : registered) (p : payload) : result event :=
  match events r !! p_Type p with
  | None => Err (Errorf "unknown event %q" [AStr (p_Type p)] None)
  | Some evType =>
      match detail_Unmarshal (rt_name evType) (p_Detail p) with
      | Err err => Err (Errorf "unmarshal event %q, %w" [AStr (p_Type p)] (Some err))
      | Ok c => Ok {| ev_stars := S (rt_stars evType); ev_content := c |}
      end
  end.

(** ** Lemmas *)

(** The registrations of a program. *)
Fixpoint register_events (r : registered) (regs : list (string * rtype)) : outcome registered :=
  match regs with
  | [] => Ret r
  | (name, ty) :: regs => let! r := Register r name ty in register_events r regs
  end.

(** A type is known by a name that stands for it. *)
Definition consistent (r : registered) : Prop :=
  forall t name, types r !! t = Some name -> events r !! name = Some t.

Lemma Register_consistent r name ty r' :
  consistent r -> Register r name ty = Ret r' -> consistent r'.
Proof.
  intros Hr. unfold Register. destruct (events r !! name) eqn:Hn; [done|]. intros [= <-].
  intros t n. simpl. rewrite lookup_insert_Some. intros [[<- <-]|[Hne Ht]].
  - by rewrite lookup_insert_eq.
  - apply Hr in Ht. rewrite lookup_insert_ne; [done|]. congruence.
Qed.

Lemma register_events_consistent regs r r' :
  consistent r -> register_events r regs = Ret r' -> consistent r'.
Proof.
  revert r. induction regs as [|[n t] regs IH]; intros r Hr; simpl; [by intros [= <-]|].
  intros (r1 & H1 & H2)%outcome_bind_Ret. eapply IH; [|done]. by eapply Register_consistent.
Qed.

Lemma no_events_consistent : consistent no_events.
Proof. intros t n. simpl. by rewrite lookup_empty. Qed.

(** What [Publish] gives to the queue. *)
Lemma Publish_event_payload r now ev queue err data :
  Publish r now ev queue = Ret (err, Some data) ->
  exists name detail, types r !! deref (TypeOf ev) = Some name /\
    detail_Marshal (ev_content ev) = Ok detail /\ err = queue /\
    payload_Marshal {| p_Time := UnixMicro now; p_Type := name; p_Detail := detail |} = Ok data.
Proof.
  unfold Publish, newPayload. destruct (types r !! _) as [name|]; [|done].
  destruct (detail_Marshal _) as [detail|]; [|done].
  destruct (payload_Marshal _) as [d|] eqn:Hp; [|done]. intros [= <- <-]. eauto 6.
Qed.
End Events.

Section Claims.
Context `{EJ : EventJSON}.

(** [encoding/json] reads back what it wrote, for the content of an event and the payloads
    that carry it. *)
Definition json_faithful (ev : event) : Prop :=
  (forall p data, detail_Marshal (ev_content ev) = Ok (p_Detail p) -> payload_Marshal p = Ok data ->
     payload_Unmarshal data = Ok p) /\
  forall data, detail_Marshal (ev_content ev) = Ok data ->
    detail_Unmarshal (content_type (ev_content ev)) data = Ok (ev_content ev).

(** C16. An event reaches exactly the handlers of its type: in a program whose
    registrations succeeded, whatever names and types they used, a published event that
    survives JSON makes a subscribed handler run once if the handler's first parameter
    is of the event's type, by value or by pointer on either side, and not at all
    otherwise; the handler gets the content that was published and the time of the
    publication rounded down to a microsecond. The other messages of the queue do not
    matter. *)
Theorem event_delivered regs r now ev data args sub before after :
  register_events no_events regs = Ret r ->
  Publish r now ev None = Ret (None, Some data) -> json_faithful ev ->
  Subscribe r (Func args) = Ret sub ->
  exists t, args = [sub_arg sub; t] /\
    handler_calls sub (before ++ [data] ++ after) =
      (handler_calls sub before ++
       (if decide (deref (sub_arg sub) = deref (TypeOf ev))
        then [({| ev_stars := rt_stars (sub_arg sub); ev_content := ev_content ev |},
               1000 * (now / 1000))]
        else []) ++
       handler_calls sub after)%list.
Proof.
  intros Hregs Hpub [Hpj Hdj] Hsub.
  assert (consistent r) as Hcons by (by eapply register_events_consistent, Hregs; apply no_events_consistent).
  apply Publish_event_payload in Hpub as (name & detail & Hname & Hd & _ & Hp).
  apply Hpj in Hp; [|done]. apply Hdj in Hd. unfold Subscribe in Hsub.
  destruct args as [|a1 [|a2 [|]]]; try done.
  destruct (types r !! deref a1) as [ev_name|] eqn:Ha; [|done]. case_bool_decide; [|done].
  injection Hsub as <-. simpl. exists a2. split; [done|].
  unfold handler_calls. rewrite omap_app. f_equal. simpl. unfold observe. rewrite Hp.
  unfold on_next. simpl. case_decide as E.
  - rewrite E, Hname in Ha. injection Ha as <-. rewrite bool_decide_true by done.
    replace (rt_name a1) with (content_type (ev_content ev)) by (by injection E as _ ->).
    rewrite Hd. unfold GetTime, UnixMicro. simpl. by rewrite Z.mul_comm.
  - rewrite bool_decide_false; [done|]. intros ->. apply E.
    apply Hcons in Ha, Hname. congruence.
Qed.
End Claims.

(** ** Witnesses *)

(** Contents are names of users, of the two types of the package. *)
#[local] Instance sample_EventJSON : EventJSON := {|
  content := bool * byte;
  content_type c := if c.1 then "event.UserConnected"%string else "event.UserDisconnected"%string;
  detail_Marshal c := Ok [c.2];
  detail_Unmarshal ty b :=
    match b with
    | [x] => Ok (bool_decide (ty = "event.UserConnected"%string), x)
    | _ => Err (EForeign "json")
    end;
  payload_Marshal p :=
    if bool_decide (p = {| p_Time := 12; p_Type := "user:connected"; p_Detail := [Byte.x61] |})
    then Ok [Byte.x70] else Err (EForeign "json");
  payload_Unmarshal b :=
    if bool_decide (b = [Byte.x70])
    then Ok {| p_Time := 12; p_Type := "user:connected"; p_Detail := [Byte.x61] |}
    else Err (EForeign "json");
|}.

Definition sample_types : list (string * rtype) :=
  [("user:connected", {| rt_stars := 0; rt_name := "event.UserConnected" |});
   ("user:disconnected", {| rt_stars := 1; rt_name := "event.UserDisconnected" |})]%string.
Definition sample_registered : registered :=
  outcome_get no_events (register_events no_events sample_types).
Definition sample_event : event := {| ev_stars := 1; ev_content := (true, Byte.x61) |}.

Lemma event_delivered_witness :
  handler_calls {| sub_event := "user:connected";
                   sub_arg := {| rt_stars := 0; rt_name := "event.UserConnected" |} |}
    [[]; [Byte.x70]; [Byte.x71]]
  = [({| ev_stars := 0; ev_content := (true, Byte.x61) |}, 12000)].
Proof.
  destruct (event_delivered sample_types sample_registered 12345 sample_event [Byte.x70]
    [{| rt_stars := 0; rt_name := "event.UserConnected" |}; time_Time]
    {| sub_event := "user:connected"; sub_arg := {| rt_stars := 0; rt_name := "event.UserConnected" |} |}
    [[]] [[Byte.x71]]) as (t & _ & H).
  - vm_compute. reflexivity.
  - vm_compute. reflexivity.
  - split; [|intros data [= <-]; reflexivity].
    intros p data _. simpl. case_bool_decide; [|discriminate]. intros [= <-].
    by rewrite bool_decide_true, H.
  - vm_compute. reflexivity.
  - exact H.
Defined.
