(* ===== verification/Fleet.v ===== *)
(** * Fleet: the gateways of a cluster and the event bus between them
      ([component/gateway/proxy.go], [event/bus.go])

    Several gateways of [Lifecycle] announce the users that connect to them on the bus of
    [Events], and each hears of all of them, in the order of publication, at its own
    pace: that is what a subscription of [Queue] yields as long as the queue loses nothing
    ([nats_in_order]). A gateway that misses an announcement does not close the session it
    would have closed. *)

From S2P Require Import Prelude External Entry PathLib Samples Balancer Resolver StateTable Messages Registry Gateway Lifecycle Events.

Local Open Scope go_scope.
Local Open Scope Z_scope.
Local Open Scope list_scope.

(** [event.UserDisconnected] *)
Record UserDisconnected := { ud_GatewayID : string; ud_UserID : string; ud_RemoteAddr : string }.

(** [reflect.TypeOf] of the two events. *)
Definition type_UserConnected : rtype := {| rt_stars := 0; rt_name := "event.UserConnected" |}.
Definition type_UserDisconnected : rtype := {| rt_stars := 0; rt_name := "event.UserDisconnected" |}.

(** The events of the package among the contents that the bus carries. *)
Class UserEvents `{EJ : EventJSON} := {
  connected_content : UserConnected -> content;
  disconnected_content : UserDisconnected -> content;
  as_connected : content -> option UserConnected;
  connected_type ev : content_type (connected_content ev) = rt_name type_UserConnected;
  disconnected_type ev : content_type (disconnected_content ev) = rt_name type_UserDisconnected;
  as_connected_content ev : as_connected (connected_content ev) = Some ev;
}.

Section Fleet.
Context `{U : ULID} `{R : MapRange} `{N : Net} `{X : XXHash} `{G : GRPCDial} `{SI : SessionIface}.
Context `{EJ : EventJSON} `{UE : !UserEvents}.
(** The registered events, the same in every process. *)
Context (reg : registered).

(** ** Messages *)

Definition session_UserConnected (g : Gateway) (s : sess_ptr) : UserConnected :=
  let o := heap g s in
  {| UserID := Sess_ID o; GatewayID := gw_nodeID g; Ev_RemoteAddr := Sess_RemoteAddr o;
     Ev_Metadata := Sess_Metadata o |}.

Definition session_UserDisconnected (g : Gateway) (s : sess_ptr) : UserDisconnected :=
  let o := heap g s in
  {| ud_UserID := Sess_ID o; ud_GatewayID := gw_nodeID g; ud_RemoteAddr := Sess_RemoteAddr o |}.

(** Both are published by value. *)
Definition connected_event (ev : UserConnected) : event :=
  {| ev_stars := 0; ev_content := connected_content ev |}.
Definition disconnected_event (ev : UserDisconnected) : event :=
  {| ev_stars := 0; ev_content := disconnected_content ev |}.

(** The messages a step puts into the queue, which answers [queue] to a publication;
    [None] if the step and the answer do not fit. What becomes of the announcement of a
    disconnection does not matter to the step. *)
Definition emitted (st : LState) (l : label) (queue : option gerror) : option (list bytes) :=
  match l with
  | LPublish s =>
      match Events.Publish reg (now st) (connected_event (session_UserConnected (gw st) s)) queue with
      | Ret (None, Some data) => Some [data]
      | _ => None
      end
  | LPublishFailed s =>
      match Events.Publish reg (now st) (connected_event (session_UserConnected (gw st) s)) queue with
      | Ret (Some _, _) => Some []
      | _ => None
      end
  | LSchedule s =>
      match Events.Publish reg (now st) (disconnected_event (session_UserDisconnected (gw st) s)) queue with
      | Ret (None, Some data) => Some [data]
      | Ret _ => Some []
      | _ => None
      end
  | LUserConnected _ => None
  | _ => Some []
  end.

(** The event a message makes the handler of [init] run with: a function of two
    parameters, the first of which is [event.UserConnected]. *)
Definition heard (data : bytes) : option UserConnected :=
  match Events.Subscribe reg (Func [type_UserConnected; time_Time]), observe data with
  | Ret sub, Ok p =>
      match on_next sub p with
      | Some (ev, _) => as_connected (ev_content ev)
      | None => None
      end
  | _, _ => None
  end.

(** ** The cluster *)

(** A gateway, and how many messages of the bus it has handled or never gets. *)
Record node := { n_state : LState; n_read : nat }.

(** All that was published, and the gateways by ID. *)
Record Fleet := { f_log : list bytes; f_nodes : gmap string node }.

Inductive flabel :=
  | FStart (id : string) (g : Gateway)
  | FStep (id : string) (l : label) (queue : option gerror)
  | FHandle (id : string).

Definition set_node (f : Fleet) (id : string) (n : node) : Fleet :=
  {| f_log := f_log f; f_nodes := <[id := n]> (f_nodes f) |}.

(** A gateway starts under an ID of its own and subscribes; it hears what is published
    from then on. *)
Definition f_start (f : Fleet) (id : string) (g : Gateway) : option Fleet :=
  if decide (f_nodes f !! id = None /\ gw_nodeID g = id /\ sessions g = ∅ /\ sessionCount g = 0)
  then Some (set_node f id {| n_state := lstart g; n_read := length (f_log f) |})
  else None.

(** A step of a gateway, with what it publishes. *)
Definition f_step (f : Fleet) (id : string) (l : label) (queue : option gerror) : option Fleet :=
  match f_nodes f !! id with
  | Some n =>
      match emitted (n_state n) l queue, lstep (n_state n) l with
      | Some msgs, Some st =>
          Some {| f_log := f_log f ++ msgs;
                  f_nodes := <[id := {| n_state := st; n_read := n_read n |}]> (f_nodes f) |}
      | _, _ => None
      end
  | None => None
  end.

(** A gateway handles its next message. *)
Definition f_handle (f : Fleet) (id : string) : option Fleet :=
  match f_nodes f !! id with
  | Some n =>
      match f_log f !! n_read n with
      | Some data =>
          let st := match heard data with
                    | Some ev => lstep (n_state n) (LUserConnected ev)
                    | None => Some (n_state n)
                    end in
          (fun st => set_node f id {| n_state := st; n_read := S (n_read n) |}) <$> st
      | None => None
      end
  | None => None
  end.

Definition fstep (f : Fleet) (l : flabel) : option Fleet :=
  match l with
  | FStart id g => f_start f id g
  | FStep id l queue => f_step f id l queue
  | FHandle id => f_handle f id
  end.

Fixpoint frun (f : Fleet) (ls : list flabel) : option Fleet :=
  match ls with
  | [] => Some f
  | l :: ls => match fstep f l with Some f => frun f ls | None => None end
  end.

Definition no_gateways : Fleet := {| f_log := []; f_nodes := ∅ |}.

(** ** Messages that survive the bus *)

(** What is published is heard. *)
Lemma Publish_heard now ev data :
  (exists regs, register_events no_events regs = Ret reg) ->
  json_faithful (connected_event ev) ->
  Events.Publish reg now (connected_event ev) None = Ret (None, Some data) ->
  heard data = Some ev.
Proof.
  intros [regs Hregs] [Hpj Hdj] (name & detail & Hname & Hd & _ & Hp)%Publish_event_payload.
  assert (deref (TypeOf (connected_event ev)) = type_UserConnected) as Ety.
  { unfold deref, TypeOf. simpl. by rewrite connected_type. }
  apply Hpj in Hp; [|done]. apply Hdj in Hd. rewrite Ety in Hname.
  unfold heard, Events.Subscribe. change (deref type_UserConnected) with type_UserConnected.
  rewrite Hname, bool_decide_true by done. unfold observe. rewrite Hp. unfold on_next. simpl.
  rewrite bool_decide_true by done. simpl in Hd. rewrite connected_type in Hd. simpl in Hd.
  rewrite Hd. simpl. apply as_connected_content.
Qed.

(** ** One step of a gateway *)

(** The node ID of a gateway does not change. *)
Lemma lstep_nodeID st l st' : lstep st l = Some st' -> gw_nodeID (gw st') = gw_nodeID (gw st).
Proof.
  intros H. destruct l; simpl in H;
    try (apply at_phase_Some in H as [_ ->]); try (apply store_route_Some in H as ->); try (apply at_timer_Some in H as (tm & _ & ->));
    try done.
  - unfold accept in H. case_in H.
  - unfold Lifecycle.init in H. case_in H. by apply at_phase_Some in H as [_ ->].
  - by destruct (hub_Load _ _).
  - by destruct (cleanJobs _ !! _).
  - unfold stop_job in H. inv_all H.
  - simpl. unfold hub_Delete. by case_bool_decide.
  - case_in H.
  - unfold fire in H. inv_all H.
  - injection H as <-. unfold on_UserConnected. simpl. case_bool_decide; [done|].
    by destruct (hub_Load _ _).
  - injection H as <-. simpl. unfold remove_zombies.
    generalize (range_values (sessions (gw st))) as ss. intros ss. generalize (gw st) as g.
    induction ss as [|s ss IH]; intros g; [done|]. simpl. rewrite IH. by case_match.
Qed.

(** Only a publication makes a connection published. *)
Lemma published_by st l st' s :
  lstep st l = Some st' -> phases st' !! s = Some PPublished -> phases st !! s <> Some PPublished ->
  l = LPublish s.
Proof.
  intros H Hs Hn.
  assert (forall s0 p next, at_phase st s0 p (set_phase next s0 PPublished) = Some st' ->
    phases next = phases st -> s0 = s) as Hpub.
  { intros s0 p next [_ ->]%at_phase_Some E. simpl in Hs. rewrite E in Hs.
    destruct (decide (s0 = s)); [done|]. by rewrite lookup_insert_ne in Hs. }
  assert (forall s0 q, <[s0 := q]> (phases st) !! s = Some PPublished -> q = PPublished) as Hset.
  { intros s0 q [[_ E]|[_ E]]%lookup_insert_Some; [done|]. by destruct Hn. }
  destruct l; simpl in H;
    try (apply at_phase_Some in H as [_ ->]; by apply Hset in Hs);
    try (apply at_timer_Some in H as (tm & _ & ->); by destruct Hn).
  - unfold accept in H. case_in H. by apply Hset in Hs.
  - unfold Lifecycle.init in H. case_in H. apply at_phase_Some in H as [_ ->]. by apply Hset in Hs.
  - apply at_phase_Some in H as [_ ->]. destruct (hub_Load _ _); by apply Hset in Hs.
  - apply at_phase_Some in H as [_ ->]. destruct (cleanJobs _ !! _); by apply Hset in Hs.
  - unfold stop_job in H. inv_all H; by apply Hset in Hs.
  - f_equal. by eapply Hpub.
  - case_in H.
  - unfold fire in H. inv_all H.
  - injection H as <-. by destruct Hn.
  - injection H as <-. by destruct Hn.
  - apply store_route_Some in H as ->. by destruct Hn.
Qed.

(** A gateway that hears of a user's connection to another has none of theirs open. *)
Lemma heard_closes st ev st' s p :
  one_inv st -> lstep st (LUserConnected ev) = Some st' -> GatewayID ev <> gw_nodeID (gw st) ->
  phases st' !! s = Some p -> live p -> id_of st' s = UserID ev -> ~ open st' s.
Proof.
  intros Hinv [= <-] Hne Hp Hl Hid Hop. simpl in Hp.
  destruct (UserConnected_keeps st ev) as (_ & _ & _ & Hk). destruct (Hk s) as [Eid Ho].
  rewrite Eid in Hid. pose proof (oi_open _ Hinv s p Hp Hl (Ho Hop)) as Hhub.
  rewrite Hid in Hhub. revert Hop. unfold on_UserConnected, hub_Load.
  rewrite bool_decide_false, Hhub by done. by apply (close_closes st).
Qed.

(** ** Sessions of the cluster *)

(** The goroutine of a connection of a gateway and where it is. *)
Definition sess_at (f : Fleet) (i : string) (s : sess_ptr) (st : LState) (p : phase) : Prop :=
  exists n, f_nodes f !! i = Some n /\ n_state n = st /\ phases st !! s = Some p.

(** A gateway has yet to handle the announcement that a user connected to another. *)
Definition warned (f : Fleet) (i : string) (u : string) : Prop :=
  exists n k data ev, f_nodes f !! i = Some n /\ (n_read n <= k)%nat /\ f_log f !! k = Some data /\
    heard data = Some ev /\ UserID ev = u /\ GatewayID ev <> i.

(** No session of a user is in use at a gateway. *)
Definition unused (f : Fleet) (i u : string) : Prop :=
  forall s st p, sess_at f i s st p -> live p -> id_of st s = u -> ~ open st s.

Record pair_inv (f : Fleet) : Prop := {
  pi_window : forall i j s s' st st' p p', sess_at f i s st p -> sess_at f j s' st' p' ->
    connecting p = true -> connecting p' = true -> id_of st s = id_of st' s' -> i = j /\ s = s';
  pi_announced : forall i j s s' st st' p, sess_at f i s st PPublished -> sess_at f j s' st' p ->
    live p -> open st' s' -> id_of st s = id_of st' s' -> i <> j -> warned f j (id_of st s);
  pi_open : forall i j s s' st st' p p', sess_at f i s st p -> sess_at f j s' st' p' ->
    live p -> live p' -> open st s -> open st' s' -> id_of st s = id_of st' s' -> i <> j ->
    warned f i (id_of st s) \/ warned f j (id_of st s);
}.

Record fleet_inv (f : Fleet) : Prop := {
  fi_nodes : forall i n, f_nodes f !! i = Some n ->
    gw_nodeID (gw (n_state n)) = i /\ one_inv (n_state n) /\ (n_read n <= length (f_log f))%nat;
  fi_pairs : pair_inv f;
}.

(** The session was there before, in the same phase. *)
Definition was (f : Fleet) (i : string) (s : sess_ptr) (st : LState) (p : phase) : Prop :=
  exists st0, sess_at f i s st0 p /\ keeps st0 st s.

(** Warnings are not lost but by closing what they are about. *)
Definition heeded (f f' : Fleet) : Prop := forall i u, warned f i u -> warned f' i u \/ unused f' i u.

(** Steps at which every connection stays where it is. *)
Lemma pair_inv_still f f' :
  pair_inv f -> heeded f f' -> (forall i s st p, sess_at f' i s st p -> was f i s st p) -> pair_inv f'.
Proof.
  intros [Hw Ha Ho] Hh Hwas. split.
  - intros i j s s' st st' p p' (st1 & H1 & E1 & _)%Hwas (st2 & H2 & E2 & _)%Hwas.
    rewrite E1, E2. by apply (Hw _ _ _ _ _ _ p p').
  - intros i j s s' st st' p (st1 & H1 & E1 & _)%Hwas H2' Hl Hop.
    destruct (Hwas _ _ _ _ H2') as (st2 & H2 & E2 & Hop2). rewrite E1. intros E Hij.
    destruct (Hh j (id_of st1 s)) as [Hd|Hd]; [|done|].
    + apply (Ha i j s s' st1 st2 p); auto. congruence.
    + by destruct (Hd s' st' p H2' Hl).
  - intros i j s s' st st' p p' H1' H2' Hl1 Hl2 Hop1 Hop2 E Hij.
    destruct (Hwas _ _ _ _ H1') as (st1 & H1 & E1 & Ho1), (Hwas _ _ _ _ H2') as (st2 & H2 & E2 & Ho2).
    destruct (Ho i j s s' st1 st2 p p') as [Hd|Hd]; auto; [congruence| |];
      apply Hh in Hd as [Hd|Hd]; rewrite E1; auto.
    + by destruct (Hd s st p H1' Hl1).
    + destruct (Hd s' st' p' H2' Hl2); [congruence|done].
Qed.

(** Steps that move one connection, of a gateway that publishes. *)
Record moved (f f' : Fleet) (i : string) (s : sess_ptr) (p : option phase) (q : phase) (st' : LState)
    : Prop := {
  md_next : next_phase p q;
  md_self : forall st1 q1, sess_at f' i s st1 q1 -> st1 = st' /\ q1 = q;
  md_was : forall p', p = Some p' -> p <> Some PAccepted -> was f i s st' p';
  md_others : forall j s' st1 p1, sess_at f' j s' st1 p1 -> (j, s') <> (i, s) -> was f j s' st1 p1;
  md_warned : forall j u, warned f j u -> warned f' j u;
  md_window : q = PPrevClosed -> forall j s' st1 p1, sess_at f j s' st1 p1 -> connecting p1 = true ->
    (j, s') <> (i, s) -> id_of st1 s' <> id_of st' s;
  md_announced : q = PPublished -> forall j s' st1 p1, sess_at f' j s' st1 p1 -> j <> i ->
    warned f' j (id_of st' s);
}.

Lemma moved_window f f' i s p q st' :
  pair_inv f -> moved f f' i s p q st' -> connecting q = true ->
  forall j s' st1 p1, sess_at f j s' st1 p1 -> connecting p1 = true ->
    id_of st' s = id_of st1 s' -> (j, s') = (i, s).
Proof.
  intros Hinv Hm Hq j s' st1 p1 H1 Hp1 E.
  destruct (decide ((j, s') = (i, s))) as [|Hne]; [done|].
  destruct (next_connecting _ _ (md_next _ _ _ _ _ _ _ Hm) Hq) as [->|(p' & -> & Hp')].
  - by destruct (md_window _ _ _ _ _ _ _ Hm eq_refl _ _ _ _ H1 Hp1 Hne).
  - destruct (md_was _ _ _ _ _ _ _ Hm p') as (st0 & H0 & E0 & _); [done|by intros [= ->]|].
    destruct (pi_window _ Hinv i j s s' st0 st1 p' p1) as [-> ->]; auto. congruence.
Qed.

(** A session in use that moved was published or in use before. *)
Lemma moved_live f f' i s p q st' :
  moved f f' i s p q st' -> live q ->
  was f i s st' PPublished \/ exists p', live p' /\ was f i s st' p'.
Proof.
  intros Hm Hq. destruct (next_live _ _ (md_next _ _ _ _ _ _ _ Hm) Hq) as [[-> ->]|[-> ->]].
  - left. by apply (md_was _ _ _ _ _ _ _ Hm).
  - right. exists PStored. split; [by left|]. by apply (md_was _ _ _ _ _ _ _ Hm).
Qed.

(** A session in use was so before, or is the one that moved and was published. *)
Lemma moved_was f f' i s p q st' j s' st1 p1 :
  moved f f' i s p q st' -> sess_at f' j s' st1 p1 -> live p1 ->
  (exists p', live p' /\ was f j s' st1 p') \/ (j = i /\ s' = s /\ was f j s' st1 PPublished).
Proof.
  intros Hm H Hl. destruct (decide ((j, s') = (i, s))) as [[= -> ->]|Hne].
  - destruct (md_self _ _ _ _ _ _ _ Hm _ _ H) as [-> ->].
    destruct (moved_live _ _ _ _ _ _ _ Hm Hl) as [?|?]; auto.
  - left. exists p1. split; [done|]. by eapply md_others.
Qed.

(** A published session was so before, or is the one that moved. *)
Lemma moved_was_published f f' i s p q st' j s' st1 :
  moved f f' i s p q st' -> sess_at f' j s' st1 PPublished ->
  was f j s' st1 PPublished \/ (j = i /\ s' = s /\ st1 = st' /\ q = PPublished).
Proof.
  intros Hm H. destruct (decide ((j, s') = (i, s))) as [[= -> ->]|Hne].
  - destruct (md_self _ _ _ _ _ _ _ Hm _ _ H) as [-> <-]. auto 6.
  - left. by eapply md_others.
Qed.

Lemma pair_inv_moved f f' i s p q st' :
  pair_inv f -> moved f f' i s p q st' -> pair_inv f'.
Proof.
  intros Hinv Hm. pose proof Hinv as [Hw Ha Ho]. split.
  - intros i1 i2 s1 s2 st1 st2 p1 p2 H1 H2 Hc1 Hc2 E.
    destruct (decide ((i1, s1) = (i, s))) as [[= -> ->]|Hn1],
      (decide ((i2, s2) = (i, s))) as [[= -> ->]|Hn2]; [done| | |].
    + destruct (md_self _ _ _ _ _ _ _ Hm _ _ H1) as [-> ->].
      destruct (md_others _ _ _ _ _ _ _ Hm _ _ _ _ H2 Hn2) as (st0 & H0 & E0 & _).
      destruct Hn2. eapply (moved_window _ _ _ _ _ _ _ Hinv Hm Hc1); [done|done|congruence].
    + destruct (md_self _ _ _ _ _ _ _ Hm _ _ H2) as [-> ->].
      destruct (md_others _ _ _ _ _ _ _ Hm _ _ _ _ H1 Hn1) as (st0 & H0 & E0 & _).
      destruct Hn1. eapply (moved_window _ _ _ _ _ _ _ Hinv Hm Hc2); [done|done|congruence].
    + destruct (md_others _ _ _ _ _ _ _ Hm _ _ _ _ H1 Hn1) as (st3 & H3 & E3 & _).
      destruct (md_others _ _ _ _ _ _ _ Hm _ _ _ _ H2 Hn2) as (st4 & H4 & E4 & _).
      apply (Hw i1 i2 s1 s2 st3 st4 p1 p2); auto. congruence.
  - intros i1 i2 s1 s2 st1 st2 p2 H1 H2 Hl Hop E Hij.
    destruct (moved_was_published _ _ _ _ _ _ _ _ _ _ Hm H1) as [(st3 & H3 & E3 & _)|(-> & -> & -> & Hq)].
    + rewrite E3. apply (md_warned _ _ _ _ _ _ _ Hm).
      destruct (moved_was _ _ _ _ _ _ _ _ _ _ _ Hm H2 Hl)
        as [(p' & Hl' & st4 & H4 & E4 & Hop4)|(-> & -> & st4 & H4 & E4 & _)].
      * apply (Ha i1 i2 s1 s2 st3 st4 p'); auto. congruence.
      * destruct Hij. apply (Hw i1 i s1 s st3 st4 PPublished PPublished); auto. congruence.
    + by apply (md_announced _ _ _ _ _ _ _ Hm Hq i2 s2 st2 p2).
  - intros i1 i2 s1 s2 st1 st2 p1 p2 H1 H2 Hl1 Hl2 Hop1 Hop2 E Hij.
    destruct (moved_was _ _ _ _ _ _ _ _ _ _ _ Hm H1 Hl1)
      as [(p3 & Hl3 & st3 & H3 & E3 & Hop3)|(-> & -> & st3 & H3 & E3 & _)],
      (moved_was _ _ _ _ _ _ _ _ _ _ _ Hm H2 Hl2)
      as [(p4 & Hl4 & st4 & H4 & E4 & Hop4)|(-> & -> & st4 & H4 & E4 & Hop4)].
    + rewrite E3. destruct (Ho i1 i2 s1 s2 st3 st4 p3 p4) as [?|?]; auto;
        [congruence|left|right]; by apply (md_warned _ _ _ _ _ _ _ Hm).
    + left. rewrite E, E4. apply (md_warned _ _ _ _ _ _ _ Hm).
      apply (Ha i i1 s s1 st4 st3 p3); auto. congruence.
    + right. rewrite E3. apply (md_warned _ _ _ _ _ _ _ Hm).
      apply (Ha i i2 s s2 st3 st4 p4); auto. congruence.
    + done.
Qed.

(** ** Every step *)

(** Connections of a user are accepted one after another in the whole cluster, and
    their announcements survive JSON. *)
Definition alone (f : Fleet) (i : string) (s : sess_ptr) : Prop :=
  match f_nodes f !! i with
  | Some n =>
      map_Forall (fun j m =>
        map_Forall (fun s' p => connecting p = true -> (j, s') <> (i, s) ->
                                id_of (n_state m) s' <> id_of (n_state n) s) (phases (n_state m)))
        (f_nodes f)
  | None => True
  end.

#[export] Instance alone_dec f i s : Decision (alone f i s).
Proof. unfold alone. destruct (f_nodes f !! i); apply _. Defined.

Definition orderly (f : Fleet) (l : flabel) : Prop :=
  match l with
  | FStep i (LClosePrev s) _ => alone f i s
  | FStep i (LPublish s) _ =>
      forall n, f_nodes f !! i = Some n ->
        json_faithful (connected_event (session_UserConnected (gw (n_state n)) s))
  | _ => True
  end.

Fixpoint orderly_run (f : Fleet) (ls : list flabel) : Prop :=
  match ls with
  | [] => True
  | l :: ls => orderly f l /\ match fstep f l with Some f => orderly_run f ls | None => True end
  end.

(** The same, without JSON, which can be decided. *)
Fixpoint alone_run (f : Fleet) (ls : list flabel) : Prop :=
  match ls with
  | [] => True
  | l :: ls =>
      match l with FStep i (LClosePrev s) _ => alone f i s | _ => True end /\
      match fstep f l with Some f => alone_run f ls | None => True end
  end.

#[export] Instance alone_run_dec f ls : Decision (alone_run f ls).
Proof.
  revert f. induction ls as [|l ls IH]; intros f; simpl; [apply _|]. apply and_dec.
  - destruct l as [| i [] |]; apply _.
  - destruct (fstep f l); [apply IH|apply _].
Defined.

Lemma alone_orderly f ls :
  (forall ev, json_faithful (connected_event ev)) -> alone_run f ls -> orderly_run f ls.
Proof.
  intros Hjson. revert f. induction ls as [|l ls IH]; intros f; simpl; [done|]. intros [Ha Hr]. split.
  - destruct l as [| i [] |]; try done. intros n _. apply Hjson.
  - destruct (fstep f l); [by apply IH|done].
Qed.

Lemma warned_log f f' :
  (forall i n, f_nodes f !! i = Some n -> exists n', f_nodes f' !! i = Some n' /\ n_read n' = n_read n) ->
  f_log f `prefix_of` f_log f' -> forall i u, warned f i u -> warned f' i u.
Proof.
  intros Hn Hl i u (n & k & data & ev & Hi & Hk & Hd & H).
  destruct (Hn _ _ Hi) as (n' & Hi' & E). exists n', k, data, ev. rewrite E. split_and!; try apply H; auto.
  by apply (prefix_lookup_Some (f_log f)).
Qed.

Lemma f_step_Some f i l queue f' :
  f_step f i l queue = Some f' ->
  exists n msgs st, f_nodes f !! i = Some n /\ emitted (n_state n) l queue = Some msgs /\
    lstep (n_state n) l = Some st /\
    f' = {| f_log := f_log f ++ msgs;
            f_nodes := <[i := {| n_state := st; n_read := n_read n |}]> (f_nodes f) |}.
Proof. unfold f_step. intros H. inv_all H. eauto 7. Qed.

Lemma keeps_same st s : keeps st st s.
Proof. by apply keeps_refl. Qed.

(** The connections of the gateways that do not take the step. *)
Lemma sess_at_other f i n log j s st p :
  i <> j -> sess_at {| f_log := log; f_nodes := <[i := n]> (f_nodes f) |} j s st p -> was f j s st p.
Proof.
  intros Hne (m & Hm & <- & Hp). simpl in Hm. rewrite lookup_insert_ne in Hm by done.
  exists (n_state m). split; [by exists m|apply keeps_same].
Qed.

Lemma sess_at_this f i n log s st p :
  sess_at {| f_log := log; f_nodes := <[i := n]> (f_nodes f) |} i s st p <->
  st = n_state n /\ phases st !! s = Some p.
Proof.
  unfold sess_at. simpl. rewrite lookup_insert_eq. split; [intros (m & [= <-] & <- & H); auto|].
  intros [-> H]. by exists n.
Qed.

(** A connection that a gateway moves on. *)
Lemma f_step_moved f i l queue n msgs st s p q :
  (exists regs, register_events no_events regs = Ret reg) ->
  fleet_inv f -> orderly f (FStep i l queue) -> f_nodes f !! i = Some n ->
  emitted (n_state n) l queue = Some msgs -> lstep (n_state n) l = Some st ->
  moves l (n_state n) st s p q ->
  moved f {| f_log := f_log f ++ msgs;
             f_nodes := <[i := {| n_state := st; n_read := n_read n |}]> (f_nodes f) |} i s p q st.
Proof.
  intros Hreg Hinv Hord Hi Hem Hst [Hf Ht Hn Ho Hself _ _ _ Hlab]. split; [done| | | | | |].
  - intros st1 q1 [-> H]%sess_at_this. simpl in H. rewrite Ht, lookup_insert_eq in H. by injection H.
  - intros p' -> Hp'. exists (n_state n). split; [by exists n|by apply Hself].
  - intros j s' st1 p1 H Hne. destruct (decide (i = j)) as [<-|Hij]; [|by eapply sess_at_other].
    apply sess_at_this in H as [-> H]. simpl in H.
    assert (s' <> s) as Hs by congruence.
    rewrite Ht, lookup_insert_ne in H by done. exists (n_state n). split; [by exists n|by apply Ho].
  - apply warned_log; simpl; [|by apply prefix_app_r].
    intros j m Hj. destruct (decide (i = j)) as [<-|Hij].
    + rewrite lookup_insert_eq. eexists. split; [done|]. by simplify_eq.
    + rewrite lookup_insert_ne by done. eauto.
  - intros -> j s' st1 p1 (m & Hm & <- & Hp1) Hc Hne. rewrite (Hlab eq_refl) in Hord.
    rewrite (proj1 (Hself ltac:(intros ->; destruct Hn))).
    simpl in Hord. unfold alone in Hord. rewrite Hi in Hord. by apply (Hord j m Hm s' p1 Hp1).
  - intros -> j s' st1 p1 Hj Hne.
    assert (l = LPublish s) as ->.
    { apply (published_by _ _ _ _ Hst); [by rewrite Ht, lookup_insert_eq|].
      rewrite Hf. intros ->. destruct Hn. }
    simpl in Hem. destruct (Events.Publish reg _ _ queue) as [[[err|] [data|]]| |] eqn:Hpub; try done.
    injection Hem as <-. destruct Hj as (m & Hm & _). exists m, (length (f_log f)), data,
      (session_UserConnected (gw (n_state n)) s). simpl in Hm |- *.
    rewrite (proj1 (Hself ltac:(intros ->; destruct Hn))). split_and!; try done.
    + rewrite lookup_insert_ne in Hm by done. apply (fi_nodes _ Hinv _ _ Hm).
    + by rewrite lookup_app_r, Nat.sub_diag by done.
    + apply (Publish_heard (now (n_state n))); [done|by apply Hord|].
      pose proof Hpub as (? & ? & _ & _ & E & _)%Publish_event_payload. by subst queue.
    + by rewrite (proj1 (fi_nodes _ Hinv _ _ Hi)).
Qed.

Lemma f_step_inv f i l queue f' :
  (exists regs, register_events no_events regs = Ret reg) ->
  fleet_inv f -> orderly f (FStep i l queue) -> f_step f i l queue = Some f' -> fleet_inv f'.
Proof.
  intros Hreg Hinv Hord (n & msgs & st & Hi & Hem & Hst & ->)%f_step_Some.
  destruct (fi_nodes _ Hinv _ _ Hi) as (Hid & Hone & Hread). split.
  - intros j m. simpl. rewrite length_app, lookup_insert_Some. intros [[<- <-]|[_ Hm]].
    + simpl. rewrite (lstep_nodeID _ _ _ Hst). split_and!; [done| |lia].
      eapply lstep_one_inv; [exact Hone| |exact Hst].
      destruct l; try done. simpl in Hord. unfold alone in Hord. rewrite Hi in Hord.
      intros s' p Hp Hc Hne. apply (Hord i n Hi s' p Hp Hc). congruence.
    + destruct (fi_nodes _ Hinv _ _ Hm) as (? & ? & ?). split_and!; auto with lia.
  - destruct (lstep_shape _ _ _ Hst) as [Hq|(s & p & q & Hm)].
    + apply (pair_inv_still f); [apply Hinv| |].
      * intros j u Hw. left. revert Hw. apply warned_log; simpl; [|by apply prefix_app_r].
        intros k m Hk. destruct (decide (i = k)) as [<-|Hik];
          [rewrite lookup_insert_eq|rewrite lookup_insert_ne by done]; simplify_eq; eauto.
      * intros j s st1 p H. destruct (decide (i = j)) as [<-|Hij]; [|by eapply sess_at_other].
        apply sess_at_this in H as [-> H]. simpl in *. destruct Hq as (Ep & _ & _ & Hk).
        exists (n_state n). split; [|apply Hk]. exists n. by rewrite <- Ep.
    + eapply pair_inv_moved; [apply Hinv|]. by eapply f_step_moved.
Qed.

(** The state of a gateway that has handled a message. *)
Lemma f_handle_Some f i f' :
  f_handle f i = Some f' ->
  exists n data st, f_nodes f !! i = Some n /\ f_log f !! n_read n = Some data /\
    f' = {| f_log := f_log f;
            f_nodes := <[i := {| n_state := st; n_read := S (n_read n) |}]> (f_nodes f) |} /\
    match heard data with
    | Some ev => lstep (n_state n) (LUserConnected ev) = Some st
    | None => st = n_state n
    end.
Proof.
  unfold f_handle. destruct (f_nodes f !! i) as [n|] eqn:Hi; [|done].
  destruct (f_log f !! n_read n) as [data|] eqn:Hd; [|done].
  destruct (heard data) as [ev|] eqn:He; intros [st [E ->]]%fmap_Some;
    exists n, data, st; rewrite He; split_and!; auto; congruence.
Qed.

Lemma f_handle_heeded f i n data st :
  f_nodes f !! i = Some n -> f_log f !! n_read n = Some data ->
  gw_nodeID (gw (n_state n)) = i -> one_inv (n_state n) ->
  match heard data with
  | Some ev => lstep (n_state n) (LUserConnected ev) = Some st
  | None => st = n_state n
  end ->
  heeded f {| f_log := f_log f;
              f_nodes := <[i := {| n_state := st; n_read := S (n_read n) |}]> (f_nodes f) |}.
Proof.
  intros Hi Hd Hid Hone Hst j u (m & k & data' & ev & Hm & Hk & Hd' & Hev & Hu & Hg).
  destruct (decide (i = j)) as [<-|Hij]; [|left].
  - assert (m = n) as -> by congruence. destruct (decide (k = n_read n)) as [->|Hne].
    + right. assert (data' = data) as -> by congruence. rewrite Hev in Hst.
      intros s st1 p [-> Hp]%sess_at_this Hl Hs. simpl in *.
      eapply heard_closes; [exact Hone|exact Hst|by rewrite Hid|exact Hp|done|congruence].
    + left. exists {| n_state := st; n_read := S (n_read n) |}, k, data', ev. simpl.
      rewrite lookup_insert_eq. split_and!; auto. lia.
  - exists m, k, data', ev. simpl. by rewrite lookup_insert_ne.
Qed.

Lemma f_handle_inv f i f' : fleet_inv f -> f_handle f i = Some f' -> fleet_inv f'.
Proof.
  intros Hinv (n & data & st & Hi & Hd & -> & Hst)%f_handle_Some.
  destruct (fi_nodes _ Hinv _ _ Hi) as (Hid & Hone & Hread).
  assert (quiet (n_state n) st /\ gw_nodeID (gw st) = i) as [Hq Hid'].
  { destruct (heard data) as [ev|].
    - split; [injection Hst as <-; apply UserConnected_keeps|by rewrite (lstep_nodeID _ _ _ Hst)].
    - subst st. split; [|done]. split_and!; auto using keeps_same. }
  apply lookup_lt_Some in Hd as Hlt. split.
  - intros j m. simpl. rewrite lookup_insert_Some. intros [[<- <-]|[_ Hm]].
    + simpl. split_and!; [done|by eapply one_inv_quiet|lia].
    + by apply fi_nodes.
  - apply (pair_inv_still f); [apply Hinv|by eapply f_handle_heeded|].
    intros j s st1 p H. destruct (decide (i = j)) as [<-|Hij]; [|by eapply sess_at_other].
    apply sess_at_this in H as [-> H]. simpl in *. destruct Hq as (Ep & _ & _ & Hk).
    exists (n_state n). split; [|apply Hk]. exists n. by rewrite <- Ep.
Qed.

Lemma one_inv_start g : one_inv (lstart g).
Proof. split; simpl; intros *; by rewrite lookup_empty. Qed.

Lemma f_start_inv f i g f' : fleet_inv f -> f_start f i g = Some f' -> fleet_inv f'.
Proof.
  intros Hinv. unfold f_start. case_decide as Hc; [|done]. destruct Hc as (Hi & Hid & _). intros [= <-].
  split.
  - intros j m. simpl. rewrite lookup_insert_Some. intros [[<- <-]|[_ Hm]]; [|by apply fi_nodes].
    simpl. split_and!; [done|apply one_inv_start|done].
  - apply (pair_inv_still f); [apply Hinv| |].
    + intros j u (m & k & data & ev & Hm & H). left. exists m, k, data, ev. simpl.
      rewrite lookup_insert_ne by congruence. done.
    + intros j s st1 p H. destruct (decide (i = j)) as [<-|Hij]; [|by eapply sess_at_other].
      apply sess_at_this in H as [-> H]. simpl in H. by rewrite lookup_empty in H.
Qed.

Lemma frun_inv ls f f' :
  (exists regs, register_events no_events regs = Ret reg) ->
  fleet_inv f -> orderly_run f ls -> frun f ls = Some f' -> fleet_inv f'.
Proof.
  intros Hreg. revert f. induction ls as [|l ls IH]; intros f Hinv; simpl; [by intros _ [= <-]|].
  intros [Hord Hrun]. destruct (fstep f l) as [f1|] eqn:E; [|done]. apply IH; [|done].
  destruct l; simpl in E; [by eapply f_start_inv|by eapply f_step_inv|by eapply f_handle_inv].
Qed.

Lemma no_gateways_inv : fleet_inv no_gateways.
Proof.
  split; [intros i n; simpl; by rewrite lookup_empty|].
  split; intros i j s s' st *; intros (n & Hn & _); simpl in Hn; by rewrite lookup_empty in Hn.
Qed.
End Fleet.

Section Claims.
Context `{U : ULID} `{R : MapRange} `{N : Net} `{X : XXHash} `{G : GRPCDial} `{SI : SessionIface}.
Context `{EJ : EventJSON} `{UE : !UserEvents}.

(** C5. One session per user in the cluster: if the connections of a user are accepted
    one after another, at whatever gateways, then of two open sessions of the user that
    accept requests, one is at a gateway that has yet to hear of the user's connection to
    another, which closes it; so once both gateways have handled what was published there
    is only one. This holds however the goroutines of the gateways interleave and however
    far behind each is with the events of the bus, as long as the bus loses none. *)
Theorem one_session_across_gateways reg regs ls f i j s s' st st' p p' :
  register_events no_events regs = Ret reg ->
  orderly_run reg no_gateways ls -> frun reg no_gateways ls = Some f ->
  sess_at f i s st p -> live p -> open st s ->
  sess_at f j s' st' p' -> live p' -> open st' s' -> id_of st s = id_of st' s' ->
  ((i = j /\ s = s') \/ warned reg f i (id_of st s) \/ warned reg f j (id_of st s)) /\
  ((forall n, f_nodes f !! i = Some n \/ f_nodes f !! j = Some n -> n_read n = length (f_log f)) ->
   i = j /\ s = s').
Proof.
  intros Hregs Hord Hrun Hs Hl Ho Hs' Hl' Ho' E.
  destruct (frun_inv reg ls no_gateways f) as [Hn [_ _ Hop]]; [by exists regs|apply no_gateways_inv|done..|].
  assert ((i = j /\ s = s') \/ warned reg f i (id_of st s) \/ warned reg f j (id_of st s)) as H.
  { destruct (decide (i = j)) as [<-|Hij]; [left|right; by eapply Hop].
    destruct Hs as (n & Hi & <- & Hp), Hs' as (n' & Hi' & <- & Hp'). assert (n' = n) as -> by congruence.
    destruct (Hn _ _ Hi) as (_ & Hone & _). split; [done|].
    pose proof (oi_open _ Hone _ _ Hp Hl Ho). pose proof (oi_open _ Hone _ _ Hp' Hl' Ho'). congruence. }
  split; [done|]. intros Hall.
  destruct H as [?|[(n & k & data & ev & Hk & Hr & Hd & _)|(n & k & data & ev & Hk & Hr & Hd & _)]]; [done|exfalso..];
    apply lookup_lt_Some in Hd; specialize (Hall n); rewrite Hall in Hr; auto; lia.
Qed.
End Claims.

(** ** Witnesses *)

#[export] Instance UserConnected_eq_dec : EqDecision UserConnected.
Proof. solve_decision. Defined.
#[export] Program Instance UserConnected_countable : Countable UserConnected :=
  inj_countable' (fun e => (UserID e, GatewayID e, Ev_RemoteAddr e, Ev_Metadata e))
    (fun '(u, g, r, m) => {| UserID := u; GatewayID := g; Ev_RemoteAddr := r; Ev_Metadata := m |}) _.
Next Obligation. by intros []. Qed.

#[export] Instance UserDisconnected_eq_dec : EqDecision UserDisconnected.
Proof. solve_decision. Defined.
#[export] Program Instance UserDisconnected_countable : Countable UserDisconnected :=
  inj_countable' (fun e => (ud_GatewayID e, ud_UserID e, ud_RemoteAddr e))
    (fun '(g, u, r) => {| ud_GatewayID := g; ud_UserID := u; ud_RemoteAddr := r |}) _.
Next Obligation. by intros []. Qed.

#[export] Program Instance payload_countable : Countable payload :=
  inj_countable' (fun p => (p_Time p, p_Type p, p_Detail p))
    (fun '(t, y, d) => {| p_Time := t; p_Type := y; p_Detail := d |}) _.
Next Obligation. by intros []. Qed.

Definition type_of (c : UserConnected + UserDisconnected) : string :=
  if c then "event.UserConnected" else "event.UserDisconnected".

#[local] Instance sample_EventJSON : EventJSON := {|
  content := UserConnected + UserDisconnected;
  content_type := type_of;
  detail_Marshal c := Ok (encode_bytes c);
  detail_Unmarshal ty b :=
    match decode_bytes b with
    | Some c => if bool_decide (type_of c = ty) then Ok c else Err (EForeign "json")
    | None => Err (EForeign "json")
    end;
  payload_Marshal p := Ok (encode_bytes p);
  payload_Unmarshal b := match decode_bytes b with Some p => Ok p | None => Err (EForeign "json") end;
|}.

#[local] Instance sample_UserEvents : UserEvents := {|
  connected_content := inl;
  disconnected_content := inr;
  as_connected c := match c with inl ev => Some ev | inr _ => None end;
  connected_type _ := eq_refl;
  disconnected_type _ := eq_refl;
  as_connected_content _ := eq_refl;
|}.

Lemma sample_faithful ev : json_faithful ev.
Proof.
  split.
  - intros p data _ [= <-]. cbn [payload_Unmarshal sample_EventJSON]. by rewrite decode_encode_bytes.
  - intros data [= <-]. cbn [detail_Unmarshal sample_EventJSON].
    rewrite (decode_encode_bytes (ev_content ev : UserConnected + UserDisconnected)). by rewrite bool_decide_true.
Qed.

Definition sample_reg : registered := outcome_get no_events Events.init.

Definition gateway_at (id : string) : Gateway := {|
  gw_nodeID := id; sessions := ∅; hub_closed := false; sessionCount := 0; table := newStateTable;
  gw_registry := initial ""; heap := fun _ => sample_session "" |}.

(** A connection at a gateway, and its announcement. *)
Definition connect_at (id : string) (s : sess_ptr) : list flabel :=
  (fun l => FStep id l None) <$> connect s.

Definition fleet_after (ls : list flabel) : Fleet :=
  default no_gateways (frun sample_reg no_gateways ls).

Definition two_gateways : list flabel :=
  [FStart "A" (gateway_at "A"); FStart "B" (gateway_at "B")]%string.

(** Alice connects to the first gateway, both hear of it, then to the second, both hear of it. *)
Definition alice_moves : list flabel :=
  two_gateways ++ connect_at "A" 0 ++ [FHandle "A"; FHandle "B"]%string ++
  connect_at "B" 0 ++ [FHandle "A"; FHandle "B"]%string.

Definition state_at (ls : list flabel) (i : string) : LState :=
  match f_nodes (fleet_after ls) !! i with
  | Some n => n_state n
  | None => lstart (gateway_at i)
  end.

(** Runs that are possible, and the sessions they leave open. *)
Lemma fleet_run ls : is_Some (frun sample_reg no_gateways ls) ->
  frun sample_reg no_gateways ls = Some (fleet_after ls).
Proof. unfold fleet_after. by intros [f ->]. Qed.

Definition in_use (ls : list flabel) (i : string) (s : sess_ptr) : bool :=
  bool_decide (phases (state_at ls i) !! s = Some PConnected) && negb (Sess_Closed (heap (gw (state_at ls i)) s)).

Lemma one_session_across_gateways_witness :
  in_use alice_moves "A" 0 = false /\ in_use alice_moves "B" 0 = true /\
  forall i s n, f_nodes (fleet_after alice_moves) !! i = Some n ->
    phases (n_state n) !! s = Some PConnected -> open (n_state n) s ->
    id_of (n_state n) s = "alice"%string -> n_read n = length (f_log (fleet_after alice_moves)) ->
    i = "B"%string /\ s = 0%nat.
Proof.
  split; [vm_compute; reflexivity|]. split; [vm_compute; reflexivity|].
  intros i s n Hi Hp Ho Hu Hr.
  assert (frun sample_reg no_gateways alice_moves = Some (fleet_after alice_moves)) as Hrun.
  { apply fleet_run. apply (bool_decide_unpack _). vm_compute. exact I. }
  destruct (one_session_across_gateways sample_reg sample_types alice_moves (fleet_after alice_moves)
    i "B" s 0 (n_state n) (state_at alice_moves "B") PConnected PConnected) as [_ H].
  - vm_compute. reflexivity.
  - apply alone_orderly; [intros; apply sample_faithful|]. apply (bool_decide_unpack _). vm_compute. exact I.
  - exact Hrun.
  - exists n. auto.
  - right. reflexivity.
  - exact Ho.
  - vm_compute. eauto.
  - right. reflexivity.
  - vm_compute. reflexivity.
  - rewrite Hu. vm_compute. reflexivity.
  - apply H. intros m [Hm|Hm]; [congruence|]. revert Hm. vm_compute. intros [= <-]. reflexivity.
Defined.

(** A user can be left without a session by moving: the second gateway hears of the
    connection to the first one only after the user connected to it, takes this for a
    later connection, and closes the session; the first gateway closes its own. *)
Theorem late_announcement_disconnects :
  exists ls, frun sample_reg no_gateways ls = Some (fleet_after ls) /\
    orderly_run sample_reg no_gateways ls /\
    (exists before after, ls = before ++ after /\ in_use before "B" 0 = true /\
       Forall (fun l => exists i, l = FHandle i) after) /\
    in_use ls "A" 0 = false /\ in_use ls "B" 0 = false /\
    id_of (state_at ls "A") 0 = "alice"%string /\ id_of (state_at ls "B") 0 = "alice"%string.
Proof.
  set (before := two_gateways ++ connect_at "A" 0 ++ connect_at "B" 0).
  set (after := [FHandle "A"; FHandle "B"; FHandle "A"; FHandle "B"]%string).
  exists (before ++ after). split_and!.
  - apply fleet_run. apply (bool_decide_unpack _). by vm_compute.
  - apply alone_orderly; [intros; apply sample_faithful|]. apply (bool_decide_unpack _). by vm_compute.
  - exists before, after. split_and!; [done|by vm_compute|repeat constructor; eauto].
  - by vm_compute.
  - by vm_compute.
  - by vm_compute.
  - by vm_compute.
Qed.

(** Two connections at the same time, to two gateways, can both stay: each is announced
    before the other is stored. *)
Theorem duplicate_users_race :
  exists ls, frun sample_reg no_gateways ls = Some (fleet_after ls) /\
    in_use ls "A" 0 = true /\ in_use ls "B" 0 = true /\
    id_of (state_at ls "A") 0 = id_of (state_at ls "B") 0 /\
    forall i n, f_nodes (fleet_after ls) !! i = Some n -> n_read n = length (f_log (fleet_after ls)).
Proof.
  exists (two_gateways ++ take 5 (connect_at "A" 0) ++ take 5 (connect_at "B" 0) ++
    [FHandle "A"; FHandle "A"; FHandle "B"; FHandle "B"]%string ++
    drop 5 (connect_at "A" 0) ++ drop 5 (connect_at "B" 0)).
  split_and!.
  - apply fleet_run. apply (bool_decide_unpack _). by vm_compute.
  - by vm_compute.
  - by vm_compute.
  - by vm_compute.
  - apply (map_Forall_to_list (fun _ n => n_read n = _)). vm_compute. by repeat constructor.
Qed.
