(* ===== verification/Push.v ===== *)
(** * Push: how a client reads and whom it tells
      ([component/gateway/client/client.go])

    The connections of a client, the goroutines that read replies from them, the
    subscriptions to what no call waits for, and the loop of heartbeats. *)

From S2P Require Import Prelude External Messages Codec Registry Gateway Events Transport Client.

Local Open Scope go_scope.
Local Open Scope Z_scope.

(** ** Connections *)

(** The loop of [newQUICConn]: the streams opened. *)
Fixpoint open_streams {S} (opened : list (result S)) : result (list S) :=
  match opened with
  | [] => Ok []
  | Err err :: _ => Err (Errorf "open stream, %w" [] (Some err))
  | Ok s :: opened =>
      match open_streams opened with
      | Err err => Err err
      | Ok ss => Ok (s :: ss)
      end
  end.

(** [newQUICConn]: [opened] are the answers of [OpenStream]. *)
Definition newQUICConn {C S} (dialled : result C) (opened : list (result S)) : result (C * list S) :=
  match dialled with
  | Err err => Err err
  | Ok conn =>
      match open_streams (take 3 opened) with
      | Err err => Err err
      | Ok ss => Ok (conn, ss)
      end
  end.

Definition NewQUIC {C} (parsed : result (string * string)) (dial : string -> result C) : result C :=
  match parsed with
  | Err err => Err (Errorf "parse dial url, %w" [] (Some err))
  | Ok (scheme, host) =>
      if bool_decide (scheme = "quic"%string) then
        match dial host with
        | Err err => Err (Errorf "dial quic, %w" [] (Some err))
        | Ok c => Ok c
        end
      else Err (Errorf "unsupported scheme: %s" [AStr scheme] None)
  end.

(** [CallNoReply] is [Call] with one more option. *)
Definition CallNoReply_options (options : list CallOption) : list CallOption :=
  (options ++ [WithNoReply])%list.

(** [Close] of the client: the connection's [done], its own, and [replyC]. *)
Definition Client_Close (conn_done done replyC : bool) : outcome (bool * bool * bool) :=
  let! conn_done := close_chan conn_done in
  let! done := close_chan done in
  let! replyC := close_chan replyC in
  Ret (conn_done, done, replyC).

(** ** Reading replies *)
Section Reading.
Context `{PR : !ProtoMessage Reply}.
Variable MaxMessageSize : Z.
Variable grow_cap : nat -> nat -> nat.

(** [gokit.Must(proto.Unmarshal(...))] *)
Definition must_Reply (b : bytes) : outcome Reply :=
  match proto_Unmarshal b with Err _ => Panic | Ok reply => Ret reply end.

(** What the goroutine of [replyStream] has sent, with its reader and buffer, and whether
    it has ended. *)
Record reading := {
  rd_replies : list Reply; rd_reader : reader; rd_msg : Message; rd_ended : bool
}.
Definition read_first (reply : Reply) (x : reading) : reading := {|
  rd_replies := reply :: rd_replies x; rd_reader := rd_reader x; rd_msg := rd_msg x;
  rd_ended := rd_ended x |}.

(** The loop of [tcpConn.replyStream], and of the goroutine of a stream of
    [quicConn.replyStream]: for each turn, whether [done] is closed at its top, and
    whether its last [select] takes [done]. *)
Fixpoint replyStream (turns : list (bool * bool)) (r : reader) (msg : Message) : outcome reading :=
  match turns with
  | [] => Ret {| rd_replies := []; rd_reader := r; rd_msg := msg; rd_ended := false |}
  | (true, _) :: _ => Ret {| rd_replies := []; rd_reader := r; rd_msg := msg; rd_ended := true |}
  | (false, dropped) :: turns =>
      let! (err, msg, r) := ReadMessage MaxMessageSize grow_cap r msg in
      match err with
      | Some _ => Ret {| rd_replies := []; rd_reader := r; rd_msg := msg; rd_ended := true |}
      | None =>
          let! b := Bytes msg in
          let! reply := must_Reply b in
          if dropped then Ret {| rd_replies := []; rd_reader := r; rd_msg := msg; rd_ended := true |}
          else let! x := replyStream turns r msg in Ret (read_first reply x)
      end
  end.

(** [quicConn.replyStream]: a goroutine for each stream, all sending on one channel. *)
Definition quic_replyStream (streams : list (list (bool * bool) * reader * Message))
  : list (outcome reading) :=
  (fun '(turns, r, msg) => replyStream turns r msg) <$> streams.

(** [wsConn.replyStream]: the same with what [ReadMessage] of the connection returns;
    the replies sent and whether the goroutine has ended. *)
Fixpoint ws_replyStream (turns : list (bool * bool * result (Z * bytes))) : outcome (list Reply * bool) :=
  match turns with
  | [] => Ret ([], false)
  | (true, _, _) :: _ => Ret ([], true)
  | (false, dropped, Err _) :: _ => Ret ([], true)
  | (false, dropped, Ok (messageType, data)) :: turns =>
      if bool_decide (messageType = BinaryMessage) then
        let! reply := must_Reply data in
        if dropped then Ret ([], true)
        else let! (replies, ended) := ws_replyStream turns in Ret (reply :: replies, ended)
      else ws_replyStream turns
  end.
End Reading.

(** ** Subscriptions *)

(** The types [newHandler] looks at. *)
Definition Reply_type : rtype := {| rt_stars := 1; rt_name := "nh.Reply" |}.

Section Subscriptions.
Variable implements_Message : rtype -> bool.

(** A subscription, with the type of the first parameter of its callback. *)
Record push_subscription := { ps_service : Z; ps_code : Z; ps_arg : rtype }.

Definition newHandler (callback : handler_type) : outcome rtype :=
  match callback with
  | Func [firstArg; secondArg] =>
      if implements_Message firstArg then
        if bool_decide (secondArg = Reply_type) then Ret firstArg else Panic
      else Panic
  | _ => Panic
  end.

Definition Subscribe (serviceCode messageCode : Z) (callback : handler_type)
  : outcome push_subscription :=
  let! arg := newHandler callback in
  Ret {| ps_service := serviceCode; ps_code := messageCode; ps_arg := arg |}.
End Subscriptions.

Section Handler.
Context {M : Type} `{PMM : !ProtoMessage M}.

(** The filter of [Subscribe]. *)
Definition of_interest (sub : push_subscription) (reply : Reply) : bool :=
  (Rep_ServiceCode reply =? ps_service sub) && (Rep_Code reply =? ps_code sub).

(** The calls of the callback for the items a subscription handles; [M] is the type its
    first parameter points to. *)
Fixpoint callback_calls (sub : push_subscription) (items : list Reply) : outcome (list (M * Reply)) :=
  match items with
  | [] => Ret []
  | reply :: items =>
      if of_interest sub reply then
        match proto_Unmarshal (Rep_Data reply) with
        | Err _ => Panic
        | Ok msg => let! calls := callback_calls sub items in Ret ((msg, reply) :: calls)
        end
      else callback_calls sub items
  end.
End Handler.

(** ** The observable

    [replyObserver] is a hot observable of a library ([rxgo.FromEventSource]): it takes the
    items sent to [replyC] one after another and gives each to those that observe it then,
    who handle them in goroutines of their own, each at its own pace. Items nobody observes
    are gone. What is used of the library is this; that an item waits for those that observe
    it is not used. *)
Section Observable.
Context `{PQ : !ProtoMessage Request}.

(** A subscription: after how many items it began, whether its goroutine runs, the items
    given to it and not handled yet, and those handled. *)
Record subscriber := {
  su_sub : push_subscription;
  su_from : nat;
  su_live : bool;
  su_pending : list Reply;
  su_handled : list Reply;
}.

(** The client with its observable, the items that this has given to those that observe it,
    and the subscriptions in the order of the calls of [Subscribe]. *)
Record OState := { o_cli : CState; o_emitted : list Reply; o_subs : list subscriber }.

Definition o_start : OState := {| o_cli := cstart; o_emitted := []; o_subs := [] |}.

(** Sent to [replyC] and not given to anyone yet. *)
Definition in_transit (st : OState) : list Reply := drop (length (o_emitted st)) (unsolicited (o_cli st)).

Definition observed_by (sub : push_subscription) (emitted : list Reply) : subscriber :=
  {| su_sub := sub; su_from := length emitted; su_live := true; su_pending := []; su_handled := [] |}.
Definition give (reply : Reply) (u : subscriber) : subscriber :=
  if su_live u
  then {| su_sub := su_sub u; su_from := su_from u; su_live := true;
          su_pending := (su_pending u ++ [reply])%list; su_handled := su_handled u |}
  else u.
Definition handle_item (u : subscriber) : option subscriber :=
  match su_live u, su_pending u with
  | true, reply :: items =>
      Some {| su_sub := su_sub u; su_from := su_from u; su_live := true; su_pending := items;
              su_handled := (su_handled u ++ [reply])%list |}
  | _, _ => None
  end.
Definition end_subscription (u : subscriber) : subscriber :=
  {| su_sub := su_sub u; su_from := su_from u; su_live := false; su_pending := [];
     su_handled := su_handled u |}.

(** A step of the client; a call of [Subscribe]; the observable gives the next item; the
    goroutine of a subscription handles an item, or finds its context done and ends. *)
Inductive olabel :=
  | OClient (l : client_label)
  | OSubscribe (sub : push_subscription)
  | OEmit
  | OHandle (j : nat)
  | OCancel (j : nat).

Definition ostep (st : OState) (l : olabel) : option OState :=
  match l with
  | OClient l =>
      match cstep (o_cli st) l with
      | Some cli => Some {| o_cli := cli; o_emitted := o_emitted st; o_subs := o_subs st |}
      | None => None
      end
  | OSubscribe sub =>
      Some {| o_cli := o_cli st; o_emitted := o_emitted st;
              o_subs := (o_subs st ++ [observed_by sub (o_emitted st)])%list |}
  | OEmit =>
      match in_transit st with
      | reply :: _ => Some {| o_cli := o_cli st; o_emitted := (o_emitted st ++ [reply])%list;
                              o_subs := give reply <$> o_subs st |}
      | [] => None
      end
  | OHandle j =>
      match o_subs st !! j with
      | Some u => match handle_item u with
                  | Some u => Some {| o_cli := o_cli st; o_emitted := o_emitted st;
                                      o_subs := <[j := u]> (o_subs st) |}
                  | None => None
                  end
      | None => None
      end
  | OCancel j =>
      match o_subs st !! j with
      | Some u => Some {| o_cli := o_cli st; o_emitted := o_emitted st;
                          o_subs := <[j := end_subscription u]> (o_subs st) |}
      | None => None
      end
  end.

Fixpoint orun (st : OState) (ls : list olabel) : option OState :=
  match ls with
  | [] => Some st
  | l :: ls => match ostep st l with Some st => orun st ls | None => None end
  end.

(** The steps of the client among them. *)
Definition client_steps (ls : list olabel) : list client_label :=
  omap (fun l => match l with OClient l => Some l | _ => None end) ls.
End Observable.

(** ** [pingLoop]: for each tick, whether [done] is closed; the number of pings. *)
Fixpoint pingLoop (ticks : list bool) : nat :=
  match ticks with
  | [] | true :: _ => 0%nat
  | false :: ticks => S (pingLoop ticks)
  end.

(** ** Lemmas *)
Section PushLemmas.
Context `{PQ : !ProtoMessage Request} `{PR : !ProtoMessage Reply} `{PRL : !ProtoLaws Reply}.
Variable MaxMessageSize : Z.
Variable grow_cap : nat -> nat -> nat.
Hypothesis Hlim : MaxMessageSize < 2 ^ 32.

(** What a gateway writes for a reply. *)
Definition written (reply : Reply) (w : bytes) : Prop :=
  Codec.SendReply reply (fun data => Ok data) = Ok w /\
  Z.of_nat (length w) <= MaxMessageSize + Z.of_nat SizeLen.

Lemma written_frame reply w :
  written reply w -> exists b, proto_Marshal reply = Ok b /\ w = frame b /\
    Z.of_nat (length b) <= MaxMessageSize.
Proof.
  intros [H Hl]. unfold Codec.SendReply in H. destruct (proto_Marshal reply) as [b|] eqn:Hb; [|done].
  exists b. split; [done|]. assert (w = frame b) as -> by (unfold frame; unfold SendBytes in *; congruence).
  split; [done|]. rewrite frame_eq, length_app in Hl. unfold SizeLen in *. simpl in Hl. lia.
Qed.

(** The replies written are read in order, each turn reads one, and a turn more ends. *)
Lemma replyStream_written rs ws k r msg :
  Forall2 written rs ws -> buffer_ok msg -> pending r = mjoin ws ->
  exists x, replyStream MaxMessageSize grow_cap (replicate k (false, false)) r msg = Ret x /\
    rd_replies x = take k rs /\ rd_ended x = bool_decide (length rs < k)%nat.
Proof.
  intros Hw. revert k r msg. induction Hw as [|reply w rs ws Hw _ IH]; intros [|k] r msg Hb Hp;
    cbn [replicate replyStream]; try (eexists; split; [done|]; split; done).
  - destruct (ReadMessage_end MaxMessageSize grow_cap r msg Hb Hp) as (msg' & r' & -> & _).
    cbn [outcome_bind]. eexists. split; [done|]. split; done.
  - destruct (written_frame _ _ Hw) as (b & Hm & -> & Hl).
    change (mjoin (frame b :: ws)) with (frame b ++ mjoin ws)%list in Hp.
    destruct (ReadMessage_frame MaxMessageSize grow_cap Hlim r msg b _ Hb Hl Hp)
      as (msg' & r' & -> & Hb' & _ & HB & Hp' & _).
    cbn [outcome_bind]. rewrite HB. cbn [outcome_bind]. unfold must_Reply.
    rewrite (proto_roundtrip _ _ Hm). cbn [outcome_bind].
    destruct (IH k r' msg' Hb' Hp') as (x & -> & Hx & He). cbn [outcome_bind].
    eexists. split; [done|]. cbn [read_first rd_replies rd_ended take length]. rewrite Hx, He. split; [done|].
    apply bool_decide_ext. lia.
Qed.

(** Replies to no request. *)
Definition pushed (rs : list Reply) : list Reply := filter (fun r => Rep_RequestId r = 0) rs.
Definition offering (st : CState) : list Reply :=
  match recv_loop st with Client.Offering r => [r] | _ => [] end.

Record push_inv (st : CState) : Prop := {
  pv_pushed : closed_ st = true \/ pushed (received st) = pushed (unsolicited st ++ offering st);
  pv_from : forall r, r ∈ unsolicited st ++ offering st -> r ∈ received st;
}.

Lemma push_inv_same st st' :
  push_inv st -> received st' = received st -> unsolicited st' = unsolicited st ->
  recv_loop st' = recv_loop st -> closed_ st' = closed_ st -> push_inv st'.
Proof. intros [H1 H2] Er Eu El Ec. split; unfold offering; by rewrite ?Er, ?Eu, ?El, ?Ec. Qed.

Lemma push_inv_start : push_inv cstart.
Proof. split; simpl; [by right|done]. Qed.

(** No call waits for the ID 0. *)
Lemma await_zero st : client_inv st -> await st !! 0 = None.
Proof.
  intros Hi. destruct (await st !! 0) as [i|] eqn:E; [|done].
  destruct (ci_await _ Hi _ _ E) as (c & Hc & Hid & _). pose proof (ci_seq _ Hi _ _ Hc). lia.
Qed.

Lemma begin_call_keeps st sc m inp opts w :
  let st' := begin_call st sc m inp opts w in
  received st' = received st /\ unsolicited st' = unsolicited st /\ recv_loop st' = recv_loop st /\
  closed_ st' = closed_ st.
Proof.
  unfold begin_call. destruct (Client.send _ _ _ _ _ _) as [[q req] err].
  destruct err, req; simpl; try done. by destruct (Req_NoReply _).
Qed.

Lemma cstep_push_inv st l st' :
  client_inv st -> push_inv st -> cstep st l = Some st' -> push_inv st'.
Proof.
  intros Hc Hi. pose proof Hi as [Hp Hf].
  destruct l as [sc m inp opts w|i|i|i err|i|reply| | | |]; simpl; intros Hst.
  - injection Hst as <-. destruct (begin_call_keeps st sc m inp opts w) as (E1 & E2 & E3 & E4).
    by apply (push_inv_same st).
  - destruct (calls st !! i) as [[req [| | |] ch]|]; try done. injection Hst as <-.
    by apply (push_inv_same st).
  - destruct (calls st !! i) as [[req [| | |] [|reply ch]]|]; try done. injection Hst as <-.
    by apply (push_inv_same st).
  - destruct (calls st !! i) as [[req [| | |] ch]|]; try done. injection Hst as <-.
    by apply (push_inv_same st).
  - destruct (calls st !! i) as [[req [| |e|] ch]|]; try done. injection Hst as <-.
    by apply (push_inv_same st).
  - unfold Client.receive in Hst. destruct (recv_loop st) eqn:Hr; try done. injection Hst as <-.
    unfold offering in *. rewrite Hr, app_nil_r in *. split; cbn [received unsolicited recv_loop closed_].
    + destruct Hp as [Hp|Hp]; [by left|right]. unfold pushed in *.
      destruct (decide (Rep_RequestId reply = 0)) as [E|E].
      * rewrite E, (await_zero _ Hc), !filter_app, Hp. done.
      * rewrite !filter_app, Hp. apply (f_equal2 app); [done|]. rewrite filter_cons, decide_False by done.
        destruct (await st !! Rep_RequestId reply); [done|].
        unfold offering. cbn [recv_loop]. by rewrite filter_cons, decide_False.
    + intros r. rewrite !elem_of_app. intros [Hin|Hin]; [left; auto|right].
      destruct (await st !! Rep_RequestId reply); [by apply not_elem_of_nil in Hin|done].
  - unfold push in Hst. destruct (recv_loop st) as [|j reply| |] eqn:Hr; try done.
    destruct (calls st !! j) as [c|]; [|done]. destruct (c_chan c); [|done]. injection Hst as <-.
    unfold offering in *. rewrite Hr in *. by split.
  - unfold offer in Hst. destruct (recv_loop st) eqn:Hr; try done. injection Hst as <-.
    unfold offering in *. rewrite Hr in *. destruct (closed_ st) eqn:Ec.
    + split; cbn; [by left|]. intros r. rewrite app_nil_r. intros H. apply Hf. apply elem_of_app. by left.
    + destruct Hp as [?|Hp]; [done|]. split; cbn; rewrite app_nil_r; [by right|done].
  - destruct (recv_loop st) eqn:Hr; try done. destruct (closed_ st) eqn:Ec; [|done]. injection Hst as <-.
    split; cbn; [by left|]. intros r. rewrite app_nil_r. intros H. apply Hf. apply elem_of_app. by left.
  - destruct (closed_ st); [done|]. injection Hst as <-. split; cbn; [by left|done].
Qed.

Lemma crun_push_inv ls st st' :
  client_inv st -> push_inv st -> Client.seq st + calls_in ls < 2 ^ 32 -> crun st ls = Some st' ->
  push_inv st'.
Proof.
  revert st. induction ls as [|l ls IH]; intros st Hi Hp Hlt; simpl; [by intros [= <-]|].
  destruct (cstep st l) as [st1|] eqn:E; [|done].
  destruct (cstep_run_inv _ _ _ _ Hi Hlt E). apply IH; [done| |done]. exact (cstep_push_inv _ _ _ Hi Hp E).
Qed.
End PushLemmas.

Section Callbacks.
Context {M : Type} `{PMM : !ProtoMessage M} `{PML : !ProtoLaws M}.

Definition pushes (sub : push_subscription) (rs : list Reply) : list Reply :=
  filter (fun r => of_interest sub r = true) (pushed rs).

(** The contents of all that interests a subscription can be decoded. *)
Definition typed (sub : push_subscription) (rs : list Reply) : Prop :=
  forall r, r ∈ rs -> of_interest sub r = true -> exists m : M, proto_Marshal m = Ok (Rep_Data r).

Lemma callback_calls_typed sub items :
  typed sub items ->
  exists calls, callback_calls (M := M) sub items = Ret calls /\
    calls.*2 = filter (fun r => of_interest sub r = true) items /\
    (forall m r m0, (m, r) ∈ calls -> proto_Marshal m0 = Ok (Rep_Data r) -> m = m0).
Proof.
  induction items as [|r items IH]; intros Ht; simpl.
  { exists []. split_and!; [done|done|]. by intros m r m0 ?%not_elem_of_nil. }
  destruct IH as (calls & Hc & Hf & Hm); [intros r' Hr'; apply Ht; by right|].
  rewrite filter_cons. destruct (of_interest sub r) eqn:E.
  - destruct (Ht r ltac:(by left) E) as [m Hmar]. rewrite (proto_roundtrip _ _ Hmar), Hc.
    cbn [outcome_bind]. exists ((m, r) :: calls). rewrite decide_True by done.
    split_and!; [done|by csimpl; rewrite Hf|].
    intros m' r' m0 [[= -> ->]|Hin]%elem_of_cons Hmar'; [|by eapply Hm].
    apply (proto_roundtrip (A := M)) in Hmar, Hmar'. congruence.
  - exists calls. rewrite decide_False by done. done.
Qed.

Lemma pushes_filter sub rs : pushes sub rs = pushed (filter (fun r => of_interest sub r = true) rs).
Proof. unfold pushes, pushed. rewrite !list_filter_filter. apply list_filter_iff. naive_solver. Qed.

Lemma pushes_app sub rs rs' : pushes sub (rs ++ rs') = (pushes sub rs ++ pushes sub rs')%list.
Proof. unfold pushes, pushed. by rewrite !filter_app. Qed.
End Callbacks.

(** ** What a subscription has handled *)
Section ObservableLemmas.
Context `{PQ : !ProtoMessage Request}.

(** A subscription handles the items given since it began, in order. *)
Definition subscriber_ok (emitted : list Reply) (u : subscriber) : Prop :=
  exists more, drop (su_from u) emitted = (su_handled u ++ more)%list /\ (su_from u <= length emitted)%nat /\
    (su_live u = true -> more = su_pending u).

Record o_inv (st : OState) : Prop := {
  oi_emitted : o_emitted st `prefix_of` unsolicited (o_cli st);
  oi_subs : Forall (subscriber_ok (o_emitted st)) (o_subs st);
}.

Lemma cstep_unsolicited st l st' : cstep st l = Some st' -> unsolicited st `prefix_of` unsolicited st'.
Proof.
  destruct l as [sc m inp opts w|i|i|i err|i|reply| | | |]; simpl; intros Hst.
  - injection Hst as <-. by destruct (begin_call_keeps st sc m inp opts w) as (_ & -> & _).
  - destruct (calls st !! i) as [[req [| | |] ch]|]; try done. by injection Hst as <-.
  - destruct (calls st !! i) as [[req [| | |] [|reply ch]]|]; try done. by injection Hst as <-.
  - destruct (calls st !! i) as [[req [| | |] ch]|]; try done. by injection Hst as <-.
  - destruct (calls st !! i) as [[req [| |e|] ch]|]; try done. by injection Hst as <-.
  - unfold Client.receive in Hst. destruct (recv_loop st); try done. by injection Hst as <-.
  - unfold push in Hst. destruct (recv_loop st) as [|j reply| |]; try done.
    destruct (calls st !! j) as [c|]; [|done]. destruct (c_chan c); [|done]. by injection Hst as <-.
  - unfold offer in Hst. destruct (recv_loop st); try done. injection Hst as <-. simpl.
    destruct (closed_ st); [done|by eexists].
  - destruct (recv_loop st); try done. destruct (closed_ st); [|done]. by injection Hst as <-.
  - destruct (closed_ st); [done|]. by injection Hst as <-.
Qed.

Lemma give_ok emitted reply u :
  subscriber_ok emitted u -> subscriber_ok (emitted ++ [reply])%list (give reply u).
Proof.
  intros (more & E & Hle & Hlive). unfold give. destruct (su_live u) eqn:El.
  - exists (more ++ [reply])%list. simpl. rewrite drop_app_le, E by done. split; [by rewrite app_assoc|].
    split; [rewrite length_app; lia|]. intros _. by rewrite Hlive.
  - exists (more ++ [reply])%list. rewrite drop_app_le, E by done. split; [by rewrite app_assoc|].
    split; [rewrite length_app; lia|congruence].
Qed.

Lemma handle_item_ok emitted u u' :
  handle_item u = Some u' -> subscriber_ok emitted u -> subscriber_ok emitted u'.
Proof.
  unfold handle_item. destruct (su_live u) eqn:El; [|done]. destruct (su_pending u) as [|reply items] eqn:Ep; [done|].
  intros [= <-] (more & E & Hle & Hlive). rewrite Hlive, Ep in E by done.
  exists items. simpl. split; [by rewrite <- app_assoc|done].
Qed.

Lemma end_subscription_ok emitted u : subscriber_ok emitted u -> subscriber_ok emitted (end_subscription u).
Proof. intros (more & E & Hle & _). by exists more. Qed.

Lemma ostep_inv st l st' : o_inv st -> ostep st l = Some st' -> o_inv st'.
Proof.
  intros [He Hs]. destruct l as [l|sub| |j|j]; simpl.
  - destruct (cstep (o_cli st) l) as [cli|] eqn:E; [|done]. intros [= <-]. split; [|done].
    etransitivity; [exact He|]. by eapply cstep_unsolicited.
  - intros [= <-]. split; [done|]. apply Forall_app. split; [done|]. apply Forall_singleton.
    exists []. simpl. by rewrite drop_all.
  - unfold in_transit. destruct He as [more He]. rewrite He, drop_app_length.
    destruct more as [|reply more]; [done|]. intros [= <-]. split; simpl.
    + exists more. by rewrite He, <- app_assoc.
    + apply Forall_fmap. eapply Forall_impl; [exact Hs|]. intros u. apply give_ok.
  - destruct (o_subs st !! j) as [u|] eqn:Hj; [|done]. destruct (handle_item u) as [u'|] eqn:E; [|done].
    intros [= <-]. split; [done|]. apply Forall_insert; [done|]. eapply handle_item_ok; [done|].
    by eapply Forall_lookup_1.
  - destruct (o_subs st !! j) as [u|] eqn:Hj; [|done]. intros [= <-]. split; [done|].
    apply Forall_insert; [done|]. apply end_subscription_ok. by eapply Forall_lookup_1.
Qed.

Lemma orun_spec ls st st' :
  o_inv st -> orun st ls = Some st' -> o_inv st' /\ crun (o_cli st) (client_steps ls) = Some (o_cli st').
Proof.
  revert st. induction ls as [|l ls IH]; intros st Hi; simpl; [by intros [= <-]|].
  destruct (ostep st l) as [st1|] eqn:E; [|done]. intros Hrun.
  destruct (IH st1) as [Hi' Hc]; [by eapply ostep_inv|done|]. split; [done|]. rewrite <- Hc.
  destruct l as [l|sub| |j|j]; simpl in *.
  - destruct (cstep (o_cli st) l); [|done]. by injection E as <-.
  - by injection E as <-.
  - destruct (in_transit st); [done|]. by injection E as <-.
  - destruct (o_subs st !! j) as [u|]; [|done]. destruct (handle_item u); [|done]. by injection E as <-.
  - destruct (o_subs st !! j) as [u|]; [|done]. by injection E as <-.
Qed.
End ObservableLemmas.

(** ** The claims *)
Section PushClaims.
Context `{PQ : !ProtoMessage Request} `{PR : !ProtoMessage Reply} `{PRL : !ProtoLaws Reply}.
Context {M : Type} `{PMM : !ProtoMessage M} `{PML : !ProtoLaws M}.
Variable MaxMessageSize : Z.
Variable grow_cap : nat -> nat -> nat.

(** C14. What a gateway pushes to a client reaches those that have subscribed to it, in
    order and with its content. The replies a gateway writes to a connection are read as
    they are, whatever pieces they arrive in, one per turn of the reading goroutine. And
    however fewer than 2^32 calls of the client, calls of [Subscribe], the ends of
    subscriptions and the goroutines interleave with their reception, the pushes of these
    (the replies to no request) that a subscription is for are those given to the others
    before it began, which it misses, then those its callback was called with, in the order
    in which they were written and none left out, each with the message that was marshalled
    into it, and then the rest; when all is received and the receiving goroutine waits for
    the next reply, the observable has nothing left to give, and the subscription, which has
    not ended, nothing left to handle, there is no rest, if the client was not closed. *)
Theorem pushes_reach_subscribers rs ws r msg k :
  MaxMessageSize < 2 ^ 32 -> Forall2 (written MaxMessageSize) rs ws -> buffer_ok msg ->
  pending r = mjoin ws ->
  exists x, replyStream MaxMessageSize grow_cap (replicate k (false, false)) r msg = Ret x /\
    rd_replies x = take k rs /\
    forall ls st j u,
      orun o_start ls = Some st -> calls_in (client_steps ls) < 2 ^ 32 -> closed_ (o_cli st) = false ->
      received (o_cli st) `prefix_of` rd_replies x -> o_subs st !! j = Some u -> typed (M := M) (su_sub u) rs ->
      exists calls rest, callback_calls (M := M) (su_sub u) (su_handled u) = Ret calls /\
        pushes (su_sub u) rs =
          (pushes (su_sub u) (take (su_from u) (o_emitted st)) ++ pushed calls.*2 ++ rest)%list /\
        (forall m reply m0, (m, reply) ∈ calls -> proto_Marshal m0 = Ok (Rep_Data reply) -> m = m0) /\
        (recv_loop (o_cli st) = AtStream -> received (o_cli st) = rs -> in_transit st = [] ->
         su_live u = true -> su_pending u = [] -> rest = []).
Proof.
  intros Hlim Hw Hb Hp.
  destruct (replyStream_written MaxMessageSize grow_cap Hlim rs ws k r msg Hw Hb Hp) as (x & Hx & Hk & _).
  exists x. split; [done|]. split; [done|]. intros ls st j u Hrun Hlt Hopen [later Hlater] Hj Ht.
  destruct (orun_spec ls o_start st) as [[[transit Htr] Hsubs] Hcrun]; [by split|done|].
  destruct (crun_push_inv _ _ _ client_inv_start push_inv_start Hlt Hcrun) as [[?|Heq] Hfrom]; [congruence|].
  destruct (Forall_lookup_1 _ _ _ _ Hsubs Hj) as (more & Hdrop & Hle & Hlive).
  assert (in_transit st = transit) as Etr by (unfold in_transit; by rewrite Htr, drop_app_length).
  assert (rs = received (o_cli st) ++ later ++ drop k rs)%list as Ers.
  { rewrite app_assoc, <- Hlater, Hk. by rewrite take_drop. }
  assert (o_emitted st = take (su_from u) (o_emitted st) ++ su_handled u ++ more)%list as Eem
    by (by rewrite <- Hdrop, take_drop).
  destruct (callback_calls_typed (M := M) (su_sub u) (su_handled u)) as (calls & Hc & Hf & Hm).
  { intros reply Hr. apply Ht. rewrite Ers. apply elem_of_app. left. apply Hfrom. apply elem_of_app. left.
    rewrite Htr, Eem. set_solver. }
  exists calls, (pushes (su_sub u) (more ++ transit ++ offering (o_cli st) ++ []) ++
    pushes (su_sub u) (later ++ drop k rs))%list.
  split; [done|]. split; [|split; [done|]].
  - rewrite Ers at 1. rewrite pushes_app, app_assoc, app_assoc. f_equal. rewrite Hf, <- pushes_filter.
    transitivity (pushes (su_sub u) (unsolicited (o_cli st) ++ offering (o_cli st))%list);
      [unfold pushes; by rewrite Heq|].
    rewrite Htr, Eem at 1. rewrite <- !pushes_app, app_nil_r. by rewrite <- !app_assoc.
  - intros Hat Eall Hnone Hl Hpend. unfold offering. rewrite Hat, <- Etr, Hnone, Hlive, Hpend by done. simpl.
    rewrite Eall in Ers. apply (f_equal length) in Ers. rewrite length_app in Ers.
    destruct (later ++ drop k rs)%list; [done|simpl in Ers; lia].
Qed.
End PushClaims.

(** ** The witness *)

Definition sample_push (data : bytes) : Reply :=
  {| Rep_RequestId := 0; Rep_ServiceCode := 7; Rep_Code := 2; Rep_Data := data |}.

#[local] Instance sample_pushProto : ProtoMessage Reply := {|
  proto_Marshal r :=
    if decide (r = sample_push [Byte.x61]) then Ok [Byte.x01]
    else if decide (r = sample_push [Byte.x62]) then Ok [Byte.x02]
    else Err (EForeign "proto");
  proto_Unmarshal b :=
    if decide (b = [Byte.x01]) then Ok (sample_push [Byte.x61])
    else if decide (b = [Byte.x02]) then Ok (sample_push [Byte.x62])
    else Err (EForeign "proto");
|}.
#[local] Instance sample_pushLaws : ProtoLaws Reply.
Proof. split. intros m b. simpl. repeat case_decide; intros [= <-]; subst; done. Qed.

(** The message type of the subscriber. *)
#[local] Instance sample_textProto : ProtoMessage bool := {|
  proto_Marshal (m : bool) := Ok [if m then Byte.x61 else Byte.x62];
  proto_Unmarshal b :=
    if decide (b = [Byte.x61]) then Ok true
    else if decide (b = [Byte.x62]) then Ok false
    else Err (EForeign "proto");
|}.
#[local] Instance sample_textLaws : ProtoLaws bool.
Proof. split. intros m b. simpl. destruct m; intros [= <-]; done. Qed.

#[local] Instance sample_callProto : ProtoMessage Request := {|
  proto_Marshal r := Ok []; proto_Unmarshal b := Err (EForeign "proto") |}.

Definition sample_pushes : list Reply := [sample_push [Byte.x61]; sample_push [Byte.x62]].
Definition sample_written : list bytes := [frame [Byte.x01]; frame [Byte.x02]].

(** Someone subscribes before the first push, someone else after it. *)
Definition sample_sub : push_subscription := {| ps_service := 7; ps_code := 2; ps_arg := Reply_type |}.
Definition sample_client : list olabel :=
  [OSubscribe sample_sub; OClient (CReceive (sample_push [Byte.x61])); OClient COffer; OEmit; OSubscribe sample_sub;
   OClient (CReceive (sample_push [Byte.x62])); OClient COffer; OHandle 0; OEmit; OHandle 1; OHandle 0].
Definition sample_observed : OState := default o_start (orun o_start sample_client).

Lemma sample_client_run : orun o_start sample_client = Some sample_observed.
Proof. assert (is_Some (orun o_start sample_client)) as [st E] by (vm_compute; eauto). unfold sample_observed. by rewrite E. Qed.

Lemma sample_typed : typed (M := bool) sample_sub sample_pushes.
Proof.
  intros reply Hin _. apply elem_of_cons in Hin as [->|Hin]; [exists true; reflexivity|].
  apply elem_of_cons in Hin as [->|Hin]; [exists false; reflexivity|]. by apply not_elem_of_nil in Hin.
Qed.

(** The subscriber that was there from the start. *)
Definition sample_subscriber : subscriber := {|
  su_sub := sample_sub; su_from := 0; su_live := true; su_pending := []; su_handled := sample_pushes |}.
Lemma sample_first : o_subs sample_observed !! 0%nat = Some sample_subscriber.
Proof. vm_compute. reflexivity. Qed.

Lemma pushes_reach_subscribers_witness :
  su_handled <$> o_subs sample_observed = [sample_pushes; [sample_push [Byte.x62]]] /\
  exists calls : list (bool * Reply), sample_pushes = pushed calls.*2.
Proof.
  split; [vm_compute; reflexivity|].
  destruct (pushes_reach_subscribers (M := bool) 65536 (fun _ n => n) sample_pushes sample_written
    {| chunks := sample_written; read_err := io_EOF |}
    {| data := replicate 4 Byte.x00; size := 0 |} 2) as (x & Hx & Hk & H).
  - lia.
  - repeat constructor; simpl; lia.
  - unfold buffer_ok. simpl. vm_compute; lia.
  - reflexivity.
  - destruct (H sample_client sample_observed 0%nat sample_subscriber sample_client_run)
      as (calls & rest & _ & Hp & _ & Hrest).
    + vm_compute. reflexivity.
    + vm_compute. reflexivity.
    + rewrite Hk. exists []. vm_compute. reflexivity.
    + exact sample_first.
    + exact sample_typed.
    + exists calls. rewrite Hrest, app_nil_r in Hp; [|vm_compute; reflexivity..]. exact Hp.
Defined.
