(* ===== verification/Options.v ===== *)
(** * Options: [component/gateway/options.go] and [NewProxy]
      ([component/gateway/proxy.go])

    The configuration of a gateway. What is configured is opaque here; an interface or
    function that is nil is [None]. *)

From S2P Require Import Prelude External Entry StateTable Resolver Registry Gateway.

Local Open Scope Z_scope.

(** [time.Duration.Abs]: the smallest duration becomes the largest. *)
Definition duration_Abs (d : Z) : Z :=
  if 0 <=? d then d else if d =? - 2 ^ 63 then 2 ^ 63 - 1 else - d.

Definition default_keepalive : Z := 60 * 10 ^ 9.
Definition default_timeout : Z := 5 * 10 ^ 9.

Section Options.
Context {Transporter Initializer Registry Bus Subscriber Logger GoPool : Type}.
Context {ReqInterceptor ConnInterceptor DiscInterceptor : Type}.
Variable defaultRequestInterceptor : ReqInterceptor.
Variable defaultConnectInterceptor : ConnInterceptor.
Variable defaultDisconnectInterceptor : DiscInterceptor.

Record Options := {
  o_Transporter : option Transporter;
  o_Initializer : option Initializer;
  o_Registry : option Registry;
  o_EventBus : option Bus;
  o_Multicast : option Subscriber;
  o_RequestLogger : option Logger;
  o_GoPool : option GoPool;
  o_KeepaliveInterval : Z;
  o_RequstTimeout : Z;
  o_RequestInterceptor : ReqInterceptor;
  o_ConnectInterceptor : ConnInterceptor;
  o_DisconnectInterceptor : DiscInterceptor;
}.

Definition newOptions : Options := {|
  o_Transporter := None; o_Initializer := None; o_Registry := None; o_EventBus := None;
  o_Multicast := None; o_RequestLogger := None; o_GoPool := None;
  o_KeepaliveInterval := default_keepalive; o_RequstTimeout := default_timeout;
  o_RequestInterceptor := defaultRequestInterceptor;
  o_ConnectInterceptor := defaultConnectInterceptor;
  o_DisconnectInterceptor := defaultDisconnectInterceptor |}.

Definition Options_Validate (opt : Options) : result () :=
  match o_Registry opt, o_Transporter opt, o_Initializer opt, o_EventBus opt, o_Multicast opt with
  | None, _, _, _, _ => Err (ErrorsNew "registry is nil")
  | _, None, _, _, _ => Err (ErrorsNew "transporter is nil")
  | _, _, None, _, _ => Err (ErrorsNew "initializer is nil")
  | _, _, _, None, _ => Err (ErrorsNew "eventBus is nil")
  | _, _, _, _, None => Err (ErrorsNew "multicast subscriber is nil")
  | _, _, _, _, _ => Ok ()
  end.

(** The options. *)
Inductive GatewayOption :=
  | WithRegistry (x : option Registry)
  | WithTransporter (x : option Transporter)
  | WithInitializer (x : option Initializer)
  | WithRequestInterceptor (x : ReqInterceptor)
  | WithConnectInterceptor (x : ConnInterceptor)
  | WithDisconnectInterceptor (x : DiscInterceptor)
  | WithEventBus (x : option Bus)
  | WithMulticast (x : option Subscriber)
  | WithRequestLogger (x : option Logger)
  | WithKeepaliveInterval (interval : Z)
  | WithRequestTimeout (timeout : Z)
  | WithGoPool (x : option GoPool).

Definition apply_option (o : Options) (opt : GatewayOption) : Options :=
  let mk t i r b m l g k q ri ci di := {|
    o_Transporter := t; o_Initializer := i; o_Registry := r; o_EventBus := b; o_Multicast := m;
    o_RequestLogger := l; o_GoPool := g; o_KeepaliveInterval := k; o_RequstTimeout := q;
    o_RequestInterceptor := ri; o_ConnectInterceptor := ci; o_DisconnectInterceptor := di |} in
  let t := o_Transporter o in let i := o_Initializer o in let r := o_Registry o in
  let b := o_EventBus o in let m := o_Multicast o in let l := o_RequestLogger o in
  let g := o_GoPool o in let k := o_KeepaliveInterval o in let q := o_RequstTimeout o in
  let ri := o_RequestInterceptor o in let ci := o_ConnectInterceptor o in
  let di := o_DisconnectInterceptor o in
  match opt with
  | WithRegistry x => mk t i x b m l g k q ri ci di
  | WithTransporter x => mk x i r b m l g k q ri ci di
  | WithInitializer x => mk t x r b m l g k q ri ci di
  | WithRequestInterceptor x => mk t i r b m l g k q x ci di
  | WithConnectInterceptor x => mk t i r b m l g k q ri x di
  | WithDisconnectInterceptor x => mk t i r b m l g k q ri ci x
  | WithEventBus x => mk t i r x m l g k q ri ci di
  | WithMulticast x => mk t i r b x l g k q ri ci di
  | WithRequestLogger x => mk t i r b m x g k q ri ci di
  | WithKeepaliveInterval interval => mk t i r b m l g (duration_Abs interval) q ri ci di
  | WithRequestTimeout timeout => mk t i r b m l g k (duration_Abs timeout) ri ci di
  | WithGoPool x => mk t i r b m l x k q ri ci di
  end.

Definition configured (opt : list GatewayOption) : Options := foldl apply_option newOptions opt.

(** ** Lemmas *)

Lemma duration_Abs_nonneg d : - 2 ^ 63 <= d < 2 ^ 63 -> 0 <= duration_Abs d < 2 ^ 63.
Proof.
  intros Hd. unfold duration_Abs. destruct (Z.leb_spec 0 d); [lia|].
  destruct (Z.eqb_spec d (- 2 ^ 63)); lia.
Qed.

Definition option_ok (opt : GatewayOption) : Prop :=
  match opt with
  | WithKeepaliveInterval d | WithRequestTimeout d => in_int64 d
  | _ => True
  end.

Lemma configured_durations opt :
  Forall option_ok opt ->
  0 <= o_KeepaliveInterval (configured opt) /\ 0 <= o_RequstTimeout (configured opt).
Proof.
  intros Hok. unfold configured.
  assert (forall o0, 0 <= o_KeepaliveInterval o0 -> 0 <= o_RequstTimeout o0 ->
    0 <= o_KeepaliveInterval (foldl apply_option o0 opt) /\
    0 <= o_RequstTimeout (foldl apply_option o0 opt)) as Hdur.
  { induction Hok as [|x xs Hx Hxs IH]; intros o0 H1 H2; [done|]. cbn [foldl].
    apply IH; destruct x; try done; by apply duration_Abs_nonneg. }
  apply Hdur; by vm_compute.
Qed.

Lemma Options_Validate_ok o :
  Options_Validate o = Ok () <->
  is_Some (o_Registry o) /\ is_Some (o_Transporter o) /\ is_Some (o_Initializer o) /\
  is_Some (o_EventBus o) /\ is_Some (o_Multicast o).
Proof.
  unfold Options_Validate.
  destruct (o_Registry o), (o_Transporter o), (o_Initializer o), (o_EventBus o), (o_Multicast o);
    (split; [intros; split_and!; try done; eauto|intros (?&?&?&?&?)]);
    repeat match goal with H : is_Some None |- _ => by destruct H end; done.
Qed.
End Options.

(** ** The gateway *)
Section Proxy.
Context `{U : ULID} `{R : MapRange} `{N : Net} `{X : XXHash} `{G : GRPCDial}.
Context {Transporter Initializer Bus Subscriber Logger GoPool : Type}.
Context {ReqInterceptor ConnInterceptor DiscInterceptor : Type}.
Variable defaultRequestInterceptor : ReqInterceptor.
Variable defaultConnectInterceptor : ConnInterceptor.
Variable defaultDisconnectInterceptor : DiscInterceptor.
Variable session_memory : sess_ptr -> SessionObj.

(** [NewProxy]: the gateway and its options, or the first thing that is missing. *)
Definition NewProxy (nodeID : ulid)
  (opt : list (@GatewayOption Transporter Initializer Registry Bus Subscriber Logger GoPool
                 ReqInterceptor ConnInterceptor DiscInterceptor)) :=
  let opts := configured defaultRequestInterceptor defaultConnectInterceptor
                defaultDisconnectInterceptor opt in
  match Options_Validate opts, o_Registry opts with
  | Err err, _ => Err err
  | Ok _, None => Err (ErrorsNew "registry is nil")
  | Ok _, Some registry =>
      Ok ({| gw_nodeID := ulid_String nodeID; sessions := ∅; hub_closed := false;
             sessionCount := 0; table := newStateTable; gw_registry := registry;
             heap := session_memory |}, opts)
  end.

(** A gateway that could be built works for its node with the registry configured last,
    and has all it needs. *)
Lemma NewProxy_complete nodeID opt gw o :
  NewProxy nodeID opt = Ok (gw, o) ->
  gw_nodeID gw = ulid_String nodeID /\ o_Registry o = Some (gw_registry gw) /\
  is_Some (o_Transporter o) /\ is_Some (o_Initializer o) /\
  is_Some (o_EventBus o) /\ is_Some (o_Multicast o) /\
  (Forall option_ok opt -> 0 <= o_KeepaliveInterval o /\ 0 <= o_RequstTimeout o).
Proof.
  unfold NewProxy. set (o' := configured _ _ _ opt).
  destruct (Options_Validate o') as [[]|] eqn:Hv; [|done].
  destruct (o_Registry o') eqn:Hr; [|done]. intros [= <- <-].
  apply Options_Validate_ok in Hv as (_ & H1 & H2 & H3 & H4). split_and!; try done.
  apply configured_durations.
Qed.
End Proxy.
