(* ===== verification/Keepalive.v ===== *)
(** * Keepalive: silent connections ([removeZombie] of [component/gateway/proxy.go])

    The goroutine that closes connections on which nothing is read or written any more,
    in time: its ticker, the steps of [Lifecycle] it interleaves with, and the activity
    of the sessions ([Transport]). Times are in nanoseconds. *)

From S2P Require Import Prelude External Entry PathLib Samples Balancer Resolver StateTable Messages Registry Gateway Lifecycle Transport Options.

Local Open Scope go_scope.
Local Open Scope Z_scope.

(** [time.NewTicker(10 * time.Second)] *)
Definition zombie_period : Z := 10 * Second.

(** The constructor of a session: what each transport makes of a connection. *)
Inductive transport := TCP | QUIC | WS (requestRemote header : string).

Definition new_session `{U : ULID} (t : transport) (id : ulid) (now : Z) (local remote : string) : SessionObj :=
  match t with
  | TCP => newTCPSession id now local remote
  | QUIC => newQuicSession id now local remote
  | WS requestRemote header => newWsSession id now local remote requestRemote header
  end.

Section Keepalive.
Context `{U : ULID} `{R : MapRange} `{N : Net} `{X : XXHash} `{G : GRPCDial} `{SI : SessionIface}.
(** [opts.KeepaliveInterval] *)
Variable interval : Z.

(** The state of a gateway with the goroutine: when its ticker ticks next, the tick that
    waits in the ticker's channel, of capacity one, with its time, and whether the
    goroutine runs. *)
Record KState := {
  k_life : LState;
  k_next : Z;
  k_tick : option Z;
  k_running : bool;
}.

Definition k_now (k : KState) : Z := now (k_life k).
Definition k_sess (k : KState) (s : sess_ptr) : SessionObj := heap (gw (k_life k)) s.

Definition kstart (g : Gateway) : KState := {|
  k_life := lstart g; k_next := zombie_period; k_tick := None; k_running := true |}.

Definition set_life (k : KState) (st : LState) : KState := {|
  k_life := st; k_next := k_next k; k_tick := k_tick k; k_running := k_running k |}.

(** The steps: one of [Lifecycle]; a connection becomes a session; a session reads or
    writes something, be it a heartbeat; time passes; the goroutine scans, or ends. *)
Inductive klabel :=
  | KLife (l : label)
  | KNew (s : sess_ptr) (t : transport) (id : ulid) (local remote : string)
  | KActive (s : sess_ptr)
  | KTime (later : Z)
  | KScan
  | KDone.

(** Time passes: a tick that finds the channel full is dropped, and those after it stay
    multiples of the period. *)
Definition pass (k : KState) (later : Z) : KState :=
  let st := k_life k in
  let t := now st + later in
  let due := k_next k <=? t in
  {| k_life := set_now st t;
     k_next := if due then t + zombie_period - (t - k_next k) mod zombie_period else k_next k;
     k_tick := match k_tick k with
               | Some tick => Some tick
               | None => if due then Some (k_next k) else None
               end;
     k_running := k_running k |}.

Definition kstep (k : KState) (l : klabel) : option KState :=
  let st := k_life k in
  match l with
  | KLife (LAccept _ | LTick _ | LZombies _) => None
  | KLife l => set_life k <$> lstep st l
  | KNew s t id local remote =>
      set_life k <$>
        lstep (set_gw st (set_sess (gw st) s (fun _ => new_session t id (now st) local remote))) (LAccept s)
  | KActive s => Some (set_life k (set_gw st (set_sess (gw st) s (touch (now st)))))
  | KTime later => if decide (0 <= later) then Some (pass k later) else None
  | KScan =>
      match k_tick k, k_running k with
      | Some _, true =>
          (fun st => {| k_life := st; k_next := k_next k; k_tick := None; k_running := true |})
            <$> lstep st (LZombies interval)
      | _, _ => None
      end
  | KDone => Some {| k_life := st; k_next := k_next k; k_tick := k_tick k; k_running := false |}
  end.

Fixpoint krun (k : KState) (ls : list klabel) : option KState :=
  match ls with
  | [] => Some k
  | l :: ls => match kstep k l with Some k => krun k ls | None => None end
  end.

(** [P] holds in every state of a run. *)
Fixpoint always (P : KState -> Prop) (k : KState) (ls : list klabel) : Prop :=
  P k /\ match ls with
         | [] => True
         | l :: ls => match kstep k l with Some k => always P k ls | None => True end
         end.

(** The goroutine takes a tick within [d]. *)
Definition prompt (d : Z) (k : KState) : Prop :=
  match k_tick k with Some t => k_now k <= t + d | None => True end.
(** The session is found by a scan. *)
Definition in_hub (s : sess_ptr) (k : KState) : Prop :=
  s ∈ range_values (sessions (gw (k_life k))).
(** It read or wrote something less than [d] ago. *)
Definition heard (s : sess_ptr) (d : Z) (k : KState) : Prop := k_now k <= LastRWTime (k_sess k s) + d.

Definition touches (s : sess_ptr) (l : klabel) : Prop :=
  match l with KNew s' _ _ _ _ | KActive s' => s' = s | _ => False end.

#[export] Instance always_dec P `{forall k, Decision (P k)} k ls : Decision (always P k ls).
Proof.
  revert k. induction ls as [|l ls IH]; intros k; simpl; [solve_decision|].
  destruct (kstep k l); [|solve_decision]. apply and_dec; [done|apply IH].
Defined.
#[export] Instance prompt_dec d k : Decision (prompt d k).
Proof. unfold prompt. destruct (k_tick k); solve_decision. Defined.
#[export] Instance in_hub_dec s k : Decision (in_hub s k).
Proof. unfold in_hub. solve_decision. Defined.
#[export] Instance heard_dec s d k : Decision (heard s d k).
Proof. unfold heard. solve_decision. Defined.
#[export] Instance touches_dec s l : Decision (touches s l).
Proof. destruct l; simpl; solve_decision. Defined.
End Keepalive.

(** ** Lemmas *)
Section Lemmas.
Context `{U : ULID} `{R : MapRange} `{N : Net} `{X : XXHash} `{G : GRPCDial} `{SI : SessionIface}.
Variable interval : Z.

Lemma always_now P k ls : always interval P k ls -> P k.
Proof. by destruct ls as [|l ls]; intros [? _]. Qed.

Lemma always_run P k ls k' : always interval P k ls -> krun interval k ls = Some k' -> P k'.
Proof.
  revert k. induction ls as [|l ls IH]; intros k [Hp Ha]; simpl; [by intros [= <-]|].
  destruct (kstep interval k l); [|done]. by apply IH.
Qed.

(** Steps of [Lifecycle] other than those that have labels of their own. *)
Lemma kstep_life k l k' :
  kstep interval k (KLife l) = Some k' ->
  exists st', lstep (k_life k) l = Some st' /\ k' = set_life k st' /\ now st' = now (k_life k).
Proof.
  assert (forall st st', lstep st l = Some st' -> (forall later, l <> LTick later) -> now st' = now st) as Hnow.
  { intros st st' H Hl. destruct l; simpl in H;
      try (apply at_phase_Some in H as [_ ->]); try (apply store_route_Some in H as ->); try (apply at_timer_Some in H as (tm & _ & ->)); try done.
    - unfold accept in H. by case_in H.
    - unfold init in H. case_decide; [done|]. by apply at_phase_Some in H as [_ ->].
    - by destruct (hub_Load _ _).
    - by destruct (cleanJobs _ !! _).
    - unfold stop_job in H. by inv_all H.
    - by destruct (Hl later).
    - unfold fire in H. by inv_all H.
    - by injection H as <-.
    - by injection H as <-. }
  intros H. assert (set_life k <$> lstep (k_life k) l = Some k' /\ forall later, l <> LTick later) as [Hs Hl].
  { split; [|by intros later ->]. destruct l; first [exact H|done]. }
  apply fmap_Some in Hs as (st' & Hst & ->). exists st'. split; [done|]. split; [done|]. by apply Hnow.
Qed.

(** The ticker ticks at least every period. *)
Definition ticker_ok (k : KState) : Prop :=
  k_now k < k_next k <= k_now k + zombie_period /\ forall t, k_tick k = Some t -> t <= k_now k.

Lemma pass_ok k later : 0 <= later -> ticker_ok k -> ticker_ok (pass k later).
Proof.
  intros Hl [Hn Ht]. unfold ticker_ok, k_now, pass in *. cbn [k_life k_next k_tick now set_now].
  pose proof (Z.mod_pos_bound (now (k_life k) + later - k_next k) zombie_period ltac:(done)) as Hm.
  destruct (Z.leb_spec (k_next k) (now (k_life k) + later)) as [Hd|Hd]; (split; [lia|]);
    intros t; (destruct (k_tick k) as [t0|]; [intros [= <-]; specialize (Ht _ eq_refl); lia|]);
    [intros [= <-]; lia|done].
Qed.

Lemma kstep_ticker k l k' : ticker_ok k -> kstep interval k l = Some k' -> ticker_ok k'.
Proof.
  intros Hk Hs. destruct l as [l|s t id local remote|s|later| |].
  - apply kstep_life in Hs as (st' & _ & -> & E). unfold ticker_ok, k_now in *. simpl. by rewrite E.
  - apply fmap_Some in Hs as (st' & Hst & ->). simpl in Hst. unfold accept in Hst. by case_in Hst.
  - by injection Hs as <-.
  - simpl in Hs. case_decide; [|done]. injection Hs as <-. by apply pass_ok.
  - simpl in Hs. destruct (k_tick k) as [t|], (k_running k); try done. injection Hs as <-.
    destruct Hk as [Hn _]. by split.
  - by injection Hs as <-.
Qed.

Lemma krun_ticker k ls k' : ticker_ok k -> krun interval k ls = Some k' -> ticker_ok k'.
Proof.
  revert k. induction ls as [|l ls IH]; intros k Hk; simpl; [by intros [= <-]|].
  destruct (kstep interval k l) eqn:E; [|done]. apply IH. by eapply kstep_ticker.
Qed.

(** What a step makes of a session that reads and writes nothing. *)
Lemma kstep_sess k l k' s :
  ~ touches s l -> kstep interval k l = Some k' -> sess_step (k_sess k s) (k_sess k' s).
Proof.
  intros Ht Hs. unfold k_sess. destruct l as [l|s' t id local remote|s'|later| |].
  - apply kstep_life in Hs as (st' & Hst & -> & _). by apply lstep_heap with (l := l).
  - apply fmap_Some in Hs as (st' & Hst & ->). apply (lstep_heap _ _ _ s) in Hst. simpl in Ht.
    cbn [gw set_gw] in Hst. rewrite set_sess_heap, decide_False in Hst by congruence. exact Hst.
  - injection Hs as <-. simpl in Ht. cbn [k_life set_life gw set_gw].
    rewrite set_sess_heap, decide_False by congruence. constructor.
  - simpl in Hs. case_decide; [|done]. injection Hs as <-. constructor.
  - simpl in Hs. destruct (k_tick k), (k_running k); try done. injection Hs as <-.
    apply (lstep_heap _ (LZombies interval) _ s). done.
  - injection Hs as <-. constructor.
Qed.

Lemma sess_step_last o o' : sess_step o o' -> LastRWTime o' = LastRWTime o.
Proof. by destruct 1. Qed.
Lemma sess_step_open o o' : sess_step o o' -> Sess_Closed o' = false -> Sess_Closed o = false.
Proof. by destruct 1. Qed.

Lemma kstep_running k l k' : kstep interval k l = Some k' -> k_running k' = true -> k_running k = true.
Proof.
  intros Hs. destruct l as [l|s t id local remote|s|later| |].
  - by apply kstep_life in Hs as (st' & _ & -> & _).
  - by apply fmap_Some in Hs as (st' & _ & ->).
  - by injection Hs as <-.
  - simpl in Hs. case_decide; [|done]. by injection Hs as <-.
  - simpl in Hs. by destruct (k_tick k), (k_running k).
  - by injection Hs as <-.
Qed.

(** A scan closes the sessions it finds that were silent for too long. *)
Lemma scan_closes k k' s :
  kstep interval k KScan = Some k' -> in_hub s k -> Sess_Closed (k_sess k' s) = false ->
  heard s interval k.
Proof.
  unfold in_hub, heard, k_sess, k_now. simpl. intros Hs Hin.
  destruct (k_tick k), (k_running k); try done. injection Hs as <-. cbn [k_life gw set_gw].
  unfold remove_zombies.
  destruct (zombies_fold (now (k_life k)) interval (range_values (sessions (gw (k_life k)))) (gw (k_life k)) s)
    as (-> & _). rewrite bool_decide_true by done. simpl.
  destruct (Z.ltb_spec interval (now (k_life k) - LastRWTime (heap (gw (k_life k)) s))); [done|lia].
Qed.

(** While a session is silent and open, the next scan is due a period after [T] at the
    latest. *)
Definition silent (s : sess_ptr) (r T : Z) (k : KState) : Prop :=
  LastRWTime (k_sess k s) = r /\
  (Sess_Closed (k_sess k s) = false ->
   match k_tick k with Some t => t | None => k_next k end <= T + zombie_period).

Lemma kstep_silent k l k' s r T :
  ticker_ok k -> silent s r T k -> in_hub s k -> ~ touches s l -> r + interval <= T ->
  kstep interval k l = Some k' -> silent s r T k'.
Proof.
  intros Hk [Hr Hd] Hin Ht HT Hs. pose proof (kstep_ticker _ _ _ Hk Hs) as Hk'.
  pose proof (kstep_sess _ _ _ _ Ht Hs) as Hss. split; [by rewrite (sess_step_last _ _ Hss)|].
  intros Ho. specialize (Hd (sess_step_open _ _ Hss Ho)).
  destruct l as [l|s' t id local remote|s'|later| |].
  - by apply kstep_life in Hs as (st' & _ & -> & _).
  - by apply fmap_Some in Hs as (st' & _ & ->).
  - by injection Hs as <-.
  - simpl in Hs. case_decide; [|done]. injection Hs as <-. simpl.
    destruct (k_tick k); [done|]. by destruct (k_next k <=? _).
  - pose proof (scan_closes _ _ _ Hs Hin Ho) as Hh. unfold heard in Hh. rewrite Hr in Hh.
    simpl in Hs. destruct (k_tick k), (k_running k); try done. injection Hs as <-.
    destruct Hk as [Hn _]. cbn [k_tick k_next]. lia.
  - by injection Hs as <-.
Qed.

Lemma krun_silent k ls k' s r T :
  ticker_ok k -> silent s r T k -> always interval (in_hub s) k ls -> Forall (fun l => ~ touches s l) ls ->
  r + interval <= T -> krun interval k ls = Some k' -> silent s r T k'.
Proof.
  revert k. induction ls as [|l ls IH]; intros k Hk Hs Ha Hf HT; simpl; [by intros [= <-]|].
  apply Forall_cons in Hf as [Hl Hf]. destruct Ha as [Hin Ha].
  destruct (kstep interval k l) as [k1|] eqn:E; [|done]. apply IH; try done.
  - by eapply kstep_ticker.
  - by eapply kstep_silent.
Qed.
End Lemmas.

(** ** The claims *)
Section Claims.
Context `{U : ULID} `{R : MapRange} `{N : Net} `{X : XXHash} `{G : GRPCDial} `{SI : SessionIface}.
Variable interval : Z.

(** C25. A silent connection is closed in time: from a moment on at which a session is in
    the hub, if it neither reads nor writes anything and stays in the hub, while the
    goroutine runs and takes each tick within [d], then once [KeepaliveInterval] since its
    last activity and ten seconds and [d] more have passed, it is closed, however the other
    goroutines of the gateway interleave. *)
Theorem silent_session_closed d g before after k0 k s :
  0 <= d -> krun interval (kstart g) before = Some k0 -> krun interval k0 after = Some k ->
  always interval (prompt d) k0 after -> always interval (in_hub s) k0 after ->
  Forall (fun l => ~ touches s l) after ->
  Z.max (LastRWTime (k_sess k0 s) + interval) (k_now k0) + zombie_period + d < k_now k ->
  Sess_Closed (k_sess k s) = true.
Proof.
  intros Hd0 Hb Ha Hp Hh Hf Hlt.
  set (T := Z.max (LastRWTime (k_sess k0 s) + interval) (k_now k0)) in *.
  assert (ticker_ok k0) as Hk0.
  { apply (krun_ticker interval (kstart g) before); [|done]. by split. }
  pose proof (krun_ticker interval _ _ _ Hk0 Ha) as [Hn _].
  assert (silent s (LastRWTime (k_sess k0 s)) T k0) as Hs0.
  { split; [done|]. intros _. destruct Hk0 as [Hn0 Ht0]. unfold T.
    destruct (k_tick k0) as [t|]; [specialize (Ht0 _ eq_refl)|]; lia. }
  destruct (krun_silent interval k0 after k s _ T Hk0 Hs0 Hh Hf ltac:(unfold T; lia) Ha) as [_ Hd].
  destruct (Sess_Closed (k_sess k s)) eqn:E; [done|]. specialize (Hd eq_refl).
  pose proof (always_run interval _ _ _ _ Hp Ha) as Hp'. unfold prompt in Hp'.
  destruct (k_tick k); lia.
Qed.

(** The goroutine closes no session that read or wrote something within the interval; in
    particular it leaves alone clients that send a ping every ten seconds, as those of
    [Client] do, if each is read before the rest of the interval has passed: such a
    session is only ever closed by another step. *)
Theorem heard_session_kept gap k ls k' s :
  gap <= interval -> krun interval k ls = Some k' -> always interval (heard s gap) k ls ->
  forall ls1 l ls2 k1 k2, ls = (ls1 ++ l :: ls2)%list -> krun interval k ls1 = Some k1 ->
    kstep interval k1 l = Some k2 ->
    Sess_Closed (k_sess k1 s) = false -> Sess_Closed (k_sess k2 s) = true -> l <> KScan.
Proof.
  intros Hg _ Ha ls1 l ls2 k1 k2 -> H1 Hs Ho Hc ->.
  assert (heard s gap k1) as Hh.
  { clear -Ha H1. revert k Ha H1. induction ls1 as [|l ls1 IH]; intros k Ha H1; cbn [app krun always] in *.
    - injection H1 as <-. by apply always_now in Ha as Hp || destruct Ha.
    - destruct Ha as [_ Ha]. destruct (kstep interval k l); [|done]. by eapply IH. }
  unfold heard, k_now, k_sess in *. simpl in Hs. destruct (k_tick k1), (k_running k1); try done.
  injection Hs as <-. cbn [k_life gw set_gw] in Hc. unfold remove_zombies in Hc.
  destruct (zombies_fold (now (k_life k1)) interval (range_values (sessions (gw (k_life k1)))) (gw (k_life k1)) s)
    as (E & _). rewrite E in Hc. destruct (Z.ltb_spec interval (now (k_life k1) - LastRWTime (heap (gw (k_life k1)) s)));
    [lia|]. rewrite andb_false_r in Hc. congruence.
Qed.
End Claims.

(** ** Witnesses *)

(** Alice connects; a second passes, in which she sends something. *)
Definition k_connect (s : sess_ptr) : list klabel :=
  KNew s TCP (sample_id 9) "10.0.0.1:9000" "10.0.0.7:5000" :: (KLife <$> drop 1 (connect s)).
Definition k_before : list klabel := (k_connect 0 ++ [KTime Second; KActive 0])%list.
(** The next eight ticks, each taken after a second. *)
Definition k_wait : list klabel := mjoin (replicate 8 [KTime zombie_period; KScan]).

Definition k_after (k : KState) (ls : list klabel) : KState := default k (krun default_keepalive k ls).
Lemma k_after_run k ls :
  bool_decide (is_Some (krun default_keepalive k ls)) = true ->
  krun default_keepalive k ls = Some (k_after k ls).
Proof. intros [k' E]%bool_decide_eq_true. unfold k_after. by rewrite E. Qed.

Lemma silent_session_closed_witness :
  Sess_Closed (k_sess (k_after (k_after (kstart empty_gateway) k_before) k_wait) 0%nat) = true.
Proof.
  apply (silent_session_closed default_keepalive Second empty_gateway k_before k_wait
    (k_after (kstart empty_gateway) k_before)).
  - vm_compute. discriminate.
  - apply k_after_run. vm_compute. reflexivity.
  - apply k_after_run. vm_compute. reflexivity.
  - apply (bool_decide_unpack _). vm_compute. exact I.
  - apply (bool_decide_unpack _). vm_compute. exact I.
  - apply (bool_decide_unpack _). vm_compute. exact I.
  - vm_compute. reflexivity.
Defined.

(** A tick and a scan of an empty hub. *)
Lemma empty_round k :
  sessions (gw (k_life k)) = ∅ -> k_tick k = None -> k_running k = true ->
  k_next k = k_now k + zombie_period ->
  krun default_keepalive k [KTime zombie_period; KScan] =
    Some {| k_life := set_now (k_life k) (k_now k + zombie_period);
            k_next := k_next k + zombie_period; k_tick := None; k_running := true |}.
Proof.
  intros Hs Ht Hr Hn. unfold k_now in *. cbn [krun kstep]. rewrite decide_True by done. unfold pass.
  cbn [k_tick k_running k_life k_next]. rewrite Ht, Hr, Hn, Z.leb_refl, Z.sub_diag. cbn [lstep fmap option_fmap option_map].
  f_equal. f_equal; [|rewrite Z.mod_0_l by done; lia]. unfold remove_zombies. cbn [gw set_now]. rewrite Hs. by destruct k as [[] ? ? ?].
Qed.

Lemma empty_rounds n k :
  sessions (gw (k_life k)) = ∅ -> k_tick k = None -> k_running k = true ->
  k_next k = k_now k + zombie_period ->
  let ls := mjoin (replicate n [KTime zombie_period; KScan]) in
  exists k', krun default_keepalive k ls = Some k' /\ k_now k' = k_now k + Z.of_nat n * zombie_period /\
    gw (k_life k') = gw (k_life k) /\ phases (k_life k') = phases (k_life k) /\
    always default_keepalive (prompt 0) k ls.
Proof.
  revert k. induction n as [|n IH]; intros k Hs Ht Hr Hn.
  { exists k. split_and!; try done; [lia|]. simpl. unfold prompt. by rewrite Ht. }
  pose proof (empty_round k Hs Ht Hr Hn) as E. cbn [replicate mjoin list_join app].
  cbn [krun] in E. cbn [krun always]. destruct (kstep _ k _) as [k1|] eqn:E1; [|done].
  destruct (kstep _ k1 KScan) as [k2|]; [|done]. injection E as ->.
  edestruct IH as (k' & Hk' & Hnow & Hg & Hp & Ha); cycle 4.
  - exists k'. split; [exact Hk'|]. split; [rewrite Hnow; unfold k_now; cbn [k_life now set_now]; lia|].
    split; [done|]. split; [done|]. split; [unfold prompt; by rewrite Ht|]. split; [|done].
    change (Some (pass k zombie_period) = Some k1) in E1. injection E1 as <-. unfold prompt, pass, k_now in *.
    cbn [k_tick k_life]. rewrite Ht, Hn, Z.leb_refl. simpl. lia.
  - done.
  - done.
  - done.
  - unfold k_now in *. simpl. lia.
Qed.

(** A connection is scanned only once it is in the hub: one whose initializer waits for a
    request that never comes stays open, however long it is silent. *)
Theorem waiting_never_closed (n : nat) :
  exists ls k, krun default_keepalive (kstart empty_gateway) ls = Some k /\
    k_now k = LastRWTime (k_sess k 0%nat) + Z.of_nat n * zombie_period /\
    phases (k_life k) !! 0%nat = Some PAccepted /\ Sess_Closed (k_sess k 0%nat) = false /\
    always default_keepalive (prompt 0) (kstart empty_gateway) ls.
Proof.
  set (l := KNew 0 TCP (sample_id 9) "10.0.0.1:9000" "10.0.0.7:5000").
  destruct (kstep default_keepalive (kstart empty_gateway) l) as [k1|] eqn:E1; [|by vm_compute in E1].
  pose proof E1 as E2. vm_compute in E2.
  destruct (empty_rounds n k1) as (k & Hk & Hnow & Hg & Hp & Ha);
    [by injection E2 as <-..|].
  exists (l :: mjoin (replicate n [KTime zombie_period; KScan])), k. cbn [krun always]. rewrite E1.
  split; [done|]. unfold k_sess. rewrite Hnow, Hg, Hp. injection E2 as <-. by split_and!.
Qed.
