(* ===== verification/Rpc.v ===== *)
(** * Rpc: [component/rpc]

    The gRPC server of a node: the services it registers and the part of the node's
    entry they make, what handlers find in the context of a call, and the packing of
    their results into replies. *)

From S2P Require Import Prelude External Entry PathLib Samples Balancer Resolver StateTable Messages Registry Gateway Request.

Local Open Scope go_scope.
Local Open Scope Z_scope.

(** A listener: the network and the text of its address. *)
Record Listener := { l_Network : string; l_Addr : string }.

(** [net.Listen], [filepath.Abs], and whether [netip.ParseAddrPort] finds the
    unspecified address; [None] if it fails. *)
Class Listening := {
  net_Listen : string -> string -> result Listener;
  filepath_Abs : string -> result string;
  addrport_unspecified : string -> option bool;
}.

Fixpoint TrimPrefix (s prefix : string) : option string :=
  match prefix, s with
  | EmptyString, _ => Some s
  | String p prefix, String c s => if bool_decide (p = c) then TrimPrefix s prefix else None
  | _, _ => None
  end.

(** [gs_registered] lists the names registered with the [grpc.Server]. *)
Record GRPCServer := {
  gs_listen : string;
  gs_endpoint : string;
  gs_listener : option Listener;
  gs_services : gmap Z GRPCServiceDesc;
  gs_registered : list string;
}.

Definition NewGRPCServer (listenAddr : string) : GRPCServer := {|
  gs_listen := listenAddr; gs_endpoint := ""; gs_listener := None; gs_services := ∅;
  gs_registered := [] |}.
Definition BindGRPCServer (listener : Listener) : GRPCServer := {|
  gs_listen := ""; gs_endpoint := ""; gs_listener := Some listener; gs_services := ∅;
  gs_registered := [] |}.
Definition SetEndpoint (gs : GRPCServer) (endpoint : string) : GRPCServer := {|
  gs_listen := gs_listen gs; gs_endpoint := endpoint; gs_listener := gs_listener gs;
  gs_services := gs_services gs; gs_registered := gs_registered gs |}.

(** ** Registration *)

Definition Option : Type := GRPCServiceDesc -> GRPCServiceDesc.

Definition WithPublic : Option := fun desc => {|
  Desc_Name := Desc_Name desc; Code := Code desc; Path := Path desc; Public := true;
  Balancer_policy := Balancer_policy desc; Weight := Weight desc; Stateful := Stateful desc;
  Allocation := Allocation desc |}.
(** [cmp.Or(desc.Allocation, cluster.ServerAllocate)] *)
Definition WithStateful : Option := fun desc => {|
  Desc_Name := Desc_Name desc; Code := Code desc; Path := Path desc; Public := Public desc;
  Balancer_policy := Balancer_policy desc; Weight := Weight desc; Stateful := true;
  Allocation := if bool_decide (Allocation desc = ""%string) then ServerAllocate
                else Allocation desc |}.
Definition WithAllocation (allocation : string) : Option := fun desc => {|
  Desc_Name := Desc_Name desc; Code := Code desc; Path := Path desc; Public := Public desc;
  Balancer_policy := Balancer_policy desc; Weight := Weight desc; Stateful := Stateful desc;
  Allocation := allocation |}.
Definition WithBalancer (balancer : string) : Option := fun desc => {|
  Desc_Name := Desc_Name desc; Code := Code desc; Path := Path desc; Public := Public desc;
  Balancer_policy := balancer; Weight := Weight desc; Stateful := Stateful desc;
  Allocation := Allocation desc |}.
Definition WithWeight (weight : Z) : Option := fun desc => {|
  Desc_Name := Desc_Name desc; Code := Code desc; Path := Path desc; Public := Public desc;
  Balancer_policy := Balancer_policy desc; Weight := weight; Stateful := Stateful desc;
  Allocation := Allocation desc |}.

Definition described (code : Z) (serviceName : string) (options : list Option) : GRPCServiceDesc :=
  foldl (fun sd opt => opt sd)
    {| Desc_Name := serviceName; Code := code; Path := "/" ++ serviceName; Public := false;
       Balancer_policy := BalancerRandom; Weight := 0; Stateful := false; Allocation := "" |}
    options.

(** [RegisterService]. [grpc.Server.RegisterService] ends the process if the name is
    registered already. *)
Definition RegisterService (gs : GRPCServer) (code : Z) (serviceName : string) (options : list Option)
  : outcome (option gerror * GRPCServer) :=
  let sd := described code serviceName options in
  match Desc_Validate sd with
  | Err err => Ret (Some err, gs)
  | Ok _ =>
      match gs_services gs !! Code sd with
      | Some _ => Ret (Some (Errorf "service code %d already registered" [AInt (Code sd)] None), gs)
      | None =>
          if bool_decide (serviceName ∈ gs_registered gs) then Panic
          else
            Ret (None, {|
              gs_listen := gs_listen gs; gs_endpoint := gs_endpoint gs;
              gs_listener := gs_listener gs; gs_services := <[Code sd := sd]> (gs_services gs);
              gs_registered := gs_registered gs ++ [serviceName] |})
      end
  end.

(** ** Start *)
Section Start.
Context `{LI : Listening}.

Definition newListener (addr : string) : result Listener :=
  match TrimPrefix addr "unix://" with
  | Some path => net_Listen "unix" path
  | None =>
      match TrimPrefix addr "unix:" with
      | Some path => net_Listen "unix" path
      | None => net_Listen "tcp" addr
      end
  end.

(** [gokit.MustReturn] panics on an error. *)
Definition addrFromListener (l : Listener) : outcome string :=
  if bool_decide (l_Network l = "unix"%string)
  then match filepath_Abs (l_Addr l) with Ok p => Ret ("unix:" ++ p)%string | Err _ => Panic end
  else Ret (l_Addr l).

(** [Start], up to the goroutine that serves. *)
Definition Start (gs : GRPCServer) : outcome (option gerror * GRPCServer) :=
  let bound (l : Listener) : outcome (option gerror * GRPCServer) :=
    let! addr := addrFromListener l in
    let gs := {| gs_listen := addr; gs_endpoint := gs_endpoint gs; gs_listener := Some l;
                 gs_services := gs_services gs; gs_registered := gs_registered gs |} in
    if bool_decide (gs_endpoint gs = ""%string) && bool_decide (l_Network l = "tcp"%string)
       && match addrport_unspecified addr with Some b => b | None => false end
    then Ret (Some (ErrorsNew "listen ip is unspecified"), gs)
    else Ret (None, gs) in
  match gs_listener gs with
  | Some l => bound l
  | None =>
      match newListener (gs_listen gs) with
      | Err err => Ret (Some err, gs)
      | Ok l => bound l
      end
  end.

(** The goroutine that serves ends the process when the server returns an error. *)
Definition serving (served : option gerror) : outcome () :=
  match served with Some _ => Panic | None => Ret () end.

(** [Stop], after the graceful stop of the server: the error that is logged, if any;
    without a listener, that is before [Start], it panics. *)
Definition Stop (gs : GRPCServer) (close : Listener -> option gerror) : outcome (option gerror) :=
  match gs_listener gs with
  | None => Panic
  | Some l =>
      Ret match close l with
          | Some err => if errors_Is err net_ErrClosed then None else Some err
          | None => None
          end
  end.
End Start.

(** ** The entry *)
Section RpcEntry.
Context `{U : ULID} `{R : MapRange}.

Definition CompleteNodeEntry (gs : GRPCServer) (entry : NodeEntry) : NodeEntry :=
  let endpoint := if bool_decide (gs_endpoint gs = ""%string) then gs_listen gs
                  else gs_endpoint gs in
  {| ID := ID entry; Name := Name entry; State := State entry; Entrance := Entrance entry;
     Metrics := Metrics entry;
     GRPC := {| Endpoint := endpoint; Services := range_values (gs_services gs) |};
     GitVersion := GitVersion entry |}.
End RpcEntry.

(** ** Contexts of calls: the incoming metadata *)

Definition SessionIDInContext (md : gmap string (list string)) : outcome string :=
  match md !! MDSessID with
  | Some (v :: _) => Ret v
  | _ => Panic
  end.

Definition GatewayIDInContext `{U : ULID} (md : gmap string (list string)) : outcome ulid :=
  match md !! MDGateway with
  | Some (v :: _) => match ulid_Parse v with Ok id => Ret id | Err _ => Panic end
  | _ => Panic
  end.

(** ** Errors and interceptors *)

(** [NewError] without details. *)
Definition NewError (c : code) (msg : string) : gerror := StatusErrorf c msg [].

(** [PackReply]: later maps override earlier ones. *)
Definition assign (replyCodes : list (gmap string Z)) : gmap string Z :=
  foldl (fun acc m => m ∪ acc) ∅ replyCodes.

Inductive response (M : Type) := Unpacked (m : M) | Packed (reply : Reply).
Arguments Unpacked {_} m.
Arguments Packed {_} reply.

Definition PackReply {M} `{ProtoMessage M} (replyCodes : list (gmap string Z)) (method : string)
  (handler : () -> result M) : result (response M) :=
  let codes := assign replyCodes in
  match handler () with
  | Err err => Err err
  | Ok resp =>
      match codes !! method with
      | Some code =>
          match NewReply code resp with
          | Err err => Err (Errorf "pack nodehub.Reply, %w" [] (Some err))
          | Ok reply => Ok (Packed reply)
          end
      | None => Ok (Unpacked resp)
      end
  end.

(** ** The claims *)
Section Claims.
Context `{L : ULIDLaws} `{R : MapRange}.

(** A registration: the code, the name and the options. *)
Definition registration : Type := Z * string * list Option.
Definition wanted (x : registration) : GRPCServiceDesc := described x.1.1 x.1.2 x.2.

(** The registrations of a program, which may ignore their errors. *)
Fixpoint register_all (gs : GRPCServer) (regs : list registration) : outcome GRPCServer :=
  match regs with
  | [] => Ret gs
  | (c, n, os) :: regs => let! (_, gs) := RegisterService gs c n os in register_all gs regs
  end.

(** A service is added if it is valid and its code is not taken. *)
Definition admit_service (acc : list GRPCServiceDesc) (sd : GRPCServiceDesc) : list GRPCServiceDesc :=
  if is_Ok (Desc_Validate sd) && negb (bool_decide (Code sd ∈ Code <$> acc)) then acc ++ [sd]
  else acc.

Record holds (gs : GRPCServer) (acc : list GRPCServiceDesc) : Prop := {
  ho_lookup : forall c sd, gs_services gs !! c = Some sd <-> sd ∈ acc /\ Code sd = c;
  ho_codes : NoDup (Code <$> acc);
  ho_valid : Forall valid_desc acc;
}.

Lemma RegisterService_holds gs acc c n os err gs' :
  holds gs acc -> RegisterService gs c n os = Ret (err, gs') ->
  holds gs' (admit_service acc (described c n os)).
Proof.
  intros Hh. pose proof Hh as [Hl Hc Hv]. unfold RegisterService, admit_service.
  destruct (Desc_Validate _) as [[]|e] eqn:Hval; simpl; [|by intros [= <- <-]].
  destruct (gs_services gs !! _) as [sd|] eqn:Hs.
  { intros [= <- <-]. rewrite bool_decide_true; [done|].
    apply Hl in Hs as [Hin <-]. by apply list_elem_of_fmap_2. }
  assert (Code (described c n os) ∉ Code <$> acc) as Hnot.
  { intros (sd & E & Hin)%list_elem_of_fmap.
    assert (gs_services gs !! Code (described c n os) = Some sd) by (by apply Hl). congruence. }
  case_bool_decide; [done|]. intros [= <- <-]. rewrite bool_decide_false by done. simpl.
  split; simpl.
  - intros c' sd. rewrite lookup_insert_Some, elem_of_app, list_elem_of_singleton, Hl.
    split; [intros [[<- <-]|[Hne [Hin <-]]]; auto|].
    intros [[Hin| ->] <-]; [right|by left]. split; [|done]. intros E. apply Hnot. rewrite E.
    by apply list_elem_of_fmap_2.
  - rewrite fmap_app. apply NoDup_app. split_and!; [done| |apply NoDup_singleton].
    intros x Hx ->%list_elem_of_singleton. done.
  - apply Forall_app. split; [done|]. apply Forall_singleton. by apply Desc_Validate_ok.
Qed.

Lemma register_all_holds regs gs acc gs' :
  holds gs acc -> register_all gs regs = Ret gs' ->
  holds gs' (foldl admit_service acc (wanted <$> regs)).
Proof.
  revert gs acc. induction regs as [|[[c n] os] regs IH]; intros gs acc Hh; simpl.
  { by intros [= <-]. }
  intros ([err gs1] & H1 & H2)%outcome_bind_Ret. eapply IH; [|done].
  by eapply RegisterService_holds.
Qed.

(** The services in a node's entry are exactly those its program registered, in no
    particular order: of the registrations in sequence, the valid ones whose code was
    not taken. Their codes are distinct, and the entry passes validation as far as the
    services are concerned, once the server has an address. *)
Theorem registered_services addr regs gs entry :
  register_all (NewGRPCServer addr) regs = Ret gs ->
  let e := GRPC (CompleteNodeEntry gs entry) in
  Services e ≡ₚ foldl admit_service [] (wanted <$> regs) /\
  NoDup (Code <$> Services e) /\ Forall valid_desc (Services e) /\
  (Endpoint e <> ""%string -> GRPC_Validate e = Ok ()).
Proof.
  intros Hreg e.
  assert (holds (NewGRPCServer addr) []) as H0.
  { split; simpl; [|constructor|constructor]. intros c sd. rewrite lookup_empty.
    split; [done|]. by intros [?%not_elem_of_nil _]. }
  destruct (register_all_holds _ _ _ _ H0 Hreg) as [Hl Hc Hv].
  set (acc := foldl admit_service [] (wanted <$> regs)) in *.
  assert (Services e ≡ₚ acc) as Hp.
  { apply NoDup_Permutation; [|by eapply NoDup_fmap_1|].
    - apply (NoDup_fmap_1 Code). unfold e. simpl. unfold range_values.
      rewrite range_order_perm, <- list_fmap_compose.
      replace ((Code ∘ snd) <$> map_to_list (gs_services gs)) with ((map_to_list (gs_services gs)).*1);
        [apply NoDup_fst_map_to_list|].
      apply list_fmap_ext. intros i [c sd] Hi. simpl.
      apply list_elem_of_lookup_2, elem_of_map_to_list, Hl in Hi as [_ <-]. done.
    - intros sd. unfold e. simpl. rewrite elem_of_range_values. setoid_rewrite Hl. naive_solver. }
  split; [done|]. split; [by rewrite Hp|]. split; [by rewrite Hp|].
  intros He. apply GRPC_Validate_ok. right. split; [done|]. by rewrite Hp.
Qed.

Context `{N : Net} `{X : XXHash} `{G : GRPCDial} `{SI : SessionIface}.
Context `{PE : !ProtoMessage Empty} `{PR : !ProtoMessage RPCError}.

(** The service that handles a forwarded request finds the user and the gateway in
    the context of the call: the ID of the session that sent the request, and the ID of
    the gateway, whatever metadata the session carries. *)
Theorem service_sees_caller gw s req env c gw' id :
  gw_nodeID gw = ulid_String id -> prepare gw s req env = Ret (Ok c, gw') ->
  SessionIDInContext (call_md c) = Ret (Sess_ID (heap gw s)) /\
  GatewayIDInContext (call_md c) = Ret id.
Proof.
  intros Hid Hp. apply prepare_md in Hp as ->. unfold SessionIDInContext, GatewayIDInContext.
  unfold forwarded_md. rewrite lookup_insert_ne, lookup_insert_eq by done.
  rewrite lookup_insert_eq, Hid, ulid_parse_string. done.
Qed.

(** A reply reaches the client as the service meant it: the message a handler
    returns for a method with a reply code, packed by [PackReply] and given the ID of
    the request and its service by the gateway, is what [UnpackReply] yields, if the
    client registered the type of the message for the service and the code. *)
Theorem reply_roundtrip {M} `{PM : ProtoMessage M} `{PL : !ProtoLaws M} {mtype message}
  (unmarshal_as : mtype -> bytes -> result message) (inject : M -> message) t types
  codes method handler m code reply id svc :
  (forall b, unmarshal_as t b = match proto_Unmarshal b with Ok x => Ok (inject x) | Err e => Err e end) ->
  handler () = Ok m -> assign codes !! method = Some code ->
  PackReply codes method handler = Ok (Packed reply) ->
  GetReplyType types svc code = Some t ->
  UnpackReply unmarshal_as types (SetServiceCode (SetRequestId reply id) svc) = Some (Ok (inject m)).
Proof.
  intros Hun Hh Hcode Hpack Ht. unfold PackReply in Hpack. rewrite Hh, Hcode in Hpack.
  unfold NewReply in Hpack. destruct (proto_Marshal m) as [data|] eqn:Hm; [|done].
  injection Hpack as <-. unfold UnpackReply. simpl. rewrite Ht, Hun.
  by rewrite (proto_roundtrip _ _ Hm).
Qed.
End Claims.

(** ** Witnesses *)

Definition sample_regs : list registration :=
  [(7, "chat.Room", [WithPublic; WithStateful]); (7, "chat.Other", []); (0, "chat.None", []);
   (8, "chat.Admin", [])]%string.

Lemma registered_services_witness :
  exists gs, register_all (NewGRPCServer "10.0.0.1:9000") sample_regs = Ret gs /\
    Services (GRPC (CompleteNodeEntry gs room_node)) ≡ₚ
      [described 7 "chat.Room" [WithPublic; WithStateful]; described 8 "chat.Admin" []].
Proof.
  eexists. split; [vm_compute; reflexivity|].
  refine (proj1 (registered_services "10.0.0.1:9000" sample_regs _ room_node _)).
  vm_compute. reflexivity.
Defined.

Definition id_gateway : Gateway := {|
  gw_nodeID := ulid_String (sample_id 5); sessions := sessions room_gateway; hub_closed := false;
  sessionCount := 2; table := newStateTable; gw_registry := room_registry;
  heap := heap room_gateway |}.

Lemma service_sees_caller_witness :
  exists c gw', prepare id_gateway 0 (sample_request 7 "m") sample_env = Ret (Ok c, gw') /\
    SessionIDInContext (call_md c) = Ret "alice"%string /\
    GatewayIDInContext (call_md c) = Ret (sample_id 5).
Proof.
  eexists _, _. split; [vm_compute; reflexivity|].
  apply (service_sees_caller id_gateway 0 (sample_request 7 "m") sample_env _
    (outcome_get (Err io_EOF, id_gateway) (prepare id_gateway 0 (sample_request 7 "m") sample_env)).2
    (sample_id 5)); [reflexivity|]. vm_compute. reflexivity.
Defined.

#[export] Instance sample_EmptyLaws : ProtoLaws Empty.
Proof. split. intros [u] b [= <-]. done. Qed.

Lemma reply_roundtrip_witness :
  UnpackReply (fun (_ : unit) b => proto_Unmarshal (A := Empty) b) {[ (7, 2) := tt ]}
    (SetServiceCode (SetRequestId
       {| Rep_RequestId := 0; Rep_ServiceCode := 0; Rep_Code := 2; Rep_Data := [Byte.x61] |} 42) 7)
  = Some (Ok {| unknown_fields := [Byte.x61] |}).
Proof.
  apply (reply_roundtrip (fun (_ : unit) b => proto_Unmarshal (A := Empty) b) (fun x => x) tt
    {[ (7, 2) := tt ]} [{["/chat.Room/Say"%string := 2]}] "/chat.Room/Say"
    (fun _ => Ok {| unknown_fields := [Byte.x61] |})
    {| unknown_fields := [Byte.x61] |} 2
    {| Rep_RequestId := 0; Rep_ServiceCode := 0; Rep_Code := 2; Rep_Data := [Byte.x61] |} 42 7).
  - reflexivity.
  - reflexivity.
  - reflexivity.
  - reflexivity.
  - reflexivity.
Defined.
