(* ===== verification/Trace.v ===== *)
(** * Trace: the log of a request in the gateway and in the service

    The interceptor [LogUnary] of [component/rpc/interceptors.go], with the loggers of
    [Metrics], and what the lines of the two processes have in common. *)

From S2P Require Import Prelude External Entry PathLib Samples Balancer Resolver StateTable Messages Registry Gateway Request Metrics Rpc.

Local Open Scope go_scope.
Local Open Scope Z_scope.
Local Open Scope list_scope.

(** [metadata.FromIncomingContext]: [None] if the context has no metadata. *)
Definition incoming : Type := option (gmap string (list string)).

(** [md.Get], of which the interceptor uses the first value. *)
Definition first_value (md : gmap string (list string)) (key : string) : option string :=
  md !! key ≫= head.

Definition traced_fields (md : incoming) : list (string * field) :=
  match md with
  | Some md =>
      match first_value md MDSessID with Some v => [("sessID"%string, FString v)] | None => [] end ++
      match first_value md MDTransactionID with Some v => [("transID"%string, FString v)] | None => [] end
  | None => []
  end.

(** The function [logRequest] returns; [duration] is what has passed since the call of
    [logRequest]. *)
Definition logRequest (md : incoming) (l : Logger) (method : string) (duration : Z) (err : option gerror)
  : list line :=
  let vars := [("method", FString method); ("duration", FDuration duration)]%string ++ traced_fields md in
  match err with
  | Some err => log l Error "grpc request" (vars ++ [("error"%string, FError err)])
  | None => log l Info "grpc request" vars
  end.

(** [LogUnary]: the arguments of a deferred call are evaluated at the [defer], when the
    result [err] is still nil. *)
Definition LogUnary {A} (l : Logger) (md : incoming) (FullMethod : string) (duration : Z)
    (handler : () -> result A) : result A * list line :=
  let err : option gerror := None in
  let deferred := logRequest md l FullMethod duration err in
  (handler (), deferred).

(** ** The claims *)

(** The interceptor does not change what the handler returns, and what is logged does not
    depend on it: a call that fails is logged as one that succeeded, without its error. *)
Theorem failures_logged_as_successes {A} l md method duration (handler handler' : () -> result A) :
  fst (LogUnary l md method duration handler) = handler () /\
  snd (LogUnary l md method duration handler) = snd (LogUnary l md method duration handler') /\
  forall ln, ln ∈ snd (LogUnary l md method duration handler) ->
    ln_level ln = Info /\ "error"%string ∉ (ln_fields ln).*1.
Proof.
  split_and!; [done..|]. unfold LogUnary, logRequest, log. simpl.
  destruct l; [by intros ? ?%not_elem_of_nil|].
  intros ln ->%list_elem_of_singleton. simpl. split; [done|].
  assert ("error"%string ∉ (traced_fields md).*1) as H.
  { unfold traced_fields. destruct md as [md|]; [|apply not_elem_of_nil].
    destruct (first_value md MDSessID), (first_value md MDTransactionID); simpl; set_solver. }
  rewrite !not_elem_of_cons. done.
Qed.

Section Trace.
Context `{U : ULID} `{R : MapRange} `{N : Net} `{X : XXHash} `{G : GRPCDial} `{SI : SessionIface}.
Context `{PE : !ProtoMessage Empty} `{UP : Upstream}.

(** The variables at the end of a request that was forwarded: those of its call. *)
Lemma at_end_forwarded gw s req env c gw1 :
  prepare gw s req env = Ret (Ok c, gw1) ->
  exists v desc, at_end gw s req env = Ret v /\ v_conn v = Some (call_conn c) /\ v_desc v = Some desc /\
    GetGRPCDesc (gw_registry gw) (Req_ServiceCode req) = Some desc /\
    v_trans v = Some (transaction env) /\ v_method v = call_method c.
Proof.
  unfold prepare, at_end. destruct (RequestInterceptor env _ req) as [[]|]; [|done..].
  destruct (GetGRPCDesc _ _) as [desc|]; [|done]. destruct (Public desc); [|done]. simpl.
  intros ([[cn|err] gw2] & -> & Hp)%outcome_bind_Ret; [|done]. simpl.
  destruct (newEmptyMessage _); [|done]. injection Hp as <- <-. by eexists _, _.
Qed.

(** A request can be traced: when the gateway forwards a request to a service that logs
    its calls, the one line the service logs names the method called, the session that
    sent the request and its transaction, whatever metadata the session carries; the line
    the gateway logs, if any, names the same session and, in a field of its own, the same
    transaction, next to the node that was called. *)
Theorem request_traced code_String gw s req env c gw1 RequestLogger default_ m duration name
    served {A} (handler : () -> result A) :
  prepare gw s req env = Ret (Ok c, gw1) ->
  exists v, at_end gw s req env = Ret v /\
    snd (LogUnary (Custom name) (Some (call_md c)) (call_method c) served handler) =
      [{| ln_logger := name; ln_level := Info; ln_msg := "grpc request";
          ln_fields := [("method", FString (call_method c)); ("duration", FDuration served);
                        ("sessID", FString (Sess_ID (heap gw s)));
                        ("transID", FString (ulid_String (transaction env)))]%string |}] /\
    forall ln, ln ∈ snd (Metrics.logRequest code_String gw s req RequestLogger default_ m v duration) ->
      ("session"%string, FSession s) ∈ ln_fields ln /\
      (forall x, ("transID"%string, x) ∈ ln_fields ln <-> x = FString (ulid_String (transaction env))) /\
      ("upstream"%string, FConn (call_conn c)) ∈ ln_fields ln.
Proof.
  intros Hp. destruct (at_end_forwarded _ _ _ _ _ _ Hp) as (v & desc & Hv & Hc & Hd & _ & Ht & _).
  exists v. split; [done|]. split.
  { rewrite (prepare_md _ _ _ _ _ _ Hp). unfold LogUnary, logRequest, traced_fields, first_value, forwarded_md.
    simpl. rewrite lookup_insert_ne, lookup_insert_eq by done.
    do 2 rewrite lookup_insert_ne by done. by rewrite lookup_insert_eq. }
  intros ln Hin. assert (ln_fields ln = log_fields gw s req v duration) as ->.
  { revert Hin. unfold Metrics.logRequest, log. simpl. destruct (v_err v), RequestLogger as [[]|], default_;
      simpl; first [by intros ?%not_elem_of_nil|by intros ->%list_elem_of_singleton]. }
  unfold log_fields. rewrite Hc, Hd, Ht. split_and!.
  - set_solver.
  - intros x. split; [|intros ->; set_solver].
    rewrite !elem_of_app, !list_elem_of_singleton. case_bool_decide; case_match;
      repeat case_match; set_solver.
  - set_solver.
Qed.
End Trace.

(** ** Witness *)

(** A request of alice, by way of the sample gateway. *)
Lemma request_traced_witness :
  exists c gw1, prepare id_gateway 0 (sample_request 7 "m") sample_env = Ret (Ok c, gw1) /\
    (("sessID"%string, FString "alice") ∈
       ((snd (LogUnary (Custom "room") (Some (call_md c)) (call_method c) 5 (fun _ => Ok tt))) ≫= ln_fields)).
Proof.
  destruct (is_prepared_Ret (prepare id_gateway 0 (sample_request 7 "m") sample_env)) as (c & gw1 & E);
    [vm_compute; reflexivity|].
  exists c, gw1. split; [done|].
  destruct (request_traced (fun _ => ""%string) _ _ _ _ _ _ None nullLogger no_metrics 5 "room" 5
    (fun _ => Ok tt) E) as (v & _ & -> & _).
  cbn [mbind list_bind app ln_fields]. by apply (list_elem_of_lookup_2 _ 2).
Defined.
