(* ===== verification/Echo.v ===== *)
(** * Echo: the service of the echo example ([example/echo/rpc])

    A program written with the library from end to end: the server registers the service
    with its interceptors, the client calls it through a gateway. *)

From S2P Require Import Prelude External Entry PathLib Samples Balancer Resolver StateTable Messages Registry Gateway Request Client Metrics Rpc Trace.

Local Open Scope go_scope.
Local Open Scope Z_scope.
Local Open Scope list_scope.

(** ** Messages ([echo/service.proto], [cluster/services.proto]) and the generated table *)

Record Msg := { msg_Content : string }.
Definition ReplyCode_MSG : Z := 1.
Definition Services_ECHO : Z := 2.
Definition Echo_MethodReplyCodes : gmap string Z := {["/echo.Echo/Send"%string := ReplyCode_MSG]}.
Definition Echo_ServiceName : string := "echo.Echo".

(** ** The server *)

(** The options of [newGRPCServer]; [balancer] and [weight] are flags. *)
Definition echo_options (balancer : string) (weight : Z) : list Rpc.Option :=
  let options := [WithPublic; WithBalancer balancer] in
  if 0 <? weight then options ++ [WithWeight weight] else options.

Definition newGRPCServer (listen balancer : string) (weight : Z) : outcome (result GRPCServer) :=
  let gs := NewGRPCServer listen in
  let! (err, gs) := RegisterService gs Services_ECHO Echo_ServiceName (echo_options balancer weight) in
  Ret (match err with
       | Some err => Err (Errorf "register service, %w" [] (Some err))
       | None => Ok gs
       end).

Definition Send (msg : Msg) : result Msg := Ok msg.

(** The handler behind [ChainUnaryInterceptor], of which the first interceptor is the
    outermost: what it yields, and what is logged. *)
Definition echo_handler `{ProtoMessage Msg} (l : Logger) (md : incoming) (method : string) (duration : Z)
    (msg : Msg) : result (response Msg) * list line :=
  LogUnary l md method duration (fun _ => PackReply [Echo_MethodReplyCodes] method (fun _ => Send msg)).

(** ** Lemmas *)

(** The service as a node describes it, if its flags are valid. *)
Lemma newGRPCServer_desc listen balancer weight gs desc :
  newGRPCServer listen balancer weight = Ret (Ok gs) -> gs_services gs !! Services_ECHO = Some desc ->
  Path desc = "/echo.Echo"%string /\ Public desc = true /\ Stateful desc = false /\
  Balancer_policy desc = balancer.
Proof.
  unfold newGRPCServer, echo_options. intros ([err gs'] & Hr & Hg)%outcome_bind_Ret Hd.
  injection Hg as Hg. destruct err; [done|]. injection Hg as ->. unfold RegisterService in Hr.
  destruct (Desc_Validate _); [|done]. cbn [gs_services NewGRPCServer] in Hr. rewrite lookup_empty in Hr. case_bool_decide; [done|]. injection Hr as <-.
  cbn [gs_services] in Hd. destruct (0 <? weight); cbn in Hd;
    rewrite lookup_insert_eq in Hd; injection Hd as <-; by split_and!.
Qed.

(** The request a client sends, apart from what options add. *)
Lemma send_request `{PQ : !ProtoMessage Request} seq code method input opts write seq' req :
  Client.send seq code method input opts write = (seq', Some req, None) ->
  Req_ServiceCode req = code /\ Req_Method req = method /\ input = Ok (Req_Data req).
Proof.
  unfold Client.send. destruct input as [data|]; [|done]. set (r0 := {| Req_Id := _ |}).
  assert (forall r, let r' := foldl apply_call_option r opts in
    Req_ServiceCode r' = Req_ServiceCode r /\ Req_Method r' = Req_Method r /\ Req_Data r' = Req_Data r) as Hopts.
  { induction opts as [|o opts IH]; intros r; [done|]. destruct (IH (apply_call_option r o)) as (H1 & H2 & H3).
    cbn [foldl]. rewrite H1, H2, H3. by destruct o. }
  destruct (Hopts r0) as (H1 & H2 & H3). destruct (proto_Marshal _); [|done].
  intros [= _ <- _]. by rewrite H1, H2, H3.
Qed.

(** Unknown fields survive: data of a message that was read as an [Empty], where all its
    fields are unknown, is written as data of the same message, whatever the order and the
    encoding of the fields; and a message without fields has no data. *)
Class UnknownKept `{ProtoMessage Empty} `{ProtoMessage Msg} := {
  unknown_kept : forall (msg : Msg) b e, proto_Marshal msg = Ok b -> proto_Unmarshal b = Ok e ->
    exists b', proto_Marshal (A := Empty) e = Ok b' /\ proto_Unmarshal b' = Ok msg;
  empty_marshal : proto_Marshal emptyMessage = Ok [];
}.

Lemma newEmptyMessage_kept `{UnknownKept} `{!ProtoLaws Msg} (msg : Msg) b e :
  proto_Marshal msg = Ok b -> newEmptyMessage b = Ok e ->
  exists b', proto_Marshal e = Ok b' /\ proto_Unmarshal b' = Ok msg.
Proof.
  intros Hm. destruct b; simpl; [intros [= <-]|by apply unknown_kept].
  exists []. split; [apply empty_marshal|by apply proto_roundtrip].
Qed.

(** What the handler yields for a message. *)
Lemma echo_handler_packs `{PM : !ProtoMessage Msg} l md duration msg data :
  proto_Marshal msg = Ok data ->
  fst (echo_handler l md "/echo.Echo/Send" duration msg) =
    Ok (Packed {| Rep_RequestId := 0; Rep_ServiceCode := 0; Rep_Code := ReplyCode_MSG; Rep_Data := data |}).
Proof.
  intros Hm. unfold echo_handler, LogUnary, PackReply, Send. cbn [fst].
  change (assign [Echo_MethodReplyCodes] !! "/echo.Echo/Send"%string) with (Some ReplyCode_MSG).
  unfold NewReply. by rewrite Hm.
Qed.

(** ** The claims *)
Section Claims.
Context `{L : ULIDLaws} `{R : MapRange} `{N : Net} `{X : XXHash} `{G : GRPCDial} `{SI : SessionIface}.
Context `{PE : !ProtoMessage Empty} `{PM : !ProtoMessage Msg} `{PML : !ProtoLaws Msg} `{UK : !UnknownKept}.
Context `{PR : !ProtoMessage RPCError} `{UP : Upstream} `{PQ : !ProtoMessage Request}.
(** What the server of a node logs to. *)
Variable logger : Logger.

(** A call of gRPC may fail, but one that succeeds was handled: the handler was given the
    message that was sent, with some metadata, and took some time, and the call yields the
    reply of the handler. *)
Hypothesis grpc_call : forall c data reply,
  call_method c = "/echo.Echo/Send"%string -> proto_Marshal (call_input c) = Ok data ->
  conn_Invoke c = Ok reply ->
  exists (msg : Msg) md duration, proto_Unmarshal data = Ok msg /\
    fst (echo_handler logger md (call_method c) duration msg) = Ok (Packed reply).

(** C10. What is sent to the echo service comes back if the call of gRPC succeeds: if a
    client sends a message to the service, a gateway that knows the service from its node
    finds a node for the request, and the call to it does not fail, then the gateway handles
    the request by sending one reply to the session, and the client's call, if it waits when
    the reply arrives, returns without error and with the message that was sent, whatever
    the flags of the node, the options of the call, and the load balancing. *)
Theorem echo_comes_back listen balancer weight gs desc gw s req env c gw1 out
    seq (msg : Msg) opts write seq' ls st i :
  newGRPCServer listen balancer weight = Ret (Ok gs) -> gs_services gs !! Services_ECHO = Some desc ->
  GetGRPCDesc (gw_registry gw) Services_ECHO = Some desc ->
  Client.send seq Services_ECHO "Send" (proto_Marshal msg) opts write = (seq', Some req, None) ->
  Req_NoReply req = false -> prepare gw s req env = Ret (Ok c, gw1) ->
  conn_Invoke c = Ok out ->
  (forall reply, session_Send (heap gw s) reply = None) ->
  calls_in ls < 2 ^ 32 -> crun cstart ls = Some st -> Client.recv_loop st = AtStream ->
  calls st !! i = Some {| c_req := req; c_phase := Waiting; c_chan := [] |} ->
  exists reply gw2 st' d,
    handleRequest gw s req env = Ret gw2 /\ heap gw2 s = sent reply (heap gw s) /\
    (forall s', s' <> s -> heap gw2 s' = heap gw s') /\
    crun st [CReceive reply; CPush; CTake i] = Some st' /\
    calls st' !! i = Some d /\ c_phase d = Leaving (Got reply) /\
    reply_return reply = RNil (Some msg).
Proof.
  intros Hgs Hdesc Hreg Hsend Hno Hp Hout Hopen Hlt Hrun Hat Hi.
  destruct (send_request _ _ _ _ _ _ _ _ Hsend) as (Hcode & Hmeth & Hdata).
  destruct (newGRPCServer_desc _ _ _ _ _ Hgs Hdesc) as (Hpath & _).
  destruct (prepare_call _ _ _ _ _ _ Hp) as (desc' & Hd' & Hm & Hin).
  rewrite Hcode, Hreg in Hd'. injection Hd' as <-.
  rewrite Hpath, Hmeth in Hm. change (call_method c = "/echo.Echo/Send"%string) in Hm.
  destruct (newEmptyMessage_kept msg (Req_Data req) _ Hdata Hin) as (data & Hsent & Hread).
  destruct (grpc_call c data out Hm Hsent Hout) as (msg' & md & duration & Hmsg & Hh).
  assert (msg' = msg) as -> by congruence. rewrite Hm, (echo_handler_packs _ _ _ _ _ Hdata) in Hh.
  injection Hh as <-. set (out := {| Rep_RequestId := _ |}) in *.
  set (reply := SetServiceCode (SetRequestId out (Req_Id req)) (Req_ServiceCode req)).
  destruct (waiting_takes ls st i req reply Hlt Hrun Hat Hi eq_refl) as (st' & d & Hst' & Hd & Hph).
  exists reply, (sendReply gw1 s reply), st', d.
  assert (heap gw1 = heap gw) as Eh by (by eapply prepare_heap).
  split; [unfold handleRequest; by rewrite Hp; cbn [outcome_bind]; rewrite Hout, Hno|].
  split; [rewrite sendReply_heap, decide_True by done; unfold try_send; by rewrite Eh, Hopen|].
  split; [intros s' Hne; rewrite sendReply_heap, decide_False by done; by rewrite Eh|].
  split; [done|]. split; [done|]. split; [done|].
  unfold reply_return. cbn [reply SetServiceCode SetRequestId Rep_ServiceCode]. rewrite Hcode. simpl.
  by rewrite (proto_roundtrip msg (Req_Data req)).
Qed.
End Claims.

(** ** Witness *)

#[local] Instance text_Msg : ProtoMessage Msg := {|
  proto_Marshal m := Ok (String.list_byte_of_string (msg_Content m));
  proto_Unmarshal b := Ok {| msg_Content := String.string_of_list_byte b |};
|}.
#[local] Instance text_MsgLaws : ProtoLaws Msg.
Proof. split. intros [t] b [= <-]. cbn. by rewrite String.string_of_list_byte_of_string. Qed.
#[local] Instance sample_UnknownKept : UnknownKept.
Proof.
  split; [|done]. intros msg b e Hm [= <-]. exists b. split; [done|]. by apply proto_roundtrip.
Qed.
#[local] Instance plain_Request : ProtoMessage Request := {|
  proto_Marshal _ := Ok []; proto_Unmarshal _ := Err (EForeign "proto") |}.

(** Every node runs the echo server. *)
#[local] Instance echo_Upstream : Upstream := {|
  conn_Invoke c :=
    match proto_Marshal (call_input c) with
    | Ok data =>
        match proto_Unmarshal data with
        | Ok msg => match fst (echo_handler nullLogger (Some (call_md c)) (call_method c) 5 msg) with
                    | Ok (Packed reply) => Ok reply
                    | Ok (Unpacked _) => Err (EForeign "reply")
                    | Err err => Err err
                    end
        | Err err => Err err
        end
    | Err err => Err err
    end |}.

Definition echo_server : GRPCServer :=
  match newGRPCServer "10.0.0.1:9001" BalancerRandom 0 with Ret (Ok gs) => gs | _ => NewGRPCServer "" end.
Definition echo_desc : GRPCServiceDesc := described Services_ECHO Echo_ServiceName (echo_options BalancerRandom 0).
Definition echo_node : NodeEntry :=
  CompleteNodeEntry echo_server (sample_node 1 NodeOK "" []).
Definition echo_gateway : Gateway :=
  sample_gateway (set_resolver (initial "") (outcome_get newGRPCResolver (Update builtin newGRPCResolver echo_node))).

Definition hello : Msg := {| msg_Content := "hello world!" |}.
Definition call_hello : client_label :=
  CCall Services_ECHO "Send" (proto_Marshal hello) [Client.WithStream "test:echo"] (fun _ _ => None).
Definition hello_request : Request :=
  default (sample_request 0 "") (Client.send 0 Services_ECHO "Send" (proto_Marshal hello)
    [Client.WithStream "test:echo"] (fun _ _ => None)).1.2.
Definition hello_client : CState := default cstart (crun cstart [call_hello; CStore 0]).

Lemma sample_grpc_call c data reply :
  call_method c = "/echo.Echo/Send"%string -> proto_Marshal (call_input c) = Ok data -> conn_Invoke c = Ok reply ->
  exists (msg : Msg) md duration, proto_Unmarshal data = Ok msg /\
    fst (echo_handler nullLogger md (call_method c) duration msg) = Ok (Packed reply).
Proof.
  intros _ Hd. unfold conn_Invoke, echo_Upstream. rewrite Hd.
  destruct (proto_Unmarshal data) as [msg|] eqn:Hu; [|done].
  destruct (fst (echo_handler _ _ _ _ _)) as [[r|r]|] eqn:Hh; try done. intros [= ->].
  by exists msg, (Some (call_md c)), 5.
Qed.

(** Runs of [prepare] whose call does not fail. *)
Definition is_called (o : outcome (result Request.call * Gateway)) : bool :=
  match o with
  | Ret (Ok c, _) => match conn_Invoke c with Ok _ => true | Err _ => false end
  | _ => false
  end.
Lemma is_called_Ret o : is_called o = true -> exists c gw out, o = Ret (Ok c, gw) /\ conn_Invoke c = Ok out.
Proof.
  destruct o as [[[c|] gw]| |]; try done. unfold is_called. destruct (conn_Invoke c) as [out|] eqn:E; [|done].
  intros _. by exists c, gw, out.
Qed.

Lemma echo_comes_back_witness :
  exists reply st', crun hello_client [CReceive reply; CPush; CTake 0] = Some st' /\
    reply_return reply = RNil (Some hello).
Proof.
  destruct (is_called_Ret (prepare echo_gateway 0 hello_request sample_env)) as (c & gw1 & out & Hp & Hout);
    [vm_compute; reflexivity|].
  destruct (echo_comes_back nullLogger sample_grpc_call) with (listen := "10.0.0.1:9001"%string) (balancer := BalancerRandom)
    (weight := 0) (gs := echo_server) (desc := echo_desc) (gw := echo_gateway) (s := 0%nat) (req := hello_request)
    (env := sample_env) (c := c) (gw1 := gw1) (out := out) (seq := 0) (msg := hello)
    (opts := [Client.WithStream "test:echo"]) (write := fun (_ : Z) (_ : bytes) => @None gerror) (seq' := 1)
    (ls := [call_hello; CStore 0]) (st := hello_client) (i := 0%nat)
    as (reply & gw2 & st' & d & _ & _ & _ & Hrun & _ & _ & Hret).
  - vm_compute. reflexivity.
  - vm_compute. reflexivity.
  - vm_compute. reflexivity.
  - vm_compute. reflexivity.
  - reflexivity.
  - exact Hp.
  - exact Hout.
  - intros reply. reflexivity.
  - reflexivity.
  - vm_compute. reflexivity.
  - vm_compute. reflexivity.
  - vm_compute. reflexivity.
  - exists reply, st'. split; [exact Hrun|exact Hret].
Defined.
