(* ===== verification/Room.v ===== *)
(** * Room: the chat service ([example/chat/room])

    A service written with the library: its handlers, called with the metadata of a
    gateway, change the set of members and multicast news to them. *)

From S2P Require Import Prelude External Entry PathLib Samples Balancer Resolver StateTable Messages Registry Gateway Request Workers Bus Events Rpc.

Local Open Scope go_scope.
Local Open Scope Z_scope.
Local Open Scope list_scope.

(** ** Messages ([room/service.proto], [cluster/services.proto]) *)

Record JoinRequest := { jr_Name : string }.
Record SayRequest := { sr_To : string; sr_Content : string }.
Record News := { nw_FromId : string; nw_FromName : string; nw_Content : string }.

Definition ReplyCode_NEWS : Z := 1.
Definition Services_ROOM : Z := 1.

(** ** The service

    [members] maps IDs to names. *)
Definition roomService : Type := gmap string string.

Section Room.
Context `{R : MapRange} `{PN : !ProtoMessage News}.

(** The reply of [boardcast] and [unicast]; the error of [NewReply] is dropped, and a reply
    that is nil panics. *)
Definition news_reply (news : News) : outcome Reply :=
  match NewReply ReplyCode_NEWS news with
  | Ok response => Ret (SetServiceCode response Services_ROOM)
  | Err _ => Panic
  end.

(** What is given to [publisher.Publish], at a time; its error is only logged. *)
Definition boardcast (now : Z) (members : roomService) (news : News) : outcome Multicast :=
  let! response := news_reply news in
  Ret (NewMulticast now (fst <$> range_entries members) response).

(** The first member of the name that [Range] comes to. *)
Definition unicast (now : Z) (members : roomService) (toName : string) (news : News)
  : outcome (option Multicast) :=
  let! response := news_reply news in
  Ret (match list_find (fun m => m.2 = toName) (range_entries members) with
       | Some (_, (id, _)) => Some (NewMulticast now [id] response)
       | None => None
       end).

(** The handlers yield the new members and what is published. *)
Definition Join (now : Z) (md : gmap string (list string)) (req : JoinRequest) (members : roomService)
  : outcome (roomService * list Multicast) :=
  let! userID := SessionIDInContext md in
  let userName := if bool_decide (jr_Name req = ""%string)
                  then ("anonymous" ++ userID)%string else jr_Name req in
  let members := <[userID := userName]> members in
  let! msg := boardcast now members
    {| nw_FromId := ""; nw_FromName := ""; nw_Content := "ROOM: #" ++ userID ++ " join" |} in
  Ret (members, [msg]).

Definition Leave (now : Z) (md : gmap string (list string)) (members : roomService)
  : outcome (roomService * list Multicast) :=
  let! userID := SessionIDInContext md in
  match members !! userID with
  | Some _ =>
      let members := delete userID members in
      let! msg := boardcast now members
        {| nw_FromId := ""; nw_FromName := ""; nw_Content := "ROOM: #" ++ userID ++ " leave" |} in
      Ret (members, [msg])
  | None => Ret (members, [])
  end.

(** The test of membership and the traversal of the members are two reads in the code, between
    which others may join and leave; here nothing comes between them. *)
Definition Say (now : Z) (md : gmap string (list string)) (req : SayRequest) (members : roomService)
  : outcome (roomService * list Multicast) :=
  let! userID := SessionIDInContext md in
  match members !! userID with
  | Some name =>
      let news := {| nw_FromId := userID; nw_FromName := name; nw_Content := sr_Content req |} in
      if bool_decide (sr_To req = ""%string) then
        let! msg := boardcast now members news in Ret (members, [msg])
      else
        let! msg := unicast now members (sr_To req) news in Ret (members, option_list msg)
  | None => Ret (members, [])
  end.

(** The handlers of events that [newGRPCServer] subscribes. *)
Definition on_connected (now : Z) (userID : string) (members : roomService)
  : outcome (roomService * list Multicast) :=
  let! msg := boardcast now members
    {| nw_FromId := ""; nw_FromName := ""; nw_Content := "EVENT: #" ++ userID ++ " connected" |} in
  Ret (members, [msg]).

Definition on_disconnected (now : Z) (userID : string) (members : roomService)
  : outcome (roomService * list Multicast) :=
  let members := delete userID members in
  let! msg := boardcast now members
    {| nw_FromId := ""; nw_FromName := ""; nw_Content := "EVENT: #" ++ userID ++ " disconnected" |} in
  Ret (members, [msg]).

(** ** Sequences of calls *)

Inductive room_call :=
  | CJoin (md : gmap string (list string)) (req : JoinRequest)
  | CLeave (md : gmap string (list string))
  | CSay (md : gmap string (list string)) (req : SayRequest)
  | CConnected (userID : string)
  | CDisconnected (userID : string).

Definition room_handle (now : Z) (c : room_call) (members : roomService)
  : outcome (roomService * list Multicast) :=
  match c with
  | CJoin md req => Join now md req members
  | CLeave md => Leave now md members
  | CSay md req => Say now md req members
  | CConnected id => on_connected now id members
  | CDisconnected id => on_disconnected now id members
  end.

(** The calls with their times; a handler that panics is recovered by no one. *)
Fixpoint room_run (calls : list (Z * room_call)) (members : roomService)
  : outcome (roomService * list (roomService * Multicast)) :=
  match calls with
  | [] => Ret (members, [])
  | (now, c) :: calls =>
      let! (members, msgs) := room_handle now c members in
      let! (last, rest) := room_run calls members in
      Ret (last, ((fun m => (members, m)) <$> msgs) ++ rest)
  end.
End Room.

(** ** Lemmas *)
Section Lemmas.
Context `{R : MapRange} `{PN : !ProtoMessage News}.

(** The receivers of a broadcast are the members, each once. *)
Lemma receivers_members (members : roomService) :
  NoDup (fst <$> range_entries members) /\
  forall id, id ∈ (fst <$> range_entries members) <-> is_Some (members !! id).
Proof.
  assert (fst <$> range_entries members ≡ₚ (map_to_list members).*1) as Hp.
  { unfold range_entries. by rewrite range_order_perm. }
  split; [rewrite Hp; apply NoDup_fst_map_to_list|]. intros id. rewrite Hp, list_elem_of_fmap. split.
  - intros ([i x] & -> & H%elem_of_map_to_list). by exists x.
  - intros [x Hx]. exists (id, x). split; [done|]. by apply elem_of_map_to_list.
Qed.

(** Asking how often somebody is among them. *)
Lemma count_member (members : roomService) id :
  length (filter (fun i => i = id) (fst <$> range_entries members)) =
    if decide (is_Some (members !! id)) then 1%nat else 0%nat.
Proof.
  destruct (receivers_members members) as [Hnd Hin]. generalize dependent (fst <$> range_entries members).
  intros l Hnd Hin. case_decide as Hm.
  - apply Hin in Hm. clear Hin. induction Hnd as [|x l Hx Hnd IH]; [by apply not_elem_of_nil in Hm|].
    rewrite filter_cons. case_decide as E.
    + subst x. cbn [length]. f_equal. apply length_zero_iff_nil.
      destruct (filter _ l) as [|y k] eqn:Ef; [done|]. destruct Hx.
      assert (y ∈ filter (fun i => i = id) l) as [-> ?]%list_elem_of_filter by (rewrite Ef; by left). done.
    + apply IH. by apply elem_of_cons in Hm as [->|].
  - apply length_zero_iff_nil. destruct (filter _ l) as [|y k] eqn:Ef; [done|]. destruct Hm. apply Hin.
    assert (y ∈ filter (fun i => i = id) l) as [<- ?]%list_elem_of_filter by (rewrite Ef; by left). done.
Qed.

Lemma news_reply_spec `{PL : !ProtoLaws News} news r :
  news_reply news = Ret r ->
  proto_Unmarshal (Rep_Data r) = Ok news /\ Rep_ServiceCode r = Services_ROOM /\ Rep_Code r = ReplyCode_NEWS.
Proof.
  unfold news_reply, NewReply. destruct (proto_Marshal news) as [d|] eqn:Hm; [|done].
  intros [= <-]. split_and!; [|done..]. by apply proto_roundtrip.
Qed.

Lemma boardcast_spec `{PL : !ProtoLaws News} now members news msg :
  boardcast now members news = Ret msg ->
  Mc_Receiver msg = fst <$> range_entries members /\
  proto_Unmarshal (Rep_Data (Mc_Content msg)) = Ok news /\
  Rep_ServiceCode (Mc_Content msg) = Services_ROOM /\ Rep_Code (Mc_Content msg) = ReplyCode_NEWS.
Proof. intros (r & Hr%news_reply_spec & [= <-])%outcome_bind_Ret. done. Qed.

(** A whisper goes to one member of the name, if there is one. *)
Lemma unicast_spec `{PL : !ProtoLaws News} now members toName news msg :
  unicast now members toName news = Ret msg ->
  match msg with
  | Some msg => exists id, Mc_Receiver msg = [id] /\ members !! id = Some toName /\
      proto_Unmarshal (Rep_Data (Mc_Content msg)) = Ok news
  | None => forall id, members !! id <> Some toName
  end.
Proof.
  intros (r & Hr%news_reply_spec & [= <-])%outcome_bind_Ret.
  assert (forall id x, (id, x) ∈ range_entries members <-> members !! id = Some x) as Hin.
  { intros id x. unfold range_entries. by rewrite range_order_perm, elem_of_map_to_list. }
  destruct (list_find _ _) as [[i [id x]]|] eqn:Hf.
  - apply list_find_Some in Hf as (Hi & Hx & _). simpl in Hx. subst x. exists id.
    split; [done|]. split; [|apply Hr]. apply Hin. by eapply list_elem_of_lookup_2.
  - intros id Hid%Hin. apply list_find_None in Hf. rewrite Forall_forall in Hf. by apply (Hf (id, toName)).
Qed.
Definition addressed (members : roomService) (m : Multicast) : Prop :=
  (NoDup (Mc_Receiver m) /\ forall id, id ∈ Mc_Receiver m <-> is_Some (members !! id)) \/
  exists id, Mc_Receiver m = [id] /\ is_Some (members !! id).

Lemma boardcast_addressed now members news msg ms msgs :
  (let! msg := boardcast now members news in Ret (members, [msg])) = Ret (ms, msgs) ->
  msg ∈ msgs -> addressed ms msg.
Proof.
  intros (m & (r & _ & [= <-])%outcome_bind_Ret & [= <- <-])%outcome_bind_Ret ->%list_elem_of_singleton.
  left. apply receivers_members.
Qed.

Lemma unicast_addressed now members toName news msg ms msgs :
  (let! msg := unicast now members toName news in Ret (members, option_list msg)) = Ret (ms, msgs) ->
  msg ∈ msgs -> addressed ms msg.
Proof.
  intros (m & (r & _ & [= <-])%outcome_bind_Ret & [= <- <-])%outcome_bind_Ret.
  destruct (list_find _ _) as [[i [id x]]|] eqn:Hf; [|by intros ?%not_elem_of_nil].
  intros ->%list_elem_of_singleton. right. exists id. split; [done|].
  apply list_find_Some in Hf as (Hi & _). apply list_elem_of_lookup_2 in Hi.
  unfold range_entries in Hi. rewrite range_order_perm, elem_of_map_to_list in Hi. eauto.
Qed.

Lemma room_handle_addressed now c members ms msgs :
  room_handle now c members = Ret (ms, msgs) -> Forall (addressed ms) msgs.
Proof.
  intros Hc. apply Forall_forall. intros m Hm. revert Hc.
  destruct c as [md req|md|md req|id|id]; simpl.
  - intros (id & _ & Hj)%outcome_bind_Ret. by eapply boardcast_addressed.
  - intros (id & _ & Hl)%outcome_bind_Ret. destruct (members !! id); [by eapply boardcast_addressed|].
    injection Hl as <- <-. by apply not_elem_of_nil in Hm.
  - intros (id & _ & Hl)%outcome_bind_Ret. destruct (members !! id).
    + case_bool_decide; [by eapply boardcast_addressed|by eapply unicast_addressed].
    + injection Hl as <- <-. by apply not_elem_of_nil in Hm.
  - intros Hl. by eapply boardcast_addressed.
  - intros Hl. by eapply boardcast_addressed.
Qed.
End Lemmas.

(** ** The claims *)
Section Claims.
Context `{L : ULIDLaws} `{R : MapRange} `{N : Net} `{X : XXHash} `{G : GRPCDial} `{SI : SessionIface}.
Context `{PE : !ProtoMessage Empty} `{PN : !ProtoMessage News} `{PLN : !ProtoLaws News}
  `{PM : !ProtoMessage Multicast} `{PLM : !ProtoLaws Multicast}.

(** C18. What is said in a room reaches its members, from the gateway of the speaker
    through the service and the bus to the gateways of the members: when a gateway forwards
    the request of a session, and the service's handler of Say is called with what was
    forwarded, a user who has not joined is not heard; of one who has, the handler
    publishes one message, and a gateway that receives it sends every session that is found
    under the ID of a member one reply, and nothing to any other session; the reply is of
    the room's service and carries the content under the ID of the session that said it,
    whatever the client claims. *)
Theorem news_reach_members gw s req env c gw1 now say members members' msgs :
  prepare gw s req env = Ret (Ok c, gw1) -> sr_To say = ""%string ->
  Say now (call_md c) say members = Ret (members', msgs) ->
  members' = members /\
  match members !! Sess_ID (heap gw s) with
  | None => msgs = []
  | Some name =>
      exists msg, msgs = [msg] /\
      forall t q err m' data, Bus.Publish t msg q = (err, m', Some data) ->
      exists heard, proto_Unmarshal data = Ok heard /\
        proto_Unmarshal (Rep_Data (Mc_Content heard)) =
          Ok {| nw_FromId := Sess_ID (heap gw s); nw_FromName := name; nw_Content := sr_Content say |} /\
        Rep_ServiceCode (Mc_Content heard) = Services_ROOM /\
        Rep_Code (Mc_Content heard) = ReplyCode_NEWS /\
        forall gw2 submit s2, (forall i, submit i = None) ->
          (forall id s, sessions gw2 !! id = Some s -> Sess_ID (heap gw2 s) = id) ->
          (forall o, session_Send o (Mc_Content heard) = None) ->
          Sent (heap (on_multicast gw2 heard submit) s2) =
            Sent (heap gw2 s2) ++
            (if decide (hub_Load gw2 (Sess_ID (heap gw2 s2)) = Some s2 /\
                        is_Some (members !! Sess_ID (heap gw2 s2)))
             then [Mc_Content heard] else [])
  end.
Proof.
  intros Hp Hto Hsay. pose proof (prepare_md _ _ _ _ _ _ Hp) as Hmd.
  assert (SessionIDInContext (call_md c) = Ret (Sess_ID (heap gw s))) as Hid.
  { unfold SessionIDInContext. rewrite Hmd. unfold forwarded_md.
    by rewrite lookup_insert_ne, lookup_insert_eq by done. }
  unfold Say in Hsay. rewrite Hid, Hto in Hsay. cbn [outcome_bind] in Hsay.
  destruct (members !! Sess_ID (heap gw s)) as [name|] eqn:Hname; [|by injection Hsay as <- <-].
  rewrite bool_decide_true in Hsay by done. apply outcome_bind_Ret in Hsay as (msg & Hmsg & [= <- <-]).
  split; [done|]. exists msg. split; [done|]. intros t q err m' data Hpub.
  apply boardcast_spec in Hmsg as (Hrec & Hnews & Hsvc & Hcode).
  apply Publish_payload in Hpub as (Hdata & _ & Em & _ & _ & _).
  assert (Mc_Receiver m' = Mc_Receiver msg /\ Mc_Content m' = Mc_Content msg) as [Er Ec]
    by (rewrite Em; by destruct (Mc_Time msg)).
  exists m'. rewrite Ec. split_and!; try done; [by apply proto_roundtrip|].
  intros gw2 submit s2 Hsub Hids Hsend.
  destruct (receivers_members members) as [_ Hin].
  rewrite on_multicast_named; [|done|done|by rewrite Ec|].
  - rewrite Er, Hrec, Ec, count_member. f_equal.
    case_bool_decide; repeat case_decide; try done; tauto.
  - rewrite Er, Hrec. intros E. assert (is_Some (members !! Sess_ID (heap gw s))) as Hm by eauto.
    apply Hin in Hm. rewrite E in Hm. by apply not_elem_of_nil in Hm.
Qed.

(** Whatever happens in a room, news goes to its members only: every message published is
    addressed to all the members there are then, each once, or to one of them. *)
Theorem room_news_to_members calls members members' log :
  room_run calls members = Ret (members', log) ->
  Forall (fun '(ms, m) => addressed ms m) log.
Proof.
  revert members log. induction calls as [|[now c] calls IH]; intros members log; simpl.
  { intros [= _ <-]. constructor. }
  intros ([ms msgs] & Hc & ([ms' rest] & Hr & [= <- <-])%outcome_bind_Ret)%outcome_bind_Ret.
  apply Forall_app. split; [|by eapply IH]. apply Forall_fmap. by eapply room_handle_addressed.
Qed.
End Claims.

(** ** Witnesses *)

#[export] Instance News_eq_dec : EqDecision News.
Proof. solve_decision. Defined.
#[export] Program Instance News_countable : Countable News :=
  inj_countable' (fun n => (nw_FromId n, nw_FromName n, nw_Content n))
    (fun '(i, n, c) => {| nw_FromId := i; nw_FromName := n; nw_Content := c |}) _.
Next Obligation. by intros []. Qed.

#[local] Instance News_proto : ProtoMessage News := coded.
#[local] Instance News_laws : ProtoLaws News := coded_laws.
#[local] Instance Multicast_proto : ProtoMessage Multicast := coded.
#[local] Instance Multicast_laws : ProtoLaws Multicast := coded_laws.

(** Alice, who joined, speaks in a room with Bob and Carol; Bob is at the gateway. *)
Definition sample_room : roomService :=
  <["alice" := "Al"]> (<["bob" := "anonymousbob"]> (<["carol" := "C"]> ∅))%string.

Definition sample_said : list Multicast :=
  (outcome_get (∅, []) (Say 5 (call_md (sample_call "/chat.Room/Say"))
     {| sr_To := ""; sr_Content := "hi" |} sample_room)).2.

Lemma news_reach_members_witness :
  exists heard, Sent (heap (on_multicast (SI := open_SessionIface) (sample_gateway (initial "")) heard (fun _ => None)) 1%nat)
    = [Mc_Content heard] /\
  proto_Unmarshal (Rep_Data (Mc_Content heard)) =
    Ok {| nw_FromId := "alice"; nw_FromName := "Al"; nw_Content := "hi" |}.
Proof.
  destruct (news_reach_members (SI := open_SessionIface) room_gateway 0 (sample_request 7 "../nodehub.Node/Shutdown")
    sample_env _ _ 5 {| sr_To := ""; sr_Content := "hi" |} sample_room sample_room sample_said
    sample_prepare) as (_ & msg & Hmsgs & Hpub).
  - reflexivity.
  - vm_compute. reflexivity.
  - destruct (Hpub 6 None None msg (encode_bytes msg)) as (heard & _ & Hnews & _ & _ & Hsent).
    + assert (msg = default (sample_multicast 1 None) (head sample_said)) as -> by (rewrite Hmsgs; reflexivity).
      apply (Publish_complete _ _ _ 5); [vm_compute; discriminate..|reflexivity|reflexivity].
    + exists heard. split; [|exact Hnews].
      rewrite Hsent; [|done|apply sample_gateway_ids|done]. vm_compute. reflexivity.
Defined.
