(* ===== verification/Generator.v ===== *)
(** * Generator: [cmd/protoc-gen-go-nodehub]

    The plugin of protoc that turns options of services and messages into tables for the
    packing and unpacking of replies. A file is what protogen says of it; the options are
    as they are read with the extensions of all files. *)

From stdpp Require Import pretty.
From S2P Require Import Prelude External Entry PathLib Samples Balancer Resolver StateTable Messages Registry Gateway Request Rpc.

Local Open Scope string_scope.
Local Open Scope list_scope.

(** ** Descriptors *)

(** A field of the options that is set, in the order of [Range]. *)
Record pField := { x_IsExtension : bool; x_Name : string; x_Value : Z }.
Record pIdent := { id_ImportPath : string; id_GoName : string }.
Record pMessage := { pm_GoIdent : pIdent; pm_Options : option (list pField) }.
Record pMethod := { me_Name : string; me_GoName : string; me_Output : pMessage }.
Record pService := {
  ps_FullName : string; ps_GoName : string; ps_Options : option (list pField); ps_Methods : list pMethod
}.
Record pFile := {
  f_Path : string; f_Deprecated : bool; f_GoPackageName : string;
  f_Services : list pService; f_Messages : list pMessage
}.

Definition optionServiceCode : string := "service_code".
Definition optionReplyCode : string := "reply_code".
Definition optionReplyService : string := "reply_service".

(** [registerAllExtensions]: messages nest. [register] adds a type or fails; the error of
    a nested call is dropped. *)
Inductive descriptors := Descriptors (nested : list descriptors) (extensions : list string).

Fixpoint register_extensions {T} (register : T -> string -> result T) (types : T) (xs : list string)
  : T * option gerror :=
  match xs with
  | [] => (types, None)
  | x :: xs =>
      match register types x with
      | Err err => (types, Some err)
      | Ok types => register_extensions register types xs
      end
  end.

Fixpoint registerAllExtensions {T} (register : T -> string -> result T) (types : T) (d : descriptors)
  : T * option gerror :=
  match d with
  | Descriptors nested extensions =>
      let types := (fix go (types : T) (ds : list descriptors) : T :=
        match ds with
        | [] => types
        | d :: ds => go (registerAllExtensions register types d).1 ds
        end) types nested in
      register_extensions register types extensions
  end.

(** ** Parsing *)

(** The first field of a name, and the last one: [Range] stops or goes on. *)
Definition is_option (name : string) (x : pField) : bool :=
  x_IsExtension x && bool_decide (x_Name x = name).
Definition first_option (name : string) (fields : list pField) : option Z :=
  x_Value <$> head (filter (fun x => is_option name x = true) fields).
Definition last_option (name : string) (fields : list pField) : option Z :=
  x_Value <$> last (filter (fun x => is_option name x = true) fields).

Definition getServiceCode (s : pService) : option Z := fields ← ps_Options s; first_option optionServiceCode fields.
Definition getReplyCode (m : pMethod) : option Z :=
  fields ← pm_Options (me_Output m); first_option optionReplyCode fields.

(** [Method], [Service] and [Message] of the plugin. *)
Record gMethod := { gm_Method : pMethod; gm_ReplyCode : Z }.
Record gService := { gs_Service : pService; gs_Code : Z; gs_Methods : list gMethod }.
Record gMessage := { gg_Message : pMessage; gg_ReplyService : Z; gg_ReplyCode : Z }.

Definition parse_method (m : pMethod) : option gMethod :=
  code ← getReplyCode m; Some {| gm_Method := m; gm_ReplyCode := code |}.
Definition parse_service (s : pService) : option gService :=
  code ← getServiceCode s;
  Some {| gs_Service := s; gs_Code := code; gs_Methods := omap parse_method (ps_Methods s) |}.
Definition parseServices (file : pFile) : list gService := omap parse_service (f_Services file).

Definition parse_message (m : pMessage) : option gMessage :=
  fields ← pm_Options m;
  service ← last_option optionReplyService fields;
  code ← last_option optionReplyCode fields;
  Some {| gg_Message := m; gg_ReplyService := service; gg_ReplyCode := code |}.
Definition parseMessages (file : pFile) : list gMessage := omap parse_message (f_Messages file).

(** ** The tables that the generated code declares *)

Definition method_name (s : pService) (m : pMethod) : string :=
  "/" +:+ ps_FullName s +:+ "/" +:+ me_GoName m.

(** [X_MethodReplyCodes]. *)
Definition method_reply_codes (s : gService) : list (string * Z) :=
  (fun m => (method_name (gs_Service s) (gm_Method m), gm_ReplyCode m)) <$> gs_Methods s.

(** The calls of [nh.RegisterReplyType] in [init]. *)
Definition reply_types (file : pFile) : list (Z * Z * pIdent) :=
  mjoin ((fun s => (fun m => (gs_Code s, gm_ReplyCode m, pm_GoIdent (me_Output (gm_Method m))))
                     <$> gs_Methods s) <$> parseServices file) ++
  ((fun m => (gg_ReplyService m, gg_ReplyCode m, pm_GoIdent (gg_Message m))) <$> parseMessages file).

(** ** The text

    [qualify] is how protogen writes an identifier, with the import it needs. *)
Section Text.
Variable qualify : pIdent -> string.

Definition nhPackage (name : string) : pIdent :=
  {| id_ImportPath := "github.com/joyparty/nodehub/proto/nh"; id_GoName := name |}.
Definition protoPackage (name : string) : pIdent :=
  {| id_ImportPath := "google.golang.org/protobuf/proto"; id_GoName := name |}.

Definition P (args : list string) : string := foldr String.append "" args.
Definition number (z : Z) : string := pretty z.
(** [%q] of a name without special characters. *)
Definition quote : string := String (Ascii.ascii_of_nat 34) "".
Definition tab : string := String (Ascii.ascii_of_nat 9) "".
Definition quoted (s : string) : string := quote +:+ s +:+ quote.

Definition gen_codes (s : gService) : list string :=
  let name := ps_GoName (gs_Service s) in
  ["";
   P ["// "; name; "_MethodReplyCodes 每个grpc方法返回值对应的nodehub.Reply.code"];
   P ["var "; name; "_MethodReplyCodes = map[string]int32{"]]
  ++ ((fun '(method, code) => P [tab; quoted method; ": "; number code; ","]) <$> method_reply_codes s)
  ++ ["}"].
Definition genMethodReplyCodes (file : pFile) : list string * bool :=
  let services := parseServices file in
  (mjoin (gen_codes <$> services), negb (bool_decide (length services = 0))).

Definition genReplyMessages (replyMessages : bool) (file : pFile) : list string * bool :=
  if negb replyMessages then ([], false)
  else if bool_decide (length (parseServices file) = 0) && bool_decide (length (parseMessages file) = 0)
  then ([], false)
  else
    (["" ; "func init() {"]
     ++ ((fun '(service, code, t) =>
            P [qualify (nhPackage "RegisterReplyType"); "("; number service; ","; number code; ", &";
               qualify t; "{})"]) <$> reply_types file)
     ++ ["}"], true).

Definition gen_pack (m : gMessage) : list string :=
  let ident := qualify (pm_GoIdent (gg_Message m)) in
  [""; P ["func Pack"; ident; "(msg *"; ident; ") (*"; qualify (nhPackage "Reply"); ", error) {"];
   P ["data, err := "; qualify (protoPackage "Marshal"); "(msg)"];
   "if err != nil { return nil, err}"; "";
   P ["return "; qualify (nhPackage "Reply_builder"); "{"];
   P ["ServiceCode:"; number (gg_ReplyService m); ","];
   P ["Code:"; number (gg_ReplyCode m); ","];
   "Data: data,"; "}.Build(), nil"; "}"].
Definition genPackFunctions (file : pFile) : list string * bool :=
  let messages := parseMessages file in
  (mjoin (gen_pack <$> messages), negb (bool_decide (length messages = 0))).

(** [generateFile]: the lines, or [None] if the file is skipped. *)
Definition generateFile (replyMessages : bool) (file : pFile) : option (list string) :=
  let header := [
    "// Code generated by protoc-gen-go-nodehub. DO NOT EDIT.";
    if f_Deprecated file then P ["// "; f_Path file; " is a deprecated file."]
    else P ["// source: "; f_Path file];
    ""; P ["package "; f_GoPackageName file]; ""] in
  let (l1, ok1) := genReplyMessages replyMessages file in
  let (l2, ok2) := genMethodReplyCodes file in
  let (l3, ok3) := genPackFunctions file in
  if ok1 || ok2 || ok3 then Some (header ++ l1 ++ l2 ++ l3) else None.
End Text.

(** ** Lemmas *)

(** The method of a call as gRPC names it. *)
Definition full_method (s : pService) (m : pMethod) : string :=
  "/" +:+ ps_FullName s +:+ "/" +:+ me_Name m.

(** The map that [X_MethodReplyCodes] is, and the types registered by the [init] of the
    generated file. *)
Definition code_table (s : gService) : gmap string Z := list_to_map (method_reply_codes s).
Definition client_types (file : pFile) : gmap (Z * Z) pIdent :=
  foldl (fun types '(service, code, t) => RegisterReplyType types service code t) ∅ (reply_types file).

Lemma assign_one codes : assign [codes] = codes.
Proof. unfold assign. simpl. apply map_union_empty. Qed.

Lemma code_table_lookup s m :
  NoDup (method_reply_codes s).*1 -> m ∈ gs_Methods s ->
  code_table s !! method_name (gs_Service s) (gm_Method m) = Some (gm_ReplyCode m).
Proof.
  intros Hnd Hm. apply elem_of_list_to_map; [done|]. unfold method_reply_codes.
  by apply (list_elem_of_fmap_2 (fun m => (method_name (gs_Service s) (gm_Method m), gm_ReplyCode m))).
Qed.

(** The last registration counts, and all for one code are of one type. *)
Lemma register_lookup (l : list (Z * Z * pIdent)) types service code t :
  (forall t', (service, code, t') ∈ l -> t' = t) ->
  ((service, code, t) ∈ l \/ types !! (service, code) = Some t) ->
  foldl (fun types '(service, code, t) => RegisterReplyType types service code t) types l
    !! (service, code) = Some t.
Proof.
  revert types. induction l as [|[[svc c] t0] l IH]; intros types Hall Hin; simpl.
  { by destruct Hin as [?%not_elem_of_nil|]. }
  apply IH; [intros t' Ht'; apply Hall; by right|].
  destruct (decide ((svc, c) = (service, code))) as [[= -> ->]|Hne].
  - right. unfold RegisterReplyType. rewrite lookup_insert_eq. f_equal. apply Hall. by left.
  - destruct Hin as [[E|Hin]%elem_of_cons|Hin]; [congruence|by left|right].
    unfold RegisterReplyType. by rewrite lookup_insert_ne.
Qed.

Lemma method_registered file s m :
  s ∈ parseServices file -> m ∈ gs_Methods s ->
  (gs_Code s, gm_ReplyCode m, pm_GoIdent (me_Output (gm_Method m))) ∈ reply_types file.
Proof.
  intros Hs Hm. unfold reply_types. apply elem_of_app. left. apply list_elem_of_join.
  eexists. split; [|apply list_elem_of_fmap_2; exact Hs].
  by apply (list_elem_of_fmap_2 (fun m => (gs_Code s, gm_ReplyCode m, pm_GoIdent (me_Output (gm_Method m))))).
Qed.

(** ** The claims *)

(** C33. The generated tables fit together, from the options in a proto file to the
    message a client gets: the result of a method with a reply code is packed by a server
    that uses the table of its service with [PackReply], and a client that runs the
    generated [init] unpacks the reply, with the ID of its request and the code of the
    service, to the message the handler returned; if the methods of the service have
    different Go names, the file uses a code of a service for one type only, and the
    method's name in the file is its Go name. *)
Theorem generated_reply_roundtrip {M} `{PM : ProtoMessage M} `{PL : !ProtoLaws M} {message}
  (unmarshal_as : pIdent -> bytes -> result message) (inject : M -> message) file s m handler x data id :
  s ∈ parseServices file -> m ∈ gs_Methods s ->
  NoDup (method_reply_codes s).*1 ->
  (forall t, (gs_Code s, gm_ReplyCode m, t) ∈ reply_types file ->
     t = pm_GoIdent (me_Output (gm_Method m))) ->
  me_GoName (gm_Method m) = me_Name (gm_Method m) ->
  (forall b, unmarshal_as (pm_GoIdent (me_Output (gm_Method m))) b
     = match proto_Unmarshal b with Ok x => Ok (inject x) | Err e => Err e end) ->
  handler () = Ok x -> proto_Marshal x = Ok data ->
  exists reply,
    PackReply [code_table s] (full_method (gs_Service s) (gm_Method m)) handler = Ok (Packed reply) /\
    Rep_Code reply = gm_ReplyCode m /\
    UnpackReply unmarshal_as (client_types file) (SetServiceCode (SetRequestId reply id) (gs_Code s))
      = Some (Ok (inject x)).
Proof.
  intros Hs Hm Hnd Hcons Hname Hun Hh Hmar. unfold PackReply, full_method. rewrite Hh, assign_one, <- Hname.
  change ("/" +:+ _) with (method_name (gs_Service s) (gm_Method m)).
  rewrite code_table_lookup by done. unfold NewReply. rewrite Hmar.
  eexists. split; [done|]. split; [done|]. unfold UnpackReply, GetReplyType. simpl.
  unfold client_types. rewrite (register_lookup _ _ _ _ _ Hcons) by (left; by apply method_registered).
  by rewrite Hun, (proto_roundtrip _ _ Hmar).
Qed.

(** ** Samples and witnesses *)

(** The service of the example (example/echo), and a method named in lower case. *)
Definition ident_Msg : pIdent := {| id_ImportPath := "echopb"; id_GoName := "Msg" |}.
Definition code_option (name : string) (v : Z) : pField := {|
  x_IsExtension := true; x_Name := name; x_Value := v |}.
Definition message_Msg : pMessage := {|
  pm_GoIdent := ident_Msg; pm_Options := Some [code_option optionReplyCode 1] |}.
Definition method_Send : pMethod := {| me_Name := "Send"; me_GoName := "Send"; me_Output := message_Msg |}.
Definition method_say_hello : pMethod := {|
  me_Name := "say_hello"; me_GoName := "SayHello"; me_Output := message_Msg |}.
Definition service_Echo (methods : list pMethod) : pService := {|
  ps_FullName := "echo.Echo"; ps_GoName := "Echo";
  ps_Options := Some [code_option optionServiceCode 2]; ps_Methods := methods |}.
Definition file_echo (methods : list pMethod) : pFile := {|
  f_Path := "echo/service.proto"; f_Deprecated := false; f_GoPackageName := "echopb";
  f_Services := [service_Echo methods]; f_Messages := [message_Msg] |}.

(** protogen's names: those of the file's own package are not qualified. *)
Definition sample_qualify (i : pIdent) : string :=
  if bool_decide (id_ImportPath i = "github.com/joyparty/nodehub/proto/nh") then "nh." +:+ id_GoName i
  else if bool_decide (id_ImportPath i = "google.golang.org/protobuf/proto") then "proto." +:+ id_GoName i
  else id_GoName i.

(** The text of example/echo/proto/echopb/service_nodehub.pb.go, before it is formatted
    and the imports are added. *)
Example echo_generated :
  generateFile sample_qualify true (file_echo [method_Send]) = Some [
    "// Code generated by protoc-gen-go-nodehub. DO NOT EDIT.";
    "// source: echo/service.proto"; ""; "package echopb"; ""; "";
    "func init() {";
    "nh.RegisterReplyType(2,1, &Msg{})";
    "}"; "";
    "// Echo_MethodReplyCodes 每个grpc方法返回值对应的nodehub.Reply.code";
    "var Echo_MethodReplyCodes = map[string]int32{";
    tab +:+ quoted "/echo.Echo/Send" +:+ ": 1,";
    "}"].
Proof. vm_compute. reflexivity. Qed.

#[local] Instance echo_text : ProtoMessage bool := {|
  proto_Marshal (m : bool) := Ok [if m then Byte.x61 else Byte.x62];
  proto_Unmarshal b :=
    if decide (b = [Byte.x61]) then Ok true
    else if decide (b = [Byte.x62]) then Ok false
    else Err (EForeign "proto");
|}.
#[local] Instance echo_textLaws : ProtoLaws bool.
Proof. split. intros m b. simpl. destruct m; intros [= <-]; done. Qed.

Definition echo_service (methods : list pMethod) : gService :=
  {| gs_Service := service_Echo methods; gs_Code := 2; gs_Methods := omap parse_method methods |}.

Lemma generated_reply_roundtrip_witness :
  exists reply,
    PackReply [code_table (echo_service [method_Send])] "/echo.Echo/Send" (fun _ => Ok true)
      = Ok (Packed reply) /\
    UnpackReply (fun _ : pIdent => proto_Unmarshal (A := bool)) (client_types (file_echo [method_Send]))
      (SetServiceCode (SetRequestId reply 5) 2) = Some (Ok true).
Proof.
  destruct (generated_reply_roundtrip (M := bool) (fun _ : pIdent => proto_Unmarshal (A := bool)) (fun m => m)
    (file_echo [method_Send]) (echo_service [method_Send])
    {| gm_Method := method_Send; gm_ReplyCode := 1 |} (fun _ => Ok true) true [Byte.x61] 5)
    as (reply & H1 & _ & H2).
  - left.
  - left.
  - apply NoDup_singleton.
  - intros t Ht. apply list_elem_of_singleton in Ht. by injection Ht.
  - reflexivity.
  - intros b. by destruct (proto_Unmarshal b).
  - reflexivity.
  - reflexivity.
  - exists reply. split; [exact H1|exact H2].
Defined.

(** The condition on the name matters: the table has the Go name of a method, gRPC uses
    the name in the file, so that the result of a method named in lower case is not
    packed. *)
Theorem lower_case_unpacked :
  PackReply [code_table (echo_service [method_say_hello])]
    (full_method (service_Echo [method_say_hello]) method_say_hello) (fun _ => Ok true)
    = Ok (Unpacked true).
Proof. vm_compute. reflexivity. Qed.
