(* ===== verification/Node.v ===== *)
(** * Node: [node.go], [node_service.go], [component/gateway/metrics/server.go]

    The life of a node: its components are started, its entry is put into the registry,
    and at the end it is announced as down, the components are stopped and the registry
    is closed. The optional methods of a component are found at run time; the gRPC
    server of [component/rpc] is the one of [Rpc], any other component tells which
    methods it has and what they return. *)

From S2P Require Import Prelude External Entry PathLib Samples Balancer Resolver StateTable Messages Registry Gateway Request Rpc Options.

Local Open Scope go_scope.
Local Open Scope Z_scope.

(** The names of the generated service descriptions. *)
Definition NodeServiceName : string := "nodehub.Node".
Definition GatewayServiceName : string := "nodehub.Gateway".

Section Node.
Context `{U : ULID} `{R : MapRange} `{N : Net} `{X : XXHash} `{G : GRPCDial} `{J : !EntryJSON}.
Context `{LI : Listening}.

(** A component: [BeforeStart] is [None] if it has no such method. *)
Record plain := {
  p_Name : string;
  p_RegisterService : bool;
  p_BeforeStart : option (option gerror);
  p_Start : option gerror;
  p_AfterStart : bool;
  p_BeforeStop : bool;
  p_AfterStop : bool;
  p_CompleteNodeEntry : option (NodeEntry -> NodeEntry);
}.

Inductive Component := GRPC_Server (gs : GRPCServer) | Plain (p : plain).

Definition Comp_Name (c : Component) : string :=
  match c with GRPC_Server _ => "grpc"%string | Plain p => p_Name p end.
Definition RegistersServices (c : Component) : bool :=
  match c with GRPC_Server _ => true | Plain p => p_RegisterService p end.
Definition BeforeStart (c : Component) : option (option gerror) :=
  match c with GRPC_Server _ => None | Plain p => p_BeforeStart p end.
Definition Comp_Start (c : Component) : outcome (option gerror * Component) :=
  match c with
  | GRPC_Server gs => let! (err, gs) := Start gs in Ret (err, GRPC_Server gs)
  | Plain p => Ret (p_Start p, c)
  end.
Definition AfterStart (c : Component) : bool :=
  match c with GRPC_Server _ => false | Plain p => p_AfterStart p end.
Definition BeforeStop (c : Component) : bool :=
  match c with GRPC_Server _ => false | Plain p => p_BeforeStop p end.
Definition AfterStop (c : Component) : bool :=
  match c with GRPC_Server _ => false | Plain p => p_AfterStop p end.
Definition complete (e : NodeEntry) (c : Component) : NodeEntry :=
  match c with
  | GRPC_Server gs => CompleteNodeEntry gs e
  | Plain p => match p_CompleteNodeEntry p with Some f => f e | None => e end
  end.

(** What is done to the components, by index, and to the registry. *)
Inductive action :=
  | DoRegisterNodeService (i : nat)
  | DoBeforeStart (i : nat) | DoStart (i : nat) | DoAfterStart (i : nat)
  | DoBeforeStop (i : nat) | DoStop (i : nat) | DoAfterStop (i : nat)
  | DoPut (put : etcd_put)
  | DoCloseRegistry.

Record Node := {
  n_entry : NodeEntry;
  n_registry : Registry;
  n_components : list Component;
  n_done : bool;
}.

Definition set_State (e : NodeEntry) (state : string) : NodeEntry := {|
  ID := ID e; Name := Name e; State := state; Entrance := Entrance e; Metrics := Metrics e;
  GRPC := GRPC e; GitVersion := GitVersion e |}.
Definition set_n_entry (n : Node) x := {|
  n_entry := x; n_registry := n_registry n; n_components := n_components n; n_done := n_done n |}.
Definition set_n_registry (n : Node) x := {|
  n_entry := n_entry n; n_registry := x; n_components := n_components n; n_done := n_done n |}.

(** ** Construction *)

Definition NodeOption : Type := NodeEntry -> NodeEntry.
Definition WithGitVersion (version : string) : NodeOption := fun e => {|
  ID := ID e; Name := Name e; State := State e; Entrance := Entrance e; Metrics := Metrics e;
  GRPC := GRPC e; GitVersion := version |}.
Definition WithState (state : string) : NodeOption := fun e => set_State e state.

(** [NewNode]; [id] is the ULID made. *)
Definition NewNode (id : ulid) (name : string) (registry : Registry) (option : list NodeOption)
  : Node := {|
  n_entry := foldl (fun e opt => opt e)
    {| ID := id; Name := name; State := NodeOK; Entrance := ""; Metrics := "";
       GRPC := {| Endpoint := ""; Services := [] |}; GitVersion := "" |} option;
  n_registry := registry; n_components := []; n_done := false |}.

Definition AddComponent (n : Node) (c : list Component) : Node := {|
  n_entry := n_entry n; n_registry := n_registry n; n_components := n_components n ++ c;
  n_done := n_done n |}.

(** ** The entry and the state *)

(** [Entry]: a copy, completed by the components in turn. *)
Definition Entry (n : Node) : NodeEntry := foldl complete (n_entry n) (n_components n).

(** What etcd answers to a [Put] of the registry. *)
Record etcd_answers := { a_grant : result Z; a_keepalive : option gerror; a_put : option gerror }.

Definition registry_Put (n : Node) (a : etcd_answers) : option gerror * Node * option etcd_put :=
  let '(err, r, w) := Put (n_registry n) (Entry n) (a_grant a) (a_keepalive a) (a_put a) in
  (err, set_n_registry n r, w).

(** [ChangeState]: the state is set back if the entry cannot be put. *)
Definition ChangeState (n : Node) (state : string) (a : etcd_answers)
  : option gerror * Node * option etcd_put :=
  if bool_decide (State (n_entry n) = state) then (None, n, None)
  else
    let old := State (n_entry n) in
    let n := set_n_entry n (set_State (n_entry n) state) in
    let '(err, n, w) := registry_Put n a in
    match err with
    | Some err => (Some err, set_n_entry n (set_State (n_entry n) old), w)
    | None => (None, n, w)
    end.

Definition Shutdown (n : Node) : Node := {|
  n_entry := n_entry n; n_registry := n_registry n; n_components := n_components n;
  n_done := true |}.

(** ** [nodeService] *)

Definition svc_ChangeState (n : Node) (state : string) (a : etcd_answers)
  : option gerror * Node * option etcd_put :=
  if bool_decide (state = ""%string)
  then (Some (StatusErrorf codes_InvalidArgument "state is empty" []), n, None)
  else ChangeState n state a.

Definition svc_Shutdown (n : Node) : Node := Shutdown n.

(** ** Start and stop *)

(** The first loop of [startAll]: the node service goes to the first component that
    takes services; an error is ignored. *)
Fixpoint register_node_service (i : nat) (cs : list Component)
  : outcome (list action * list Component) :=
  match cs with
  | [] => Ret ([], [])
  | c :: cs =>
      if RegistersServices c then
        let! c := match c with
                  | GRPC_Server gs =>
                      let! (_, gs) := RegisterService gs NodeServiceCode NodeServiceName [] in
                      Ret (GRPC_Server gs)
                  | Plain _ => Ret c
                  end in
        Ret ([DoRegisterNodeService i], c :: cs)
      else
        let! (acts, cs) := register_node_service (S i) cs in
        Ret (acts, c :: cs)
  end.

(** The second loop: what is done, the error that ends it, and the components. *)
Fixpoint start_components (i : nat) (cs : list Component)
  : outcome (list action * option gerror * list Component) :=
  match cs with
  | [] => Ret ([], None, [])
  | c :: cs =>
      let before := match BeforeStart c with Some _ => [DoBeforeStart i] | None => [] end in
      match BeforeStart c with
      | Some (Some err) =>
          Ret (before, Some (Errorf "before start %s, %w" [AStr (Comp_Name c)] (Some err)), c :: cs)
      | _ =>
          let! (err, c) := Comp_Start c in
          match err with
          | Some err =>
              Ret ((before ++ [DoStart i])%list,
                   Some (Errorf "start %s, %w" [AStr (Comp_Name c)] (Some err)), c :: cs)
          | None =>
              let after := if AfterStart c then [DoAfterStart i] else [] in
              let! (acts_err, cs) := start_components (S i) cs in
              let '(acts, err) := acts_err : list action * option gerror in
              Ret ((before ++ [DoStart i] ++ after ++ acts)%list, err, c :: cs)
          end
      end
  end.

Definition set_components (n : Node) x := {|
  n_entry := n_entry n; n_registry := n_registry n; n_components := x; n_done := n_done n |}.

Definition startAll (n : Node) : outcome (list action * option gerror * Node) :=
  let! (acts, cs) := register_node_service 0 (n_components n) in
  let! (acts_err, cs) := start_components 0 cs in
  let '(acts', err) := acts_err : list action * option gerror in
  Ret ((acts ++ acts')%list, err, set_components n cs).

(** [stopAll]: a goroutine per component. [schedule] tells which goroutine acts next;
    what is left when it ends had not happened when the time was up. *)
Definition stop_actions (i : nat) (c : Component) : list action :=
  (if BeforeStop c then [DoBeforeStop i] else []) ++ [DoStop i]
  ++ (if AfterStop c then [DoAfterStop i] else []).

Fixpoint run_stops (pending : list (list action)) (schedule : list nat) : list action :=
  match schedule with
  | [] => []
  | i :: schedule =>
      match pending !! i with
      | Some (a :: acts) => a :: run_stops (<[i := acts]> pending) schedule
      | _ => run_stops pending schedule
      end
  end.

Definition stopAll (n : Node) (schedule : list nat) : list action :=
  run_stops (imap stop_actions (n_components n)) schedule.

Definition put_action (w : option etcd_put) : list action :=
  match w with Some p => [DoPut p] | None => [] end.

(** [Serve] until its end: the error, the node, and all that was done. An error of the
    announcement at the end is only logged. *)
Definition Serve (n : Node) (a1 a2 : etcd_answers) (schedule : list nat)
  : outcome (option gerror * Node * list action) :=
  let! (acts_err, n) := startAll n in
  let '(acts, err) := acts_err : list action * option gerror in
  match err with
  | Some err => Ret (Some (Errorf "start all server, %w" [] (Some err)), n, acts)
  | None =>
      let '(err, n, w) := registry_Put n a1 in
      let acts := (acts ++ put_action w)%list in
      match err with
      | Some err => Ret (Some (Errorf "register node, %w" [] (Some err)), n, acts)
      | None =>
          let '(_, n, w) := ChangeState n NodeDown a2 in
          Ret (None, set_n_registry n (Registry.Close (n_registry n)).1,
               (acts ++ put_action w ++ stopAll n schedule ++ [DoCloseRegistry])%list)
      end
  end.

(** ** The gateway node *)

(** A transport: what it adds to an entry, and what [Serve] returns. *)
Record Transporter := {
  T_CompleteNodeEntry : NodeEntry -> NodeEntry;
  T_Serve : option gerror;
}.

(** The gateway as a component: its [Start] fails if the transport does. *)
Definition proxy_component (t : Transporter) : Component := Plain {|
  p_Name := "proxy"; p_RegisterService := false; p_BeforeStart := None;
  p_Start := match T_Serve t with
             | Some err => Some (Errorf "start transporter, %w" [] (Some err))
             | None => None
             end;
  p_AfterStart := false; p_BeforeStop := false; p_AfterStop := false;
  p_CompleteNodeEntry := Some (T_CompleteNodeEntry t) |}.

Definition metrics_component (addr : string) : Component := Plain {|
  p_Name := "metrics"; p_RegisterService := false; p_BeforeStart := None; p_Start := None;
  p_AfterStart := false; p_BeforeStop := false; p_AfterStop := false;
  p_CompleteNodeEntry := Some (fun e => {|
    ID := ID e; Name := Name e; State := State e; Entrance := Entrance e;
    Metrics := "http://" ++ addr ++ "/metrics"; GRPC := GRPC e; GitVersion := GitVersion e |}) |}.

Context {Initializer Bus Subscriber Logger GoPool : Type}.
Context {ReqInterceptor ConnInterceptor DiscInterceptor : Type}.
Variable defaultRequestInterceptor : ReqInterceptor.
Variable defaultConnectInterceptor : ConnInterceptor.
Variable defaultDisconnectInterceptor : DiscInterceptor.
Variable session_memory : sess_ptr -> SessionObj.

Record GatewayConfig := {
  gc_NodeOptions : list NodeOption;
  gc_Options : list (@GatewayOption Transporter Initializer Registry Bus Subscriber Logger GoPool
                       ReqInterceptor ConnInterceptor DiscInterceptor);
  gc_GRPCListen : string;
  gc_GRPCEndpoint : string;
  gc_GRPCListener : option Listener;
  gc_MetricsListen : string;
}.

(** [NewGatewayNode]; a transport is there once the gateway could be built. *)
Definition NewGatewayNode (id : ulid) (registry : Registry) (config : GatewayConfig)
  : outcome (Node * Gateway) :=
  let node := NewNode id "gateway" registry (gc_NodeOptions config) in
  let options := (gc_Options config ++ [WithRegistry (Some registry)])%list in
  match NewProxy defaultRequestInterceptor defaultConnectInterceptor
          defaultDisconnectInterceptor session_memory (ID (n_entry node)) options with
  | Err _ => Panic
  | Ok (proxy, opts) =>
      match o_Transporter opts with
      | None => Panic
      | Some transporter =>
          let node := AddComponent node [proxy_component transporter] in
          let gs := match gc_GRPCListener config with
                    | None => NewGRPCServer (gc_GRPCListen config)
                    | Some l => BindGRPCServer l
                    end in
          let gs := if bool_decide (gc_GRPCEndpoint config = ""%string) then gs
                    else SetEndpoint gs (gc_GRPCEndpoint config) in
          let! (_, gs) := RegisterService gs GatewayServiceCode GatewayServiceName [] in
          let node := AddComponent node [GRPC_Server gs] in
          let addr := gc_MetricsListen config in
          let node := if bool_decide (addr = ""%string) then node
                      else AddComponent node [metrics_component addr] in
          Ret (node, proxy)
      end
  end.
End Node.

(** ** Lemmas *)
Section Lemmas.
Context `{L : ULIDLaws} `{R : MapRange} `{N : Net} `{X : XXHash} `{G : GRPCDial} `{J : !EntryJSON}.
Context `{LI : Listening}.

(** What [Put] writes: the entry as JSON, under the key of its ID. *)
Lemma Put_written r e gr ka pu err r' w :
  Put r e gr ka pu = (err, r', w) ->
  keyPrefix r' = keyPrefix r /\
  match w with
  | Some (k, v, _) => Validate e = Ok () /\ json_Marshal e = Ok v /\
      k = entry_key (keyPrefix r) (ID e) /\ err = pu
  | None => err <> None
  end.
Proof.
  unfold Put. destruct (Validate e) as [[]|]; [|by intros [= <- <- <-]].
  destruct (json_Marshal e) as [v|]; [|by intros [= <- <- <-]].
  unfold initLease. destruct (negb _); [by intros [= <- <- <-]|].
  destruct gr as [id|]; [|by intros [= <- <- <-]].
  destruct ka; by intros [= <- <- <-].
Qed.

Lemma registry_Put_spec n a err n' w :
  registry_Put n a = (err, n', w) ->
  n_entry n' = n_entry n /\ n_components n' = n_components n /\
  keyPrefix (n_registry n') = keyPrefix (n_registry n) /\
  match w with
  | Some (k, v, _) => Validate (Entry n) = Ok () /\ json_Marshal (Entry n) = Ok v /\
      k = entry_key (keyPrefix (n_registry n)) (ID (Entry n)) /\ err = a_put a
  | None => err <> None
  end.
Proof.
  unfold registry_Put. destruct (Put _ _ _ _ _) as [[e r] w'] eqn:Hp. intros [= <- <- <-].
  apply Put_written in Hp as [Hk Hw]. split_and!; done.
Qed.

Lemma set_State_back e s : set_State (set_State e s) (State e) = e.
Proof. by destruct e. Qed.

Lemma ChangeState_components n state a err n' w :
  ChangeState n state a = (err, n', w) -> n_components n' = n_components n.
Proof.
  unfold ChangeState. case_bool_decide; [by intros [= <- <- <-]|].
  destruct (registry_Put _ a) as [[e n2] w2] eqn:Hp.
  destruct (registry_Put_spec _ _ _ _ _ Hp) as (_ & Hc & _). by destruct e; intros [= <- <- <-].
Qed.

(** A change of state writes the entry if it is valid and there is a lease. *)
Lemma ChangeState_put n state a err n' w v :
  ChangeState n state a = (err, n', w) -> State (n_entry n) <> state ->
  Validate (Entry (set_n_entry n (set_State (n_entry n) state))) = Ok () ->
  json_Marshal (Entry (set_n_entry n (set_State (n_entry n) state))) = Ok v ->
  leaseID (n_registry n') <> NoLease ->
  exists l, w = Some (entry_key (keyPrefix (n_registry n))
                        (ID (Entry (set_n_entry n (set_State (n_entry n) state)))), v, l).
Proof.
  intros Hch Hs Hval Hmar Hl. unfold ChangeState in Hch. rewrite bool_decide_false in Hch by done.
  unfold registry_Put, Put in Hch. rewrite Hval, Hmar in Hch. unfold initLease in Hch. simpl in Hch.
  destruct (leaseID (n_registry n) =? NoLease) eqn:E; simpl in Hch.
  - apply Z.eqb_eq in E. destruct (a_grant a) as [id|]; [|injection Hch as <- <- <-; by destruct Hl].
    destruct (a_keepalive a); [injection Hch as <- <- <-; by destruct Hl|].
    destruct (a_put a); injection Hch as <- <- <-; eauto.
  - destruct (a_put a); injection Hch as <- <- <-; eauto.
Qed.

(** A change of state that succeeds and writes an entry. *)
Lemma ChangeState_written n state a n' k v l :
  ChangeState n state a = (None, n', Some (k, v, l)) ->
  n_entry n' = set_State (n_entry n) state /\ n_components n' = n_components n /\
  json_Marshal (Entry n') = Ok v.
Proof.
  unfold ChangeState. case_bool_decide; [done|].
  destruct (registry_Put _ a) as [[e n2] w2] eqn:Hp.
  destruct (registry_Put_spec _ _ _ _ _ Hp) as (He & Hc & _ & Hw).
  destruct e; [done|]. intros [= <- ->]. destruct Hw as (_ & Hv & _).
  split; [done|]. split; [done|]. rewrite <- Hv. f_equal. unfold Entry. by rewrite He, Hc.
Qed.

(** Completion by components that keep the state and the ID. *)
Definition keeps_identity (c : Component) : Prop :=
  forall e, State (complete e c) = State e /\ ID (complete e c) = ID e.

Lemma Entry_keeps n :
  Forall keeps_identity (n_components n) ->
  State (Entry n) = State (n_entry n) /\ ID (Entry n) = ID (n_entry n).
Proof.
  unfold Entry. intros Hk. generalize (n_entry n).
  induction Hk as [|c cs Hc Hcs IH]; intros e; [done|]. simpl.
  destruct (IH (complete e c)) as [-> ->]. apply Hc.
Qed.

(** *** Starting *)

Definition is_start (a : action) : bool := match a with DoStart _ => true | _ => false end.

Lemma Start_services gs err gs' : Start gs = Ret (err, gs') -> gs_services gs' = gs_services gs.
Proof.
  unfold Start. intros H.
  assert (forall l, (let! addr := addrFromListener l in
    let gs := {| gs_listen := addr; gs_endpoint := gs_endpoint gs; gs_listener := Some l;
                 gs_services := gs_services gs; gs_registered := gs_registered gs |} in
    if bool_decide (gs_endpoint gs = ""%string) && bool_decide (l_Network l = "tcp"%string)
       && match addrport_unspecified addr with Some b => b | None => false end
    then Ret (Some (ErrorsNew "listen ip is unspecified"), gs)
    else Ret (None, gs)) = Ret (err, gs') -> gs_services gs' = gs_services gs) as Hb.
  { intros l (addr & _ & Hr)%outcome_bind_Ret. simpl in Hr.
    destruct (_ && _); by injection Hr as <- <-. }
  destruct (gs_listener gs) as [l|]; [by eapply Hb|].
  destruct (newListener _) as [l|]; [by eapply Hb|]. by injection H as <- <-.
Qed.

(** A component before and after its start. *)
Definition started (c c' : Component) : Prop := Comp_Start c = Ret (None, c').

Lemma start_components_ok cs i acts cs' :
  start_components i cs = Ret (acts, None, cs') ->
  Forall2 started cs cs' /\
  filter (fun a => is_start a = true) acts = DoStart <$> seq i (length cs).
Proof.
  revert i acts cs'. induction cs as [|c cs IH]; intros i acts cs'; simpl; [by intros [= <- <-]|].
  set (before := match BeforeStart c with Some _ => [DoBeforeStart i] | None => [] end).
  assert (filter (fun a => is_start a = true) before = []) as Hb.
  { subst before. by destruct (BeforeStart c). }
  clearbody before. intros H. destruct (BeforeStart c) as [[err|]|]; [done| |];
    (apply outcome_bind_Ret in H as ([err c1] & Hc & H); destruct err; [done|];
     apply outcome_bind_Ret in H as ([[acts1 err1] cs1] & Hr & H); injection H as <- -> <-;
     apply IH in Hr as [HF Hs]; split; [by constructor|];
     rewrite filter_app, Hb, app_nil_l, filter_cons_True, filter_app, Hs by done;
     by destruct (AfterStart c1)).
Qed.

Lemma register_node_service_length cs i acts cs' :
  register_node_service i cs = Ret (acts, cs') ->
  length cs' = length cs /\ filter (fun a => is_start a = true) acts = [].
Proof.
  revert i acts cs'. induction cs as [|c cs IH]; intros i acts cs'; simpl; [by intros [= <- <-]|].
  destruct (RegistersServices c).
  - intros (c' & _ & [= <- <-])%outcome_bind_Ret. done.
  - intros ([acts1 cs1] & Hr & [= <- <-])%outcome_bind_Ret. simpl.
    by destruct (IH _ _ _ Hr) as [-> ->].
Qed.

Lemma startAll_ok n acts n' :
  startAll n = Ret (acts, None, n') ->
  n_entry n' = n_entry n /\ n_registry n' = n_registry n /\
  filter (fun a => is_start a = true) acts = DoStart <$> seq 0 (length (n_components n)) /\
  exists acts1 cs, register_node_service 0 (n_components n) = Ret (acts1, cs) /\
    Forall2 started cs (n_components n').
Proof.
  unfold startAll. intros ([acts1 cs] & Hreg & H)%outcome_bind_Ret.
  apply outcome_bind_Ret in H as ([[acts2 err] cs2] & Hst & [= <- -> <-]).
  destruct (register_node_service_length _ _ _ _ Hreg) as [Hlen Ha].
  apply start_components_ok in Hst as [HF Hs]. split; [done|]. split; [done|].
  split; [|eauto]. by rewrite filter_app, Ha, Hs, Hlen.
Qed.

(** Where the node service goes. *)
Lemma register_node_service_first cs i acts cs' k gs :
  register_node_service i cs = Ret (acts, cs') -> cs !! k = Some (GRPC_Server gs) ->
  (forall j c, (j < k)%nat -> cs !! j = Some c -> RegistersServices c = false) ->
  acts = [DoRegisterNodeService (i + k)] /\
  exists err gs', RegisterService gs NodeServiceCode NodeServiceName [] = Ret (err, gs') /\
    cs' = <[k := GRPC_Server gs']> cs.
Proof.
  revert i acts cs' k. induction cs as [|c cs IH]; intros i acts cs' k; simpl; [done|].
  intros Hr Hk Hj. destruct k as [|k]; simpl in Hk.
  - injection Hk as ->. simpl in Hr. apply outcome_bind_Ret in Hr as (c' & Hc & [= <- <-]).
    apply outcome_bind_Ret in Hc as ([err gs'] & Hg & [= <-]). rewrite Nat.add_0_r. eauto 6.
  - rewrite (Hj 0%nat c) in Hr by (done || lia).
    apply outcome_bind_Ret in Hr as ([acts1 cs1] & Hr & [= <- <-]).
    destruct (IH _ _ _ _ Hr Hk) as (-> & err & gs' & Hg & ->).
    { intros j c' Hlt. apply (Hj (S j)). lia. }
    replace (i + S k)%nat with (S i + k)%nat by lia. eauto 6.
Qed.

Lemma complete_keeps_GRPC cs e :
  Forall (fun c => forall e, GRPC (complete e c) = GRPC e) cs -> GRPC (foldl complete e cs) = GRPC e.
Proof. intros H. revert e. induction H as [|c cs Hc _ IH]; intros e; simpl; [done|]. by rewrite IH. Qed.

(** *** Stopping *)

(** The component an action is done to. *)
Definition stops (i : nat) (a : action) : bool :=
  match a with
  | DoBeforeStop j | DoStop j | DoAfterStop j => (i =? j)%nat
  | _ => false
  end.

Definition own (i : nat) (acts : list action) : Prop := Forall (fun a => stops i a = true) acts.

Lemma run_stops_prefix pending schedule i acts :
  (forall j acts, pending !! j = Some acts -> own j acts) -> pending !! i = Some acts ->
  filter (fun a => stops i a = true) (run_stops pending schedule) `prefix_of` acts.
Proof.
  revert pending acts. induction schedule as [|j schedule IH]; intros pending acts Ho Hi.
  { apply prefix_nil. }
  simpl. destruct (pending !! j) as [[|a rest]|] eqn:Hj; [by apply IH| |by apply IH].
  assert (own j (a :: rest)) as Hown by (by eapply Ho).
  apply Forall_cons in Hown as [Ha Hrest].
  assert (forall k acts, <[j:=rest]> pending !! k = Some acts -> own k acts) as Ho'.
  { intros k acts'. destruct (decide (k = j)) as [->|Hne].
    - rewrite list_lookup_insert_eq by (by eapply lookup_lt_Some). by intros [= <-].
    - rewrite list_lookup_insert_ne by done. apply Ho. }
  rewrite filter_cons. destruct (decide (i = j)) as [->|Hne].
  - rewrite Hi in Hj. injection Hj as ->. rewrite decide_True by done. apply prefix_cons.
    apply IH; [done|]. apply list_lookup_insert_eq. by eapply lookup_lt_Some.
  - rewrite decide_False.
    + apply IH; [done|]. by rewrite list_lookup_insert_ne.
    + intros Hia. destruct a; simpl in *; try done; apply Nat.eqb_eq in Ha, Hia; congruence.
Qed.

Lemma stop_actions_own i c : own i (stop_actions i c).
Proof.
  unfold own, stop_actions.
  destruct (BeforeStop c), (AfterStop c); simpl; repeat constructor; apply Nat.eqb_refl.
Qed.
End Lemmas.

(** ** The claims *)
Section Claims.
Context `{L : ULIDLaws} `{R : MapRange} `{N : Net} `{X : XXHash} `{G : GRPCDial} `{J : !EntryJSON}.
Context `{LI : Listening}.
Context (registered : gmap string BalancerFactory) `{B : !BalancerSpec registered}.
Variable codes : ulid -> list Z.

(** C37. A change of state is all or nothing: a node that already has the state does
    nothing; otherwise either the change succeeds, and then the entry that was written,
    under the key of the node, is the completed entry with the new state, or it fails
    and the node's entry is what it was. *)
Theorem ChangeState_atomic n state a err n' w :
  ChangeState n state a = (err, n', w) ->
  n_components n' = n_components n /\
  match err with
  | Some _ => n_entry n' = n_entry n /\ State (n_entry n) <> state
  | None =>
      n_entry n' = set_State (n_entry n) state /\
      match w with
      | None => State (n_entry n) = state /\ n' = n
      | Some (k, v, _) =>
          State (n_entry n) <> state /\ a_put a = None /\ Validate (Entry n') = Ok () /\
          json_Marshal (Entry n') = Ok v /\
          k = entry_key (keyPrefix (n_registry n)) (ID (Entry n'))
      end
  end.
Proof.
  unfold ChangeState. case_bool_decide as Hs.
  { intros [= <- <- <-]. split_and!; try done. rewrite <- Hs. by destruct (n_entry n). }
  set (n1 := set_n_entry n (set_State (n_entry n) state)).
  destruct (registry_Put n1 a) as [[e n2] w2] eqn:Hp.
  destruct (registry_Put_spec _ _ _ _ _ Hp) as (He & Hc & Hk & Hw).
  destruct e as [e|]; intros [= <- <- <-]; simpl.
  - split_and!; try done. rewrite He. simpl. apply set_State_back.
  - split_and!; try done. destruct w2 as [[[k v] l]|]; [|done].
    assert (Entry n2 = Entry n1) as ->. { unfold Entry. by rewrite He, Hc. }
    destruct Hw as (H1 & H2 & H3 & H4). by split_and!.
Qed.

(** C38. A node that serves until its end has started all its components in order, and
    only then puts its entry, as they complete it, into the registry; it is announced as
    down before any component begins to stop; every component goes through its own steps
    in order as far as the time allows, in any interleaving with the others; and the
    registry is closed last. *)
Theorem Serve_order n a1 a2 schedule n' acts :
  Serve n a1 a2 schedule = Ret (None, n', acts) ->
  exists start n1 p1 p2 st, startAll n = Ret (start, None, n1) /\
    acts = (start ++ [DoPut p1] ++ p2 ++ st ++ [DoCloseRegistry])%list /\
    filter (fun a => is_start a = true) start = DoStart <$> seq 0 (length (n_components n)) /\
    json_Marshal (Entry n1) = Ok p1.1.2 /\
    (forall v, State (n_entry n1) <> NodeDown ->
       Validate (Entry (set_n_entry n1 (set_State (n_entry n1) NodeDown))) = Ok () ->
       json_Marshal (Entry (set_n_entry n1 (set_State (n_entry n1) NodeDown))) = Ok v ->
       leaseID (n_registry n') <> NoLease ->
       exists l, p2 = [DoPut (entry_key (keyPrefix (n_registry n1))
                     (ID (Entry (set_n_entry n1 (set_State (n_entry n1) NodeDown)))), v, l)]) /\
    (forall i c, n_components n1 !! i = Some c ->
       filter (fun a => stops i a = true) st `prefix_of` stop_actions i c).
Proof.
  unfold Serve. intros ([[start err] n1] & Hst & H)%outcome_bind_Ret. destruct err; [done|].
  destruct (registry_Put n1 a1) as [[e1 n2] w1] eqn:Hp1.
  destruct (registry_Put_spec _ _ _ _ _ Hp1) as (He & Hc & Hk & Hw).
  destruct e1; [done|]. destruct w1 as [[[k1 v1] l1]|]; [|done].
  destruct Hw as (_ & Hv1 & _ & _).
  destruct (ChangeState n2 NodeDown a2) as [[e2 n3] w2] eqn:Hch. injection H as <- <-.
  exists start, n1, (k1, v1, l1), (put_action w2), (stopAll n3 schedule). split; [done|].
  split; [by rewrite <- !app_assoc|]. split; [by apply startAll_ok in Hst as (_ & _ & ? & _)|].
  split; [done|]. split.
  - intros v Hs Hval Hmar Hl. rewrite <- Hk.
    assert (Entry (set_n_entry n1 (set_State (n_entry n1) NodeDown))
            = Entry (set_n_entry n2 (set_State (n_entry n2) NodeDown))) as EE
      by (unfold Entry; simpl; by rewrite He, Hc).
    rewrite EE in *. destruct (ChangeState_put n2 NodeDown a2 _ _ _ v Hch) as [l ->]; try done.
    + by rewrite He.
    + by exists l.
  - intros i c Hi. unfold stopAll.
    rewrite (ChangeState_components _ _ _ _ _ _ Hch), Hc. apply run_stops_prefix.
    + intros j acts. rewrite list_lookup_imap. destruct (n_components n1 !! j); [|done].
      intros [= <-]. apply stop_actions_own.
    + by rewrite list_lookup_imap, Hi.
Qed.

(** Every node can be managed: if the first component that takes services is a gRPC
    server on which the code of the node service is free, and no later component
    overwrites the gRPC part of the entry, then the entry of the started node lists the
    node service, not public, next to the services registered before. *)
Theorem node_service_listed n acts n1 k gs :
  startAll n = Ret (acts, None, n1) -> n_components n !! k = Some (GRPC_Server gs) ->
  (forall j c, (j < k)%nat -> n_components n !! j = Some c -> RegistersServices c = false) ->
  gs_services gs !! NodeServiceCode = None ->
  Forall (fun c => forall e, GRPC (complete e c) = GRPC e) (drop (S k) (n_components n1)) ->
  Services (GRPC (Entry n1)) ≡ₚ
    described NodeServiceCode NodeServiceName [] :: range_values (gs_services gs) /\
  Public (described NodeServiceCode NodeServiceName []) = false.
Proof.
  intros Hst Hk Hj Hfree Hlater. split; [|done].
  apply startAll_ok in Hst as (_ & _ & _ & acts1 & cs & Hreg & HF).
  destruct (register_node_service_first _ _ _ _ _ _ Hreg Hk Hj) as (_ & err & gs' & Hg & ->).
  unfold RegisterService in Hg. simpl in Hg. rewrite Hfree in Hg.
  case_bool_decide; [done|]. injection Hg as <- <-.
  set (gs' := {| gs_listen := _ |}) in HF.
  assert (<[k := GRPC_Server gs']> (n_components n) !! k = Some (GRPC_Server gs')) as Hk'.
  { apply list_lookup_insert_eq. by eapply lookup_lt_Some. }
  destruct (Forall2_lookup_l _ _ _ _ _ HF Hk') as (c1 & Hc1 & Hstart).
  unfold started in Hstart. simpl in Hstart.
  apply outcome_bind_Ret in Hstart as ([e2 gs2] & Hs & [= -> <-]).
  apply Start_services in Hs. unfold Entry.
  rewrite <- (take_drop_middle _ _ _ Hc1), foldl_app. simpl. rewrite complete_keeps_GRPC by done.
  simpl. rewrite Hs. by apply range_values_insert.
Qed.

(** C39. A node that announced itself as down gets no more requests from a registry the
    announcement reaches: the registry lists the node with the entry that was written,
    yields no connection to it, and hands it out for no service, neither to callers that
    want any node nor to the balancer of a public service. *)
Theorem down_node_unreachable n a n' k v l r rev :
  (forall e s, json_Marshal e = Ok s -> json_Unmarshal s = Ok e) ->
  Forall keeps_identity (n_components n) ->
  ChangeState n NodeDown a = (None, n', Some (k, v, l)) ->
  registry_ok registered codes r -> lists_codes codes (Entry n') ->
  let ev := {| ev_Type := PUT; ev_PrevKv := None;
               ev_Kv := {| kv_Key := k; kv_Value := v; kv_ModRevision := rev |} |} in
  stale r ev = false ->
  exists r', apply registered r ev = Ret r' /\
    let id := ID (n_entry n) in
    nodes r' !! id = Some (Entry n') /\ (GetGRPCConn r' id).1 = Err ErrNodeNotFoundOrDown /\
    forall c, 0 < c ->
      (forall seed, PickGRPCNode r' c seed <> Ret (Ok id)) /\
      (forall desc sess seed, GetGRPCDesc r' c = Some desc -> Public desc = true ->
         AllocGRPCNode r' c sess seed <> Ret (Ok id)).
Proof.
  intros Hjson Hcomp Hch Hok Hcodes ev Hst.
  destruct (ChangeState_written _ _ _ _ _ _ _ Hch) as (He & Hc & Hv).
  apply Hjson in Hv.
  destruct (Entry_keeps n') as [Hstate Hid]. { by rewrite Hc. }
  rewrite He in Hstate, Hid. simpl in Hstate, Hid.
  destruct (apply_put_ok registered codes r ev (Entry n') Hok Hst eq_refl Hv Hcodes)
    as (r' & Hr' & Hok' & Hn). rewrite Hid in Hn. exists r'. split; [done|]. split; [done|].
  pose proof (ro_sync _ _ _ Hok' (ID (n_entry n))) as Hs. rewrite Hn in Hs. cbn [mbind option_bind] in Hs.
  assert (forall node, allNodes (resolver r') !! ID (n_entry n) = Some node -> State node = NodeDown) as Hdown.
  { intros node. rewrite Hs. case_bool_decide; [done|]. by intros [= <-]. }
  split.
  - unfold GetGRPCConn, GetConn. destruct (allNodes _ !! _) as [node|] eqn:E; [|done].
    by rewrite bool_decide_true by (by apply Hdown).
  - intros c Hpos. destruct (resolver_inv_allocation registered codes _ c (ro_resolver _ _ _ Hok') Hpos)
      as [Hpick Halloc]. split.
    + intros seed. unfold PickGRPCNode. destruct (Hpick seed) as [[_ ->]|(id & node & Hin & Hoff & ->)]; [done|].
      intros [= ->]. apply Hdown in Hin. destruct Hoff as [Hst' _]. rewrite Hin in Hst'. done.
    + intros desc sess seed Hd Hp. intros (node & Hin & Hst' & _)%(proj2 (Halloc desc sess seed Hd Hp)).
      apply Hdown in Hin. rewrite Hin in Hst'. done.
Qed.
End Claims.

(** ** Witnesses *)

#[local] Instance sample_Listening : Listening := {|
  net_Listen network addr := Ok {| l_Network := network; l_Addr := addr |};
  filepath_Abs s := Ok ("/" ++ s)%string;
  addrport_unspecified s := Some (bool_decide (s = "0.0.0.0:9000"%string));
|}.

(** A node of two components, of which the second is the gRPC server. *)
Definition proxy_like : Component := Plain {|
  p_Name := "proxy"; p_RegisterService := false; p_BeforeStart := Some None; p_Start := None;
  p_AfterStart := true; p_BeforeStop := true; p_AfterStop := false; p_CompleteNodeEntry := None |}.
Definition sample_server : GRPCServer :=
  outcome_get (NewGRPCServer "") (register_all (NewGRPCServer "10.0.0.1:9000") sample_regs).
Definition sample_node_run : Node :=
  AddComponent (NewNode (sample_id 1) "node" (initial_registry [WithKeyPrefix sample_prefix]) [])
    [proxy_like; GRPC_Server sample_server].
Definition started_node : Node :=
  (outcome_get ([], None, sample_node_run) (startAll sample_node_run)).2.

Definition up_node : NodeEntry := Entry started_node.
Definition down_node : NodeEntry := set_State up_node NodeDown.

#[local] Instance node_EntryJSON : EntryJSON := {|
  json_Marshal e := if bool_decide (e = up_node) then Ok "up"%string
                    else if bool_decide (e = down_node) then Ok "down"%string
                    else Err (EForeign "json");
  json_Unmarshal s := if bool_decide (s = "up"%string) then Ok up_node
                      else if bool_decide (s = "down"%string) then Ok down_node
                      else Err (EForeign "json");
|}.

Lemma node_json_roundtrip e s : json_Marshal e = Ok s -> json_Unmarshal s = Ok e.
Proof. simpl. repeat case_bool_decide; intros [= <-]; subst; done. Qed.

Definition good_answers : etcd_answers :=
  {| a_grant := Ok 77; a_keepalive := None; a_put := None |}.
Definition bad_answers : etcd_answers :=
  {| a_grant := Ok 77; a_keepalive := None; a_put := Some (EForeign "etcd") |}.

Lemma surjective_pairing_3 {A B C} (x : A * B * C) : x = (x.1.1, x.1.2, x.2).
Proof. by destruct x as [[]]. Qed.

Definition changed (a : etcd_answers) := ChangeState started_node NodeDown a.

Lemma ChangeState_atomic_witness :
  (exists e, (changed bad_answers).1.1 = Some e) /\
  n_entry (changed bad_answers).1.2 = n_entry started_node /\
  n_entry (changed good_answers).1.2 = set_State (n_entry started_node) NodeDown.
Proof.
  assert ((changed bad_answers).1.1 = Some (EForeign "etcd")) as E1 by (vm_compute; reflexivity).
  assert ((changed good_answers).1.1 = None) as E2 by (vm_compute; reflexivity).
  pose proof (ChangeState_atomic started_node NodeDown bad_answers _ _ _
    (surjective_pairing_3 (changed bad_answers))) as [_ H1]. rewrite E1 in H1.
  pose proof (ChangeState_atomic started_node NodeDown good_answers _ _ _
    (surjective_pairing_3 (changed good_answers))) as [_ H2]. rewrite E2 in H2.
  split; [by eexists|]. split; [exact (proj1 H1)|exact (proj1 H2)].
Defined.

(** The schedule lets the second component stop, and the first one begin to. *)
Definition served : option gerror * Node * list action :=
  outcome_get (None, sample_node_run, []) (Serve sample_node_run good_answers good_answers [1; 0; 1]%nat).

Lemma Serve_order_witness :
  exists start p1 p2 st, served.2 = (start ++ [DoPut p1] ++ p2 ++ st ++ [DoCloseRegistry])%list /\
    filter (fun a => is_start a = true) start = [DoStart 0; DoStart 1].
Proof.
  destruct (Serve_order sample_node_run good_answers good_answers [1; 0; 1]%nat served.1.2 served.2)
    as (start & n1 & p1 & p2 & st & _ & Hacts & Hs & _).
  - vm_compute. reflexivity.
  - exists start, p1, p2, st. split; [exact Hacts|exact Hs].
Defined.

Lemma node_service_listed_witness :
  Services (GRPC up_node) ≡ₚ
    described NodeServiceCode NodeServiceName [] :: range_values (gs_services sample_server).
Proof.
  apply (node_service_listed sample_node_run
    (outcome_get ([], None, sample_node_run) (startAll sample_node_run)).1.1 started_node 1 sample_server).
  - vm_compute. reflexivity.
  - reflexivity.
  - intros [|j] c Hj; [|lia]. by intros [= <-].
  - vm_compute. reflexivity.
  - constructor.
Defined.

Definition listed_codes (_ : ulid) : list Z := Code <$> Services (GRPC up_node).

Lemma down_node_unreachable_witness :
  exists r', apply builtin (initial_registry [WithKeyPrefix sample_prefix])
    {| ev_Type := PUT; ev_PrevKv := None; ev_Kv := {|
         kv_Key := entry_key sample_prefix (sample_id 1); kv_Value := "down";
         kv_ModRevision := 12 |} |} = Ret r' /\
    (GetGRPCConn r' (sample_id 1)).1 = Err ErrNodeNotFoundOrDown.
Proof.
  destruct (down_node_unreachable builtin listed_codes started_node good_answers
    (changed good_answers).1.2 (entry_key sample_prefix (sample_id 1)) "down" 77
    (initial_registry [WithKeyPrefix sample_prefix]) 12) as (r' & H1 & H2).
  - exact node_json_roundtrip.
  - repeat constructor.
  - vm_compute. reflexivity.
  - apply (follows_initial builtin sample_prefix listed_codes []).
  - vm_compute. reflexivity.
  - reflexivity.
  - exists r'. split; [exact H1|]. exact (proj1 (proj2 H2)).
Defined.
